(* ===== verification/_CoqProject ===== *)
-Q . S2P
Prelude.v
JsMap.v
JsNum.v
Rounding.v
JsString.v
Codec.v
JsValue.v
Json.v
JsConv.v
Latin1.v
Uri.v
Wire.v
Async.v
Config.v
Protocol.v
ServerUtils.v
Build.v
BuildThms.v
Storage.v
World.v
Auth.v
Concrete.v
AuthThms.v
State.v
Game.v
HitTest.v
Bot.v
BotMath.v
Ws.v
Main.v
Scenario.v
ServerInv.v
ServerSteps.v
Isolation.v
ServerThms.v
StorageThms.v
MainThms.v
ClientUtils.v
ClientPlayer.v
ClientNet.v
Rotation.v
Scenery.v
SceneryThms.v
Inspect.v
Page.v
ClientThms.v
Avatar.v
PageThms.v
Replica.v
EndToEnd.v
