(* ===== verification/Prelude.v ===== *)
(** * SnowBrawlGame: a verification development

    SnowBrawlGame is a multiplayer snowball fight.  A Deno server (the [.ts]
    files under [src/]) keeps all players in memory, decides hits, broadcasts
    an event stream over encrypted WebSockets and serves the page; browsers run
    the client ([src/client_src/*.js]), which simulates movement locally,
    builds the scenery from the world's seed and mirrors the server's players.

    ** The program's parts and the files that model them

    Language and platform.
    - [JsNum]: JavaScript numbers as bit-exact binary64 ([SpecFloat]), their
      order, [Math.max]/[Math.min], and the 32-bit operators.  Functions the
      language leaves to the implementation are the class [JsMath].
    - [Rounding]: rounding to nearest even is monotone, and the interval
      arithmetic ([between]) by which bounds on computed numbers are evaluated.
    - [JsString], [JsValue], [JsConv]: strings as lists of UTF-16 code units,
      dynamic values with truthiness and property access, conversions.
    - [JsMap]: a JavaScript [Map] as an insertion-ordered association list,
      with its refinement to [gmap].
    - [Codec], [Json], [Latin1], [Uri]: [TextEncoder]/[TextDecoder],
      [btoa]/[atob], [JSON.stringify]/[JSON.parse], UTF-8 read as Latin-1 and
      percent-decoding, with their round trips.
    - [Async]: [async] functions as resumptions on a shared state, the event
      loop's interleaving semantics ([step], [reachable], and the executable
      [run]), a program logic for invariants ([triple], [keeps]) and one for
      relations between the ends of every atomic segment ([segs]).

    Server.
    - [Config], [Protocol]: [config.ts], [protocol.ts].
    - [ServerUtils]: validation, clamping, vectors ([utils.ts]).
    - [Wire]: the encrypted framing, server copy ([utils.ts]) and client copy
      ([client_src/utils.js]); Web Crypto is the class [SubtleCrypto].
    - [Storage]: the two SQLite tables and every statement ([storage.ts]); the
      driver is the class [SqlDriver].
    - [World]: one record for all module-level state, the sockets, and the heap
      of shared mutable objects (client objects, bots' vectors).  The class
      [Runtime] supplies [Date.now()], [Math.random()], [crypto.randomUUID()],
      the cipher and the world's seed; [ClockMono] says the clock does not go
      back.
    - [State], [Game], [HitTest], [Bot], [Ws]: [state.ts], [game.ts] and its hit
      test, [bot.ts], [ws.ts].  [Ws.server_handler] is everything the event loop
      can be asked to run, and [Ws.server_reachable] the states of the server
      under every interleaving of connections, messages, closures, timers, bot
      turns and resumptions.  [BotMath] bounds what the bots compute.
    - [Auth]: [auth.ts], tokens, cookie, OAuth and developer login; HMAC and the
      environment are the classes [Hmac] and [AuthEnv].
    - [Main]: [main.ts], every route, on the state of the game and of [Auth]
      side by side; the file system is the class [Files].
    - [Build]: [client_html.ts] and [build_prod.ts], the choice and the build of
      the page; files and the remote obfuscator are the class [BuildEnv].

    Client.
    - [ClientUtils]: [client_src/utils.js].
    - [ClientPlayer]: [player.js] and [snowball.js]; three.js is the class
      [Three].  [Rotation] has its two rotation loops, [Avatar] what is drawn
      of a player: boxes, labels, and the snowman of a bot.
    - [ClientNet]: [network.js], with player models in a heap because three
      tables share them; [client_step] is everything that can happen to it.
    - [Scenery]: [environment.js], every draw of the seeded generators in the
      code's order; the vertices and boxes three.js computes are the class
      [Geometry].
    - [Page]: [init.js], log-in, leaderboards, listeners and the frame loop on
      top of all of these; [page_step] is everything that can happen to a page.
    - [Inspect]: [scripts/inspect_kenney_collision.ts].

    ** What the theorems show

    - [ServerInv], [ServerThms]: invariants of every reachable server state
      (players alive or dead, never in between; every position, bots included,
      finite and on the map whatever clients send; the event log a gap-free
      window), the state handler on each of its branches, and schedules that lead
      the server, as written, into states it means to exclude.
    - [ServerSteps]: what no execution can undo, and that a shot is played at
      most once.
    - [Isolation]: what a client's message can do to other players.
    - [HitTest]: the sampled hit test finds the first contact and the scan the
      earliest victim.
    - [State], [ServerUtils]: rate limits, name and chat limits.
    - [StorageThms]: statistics are totals of the history; leaderboards are the
      top rows.
    - [Wire], [Json], [Codec], [ClientUtils]: a message either side sends is the
      one the other decodes; key, UUID, name repair, generator, display limits.
    - [AuthThms], [MainThms], [BuildThms]: tokens are accepted exactly when
      signed and fresh, an OAuth state is spent once, static files stay inside
      [assets/], and which page is served.
    - [ClientThms], [Rotation]: consistent tables under every sequence of
      events, snapshots tracked exactly, movement on the map, bounded
      reconnection; the rotation loops end for ordinary angles and hang for
      huge ones.
    - [SceneryThms], [Inspect]: where scenery stands for every seed; the boxes
      of the report and of the game.
    - [PageThms]: the invariant of the whole page, frames that complete, the
      snowball loop that splices the array it runs over, and that an ended
      snowball is gone after the next frame.
    - [Avatar]: what is drawn of a standing player lies in the cylinder the
      server tests, and the flash of a hit ends.
    - [Replica], [EndToEnd]: fed with the server's messages, the client's
      players are those of the server's table; both sides agree on the terrain;
      and a reconnection that leaves a duplicate of the local player.

    [Concrete] and [Scenario] instantiate the parameters (a clock advancing by
    200 ms per reading, a reversible tag in place of the cipher, componentwise
    vectors) so that witnesses and schedules evaluate.

    ** Bounds and fuel

    Times, hit points and counters are integers below 2^53 in the code, where
    binary64 is exact, so they are [Z].  The hit test iterates the code's 61
    samples; the retry loops of [bot.ts], [build_prod.ts] and
    [environment.js] have the code's own limits (50, 20, 5 and 50 attempts) as
    fuel.  The JSON parser's fuel is the length of its input, which is enough
    ([Json]).  Only the two rotation loops of [player.js] are not bounded in the
    code; they take fuel, and a frame is [None] when it runs out:
    [PageThms.frame_completes] gives fuel that suffices for angles up to 2^50,
    [PageThms.frame_hangs] shows that none does from 2^57 on.  Interleavings are
    not bounded.

    ** Not modelled

    - What three.js, the browser and the GPU compute from the program's calls:
      materials, shadows, lights, the star's extrusion and glow texture, the
      renderer's set-up, the audio graph behind the gain, model files.
    - Console output of the game, close codes of sockets, and the DOM beyond
      what the scripts set and read.
    - The endless loops and intervals of the server are their turns, fired by
      the event loop at any time; so are the browser's timers.
    - The URL parser, the cipher, HMAC, SQLite's order of ties and the remote
      endpoints are parameters with the contracts stated in their classes.
    - The database starts empty, whereas the process may open an existing
      file. *)

From stdpp Require Export base tactics list gmap.
From Stdlib Require Export ZArith Lia.

#[global] Open Scope Z_scope.

(** ** Automation *)

(** [snow] collects the lemmas that close the routine cases of the
    components: map look-ups, invariants of unchanged fields, bounds. *)
Create HintDb snow.

(** Destruct the innermost scrutinee of a [match] or [if] in the goal. *)
Ltac split_match :=
  match goal with
  | |- context [match ?x with _ => _ end] =>
      lazymatch x with
      | context [match _ with _ => _ end] => fail
      | _ => let E := fresh "E" in destruct x eqn:E
      end
  end.

(** The same in a hypothesis. *)
Ltac split_match_in H :=
  match type of H with
  | context [match ?x with _ => _ end] =>
      lazymatch x with
      | context [match _ with _ => _ end] => fail
      | _ => let E := fresh "E" in destruct x eqn:E
      end
  end.

(** Turn boolean tests on [Z] in the context into propositions. *)
Ltac zbool :=
  repeat match goal with
  | H : (_ <? _)%Z = true |- _ => apply Z.ltb_lt in H
  | H : (_ <? _)%Z = false |- _ => apply Z.ltb_ge in H
  | H : (_ <=? _)%Z = true |- _ => apply Z.leb_le in H
  | H : (_ <=? _)%Z = false |- _ => apply Z.leb_gt in H
  | H : (_ >? _)%Z = true |- _ => rewrite Z.gtb_ltb in H
  | H : (_ >? _)%Z = false |- _ => rewrite Z.gtb_ltb in H
  | H : (_ >=? _)%Z = true |- _ => rewrite Z.geb_leb in H
  | H : (_ >=? _)%Z = false |- _ => rewrite Z.geb_leb in H
  | H : (_ =? _)%Z = true |- _ => apply Z.eqb_eq in H
  | H : (_ =? _)%Z = false |- _ => apply Z.eqb_neq in H
  | H : (_ && _)%bool = true |- _ => apply andb_true_iff in H; destruct H
  | H : (_ || _)%bool = false |- _ => apply orb_false_iff in H; destruct H
  | H : negb _ = true |- _ => apply negb_true_iff in H
  | H : negb _ = false |- _ => apply negb_false_iff in H
  end.

(** Decide the integer comparisons of the goal from the hypotheses. *)
Ltac zdec :=
  repeat match goal with
  | |- context [(?a <=? ?b)%Z] =>
      first [rewrite (proj2 (Z.leb_le a b)) by lia | rewrite (proj2 (Z.leb_gt a b)) by lia]
  | |- context [(?a <? ?b)%Z] =>
      first [rewrite (proj2 (Z.ltb_lt a b)) by lia | rewrite (proj2 (Z.ltb_ge a b)) by lia]
  | |- context [(?a =? ?b)%Z] =>
      first [rewrite (proj2 (Z.eqb_eq a b)) by lia | rewrite (proj2 (Z.eqb_neq a b)) by lia]
  end; cbn [andb orb negb].

(** The digits of a nonnegative integer in base 64. *)
Lemma digits64 c :
  0 <= c ->
  exists d3 d2 d1 d0, c = 262144 * d3 + 4096 * d2 + 64 * d1 + d0 /\
    0 <= d3 /\ 0 <= d2 < 64 /\ 0 <= d1 < 64 /\ 0 <= d0 < 64 /\
    c / 262144 = d3 /\ c / 4096 = 64 * d3 + d2 /\ c / 64 = 4096 * d3 + 64 * d2 + d1 /\
    c mod 64 = d0 /\ c / 64 mod 64 = d1 /\ c / 4096 mod 64 = d2.
Proof.
  intros Hc. exists (c / 262144), (c / 4096 mod 64), (c / 64 mod 64), (c mod 64).
  replace (c / 262144) with (c / 64 / 64 / 64) by (rewrite !Z.div_div by lia; done).
  replace (c / 4096) with (c / 64 / 64) by (rewrite !Z.div_div by lia; done).
  pose proof (Z.div_mod c 64 ltac:(lia)). pose proof (Z.div_mod (c / 64) 64 ltac:(lia)).
  pose proof (Z.div_mod (c / 64 / 64) 64 ltac:(lia)).
  pose proof (Z.mod_pos_bound c 64 ltac:(lia)). pose proof (Z.mod_pos_bound (c / 64) 64 ltac:(lia)).
  pose proof (Z.mod_pos_bound (c / 64 / 64) 64 ltac:(lia)).
  assert (0 <= c / 64 / 64 / 64) by (repeat apply Z.div_pos; lia).
  repeat split; lia.
Qed.
