(* ===== verification/JsMap.v ===== *)
(** * JavaScript [Map]

    The server and the client keep their tables in JavaScript [Map]s:
    [playersCache], [clients], [pendingStates], [seenShots], [bots],
    [playersById], [snowballsById] and the OAuth [pendingStates].  A [Map]
    iterates in insertion order, [set] on a present key keeps its place, and
    [delete] followed by [set] moves the key to the end.  Hit detection breaks
    ties by that order, so the model is an association list in insertion
    order; the refinement to the unordered finite map [gmap] carries the
    look-up reasoning. *)

From S2P Require Import Prelude.

Module JMap.
Section JMap.
Context {K : Type} `{Countable K} {V : Type}.

Definition jsmap : Type := list (K * V).

(** [map.get(k)]: [None] is [undefined]. *)
Fixpoint get (k : K) (m : jsmap) : option V :=
  match m with
  | [] => None
  | (k', v) :: m' => if decide (k = k') then Some v else get k m'
  end.

(** [map.set(k, v)]. *)
Fixpoint set (k : K) (v : V) (m : jsmap) : jsmap :=
  match m with
  | [] => [(k, v)]
  | (k', v') :: m' =>
      if decide (k = k') then (k', v) :: m' else (k', v') :: set k v m'
  end.

(** [map.delete(k)]. *)
Definition delete (k : K) (m : jsmap) : jsmap :=
  List.filter (fun e => negb (bool_decide (k = fst e))) m.

(** [map.has(k)]. *)
Definition has (k : K) (m : jsmap) : bool :=
  match get k m with Some _ => true | None => false end.

(** [map.values()], [map.keys()] and [map.size]. *)
Definition values (m : jsmap) : list V := map snd m.
Definition keys (m : jsmap) : list K := map fst m.
Definition size (m : jsmap) : Z := Z.of_nat (length m).

(** [for (const [k, v] of m.entries()) if (c(k, v)) m.delete(k)]. *)
Definition sweep (c : K -> V -> bool) (m : jsmap) : jsmap :=
  List.filter (fun e => negb (c (fst e) (snd e))) m.

(** A JavaScript [Map] holds each key once. *)
Definition wf (m : jsmap) : Prop := NoDup (keys m).

(** The finite map the [Map] stands for. *)
Definition abs (m : jsmap) : gmap K V := list_to_map m.

Lemma abs_get m k : abs m !! k = get k m.
Proof.
  induction m as [|[k' v] m IH]; simpl; [apply lookup_empty|].
  rewrite lookup_insert. case_decide as E1; case_decide as E2; subst; congruence || done.
Qed.

Lemma abs_set m k v : abs (set k v m) = <[k:=v]> (abs m).
Proof.
  induction m as [|[k' v'] m IH]; [done|]. simpl. case_decide as E; simpl.
  - subst. unfold abs. simpl. by rewrite insert_insert_eq.
  - unfold abs in *. simpl. rewrite IH. by rewrite insert_insert_ne.
Qed.

Lemma get_set k k' v m : get k (set k' v m) = if decide (k = k') then Some v else get k m.
Proof.
  rewrite <- !abs_get, abs_set, lookup_insert.
  repeat case_decide; congruence || done.
Qed.

Lemma get_set_eq k v m : get k (set k v m) = Some v.
Proof. rewrite get_set. by rewrite decide_True. Qed.

Lemma get_set_ne k k' v m : k <> k' -> get k (set k' v m) = get k m.
Proof. intros. rewrite get_set. by rewrite decide_False. Qed.

Lemma get_delete k k' m : get k (delete k' m) = if decide (k = k') then None else get k m.
Proof.
  induction m as [|[k0 v] m IH]; simpl; [by case_decide|].
  case_bool_decide as E; simpl; rewrite ?IH; repeat case_decide; subst; congruence || done.
Qed.

Lemma abs_delete m k : abs (delete k m) = base.delete k (abs m).
Proof.
  apply map_eq. intros i. rewrite abs_get, get_delete, lookup_delete, <- abs_get.
  repeat case_decide; congruence || done.
Qed.

Lemma get_delete_eq k m : get k (delete k m) = None.
Proof. rewrite get_delete. by rewrite decide_True. Qed.

Lemma get_delete_ne k k' m : k <> k' -> get k (delete k' m) = get k m.
Proof. intros. rewrite get_delete. by rewrite decide_False. Qed.

Lemma keys_set k v m :
  keys (set k v m) = if has k m then keys m else keys m ++ [k].
Proof.
  unfold has. induction m as [|[k' v'] m IH]; [done|]. simpl.
  case_decide as E; simpl; [by subst|]. rewrite IH. by destruct (get k m).
Qed.

Lemma get_None k m : get k m = None <-> k ∉ keys m.
Proof.
  induction m as [|[k' v] m IH]; simpl; [split; [intros _ []%elem_of_nil|done]|].
  rewrite not_elem_of_cons, <- IH. case_decide; subst; split; intros; destruct_and?; done.
Qed.

Lemma has_true k m : has k m = true <-> k ∈ keys m.
Proof.
  unfold has. destruct (get k m) eqn:E.
  - split; [|done]. intros _. destruct (decide (k ∈ keys m)) as [|n]; [done|].
    apply get_None in n. congruence.
  - apply get_None in E. naive_solver.
Qed.

Lemma wf_nil : wf [].
Proof. constructor. Qed.

Lemma wf_set k v m : wf m -> wf (set k v m).
Proof.
  unfold wf. intros Hm. rewrite keys_set. destruct (has k m) eqn:E; [done|].
  apply NoDup_app. split; [done|]. split; [|repeat constructor; apply not_elem_of_nil].
  intros x Hx. rewrite list_elem_of_singleton. intros ->.
  apply has_true in Hx. congruence.
Qed.

Lemma keys_filter_sublist (f : K * V -> bool) m : keys (List.filter f m) `sublist_of` keys m.
Proof.
  induction m as [|e m IH]; simpl; [constructor|]. destruct (f e); simpl; by constructor.
Qed.

Lemma wf_filter f m : wf m -> wf (List.filter f m).
Proof. unfold wf. intros Hm. eapply sublist_NoDup; [exact Hm|apply keys_filter_sublist]. Qed.

Lemma wf_delete k m : wf m -> wf (delete k m).
Proof. apply wf_filter. Qed.

Lemma wf_sweep c m : wf m -> wf (sweep c m).
Proof. apply wf_filter. Qed.

(** Look-up and membership agree on a well-formed [Map]. *)
Lemma get_elem_of k v m : get k m = Some v -> (k, v) ∈ m.
Proof.
  induction m as [|[k' v'] m IH]; simpl; [done|]. case_decide; intros; simplify_eq.
  - left.
  - right. auto.
Qed.

Lemma elem_of_get k v m : wf m -> (k, v) ∈ m -> get k m = Some v.
Proof.
  unfold wf. induction m as [|[k' v'] m IH]; simpl; [intros _ []%elem_of_nil|].
  intros [Hn Hd]%NoDup_cons [?|Hin]%elem_of_cons; simplify_eq; case_decide; subst; try done.
  - exfalso. apply Hn. apply list_elem_of_fmap. exists (k', v). done.
  - auto.
Qed.

Lemma get_sweep_keep c k v m :
  get k m = Some v -> c k v = false -> get k (sweep c m) = Some v.
Proof.
  induction m as [|[k' v'] m IH]; simpl; [done|]. case_decide; intros Hg Hc; subst.
  - simplify_eq. rewrite Hc. simpl. by rewrite decide_True.
  - destruct (negb (c k' v')); simpl; [rewrite decide_False by done|]; auto.
Qed.

Lemma get_sweep c k m :
  wf m ->
  get k (sweep c m) =
  match get k m with Some v => if c k v then None else Some v | None => None end.
Proof.
  unfold wf. induction m as [|[k' v] m IH]; [done|]. intros [Hn Hd]%NoDup_cons.
  simpl. destruct (c k' v) eqn:E; simpl; rewrite ?IH by done; case_decide; subst; try done.
  - apply get_None in Hn. simpl in Hn. by rewrite Hn, E.
  - by rewrite E.
Qed.

(** Every value of the [Map] satisfies [P]. *)
Definition all (P : K -> V -> Prop) (m : jsmap) : Prop :=
  Forall (fun e => P (fst e) (snd e)) m.

Lemma all_nil P : all P [].
Proof. constructor. Qed.

Lemma all_get P k v m : all P m -> get k m = Some v -> P k v.
Proof.
  intros Ha Hg%get_elem_of. unfold all in Ha. rewrite Forall_forall in Ha.
  exact (Ha _ Hg).
Qed.

Lemma all_set (P : K -> V -> Prop) k v m : P k v -> all P m -> all P (set k v m).
Proof.
  intros Hp. unfold all. induction m as [|[k' v'] m IH]; simpl; intros Ha.
  - by repeat constructor.
  - apply Forall_cons in Ha as [? ?]. case_decide; subst; constructor; simpl in *; auto.
Qed.

Lemma all_filter P f m : all P m -> all P (List.filter f m).
Proof.
  unfold all. induction 1 as [|[k v] m Hp Hm IH]; simpl; [constructor|].
  destruct (f (k, v)); [by constructor|done].
Qed.

Lemma all_delete P k m : all P m -> all P (delete k m).
Proof. apply all_filter. Qed.

Lemma all_sweep P c m : all P m -> all P (sweep c m).
Proof. apply all_filter. Qed.

Lemma all_impl (P Q : K -> V -> Prop) m : (forall k v, P k v -> Q k v) -> all P m -> all Q m.
Proof. intros Hi Ha. eapply Forall_impl; [exact Ha|]. simpl. auto. Qed.

Lemma all_values (P : K -> V -> Prop) (Q : V -> Prop) m :
  (forall k v, P k v -> Q v) -> all P m -> Forall Q (values m).
Proof.
  intros Hi. unfold all, values. induction 1 as [|[k v] m Hp Hm IH]; simpl; constructor; eauto.
Qed.

End JMap.

Arguments jsmap : clear implicits.

#[export] Hint Resolve wf_nil wf_set wf_delete wf_sweep all_nil all_set all_delete all_sweep : snow.

End JMap.

Export (hints) JMap.
