(* ===== verification/JsNum.v ===== *)
(** * JavaScript numbers

    Positions, directions, angles and delays are JavaScript numbers, that is
    IEEE-754 binary64 values.  They are modelled bit for bit by the Standard
    Library's executable specification of floating point ([SpecFloat], with
    53 bits of precision and maximal exponent 1024), so NaN, the infinities,
    the signed zeros and rounding behave as in the code.

    The bitwise operators convert to 32-bit integers first; those conversions
    and [Math.imul] are on [Z] with the wrap-around written out.

    [Math.sqrt] is the correctly rounded square root.  The functions the
    language leaves to the implementation ([Math.hypot], [Math.sin],
    [Math.cos], [Math.atan2], [Math.pow], [Math.exp]) are the operations of
    the class [JsMath]. *)

From S2P Require Import Prelude.
From Stdlib Require Export SpecFloat.

Declare Scope num_scope.
Delimit Scope num_scope with num.

Definition num : Type := spec_float.
Bind Scope num_scope with num.

Definition prec : Z := 53.
Definition emax : Z := 1024.

(** An integer literal, and a decimal literal [n / 10^k], rounded to nearest. *)
Definition num_of_Z (z : Z) : num := binary_normalize prec emax z 0 false.
Definition num_dec (n : Z) (k : Z) : num :=
  SFdiv prec emax (num_of_Z n) (num_of_Z (10 ^ k)).

Definition nan : num := S754_nan.
Definition nzero : num := S754_zero false.

Definition nadd (a b : num) : num := SFadd prec emax a b.
Definition nsub (a b : num) : num := SFsub prec emax a b.
Definition nmul (a b : num) : num := SFmul prec emax a b.
Definition ndiv (a b : num) : num := SFdiv prec emax a b.
Definition nopp (a : num) : num := SFopp a.
Definition nsqrt (a : num) : num := SFsqrt prec emax a.
Definition nabs (a : num) : num := SFabs a.
Definition nltb (a b : num) : bool := SFltb a b.
Definition nleb (a b : num) : bool := SFleb a b.
Definition neqb (a b : num) : bool := SFeqb a b.

Infix "+" := nadd : num_scope.
Infix "-" := nsub : num_scope.
Infix "*" := nmul : num_scope.
Infix "/" := ndiv : num_scope.
Notation "- a" := (nopp a) : num_scope.
Infix "<?" := nltb : num_scope.
Infix "<=?" := nleb : num_scope.
Notation "a >? b" := (nltb b a) (only parsing) : num_scope.
Notation "a >=? b" := (nleb b a) (only parsing) : num_scope.

(** [Number.isNaN] and [Number.isFinite]. *)
Definition isNaN (a : num) : bool := match a with S754_nan => true | _ => false end.
Definition isFinite (a : num) : bool :=
  match a with S754_zero _ | S754_finite _ _ _ => true | _ => false end.

(** A number is falsy when it is a zero or NaN ([x || 1]). *)
Definition num_truthy (a : num) : bool :=
  match a with S754_zero _ | S754_nan => false | _ => true end.

(** [Math.max] and [Math.min] of two numbers: NaN is contagious and [+0] is
    above [-0]. *)
Definition math_max (a b : num) : num :=
  match a, b with
  | S754_nan, _ | _, S754_nan => S754_nan
  | S754_zero s, S754_zero s' => S754_zero (s && s')
  | _, _ => if nltb a b then b else a
  end.
Definition math_min (a b : num) : num :=
  match a, b with
  | S754_nan, _ | _, S754_nan => S754_nan
  | S754_zero s, S754_zero s' => S754_zero (s || s')
  | _, _ => if nltb b a then b else a
  end.

(** [Math.floor] of a finite number, as an integer. *)
Definition num_floor (a : num) : Z :=
  match a with
  | S754_finite s m e =>
      if 0 <=? e then cond_Zopp s (Zpos m * 2 ^ e) else cond_Zopp s (Zpos m) / 2 ^ (- e)
  | _ => 0
  end.

(** [Math.fround]: what a [Float32Array] keeps of a number. *)
Definition fround (a : num) : num :=
  match a with
  | S754_finite s m e =>
      match binary_round 24 128 s m e with
      | S754_finite s' m' e' => binary_round prec emax s' m' e'
      | r => r
      end
  | _ => a
  end.

(** The implementation-approximated part of [Math]. *)
Class JsMath := {
  hypot2 : num -> num -> num;
  hypot3 : num -> num -> num -> num;
  msin : num -> num;
  mcos : num -> num;
  matan2 : num -> num -> num;
  mpow : num -> num -> num;
  mexp : num -> num;
}.

(** ** Three-dimensional vectors *)

Record Vec3 := mkVec3 { vx : num; vy : num; vz : num }.

Definition vec_zero : Vec3 := mkVec3 nzero nzero nzero.

(** ** 32-bit integers *)

(** ToInt32 and ToUint32 of an integral number. *)
Definition toUint32 (z : Z) : Z := z mod 2 ^ 32.
Definition toInt32 (z : Z) : Z :=
  let u := z mod 2 ^ 32 in if u <? 2 ^ 31 then u else u - 2 ^ 32.

(** [a << n], [a >> n], [a >>> n] for a literal shift count. *)
Definition shl32 (a n : Z) : Z := toInt32 (Z.shiftl (toInt32 a) n).
Definition sar32 (a n : Z) : Z := Z.shiftr (toInt32 a) n.
Definition shr32 (a n : Z) : Z := Z.shiftr (toUint32 a) n.

(** [a ^ b], [a | b] and [Math.imul(a, b)]. *)
Definition xor32 (a b : Z) : Z := toInt32 (Z.lxor (toInt32 a) (toInt32 b)).
Definition or32 (a b : Z) : Z := toInt32 (Z.lor (toInt32 a) (toInt32 b)).
Definition imul (a b : Z) : Z := toInt32 (toUint32 a * toUint32 b).

Lemma toInt32_range z : - 2 ^ 31 <= toInt32 z < 2 ^ 31.
Proof.
  unfold toInt32. pose proof (Z.mod_pos_bound z (2 ^ 32) ltac:(lia)).
  destruct (z mod 2 ^ 32 <? 2 ^ 31) eqn:E; zbool; lia.
Qed.

Lemma toUint32_range z : 0 <= toUint32 z < 2 ^ 32.
Proof. apply Z.mod_pos_bound. lia. Qed.

Lemma toInt32_small z : - 2 ^ 31 <= z < 2 ^ 31 -> toInt32 z = z.
Proof.
  intros Hz. unfold toInt32. destruct (Z.ltb_spec z 0).
  - replace (z mod 2 ^ 32) with (z + 2 ^ 32).
    + destruct (z + 2 ^ 32 <? 2 ^ 31) eqn:E; zbool; lia.
    + apply (Z.mod_unique z (2 ^ 32) (-1)); lia.
  - rewrite Z.mod_small by lia. destruct (z <? 2 ^ 31) eqn:E; zbool; lia.
Qed.

Lemma toInt32_congr z : toInt32 z mod 2 ^ 32 = z mod 2 ^ 32.
Proof.
  unfold toInt32. destruct (z mod 2 ^ 32 <? 2 ^ 31).
  - apply Z.mod_mod. lia.
  - rewrite Zminus_mod, Z.mod_same, Z.sub_0_r, !Z.mod_mod by lia. done.
Qed.

Lemma toUint32_toInt32 z : toUint32 (toInt32 z) = toUint32 z.
Proof. apply toInt32_congr. Qed.

Lemma toInt32_eq a b : a mod 2 ^ 32 = b mod 2 ^ 32 -> toInt32 a = toInt32 b.
Proof. unfold toInt32. by intros ->. Qed.

(** ** The order on numbers *)

(** [SFcompare] seen as a comparison of ranks: the order facts below need only
    that ranks are compared lexicographically. *)
Definition rank (a : num) : Z * Z * Z :=
  match a with
  | S754_zero _ => (0, 0, 0)
  | S754_infinity true => (-2, 0, 0)
  | S754_infinity false => (2, 0, 0)
  | S754_nan => (0, 0, 0)
  | S754_finite true m e => (-1, - e, - Zpos m)
  | S754_finite false m e => (1, e, Zpos m)
  end.

Definition rank_lt (p q : Z * Z * Z) : Prop :=
  let '(a, b, c) := p in let '(a', b', c') := q in
  a < a' \/ (a = a' /\ (b < b' \/ (b = b' /\ c < c'))).

Lemma compare_rank a b :
  isNaN a = false -> isNaN b = false ->
  (SFcompare a b = Some Lt <-> rank_lt (rank a) (rank b)) /\
  (SFcompare a b = Some Gt <-> rank_lt (rank b) (rank a)) /\
  (SFcompare a b = Some Eq <-> rank a = rank b).
Proof.
  destruct a as [|[]| |[]], b as [|[]| |[]]; simpl; try done; intros _ _;
    try (repeat split; intros; (done || lia || congruence));
    fold (Pos.compare m m0);
    destruct (Z.compare_spec e e0); try (destruct (Pos.compare_spec m m0)); subst; simpl;
    repeat split; intros; try done; try lia; try congruence; try (simplify_eq; lia).
Qed.

Lemma rank_lt_irrefl p : ~ rank_lt p p.
Proof. destruct p as [[a b] c]. simpl. lia. Qed.

Lemma rank_lt_trans p q r : rank_lt p q -> rank_lt q r -> rank_lt p r.
Proof. destruct p as [[a b] c], q as [[a' b'] c'], r as [[a'' b''] c'']. simpl. lia. Qed.

Lemma rank_total p q : rank_lt p q \/ p = q \/ rank_lt q p.
Proof.
  destruct p as [[a b] c], q as [[a' b'] c']. simpl.
  assert (Hd : a < a' \/ a = a' /\ (b < b' \/ b = b' /\ c < c') \/
    (a = a' /\ b = b' /\ c = c') \/
    (a' < a \/ a' = a /\ (b' < b \/ b' = b /\ c' < c))) by lia.
  destruct Hd as [?|[?|[(-> & -> & ->)|?]]]; tauto.
Qed.

Lemma nltb_nan a b : nltb a b = true -> isNaN a = false /\ isNaN b = false.
Proof. by destruct a as [|[]| |[]], b as [|[]| |[]]. Qed.

Lemma nleb_nan a b : nleb a b = true -> isNaN a = false /\ isNaN b = false.
Proof. by destruct a as [|[]| |[]], b as [|[]| |[]]. Qed.

Lemma nltb_rank a b :
  isNaN a = false -> isNaN b = false -> nltb a b = true <-> rank_lt (rank a) (rank b).
Proof.
  intros Ha Hb. destruct (compare_rank a b Ha Hb) as (Hl & Hg & He).
  unfold nltb, SFltb. rewrite <- Hl. destruct (SFcompare a b) as [[]|]; naive_solver.
Qed.

Lemma nleb_rank a b :
  isNaN a = false -> isNaN b = false ->
  nleb a b = true <-> rank_lt (rank a) (rank b) \/ rank a = rank b.
Proof.
  intros Ha Hb. destruct (compare_rank a b Ha Hb) as (Hl & Hg & He).
  unfold nleb, SFleb. rewrite <- Hl, <- He. destruct (SFcompare a b) as [[]|]; naive_solver.
Qed.

(** On numbers that are not NaN, [<=] is the negation of [>]. *)
Lemma nleb_nltb a b :
  isNaN a = false -> isNaN b = false -> nleb a b = negb (nltb b a).
Proof.
  intros Ha Hb. pose proof (nleb_rank a b Ha Hb) as Hle. pose proof (nltb_rank b a Hb Ha) as Hlt.
  pose proof (rank_total (rank a) (rank b)) as Ht.
  destruct (nleb a b), (nltb b a); simpl; try done; exfalso.
  - destruct Hle as [Hle _], Hlt as [Hlt _].
    destruct (Hle eq_refl) as [H1|H1].
    + eapply rank_lt_irrefl, rank_lt_trans; [exact H1|auto].
    + rewrite H1 in Hlt. eapply rank_lt_irrefl; auto.
  - naive_solver.
Qed.

Lemma nltb_trans a b c : nltb a b = true -> nltb b c = true -> nltb a c = true.
Proof.
  intros H1 H2. pose proof (nltb_nan _ _ H1) as [Ha Hb]. pose proof (nltb_nan _ _ H2) as [_ Hc].
  apply nltb_rank in H1, H2; try done. apply nltb_rank; try done. eapply rank_lt_trans; eauto.
Qed.

Lemma nleb_trans a b c : nleb a b = true -> nleb b c = true -> nleb a c = true.
Proof.
  intros H1 H2. pose proof (nleb_nan _ _ H1) as [Ha Hb]. pose proof (nleb_nan _ _ H2) as [_ Hc].
  apply nleb_rank in H1, H2; try done. apply nleb_rank; try done.
  destruct H1 as [H1|H1], H2 as [H2|H2]; try (rewrite H1); try (rewrite <- H2); eauto using rank_lt_trans.
Qed.

Lemma nltb_le_trans a b c : nltb a b = true -> nleb b c = true -> nltb a c = true.
Proof.
  intros H1 H2. pose proof (nltb_nan _ _ H1) as [Ha Hb]. pose proof (nleb_nan _ _ H2) as [_ Hc].
  apply nltb_rank in H1; try done. apply nleb_rank in H2; try done. apply nltb_rank; try done.
  destruct H2 as [H2|H2]; [eauto using rank_lt_trans|by rewrite <- H2].
Qed.

Lemma nleb_refl a : isNaN a = false -> nleb a a = true.
Proof. intros. apply nleb_rank; auto. Qed.

(** [Math.max] is an upper bound that is (up to the sign of zero) one of its
    arguments; dually for [Math.min]. *)
Lemma math_max_spec a b :
  isNaN a = false -> isNaN b = false ->
  isNaN (math_max a b) = false /\
  rank (math_max a b) = (if nltb a b then rank b else rank a).
Proof.
  intros Ha Hb. unfold math_max.
  destruct a as [|[]| |[]], b as [|[]| |[]]; simpl; try done; by split_match.
Qed.

Lemma math_min_spec a b :
  isNaN a = false -> isNaN b = false ->
  isNaN (math_min a b) = false /\
  rank (math_min a b) = (if nltb b a then rank b else rank a).
Proof.
  intros Ha Hb. unfold math_min.
  destruct a as [|[]| |[]], b as [|[]| |[]]; simpl; try done; by split_match.
Qed.

(** [Math.max(lo, Math.min(hi, x))]. *)
Definition clamp (lo hi x : num) : num := math_max lo (math_min hi x).

(** Clamping a number that is not NaN lands in the interval. *)
Lemma clamp_bounds lo hi x :
  nleb lo hi = true -> isNaN x = false ->
  nleb lo (clamp lo hi x) = true /\ nleb (clamp lo hi x) hi = true.
Proof.
  intros Hle Hx. pose proof (nleb_nan _ _ Hle) as [Hlo Hhi].
  destruct (math_min_spec hi x Hhi Hx) as [Hn Hr].
  destruct (math_max_spec lo _ Hlo Hn) as [Hn' Hr'].
  unfold clamp. rewrite !nleb_rank by done. rewrite Hr', Hr.
  apply nleb_rank in Hle; try done.
  destruct (nltb x hi) eqn:E1; destruct (nltb lo (math_min hi x)) eqn:E2;
    try apply nltb_rank in E1; try apply nltb_rank in E2; try done;
    rewrite ?Hr in E2; auto.
Qed.

(** A number inside the interval keeps its rank. *)
Lemma clamp_inside lo hi x :
  nleb lo x = true -> nleb x hi = true -> rank (clamp lo hi x) = rank x.
Proof.
  intros H1 H2. pose proof (nleb_nan _ _ H1) as [Hlo Hx]. pose proof (nleb_nan _ _ H2) as [_ Hhi].
  destruct (math_min_spec hi x Hhi Hx) as [Hn Hr].
  destruct (math_max_spec lo _ Hlo Hn) as [Hn' Hr'].
  unfold clamp. rewrite Hr'. apply nleb_rank in H1, H2; try done.
  assert (Hm : rank (math_min hi x) = rank x).
  { rewrite Hr. destruct (nltb x hi) eqn:E; [done|].
    destruct H2 as [H2|H2]; [|done]. apply nltb_rank in H2; try done. congruence. }
  destruct (nltb lo (math_min hi x)) eqn:E; [done|].
  destruct H1 as [H1|H1]; [|done].
  rewrite <- Hm in H1. apply nltb_rank in H1; try done. congruence.
Qed.

Lemma isFinite_notNaN a : isFinite a = true -> isNaN a = false.
Proof. by destruct a. Qed.

(** ** Small integers are exact *)

Lemma digits2_pos_size p : digits2_pos p = Pos.size p.
Proof. induction p as [p IH|p IH|]; simpl; rewrite ?IH; done. Qed.

Lemma size_iter_xO p d : Pos.size (Pos.iter xO p d) = (Pos.size p + d)%positive.
Proof.
  induction d as [|d IH] using Pos.peano_ind; [simpl; lia|].
  rewrite Pos.iter_succ. simpl. rewrite IH. lia.
Qed.

Lemma iter_xO_shift p d : Zpos (Pos.iter xO p d) = Zpos p * 2 ^ Zpos d.
Proof.
  induction d as [|d IH] using Pos.peano_ind; [simpl; lia|].
  rewrite Pos.iter_succ, Pos2Z.inj_xO, IH, Pos2Z.inj_succ, Z.pow_succ_r by lia. lia.
Qed.

Lemma size_small p : Zpos p < 2 ^ 53 -> Zpos (Pos.size p) <= 53.
Proof.
  intros Hp. pose proof (Pos.size_le p) as Hs.
  assert (H : 2 ^ Zpos (Pos.size p) < 2 ^ 54) by (rewrite <- Pos2Z.inj_pow; lia).
  apply Z.pow_lt_mono_r_iff in H; lia.
Qed.

(** Rounding keeps a mantissa that already has its 53 digits. *)
Lemma binary_round_aux_exact s m e :
  Zpos (Pos.size m) = 53 -> -1074 <= e <= 971 ->
  binary_round_aux prec emax s (Zpos m) e loc_Exact = S754_finite s m e.
Proof.
  intros Hm He.
  assert (Hs : shr_fexp prec emax (Zpos m) e loc_Exact = (Build_shr_record (Zpos m) false false, e)).
  { unfold shr_fexp, fexp, emin, prec, emax. cbn [Zdigits2 shr_record_of_loc].
    rewrite digits2_pos_size, Hm. rewrite Z.max_l by lia. by replace (53 + e - 53 - e) with 0 by lia. }
  unfold binary_round_aux. rewrite Hs. cbn [shr_m loc_of_shr_record round_nearest_even]. rewrite Hs.
  cbn [shr_m]. unfold prec, emax. rewrite (proj2 (Z.leb_le _ _)) by lia. done.
Qed.

Lemma binary_round_small s p :
  Zpos p < 2 ^ 53 ->
  exists m, binary_round prec emax s p 0 = S754_finite s m (Zpos (Pos.size p) - 53) /\
    Zpos m = Zpos p * 2 ^ (53 - Zpos (Pos.size p)).
Proof.
  intros Hp. pose proof (size_small p Hp) as Hd. unfold binary_round, fexp, emin.
  rewrite digits2_pos_size. set (k := Zpos (Pos.size p)) in *.
  assert (Hk : 1 <= k) by (unfold k; lia).
  replace (Z.max (k + 0 - prec) (3 - emax - prec)) with (k - 53) by (unfold prec, emax; lia).
  unfold shl_align. rewrite Z.sub_0_r. replace (53 - k) with (- (k - 53)) by lia.
  destruct (k - 53) as [|d|d] eqn:Ed; [|lia|].
  - exists p. rewrite binary_round_aux_exact by lia. split; [done|]. simpl. lia.
  - exists (Pos.iter xO p d). rewrite binary_round_aux_exact; [|rewrite size_iter_xO; lia|lia].
    split; [done|]. apply iter_xO_shift.
Qed.

Lemma size_bounds p : 2 ^ Zpos (Pos.size p) <= 2 * Zpos p /\ Zpos p < 2 ^ Zpos (Pos.size p).
Proof.
  pose proof (Pos.size_le p). pose proof (Pos.size_gt p). rewrite <- Pos2Z.inj_pow. lia.
Qed.

(** The order on safe nonnegative integers is the order on numbers. *)
Lemma nltb_of_Z a b :
  0 <= a < 2 ^ 53 -> 0 <= b < 2 ^ 53 -> nltb (num_of_Z a) (num_of_Z b) = (a <? b).
Proof.
  intros Ha Hb. destruct a as [|p|p], b as [|q|q]; try lia; [done| | |].
  - unfold num_of_Z. cbn [binary_normalize]. by destruct (binary_round_small false q) as (m & -> & _); [lia|].
  - unfold num_of_Z. cbn [binary_normalize]. by destruct (binary_round_small false p) as (m & -> & _); [lia|].
  - unfold num_of_Z. cbn [binary_normalize].
    destruct (binary_round_small false p) as (m & -> & Hm); [lia|].
    destruct (binary_round_small false q) as (m' & -> & Hm'); [lia|].
    apply eq_true_iff_eq. rewrite nltb_rank by done. cbn [rank rank_lt]. rewrite Z.ltb_lt.
    pose proof (size_bounds p). pose proof (size_bounds q).
    destruct (Z.compare_spec (Zpos (Pos.size p)) (Zpos (Pos.size q))) as [E|E|E].
    + rewrite E in Hm. assert (0 < 2 ^ (53 - Zpos (Pos.size q))) by (apply Z.pow_pos_nonneg; pose proof (size_small q ltac:(lia)); lia).
      split; [intros [?|[_ [?|[_ Hl]]]]; try lia; nia|]. intros Hpq. right. split; [done|]. right.
      split; [lia|nia].
    + assert (2 ^ Zpos (Pos.size p) * 2 <= 2 ^ Zpos (Pos.size q)).
      { rewrite Z.mul_comm, <- Z.pow_succ_r by lia. apply Z.pow_le_mono_r; lia. }
      split; [|lia]. intros _. lia.
    + assert (2 ^ Zpos (Pos.size q) * 2 <= 2 ^ Zpos (Pos.size p)).
      { rewrite Z.mul_comm, <- Z.pow_succ_r by lia. apply Z.pow_le_mono_r; lia. }
      split; [lia|]. intros. lia.
Qed.
