(* ===== verification/Rounding.v ===== *)
(** * Rounding is monotone

    The value of a number as a rational, the specification of rounding to
    nearest even, that the arithmetic of [JsNum] meets it, and from it that
    sums, products and quotients are monotone: the rules of interval
    arithmetic by which bounds on computed numbers are evaluated at the end
    points. *)

From Stdlib Require Import QArith Qpower Lqa.
From S2P Require Import Prelude JsNum.
#[local] Open Scope Z_scope.
#[local] Arguments inject_Z : simpl never.

(** ** Powers of two *)

Definition p2 (e : Z) : Q := (2 ^ e)%Q.

Lemma p2_pos e : (0 < p2 e)%Q.
Proof. apply Qpower_0_lt. reflexivity. Qed.

Lemma p2_add a b : (p2 (a + b) == p2 a * p2 b)%Q.
Proof. apply Qpower_plus. discriminate. Qed.

Lemma p2_Z n : 0 <= n -> (p2 n == inject_Z (2 ^ n))%Q.
Proof. intros. unfold p2. by rewrite Zpower_Qpower. Qed.

Lemma p2_le a b : a <= b -> (p2 a <= p2 b)%Q.
Proof. intros. apply Qpower_le_compat_l; [done|]. discriminate. Qed.

Lemma p2_S a : (p2 (a + 1) == 2 * p2 a)%Q.
Proof. rewrite p2_add. change (p2 1) with 2%Q. lra. Qed.

Lemma p2_sub a b : (p2 (a - b) * p2 b == p2 a)%Q.
Proof. rewrite <- p2_add. by replace (a - b + b) with a by lia. Qed.

Lemma inj_le a b : a <= b <-> (inject_Z a <= inject_Z b)%Q.
Proof. by rewrite Zle_Qle. Qed.

Lemma inj_lt a b : a < b <-> (inject_Z a < inject_Z b)%Q.
Proof. by rewrite Zlt_Qlt. Qed.

Lemma inj_pos_xO p : (inject_Z (Zpos p~0) == 2 * inject_Z (Zpos p))%Q.
Proof. rewrite Pos2Z.inj_xO, inject_Z_mult. reflexivity. Qed.

Lemma inj_pos_xI p : (inject_Z (Zpos p~1) == 2 * inject_Z (Zpos p) + 1)%Q.
Proof. rewrite Pos2Z.inj_xI, inject_Z_plus, inject_Z_mult. reflexivity. Qed.

(** ** Shifting out digits *)

(** [v] is the rational a mantissa with a round and a sticky bit stands for. *)
Definition inrec (mrs : shr_record) (v : Q) : Prop :=
  let m := inject_Z (shr_m mrs) in
  match shr_r mrs, shr_s mrs with
  | false, false => v == m
  | false, true => m < v /\ v < m + (1 # 2)
  | true, false => v == m + (1 # 2)
  | true, true => m + (1 # 2) < v /\ v < m + 1
  end%Q.

Lemma inrec_compat mrs v w : (v == w)%Q -> inrec mrs v -> inrec mrs w.
Proof. unfold inrec. intros E. destruct (shr_r mrs), (shr_s mrs); rewrite E; done. Qed.

Lemma shr_1_inrec mrs v :
  0 <= shr_m mrs -> inrec mrs v ->
  inrec (shr_1 mrs) (v * (1 # 2)) /\ 0 <= shr_m (shr_1 mrs).
Proof.
  destruct mrs as [m r s]. unfold inrec. cbn [shr_m shr_r shr_s]. intros Hm Hv.
  destruct m as [|[p|p|]|p]; [| | | |lia]; cbn [shr_1 shr_m shr_r shr_s]; (split; [|lia]).
  - change (inject_Z 0) with 0%Q in *. destruct r, s; cbn [orb] in *; lra.
  - pose proof (inj_pos_xI p). destruct r, s; cbn [orb] in *; lra.
  - pose proof (inj_pos_xO p). destruct r, s; cbn [orb] in *; lra.
  - change (inject_Z 0) with 0%Q. change (inject_Z 1) with 1%Q in *. destruct r, s; cbn [orb] in *; lra.
Qed.

Lemma iter_shr_inrec p mrs v :
  0 <= shr_m mrs -> inrec mrs v ->
  inrec (SpecFloat.iter_pos shr_1 p mrs) (v * p2 (- Zpos p)) /\ 0 <= shr_m (SpecFloat.iter_pos shr_1 p mrs).
Proof.
  revert mrs v. induction p as [p IH|p IH|]; intros mrs v Hm Hv; cbn [SpecFloat.iter_pos].
  - destruct (shr_1_inrec mrs v Hm Hv) as [H1 H2]. destruct (IH _ _ H2 H1) as [H3 H4].
    destruct (IH _ _ H4 H3) as [H5 H6]. split; [|done]. eapply inrec_compat; [|exact H5].
    replace (- Zpos p~1) with (-1 + - Zpos p + - Zpos p) by lia. rewrite !p2_add.
    change (p2 (-1)) with (1 # 2)%Q. ring.
  - destruct (IH _ _ Hm Hv) as [H3 H4]. destruct (IH _ _ H4 H3) as [H5 H6]. split; [|done].
    eapply inrec_compat; [|exact H5]. replace (- Zpos p~0) with (- Zpos p + - Zpos p) by lia.
    rewrite !p2_add. ring.
  - apply shr_1_inrec; done.
Qed.

(** ** Rounding to nearest even *)

Definition rne (v : Q) (n : Z) : Prop :=
  (2 * inject_Z n - 1 <= 2 * v /\ 2 * v <= 2 * inject_Z n + 1)%Q /\
  ((2 * v == 2 * inject_Z n - 1 \/ 2 * v == 2 * inject_Z n + 1)%Q -> Z.even n = true).

Lemma round_rne mrs v :
  inrec mrs v -> rne v (round_nearest_even (shr_m mrs) (loc_of_shr_record mrs)).
Proof.
  destruct mrs as [m r s]. unfold inrec, rne. cbn [shr_m shr_r shr_s]. intros Hv.
  pose proof (inject_Z_plus m 1) as Hi. change (inject_Z 1) with 1%Q in Hi.
  destruct r, s; cbn [loc_of_shr_record round_nearest_even]; [| |split; [lra|]; intros [?|?]; lra..].
  - rewrite Hi. split; [lra|]. intros [?|?]; lra.
  - destruct (Z.even m) eqn:E; [split; [lra|done]|].
    rewrite Hi. split; [lra|]. intros _. by rewrite Z.add_1_r, Z.even_succ, <- Z.negb_even, E.
Qed.

Lemma rne_mono v w n k : (v <= w)%Q -> rne v n -> rne w k -> n <= k.
Proof.
  intros Hvw [[Hn _] En] [[_ Hk] Ek]. destruct (Z.le_gt_cases n k) as [|Hlt]; [done|exfalso].
  assert (Hi : (inject_Z k + 1 <= inject_Z n)%Q).
  { change 1%Q with (inject_Z 1). rewrite <- inject_Z_plus. apply (proj1 (inj_le _ _)). lia. }
  assert (H1 : (inject_Z n == inject_Z k + 1)%Q) by lra.
  assert (E : n = k + 1).
  { apply inject_Z_injective. rewrite inject_Z_plus. exact H1. }
  assert (Z.even n = true) by (apply En; left; lra). assert (Z.even k = true) by (apply Ek; right; lra).
  subst n. rewrite Z.add_1_r, Z.even_succ, <- Z.negb_even in H. by rewrite H0 in H.
Qed.

Lemma rne_int n : rne (inject_Z n) n.
Proof. split; [lra|]. intros [?|?]; lra. Qed.

Lemma rne_compat v w n : (v == w)%Q -> rne v n -> rne w n.
Proof. unfold rne. intros E. by rewrite E. Qed.

(** ** Rounding in a format *)

Section Format.
Context (prec emax : Z) (Hprec : 1 < prec) (Hemax : prec < emax).
#[local] Abbreviation emin := (SpecFloat.emin prec emax).
#[local] Abbreviation fexp := (SpecFloat.fexp prec emax).

(** [e] is the exponent of the numbers around [x]. *)
Definition exp_of (x : Q) (e : Z) : Prop :=
  emin <= e /\ (x < p2 (prec + e))%Q /\ (e = emin \/ (p2 (prec - 1 + e) <= x)%Q).

(** The number with mantissa [n] in that format, [2^prec] included. *)
Definition mk (s : bool) (n e : Z) : spec_float :=
  if n =? 0 then S754_zero s
  else
    let m := if n =? 2 ^ prec then 2 ^ (prec - 1) else n in
    let e' := if n =? 2 ^ prec then e + 1 else e in
    if e' <=? emax - prec then S754_finite s (Z.to_pos m) e' else S754_infinity s.

(** A mantissa that [mk] takes. *)
Definition mantissa (n e : Z) : Prop := emin <= e /\ 0 <= n <= 2 ^ prec /\ (e = emin \/ 2 ^ (prec - 1) <= n).

(** [f] is [x] rounded, with sign [s]. *)
Definition rounds (s : bool) (x : Q) (f : spec_float) : Prop :=
  exists e n, exp_of x e /\ rne (x * p2 (- e)) n /\ f = mk s n e.

Lemma pow_prec : 2 ^ prec = 2 * 2 ^ (prec - 1) /\ 0 < 2 ^ (prec - 1).
Proof.
  split; [|apply Z.pow_pos_nonneg; lia]. replace prec with (Z.succ (prec - 1)) at 1 by lia.
  apply Z.pow_succ_r. lia.
Qed.

Lemma p2_cancel k e : (p2 (k + e) * p2 (- e) == p2 k)%Q.
Proof. rewrite <- p2_add. by replace (k + e + - e) with k by lia. Qed.

Lemma scaled_lt x e k : (x < p2 (k + e) -> x * p2 (- e) < p2 k)%Q.
Proof. intros Hx. rewrite <- (p2_cancel k e). apply Qmult_lt_compat_r; [apply p2_pos|done]. Qed.

Lemma scaled_ge x e k : (p2 (k + e) <= x -> p2 k <= x * p2 (- e))%Q.
Proof. intros Hx. rewrite <- (p2_cancel k e). apply Qmult_le_compat_r; [done|]. apply Qlt_le_weak, p2_pos. Qed.

Lemma rne_mantissa x e n : (0 <= x)%Q -> exp_of x e -> rne (x * p2 (- e)) n -> mantissa n e.
Proof.
  intros Hx (He & Hlt & Hge) Hn. pose proof (p2_pos (- e)). split; [done|].
  assert (H0 : 0 <= n).
  { eapply rne_mono; [|apply (rne_int 0)|exact Hn]. change (inject_Z 0) with 0%Q. apply Qmult_le_0_compat; lra. }
  assert (H1 : n <= 2 ^ prec).
  { eapply rne_mono; [|exact Hn|apply rne_int]. rewrite <- p2_Z by lia. apply Qlt_le_weak. by apply scaled_lt. }
  split; [done|]. destruct Hge as [->|Hge]; [by left|right].
  eapply rne_mono; [|apply rne_int|exact Hn]. rewrite <- p2_Z by lia. by apply scaled_ge.
Qed.

Lemma shr_nonpos mrs e n : n <= 0 -> shr mrs e n = (mrs, e).
Proof. by destruct n. Qed.

Lemma digits_pos p : Zdigits2 (Zpos p) = Zpos (Pos.size p).
Proof. cbn. by rewrite digits2_pos_size. Qed.

Lemma size_le_prec p : Zpos p < 2 ^ prec -> Zpos (Pos.size p) <= prec.
Proof.
  intros Hp. pose proof (size_bounds p) as [Hb _]. destruct (Z.le_gt_cases (Zpos (Pos.size p)) prec); [done|].
  pose proof (Z.pow_le_mono_r 2 (prec + 1) (Zpos (Pos.size p)) ltac:(lia) ltac:(lia)).
  rewrite Z.add_1_r, Z.pow_succ_r in H0 by lia. lia.
Qed.

Lemma size_pow p k : 0 <= k -> Zpos p = 2 ^ k -> Zpos (Pos.size p) = k + 1.
Proof.
  intros Hk Hp. pose proof (size_bounds p) as [H1 H2]. rewrite Hp in H1, H2.
  assert (k < Zpos (Pos.size p)) by (apply (Z.pow_lt_mono_r_iff 2); lia).
  assert (Zpos (Pos.size p) <= k + 1); [|lia].
  apply (Z.pow_le_mono_r_iff 2); [lia|lia|]. rewrite (Z.add_1_r k), Z.pow_succ_r by lia. lia.
Qed.

(** The second normalisation of [binary_round_aux]. *)
Lemma normalise_mk s n e :
  mantissa n e ->
  (let '(mrs, e') := shr_fexp prec emax n e loc_Exact in
   match shr_m mrs with
   | Z0 => S754_zero s
   | Zpos m => if e' <=? emax - prec then S754_finite s m e' else S754_infinity s
   | _ => S754_nan
   end) = mk s n e.
Proof.
  intros (He & Hn & _). pose proof pow_prec as [Hp Hp0]. unfold shr_fexp, mk, SpecFloat.fexp.
  destruct n as [|p|p]; [| |lia].
  - rewrite shr_nonpos by (cbn [Zdigits2]; lia). done.
  - rewrite digits_pos. change (Zpos p =? 0) with false. destruct (Z.eqb_spec (Zpos p) (2 ^ prec)) as [E|E].
    + rewrite (size_pow p prec) by (done || lia).
      replace (Z.max (prec + 1 + e - prec) emin - e) with 1 by lia.
      destruct (2 ^ (prec - 1)) as [|q|q] eqn:Eq; [lia| |lia]. rewrite Hp in E. injection E as ->. change (2 * q)%positive with (q~0)%positive.
      cbn [shr SpecFloat.iter_pos shr_record_of_loc shr_1 shr_m]. done.
    + rewrite shr_nonpos by (pose proof (size_le_prec p ltac:(lia)); lia). done.
Qed.

Lemma inrec_bounds mrs v : inrec mrs v -> (inject_Z (shr_m mrs) <= v /\ v < inject_Z (shr_m mrs + 1))%Q.
Proof.
  unfold inrec. rewrite inject_Z_plus. change (inject_Z 1) with 1%Q. destruct (shr_r mrs), (shr_s mrs); lra.
Qed.

Lemma digits_bounds m : 0 <= m -> m < 2 ^ Zdigits2 m /\ (0 < m -> 2 ^ (Zdigits2 m - 1) <= m /\ 1 <= Zdigits2 m).
Proof.
  intros Hm. destruct m as [|p|p]; [by cbn| |lia]. rewrite digits_pos. pose proof (size_bounds p) as [H1 H2].
  split; [done|]. intros _. split; [|lia].
  assert (2 ^ Zpos (Pos.size p) = 2 * 2 ^ (Zpos (Pos.size p) - 1)); [|lia].
  rewrite <- Z.pow_succ_r by lia. f_equal. lia.
Qed.

Lemma digits_nonneg m : 0 <= Zdigits2 m.
Proof. by destruct m. Qed.

(** [binary_round_aux] rounds the number its arguments stand for. *)
Lemma aux_rounds s m e l v :
  0 <= m -> inrec (shr_record_of_loc m l) v -> e <= fexp (Zdigits2 m + e) ->
  (m = 0 -> fexp (Zdigits2 m + e) = emin) ->
  rounds s (v * p2 e) (binary_round_aux prec emax s m e l).
Proof.
  intros Hm0 Hv Hle Hz. set (d := Zdigits2 m) in *. set (e1 := fexp (d + e)) in *. set (x := (v * p2 e)%Q).
  assert (Hm : shr_m (shr_record_of_loc m l) = m) by (by destruct l as [|[]]).
  pose proof (digits_bounds m Hm0) as [Hd1 Hd2]. fold d in Hd1, Hd2. pose proof (digits_nonneg m) as Hd0. fold d in Hd0.
  pose proof (inrec_bounds _ _ Hv) as [H1 H2]. rewrite Hm in H1, H2. pose proof (p2_pos e) as Pe.
  assert (Hx0 : (0 <= x)%Q).
  { apply Qmult_le_0_compat; [|lra]. eapply Qle_trans; [|exact H1]. by apply (proj1 (inj_le 0 m)). }
  assert (Hx1 : (x < p2 (d + e))%Q).
  { unfold x. rewrite p2_add, (p2_Z d) by done. apply Qmult_lt_compat_r; [done|].
    eapply Qlt_le_trans; [exact H2|]. apply (proj1 (inj_le _ _)). lia. }
  assert (Hx2 : 0 < m -> (p2 (d - 1 + e) <= x)%Q).
  { intros Hp. destruct (Hd2 Hp) as [H3 H4]. unfold x. rewrite (p2_add (d - 1) e), p2_Z by lia.
    apply Qmult_le_compat_r; [|lra]. eapply Qle_trans; [|exact H1]. apply (proj1 (inj_le _ _)). lia. }
  assert (He : exp_of x e1).
  { unfold exp_of. split; [unfold e1, SpecFloat.fexp; lia|]. split.
    - eapply Qlt_le_trans; [apply Hx1|]. apply p2_le. unfold e1, SpecFloat.fexp. lia.
    - destruct (Z.eq_dec m 0) as [->|]; [left; by apply Hz|]. unfold e1, SpecFloat.fexp.
      destruct (Z.max_spec (d + e - prec) emin) as [[? ->]|[? ->]]; [by left|right].
      replace (prec - 1 + (d + e - prec)) with (d - 1 + e) by lia. apply Hx2. lia. }
  assert (exists mrs, shr_fexp prec emax m e l = (mrs, e1) /\ inrec mrs (x * p2 (- e1))) as (mrs & Es & Hr).
  { unfold shr_fexp. fold d e1.
    assert (Hvx : (x * p2 (- e1) == v * p2 (- (e1 - e)))%Q).
    { unfold x. rewrite <- Qmult_assoc, <- p2_add. by replace (e + - e1) with (- (e1 - e)) by lia. }
    destruct (e1 - e) as [|p|p] eqn:Ep; [| |lia]; eexists; cbn [shr].
    - split; [f_equal; lia|]. eapply inrec_compat; [|exact Hv]. rewrite Hvx. change (p2 (- 0)) with 1%Q. lra.
    - split; [f_equal; lia|]. eapply inrec_compat; [symmetry; exact Hvx|]. apply iter_shr_inrec; [lia|done]. }
  exists e1, (round_nearest_even (shr_m mrs) (loc_of_shr_record mrs)).
  pose proof (round_rne _ _ Hr) as Hn. split; [done|]. split; [done|].
  unfold binary_round_aux. rewrite Es. apply normalise_mk. by eapply rne_mantissa.
Qed.

Lemma rounds_compat s x y f : (x == y)%Q -> rounds s x f -> rounds s y f.
Proof.
  intros E (e & n & He & Hn & ->). exists e, n. split; [|split; [|done]].
  - unfold exp_of in *. by rewrite E in He.
  - eapply rne_compat; [|exact Hn]. by rewrite E.
Qed.

Lemma round_rounds s m e : rounds s (inject_Z (Zpos m) * p2 e) (binary_round prec emax s m e).
Proof.
  unfold binary_round, shl_align. rewrite digits2_pos_size.
  destruct (fexp (Zpos (Pos.size m) + e) - e) as [|d|d] eqn:Ed; cycle 2.
  - pose proof (iter_xO_shift m d) as Hi. pose proof (size_iter_xO m d) as Hs.
    assert (He : fexp (Zpos (Pos.size m) + e) = e - Zpos d) by lia.
    rewrite He. eapply rounds_compat; [|apply (aux_rounds s _ _ loc_Exact (inject_Z (Zpos (Pos.iter xO m d)))); [done| | |done]].
    + rewrite Hi, inject_Z_mult, <- p2_Z, <- Qmult_assoc, <- p2_add by lia.
      by replace (Zpos d + (e - Zpos d)) with e by lia.
    + unfold inrec. cbn. reflexivity.
    + rewrite digits_pos, Hs. replace (Zpos (Pos.size m + d) + (e - Zpos d)) with (Zpos (Pos.size m) + e) by lia. lia.
  - apply aux_rounds; [done|unfold inrec; cbn; reflexivity|rewrite digits_pos; lia|done].
  - apply aux_rounds; [done|unfold inrec; cbn; reflexivity|rewrite digits_pos; lia|done].
Qed.

(** ** Comparing rounded numbers *)

(** The mantissa [2^prec] is the next exponent's smallest. *)
Lemma mk_norm n e :
  mantissa n e -> 0 < n -> exists m e', 0 < m < 2 ^ prec /\ mantissa m e' /\
    (inject_Z m * p2 e' == inject_Z n * p2 e)%Q /\
    forall s, mk s n e = if e' <=? emax - prec then S754_finite s (Z.to_pos m) e' else S754_infinity s.
Proof.
  intros (He & Hn & Hm) H0. pose proof pow_prec as [Hp Hp0]. unfold mk.
  rewrite (proj2 (Z.eqb_neq n 0)) by lia. destruct (Z.eqb_spec n (2 ^ prec)) as [->|Hne].
  - exists (2 ^ (prec - 1)), (e + 1). split; [lia|]. split; [unfold mantissa; lia|]. split; [|done].
    rewrite p2_S, Hp, inject_Z_mult. change (inject_Z 2) with 2%Q. ring.
  - exists n, e. split; [lia|]. split; [unfold mantissa; lia|]. done.
Qed.

Lemma mantissa_order m e m' e' :
  0 < m < 2 ^ prec -> mantissa m e -> 0 < m' < 2 ^ prec -> mantissa m' e' ->
  (inject_Z m * p2 e <= inject_Z m' * p2 e')%Q -> e < e' \/ e = e' /\ m <= m'.
Proof.
  intros Hm (He & _ & Hn) Hm' (He' & _ & Hn') Hle. destruct (Z.lt_trichotomy e e') as [|[->|Hlt]]; [by left| |].
  - right. split; [done|]. apply inj_le. apply Qmult_le_r in Hle; [done|apply p2_pos].
  - exfalso. assert (Hq : 2 ^ (prec - 1) <= m) by lia. apply inj_le in Hq. rewrite <- p2_Z in Hq by lia.
    assert (Hq' : m' < 2 ^ prec) by lia. apply inj_lt in Hq'. rewrite <- p2_Z in Hq' by lia.
    pose proof (p2_pos e). pose proof (p2_pos e').
    assert (p2 (prec - 1) * p2 e <= inject_Z m * p2 e)%Q by (apply Qmult_le_compat_r; lra).
    assert (inject_Z m' * p2 e' < p2 prec * p2 e')%Q by (apply Qmult_lt_compat_r; lra).
    assert (p2 (prec + e') <= p2 (prec - 1 + e))%Q by (apply p2_le; lia).
    rewrite (p2_add prec e'), (p2_add (prec - 1) e) in H3. lra.
Qed.

Lemma mk_le n e n' e' :
  mantissa n e -> mantissa n' e' -> (inject_Z n * p2 e <= inject_Z n' * p2 e')%Q ->
  SFleb (mk false n e) (mk false n' e') = true /\ SFleb (mk true n' e') (mk true n e) = true.
Proof.
  intros Hn Hn' Hle. destruct (Z.eq_dec n 0) as [->|H0].
  { unfold mk. change (0 =? 0) with true. cbv iota. split; repeat case_match; done. }
  assert (0 < n') as H0'.
  { destruct (Z.lt_ge_cases 0 n'); [done|]. exfalso.
    assert (Hi : (inject_Z n' <= 0)%Q) by (apply (proj1 (inj_le n' 0)); lia).
    assert (Hj : (0 < inject_Z n)%Q) by (apply (proj1 (inj_lt 0 n)); destruct Hn; lia).
    pose proof (Qmult_lt_compat_r 0 (inject_Z n) (p2 e) (p2_pos e) Hj).
    pose proof (Qmult_le_compat_r (inject_Z n') 0 (p2 e') Hi (Qlt_le_weak _ _ (p2_pos e'))). lra. }
  destruct (mk_norm n e Hn ltac:(destruct Hn; lia)) as (m & f & Hm & Hmf & Hv & Hk).
  destruct (mk_norm n' e' Hn' H0') as (m' & f' & Hm' & Hmf' & Hv' & Hk'). rewrite !Hk, !Hk'.
  destruct (mantissa_order m f m' f' Hm Hmf Hm' Hmf') as [Hlt|[-> Hmm]]; [by rewrite Hv, Hv'| |].
  - destruct (Z.leb_spec f (emax - prec)), (Z.leb_spec f' (emax - prec)); try lia; try done.
    unfold SFleb, SFcompare. rewrite (proj2 (Z.compare_lt_iff _ _) Hlt), (proj2 (Z.compare_gt_iff _ _) Hlt). done.
  - destruct (f' <=? emax - prec); [|done]. unfold SFleb, SFcompare. rewrite Z.compare_refl.
    fold (Pos.compare (Z.to_pos m) (Z.to_pos m')). fold (Pos.compare (Z.to_pos m') (Z.to_pos m)).
    rewrite (Pos.compare_antisym (Z.to_pos m) (Z.to_pos m')).
    destruct (Pos.compare_spec (Z.to_pos m) (Z.to_pos m')); try done. lia.
Qed.

Lemma rounds_le x y e n e' n' :
  (0 <= x)%Q -> (x <= y)%Q -> exp_of x e -> rne (x * p2 (- e)) n -> exp_of y e' -> rne (y * p2 (- e')) n' ->
  mantissa n e /\ mantissa n' e' /\ (inject_Z n * p2 e <= inject_Z n' * p2 e')%Q.
Proof.
  intros Hx Hxy He Hn He' Hn'.
  assert (Hm : mantissa n e) by (by eapply rne_mantissa).
  assert (Hm' : mantissa n' e') by (eapply rne_mantissa; [|done|done]; lra). do 2 (split; [done|]).
  pose proof (p2_pos e) as P. pose proof (p2_pos e') as P'.
  destruct He as (He1 & He2 & He3), He' as (He1' & He2' & He3').
  destruct (Z.lt_trichotomy e e') as [Hlt|[->|Hlt]].
  - destruct Hm as (_ & [_ Hu] & _), Hm' as (_ & _ & Hl). assert (Hl' : 2 ^ (prec - 1) <= n') by lia.
    apply inj_le in Hu, Hl'. rewrite <- p2_Z in Hu, Hl' by lia.
    assert (inject_Z n * p2 e <= p2 prec * p2 e)%Q by (apply Qmult_le_compat_r; lra).
    assert (p2 (prec - 1) * p2 e' <= inject_Z n' * p2 e')%Q by (apply Qmult_le_compat_r; lra).
    assert (p2 (prec + e) <= p2 (prec - 1 + e'))%Q by (apply p2_le; lia).
    rewrite (p2_add prec e), (p2_add (prec - 1) e') in H1. lra.
  - apply Qmult_le_compat_r; [|lra]. apply (proj1 (inj_le _ _)). eapply rne_mono; [|exact Hn|exact Hn'].
    apply Qmult_le_compat_r; [done|]. apply Qlt_le_weak, p2_pos.
  - exfalso. destruct He3 as [->|He3]; [lia|].
    assert (Hc : (p2 (prec - 1 + e) < p2 (prec + e'))%Q) by lra.
    assert (p2 (prec + e') <= p2 (prec - 1 + e))%Q by (apply p2_le; lia). lra.
Qed.

(** ** Signed rounding *)

Definition signed (s : bool) (x : Q) : Q := if s then (- x)%Q else x.
#[export] Instance signed_proper : Proper (eq ==> Qeq ==> Qeq) signed.
Proof. intros s ? <- x y E. destruct s; cbn; by rewrite E. Qed.

(** [f] is [x] rounded; the sign of a zero is left open. *)
Definition RN (x : Q) (f : spec_float) : Prop := exists s, (0 <= signed s x)%Q /\ rounds s (signed s x) f.

Lemma RN_mono x y f g : (x <= y)%Q -> RN x f -> RN y g -> SFleb f g = true.
Proof.
  intros Hxy (s & Hs & e & n & He & Hn & ->) (t & Ht & e' & n' & He' & Hn' & ->). destruct s, t; cbn [signed] in *.
  - destruct (rounds_le (- y) (- x) e' n' e n Ht ltac:(lra) He' Hn' He Hn) as (H1 & H2 & H3).
    by apply (mk_le n' e' n e).
  - unfold mk. repeat case_match; done.
  - destruct (rounds_le x (- y) e n e' n' Hs ltac:(lra) He Hn He' Hn') as (H1 & H2 & H3).
    destruct (rounds_le (- y) x e' n' e n Ht ltac:(lra) He' Hn' He Hn) as (_ & _ & H4).
    assert (Hz : n = 0).
    { assert (rne 0 n) as Hr by (eapply rne_compat; [|exact Hn]; assert (Hx : (x == 0)%Q) by lra; rewrite Hx; ring).
      pose proof (rne_mono 0 0 n 0 ltac:(lra) Hr (rne_int 0)). pose proof (rne_mono 0 0 0 n ltac:(lra) (rne_int 0) Hr). lia. }
    subst n. assert (Hz : n' = 0).
    { assert (rne 0 n') as Hr by (eapply rne_compat; [|exact Hn']; assert (Hx : (y == 0)%Q) by lra; rewrite Hx; ring).
      pose proof (rne_mono 0 0 n' 0 ltac:(lra) Hr (rne_int 0)). pose proof (rne_mono 0 0 0 n' ltac:(lra) (rne_int 0) Hr). lia. }
    by subst n'.
  - destruct (rounds_le x y e n e' n' Hs Hxy He Hn He' Hn') as (H1 & H2 & H3). by apply (mk_le n e n' e').
Qed.

Lemma RN_compat x y f : (x == y)%Q -> RN x f -> RN y f.
Proof.
  intros E (s & H1 & H2). exists s. assert (Es : (signed s x == signed s y)%Q) by (destruct s; cbn; lra).
  split; [lra|]. by eapply rounds_compat.
Qed.

Lemma RN_zero s : RN 0 (S754_zero s).
Proof.
  exists s. split; [destruct s; cbn; lra|]. exists emin, 0. split; [|split; [|done]].
  - split; [lia|]. split; [|by left]. destruct s; apply p2_pos.
  - eapply rne_compat; [|apply (rne_int 0)]. change (inject_Z 0) with 0%Q. destruct s; cbn [signed]; ring.
Qed.

(** A nonnegative number, signed. *)
Lemma RN_signed s x f : (0 <= x)%Q -> rounds s x f -> RN (signed s x) f.
Proof.
  intros Hx Hr. assert (E : (signed s (signed s x) == x)%Q) by (destruct s; cbn [signed]; ring).
  exists s. split; [by rewrite E|]. by eapply rounds_compat; [symmetry; exact E|].
Qed.

(** ** Values *)

(** The value of a finite number; the finite numbers in canonical form. *)
Definition fval (a : spec_float) : Q :=
  match a with
  | S754_finite s m e => signed s (inject_Z (Zpos m) * p2 e)
  | _ => 0%Q
  end.

Definition finite_in (a : spec_float) : bool := isFinite a && valid_binary prec emax a.

Lemma bounded_mantissa m e :
  bounded prec emax m e = true ->
  emin <= e <= emax - prec /\ Zpos m < 2 ^ prec /\
  (e = emin \/ 2 ^ (prec - 1) <= Zpos m).
Proof.
  unfold bounded, canonical_mantissa. rewrite digits2_pos_size. intros [H1%Z.eqb_eq H2%Z.leb_le]%andb_true_iff.
  unfold SpecFloat.fexp in H1. pose proof (size_bounds m) as [H3 H4]. split; [lia|].
  split; [eapply Z.lt_le_trans; [exact H4|]; apply Z.pow_le_mono_r; lia|].
  destruct (Z.eq_dec e (emin)) as [|Hne]; [by left|right].
  assert (E : Zpos (Pos.size m) = prec) by lia. rewrite E in H3. rewrite (proj1 pow_prec) in H3. lia.
Qed.

(** A number rounds to itself. *)
Lemma RN_val a : finite_in a = true -> RN (fval a) a.
Proof.
  unfold finite_in. intros [Hf Hv]%andb_true_iff. destruct a as [s| | |s m e]; try done; [apply RN_zero|].
  cbn in Hv. destruct (bounded_mantissa m e Hv) as (He & Hm & Hn). pose proof (p2_pos e) as Pe.
  assert (Hi : (0 < inject_Z (Zpos m))%Q) by (by apply (proj1 (inj_lt 0 (Zpos m)))).
  assert (Es : (signed s (fval (S754_finite s m e)) == inject_Z (Zpos m) * p2 e)%Q) by (destruct s; cbn [fval signed]; ring).
  exists s. split; [rewrite Es; apply Qmult_le_0_compat; lra|]. eapply rounds_compat; [symmetry; exact Es|].
  exists e, (Zpos m). split; [|split].
  - split; [lia|]. split.
    + rewrite p2_add, (p2_Z prec) by lia. apply Qmult_lt_compat_r; [done|]. by apply (proj1 (inj_lt _ _)).
    + destruct Hn as [->|Hn]; [by left|right]. rewrite p2_add, (p2_Z (prec - 1)) by lia.
      apply Qmult_le_compat_r; [|lra]. by apply (proj1 (inj_le _ _)).
  - eapply rne_compat; [|apply rne_int]. rewrite <- Qmult_assoc, <- p2_add.
    replace (e + - e) with 0 by lia. change (p2 0) with 1%Q. ring.
  - unfold mk. change (Zpos m =? 0) with false. rewrite (proj2 (Z.eqb_neq (Zpos m) (2 ^ prec))) by lia.
    by rewrite (proj2 (Z.leb_le e (emax - prec))) by lia.
Qed.

(** On these numbers the order is the order of the values. *)
Lemma fval_rank a b : rank a = rank b -> (fval a == fval b)%Q.
Proof.
  destruct a as [[]|[]| |[] m e], b as [[]|[]| |[] m' e']; cbn; intros E; simplify_eq; try done;
    replace e' with e by lia; reflexivity.
Qed.

Lemma nleb_fval a b : finite_in a = true -> finite_in b = true -> nleb a b = true <-> (fval a <= fval b)%Q.
Proof.
  intros Ha Hb. pose proof (RN_val a Ha) as Ra. pose proof (RN_val b Hb) as Rb.
  unfold finite_in in *. apply andb_true_iff in Ha as [Ha _], Hb as [Hb _]. apply isFinite_notNaN in Ha, Hb.
  split; intros Hle; [|by eapply RN_mono].
  destruct (Qlt_le_dec (fval b) (fval a)) as [Hlt|]; [exfalso|done].
  assert (Hba : nleb b a = true) by (eapply RN_mono; [|exact Rb|exact Ra]; lra).
  apply nleb_rank in Hle, Hba; try done. destruct Hle as [Hle|Hle].
  - destruct Hba as [Hba|Hba]; [by eapply rank_lt_irrefl, rank_lt_trans|]. rewrite Hba in Hle. by eapply rank_lt_irrefl.
  - apply fval_rank in Hle. lra.
Qed.

(** Rounding yields canonical numbers. *)
Lemma RN_finite x f : RN x f -> isFinite f = true -> finite_in f = true.
Proof.
  intros (s & Hs & e & n & He & Hn & ->) Hf. pose proof (rne_mantissa _ _ _ Hs He Hn) as Hm.
  unfold finite_in. rewrite Hf. cbn [andb]. destruct (Z.eq_dec n 0) as [->|H0]; [done|].
  destruct (mk_norm n e Hm ltac:(destruct Hm; lia)) as (m & e' & Hm' & (He' & _ & Hn') & _ & ->).
  destruct (Z.leb_spec e' (emax - prec)); [|done]. cbn. unfold bounded, canonical_mantissa.
  rewrite digits2_pos_size, (proj2 (Z.leb_le _ _)), andb_true_r by done. apply Z.eqb_eq. unfold SpecFloat.fexp.
  pose proof (size_le_prec (Z.to_pos m) ltac:(lia)) as H1. pose proof (size_bounds (Z.to_pos m)) as [_ H2].
  destruct Hn' as [->|Hn']; [lia|].
  assert (prec - 1 < Zpos (Pos.size (Z.to_pos m))); [|lia]. apply (Z.pow_lt_mono_r_iff 2); lia.
Qed.

(** Products: the exponents of canonical operands allow the rounding. *)
Lemma mul_rounds s m e m' e' :
  bounded prec emax m e = true -> bounded prec emax m' e' = true ->
  rounds s (inject_Z (Zpos m) * p2 e * (inject_Z (Zpos m') * p2 e'))
    (binary_round_aux prec emax s (Zpos (m * m')) (e + e') loc_Exact).
Proof.
  unfold bounded, canonical_mantissa. rewrite (digits2_pos_size m), (digits2_pos_size m').
  intros [H1 _]%andb_true_iff [H2 _]%andb_true_iff.
  apply Z.eqb_eq in H1, H2. eapply rounds_compat; [|apply (aux_rounds s _ _ loc_Exact (inject_Z (Zpos (m * m'))))].
  - rewrite Pos2Z.inj_mul, inject_Z_mult, p2_add. ring.
  - done.
  - unfold inrec. cbn. reflexivity.
  - rewrite digits_pos. unfold SpecFloat.fexp, SpecFloat.emin in *.
    assert (Hs : forall p q, Zpos (Pos.size p) <= Zpos (Pos.size (p * q))).
    { intros p q. pose proof (size_bounds p) as [Hp _]. pose proof (size_bounds (p * q)) as [_ Hq].
      destruct (Z.le_gt_cases (Zpos (Pos.size p)) (Zpos (Pos.size (p * q)))) as [|Hlt]; [done|exfalso].
      pose proof (Z.pow_le_mono_r 2 (Zpos (Pos.size (p * q)) + 1) (Zpos (Pos.size p)) ltac:(lia) ltac:(lia)) as Hw.
      assert (Zpos p <= Zpos (p * q)) by (rewrite Pos2Z.inj_mul; nia).
      rewrite Z.pow_add_r in Hw by lia. lia. }
    pose proof (Hs m m'). pose proof (Hs m' m). rewrite (Pos.mul_comm m' m) in *. lia.
  - done.
Qed.

(** Quotients: the location describes the remainder. *)
Lemma new_location_inrec q n k :
  0 <= k < n -> inrec (shr_record_of_loc q (new_location n k)) (inject_Z q + inject_Z k / inject_Z n).
Proof.
  intros Hk. assert (Hn : (0 < inject_Z n)%Q) by (apply (proj1 (inj_lt 0 n)); lia).
  assert (Hf : (inject_Z k / inject_Z n * inject_Z n == inject_Z k)%Q) by (field; lra).
  set (f := (inject_Z k / inject_Z n)%Q) in *.
  assert (Hlo : 0 < k -> (0 < f)%Q).
  { intros ?. apply (Qmult_lt_r _ _ (inject_Z n)); [done|]. rewrite Hf, Qmult_0_l. by apply (proj1 (inj_lt 0 k)). }
  assert (Hhi : (f < 1)%Q).
  { apply (Qmult_lt_r _ _ (inject_Z n)); [done|]. rewrite Hf, Qmult_1_l. apply (proj1 (inj_lt k n)). lia. }
  assert (Hcmp : forall c, (2 * k ?= n) = c ->
    match c with Lt => f < 1 # 2 | Eq => f == 1 # 2 | Gt => 1 # 2 < f end%Q).
  { intros c Hc. assert (H2 : (inject_Z (2 * k) == 2 * f * inject_Z n)%Q).
    { rewrite inject_Z_mult. change (inject_Z 2) with 2%Q. rewrite <- Hf. ring. }
    destruct (Z.compare_spec (2 * k) n) as [E|E|E]; subst c.
    - rewrite E in H2. apply (Qmult_inj_r _ _ (inject_Z n)); [intros ?; lra|]. lra.
    - apply inj_lt in E. apply (Qmult_lt_r _ _ (inject_Z n)); [done|]. lra.
    - apply inj_lt in E. apply (Qmult_lt_r _ _ (inject_Z n)); [done|]. lra. }
  unfold new_location, new_location_even, new_location_odd, inrec.
  destruct (Z.eq_dec k 0) as [->|Hk0].
  { assert (Hz : (f == 0)%Q) by (unfold f; change (inject_Z 0) with 0%Q; field; lra).
    destruct (Z.even n); cbn; lra. }
  specialize (Hlo ltac:(lia)). apply Z.eqb_neq in Hk0. destruct (Z.even n) eqn:Ee; rewrite Hk0.
  - specialize (Hcmp _ eq_refl). destruct (2 * k ?= n); cbn; lra.
  - destruct (Z.compare_spec (2 * k + 1) n); cbn.
    + specialize (Hcmp Lt (proj2 (Z.compare_lt_iff (2 * k) n) ltac:(lia))). cbn in Hcmp. lra.
    + specialize (Hcmp Lt (proj2 (Z.compare_lt_iff (2 * k) n) ltac:(lia))). cbn in Hcmp. lra.
    + assert (2 * k <> n) by (intros <-; by rewrite Z.even_mul in Ee).
      specialize (Hcmp Gt (proj2 (Z.compare_gt_iff (2 * k) n) ltac:(lia))). cbn in Hcmp. lra.
Qed.

Lemma fexp_mono a b : a <= b -> fexp a <= fexp b.
Proof. unfold SpecFloat.fexp. lia. Qed.

Lemma div_rounds s m e m' e' :
  rounds s (inject_Z (Zpos m) * p2 e / (inject_Z (Zpos m') * p2 e'))
    (let '(q, eq, l) := SFdiv_core_binary prec emax (Zpos m) e (Zpos m') e' in
     binary_round_aux prec emax s q eq l).
Proof.
  unfold SFdiv_core_binary. rewrite !digits_pos. set (D := Zpos (Pos.size m) + e - (Zpos (Pos.size m') + e')).
  set (f := Z.min (fexp D) (e - e')). set (k := e - e' - f). assert (Hk : 0 <= k) by (unfold k, f; lia).
  replace (match k with Z0 => Zpos m | Zpos _ => Z.shiftl (Zpos m) k | Zneg _ => 0 end) with (Zpos m * 2 ^ k).
  2: { destruct k as [|p|p]; [by rewrite Z.mul_1_r|by rewrite Z.shiftl_mul_pow2|lia]. }
  set (a := Zpos m * 2 ^ k). pose proof (Z_div_mod a (Zpos m') ltac:(lia)) as Hd.
  destruct (Z.div_eucl a (Zpos m')) as [q r]. destruct Hd as [Ha Hr].
  assert (P : 0 < 2 ^ k) by (apply Z.pow_pos_nonneg; lia). assert (Ha0 : 0 < a) by (unfold a; lia).
  assert (Hq : 0 <= q) by (destruct (Z.lt_ge_cases q 0); [nia|done]).
  assert (Hdig : D <= Zdigits2 q + f).
  { pose proof (digits_bounds q Hq) as [H1 _]. pose proof (digits_nonneg q) as H0.
    pose proof (size_bounds m) as [H2 _]. pose proof (size_bounds m') as [_ H3].
    assert (H4 : 2 ^ (Zpos (Pos.size m) + k) < 2 ^ (Zdigits2 q + Zpos (Pos.size m') + 1)).
    { rewrite !Z.pow_add_r by lia. change (2 ^ 1) with 2. unfold a in Ha. nia. }
    apply Z.pow_lt_mono_r_iff in H4; [|lia|lia]. unfold D, k in *. lia. }
  assert (Hf : f <= fexp D) by (unfold f; lia). pose proof (fexp_mono _ _ Hdig) as Hm.
  eapply rounds_compat; [|apply (aux_rounds s q f _ (inject_Z q + inject_Z r / inject_Z (Zpos m')));
    [done|by apply new_location_inrec|lia|]].
  - assert (Hz : ~ (inject_Z (Zpos m') == 0)%Q).
    { intros E. change 0%Q with (inject_Z 0) in E. by apply inject_Z_injective in E. }
    pose proof (p2_pos e') as Pe. pose proof (p2_pos f) as Pf.
    assert (Hv : (inject_Z (Zpos m) * p2 k == inject_Z (Zpos m') * inject_Z q + inject_Z r)%Q).
    { rewrite p2_Z, <- !inject_Z_mult, <- inject_Z_plus by lia. by rewrite <- Ha. }
    assert (He : (p2 e == p2 k * p2 f * p2 e')%Q).
    { rewrite <- !p2_add. unfold k. by replace (e - e' - f + f + e') with e by lia. }
    rewrite He. transitivity ((inject_Z (Zpos m) * p2 k) * p2 f / inject_Z (Zpos m'))%Q; [rewrite Hv|]; field; lra.
  - intros ->. cbn [Zdigits2] in *. unfold SpecFloat.fexp in *. lia.
Qed.

(** Square roots: the result is a rounded number whose square is within a factor
    of four. *)
Lemma sqrt_rounds m e :
  exists v, rounds false v
    (let '(q, eq, l) := SFsqrt_core_binary prec emax (Zpos m) e in binary_round_aux prec emax false q eq l) /\
    (0 <= v /\ inject_Z (Zpos m) * p2 e <= 4 * (v * v) /\ v * v <= 4 * (inject_Z (Zpos m) * p2 e))%Q.
Proof.
  unfold SFsqrt_core_binary. rewrite digits_pos. set (d := Zpos (Pos.size m)).
  set (e' := Z.min (fexp (Z.div2 (d + e + 1))) (Z.div2 e)). set (k := e - 2 * e').
  assert (Hk : 0 <= k) by (pose proof (Z.div2_odd e); unfold k, e'; destruct (Z.odd e); cbn in *; lia).
  replace (match k with Z0 => Zpos m | Zpos _ => Z.shiftl (Zpos m) k | Zneg _ => 0 end) with (Zpos m * 2 ^ k).
  2: { destruct k as [|p|p]; [by rewrite Z.mul_1_r|by rewrite Z.shiftl_mul_pow2|lia]. }
  set (a := Zpos m * 2 ^ k). assert (P : 0 < 2 ^ k) by (apply Z.pow_pos_nonneg; lia).
  assert (Ha : 0 < a) by (unfold a; lia). pose proof (Z.sqrtrem_spec a ltac:(lia)) as Hs.
  destruct (Z.sqrtrem a) as [q r]. destruct Hs as [Hq Hr]. assert (H0 : 0 < q) by nia.
  assert (Hdig : Z.div2 (d + e + 1) <= Zdigits2 q + e').
  { pose proof (digits_bounds q ltac:(lia)) as [H1 _]. pose proof (digits_nonneg q) as H2.
    pose proof (size_bounds m) as [H3 _]. fold d in H3.
    assert (H4 : 2 ^ (d - 1 + k) < 2 ^ (Zdigits2 q + Zdigits2 q)).
    { rewrite !Z.pow_add_r by lia. assert (2 ^ (d - 1) <= Zpos m).
      { pose proof (digits_bounds (Zpos m) ltac:(lia)) as [_ H4]. rewrite digits_pos in H4. destruct H4; [lia|done]. }
      assert (a < (q + 1) * (q + 1)) by nia. unfold a in *. nia. }
    apply Z.pow_lt_mono_r_iff in H4; [|lia|lia]. pose proof (Z.div2_odd (d + e + 1)).
    destruct (Z.odd (d + e + 1)); cbn in *; unfold k in *; lia. }
  set (l := if r =? 0 then loc_Exact else _).
  assert (exists c, inrec (shr_record_of_loc q l) c) as (c & Hc).
  { unfold l. destruct (r =? 0); [exists (inject_Z q); reflexivity|].
    destruct (r <=? q); [exists (inject_Z q + (1 # 4))%Q|exists (inject_Z q + (3 # 4))%Q]; unfold inrec; cbn; lra. }
  exists (c * p2 e')%Q. split; [apply (aux_rounds false q e' l c); [lia|done| |lia]|].
  - pose proof (fexp_mono _ _ Hdig). unfold e' in *. lia.
  - pose proof (inrec_bounds _ _ Hc) as [H1 H1']. assert (Em : shr_m (shr_record_of_loc q l) = q) by (by destruct l as [|[]]).
    rewrite Em in H1, H1'. pose proof (p2_pos e') as Pe. assert (H2 : (1 <= inject_Z q)%Q) by (apply (proj1 (inj_le 1 q)); lia).
    split; [apply Qmult_le_0_compat; lra|].
    assert (E : (inject_Z (Zpos m) * p2 e == inject_Z a * (p2 e' * p2 e'))%Q).
    { unfold a. rewrite inject_Z_mult, <- (p2_Z k) by done. rewrite <- Qmult_assoc, <- !p2_add.
      unfold k. by replace (e - 2 * e' + (e' + e')) with e by lia. }
    assert (H3 : (inject_Z a <= 4 * (inject_Z q * inject_Z q))%Q).
    { change 4%Q with (inject_Z 4). rewrite <- !inject_Z_mult. apply (proj1 (inj_le _ _)). nia. }
    assert (H4 : (inject_Z q * inject_Z q <= inject_Z a)%Q).
    { rewrite <- inject_Z_mult. apply (proj1 (inj_le _ _)). nia. }
    rewrite inject_Z_plus in H1'. change (inject_Z 1) with 1%Q in H1'.
    assert (H5 : (inject_Z q * inject_Z q <= c * c)%Q) by nra.
    assert (H6 : (c * c <= 4 * (inject_Z q * inject_Z q))%Q) by nra.
    assert (Pp : (0 < p2 e' * p2 e')%Q) by nra. rewrite E. set (pp := (p2 e' * p2 e')%Q) in *.
    assert (Ec : (c * p2 e' * (c * p2 e') == c * c * pp)%Q) by (unfold pp; ring). rewrite Ec. split; nra.
Qed.

End Format.

(** ** Numbers *)

Definition fin (a : num) : bool := finite_in prec emax a.

(** [f] is [x] rounded to a number. *)
Definition rnd (x : Q) (f : num) : Prop := RN prec emax x f.

Lemma prec_ok : 1 < prec.
Proof. done. Qed.
Lemma emax_ok : prec < emax.
Proof. done. Qed.
#[local] Hint Resolve prec_ok emax_ok : core.

Lemma rnd_mono x y f g : (x <= y)%Q -> rnd x f -> rnd y g -> nleb f g = true.
Proof. intros. eapply (RN_mono prec emax); eauto. Qed.
Lemma rnd_compat x y f : (x == y)%Q -> rnd x f -> rnd y f.
Proof. apply RN_compat; auto. Qed.
Lemma rnd_zero s : rnd 0 (S754_zero s).
Proof. apply RN_zero; auto. Qed.
Lemma rnd_val a : fin a = true -> rnd (fval a) a.
Proof. apply RN_val; auto. Qed.
Lemma nleb_val a b : fin a = true -> fin b = true -> nleb a b = true <-> (fval a <= fval b)%Q.
Proof. apply nleb_fval; auto. Qed.
Lemma rnd_fin x f : rnd x f -> isFinite f = true -> fin f = true.
Proof. apply RN_finite; auto. Qed.

Lemma align_val m e f :
  f <= e -> (inject_Z (Zpos (fst (shl_align m e f))) * p2 f == inject_Z (Zpos m) * p2 e)%Q.
Proof.
  intros Hle. unfold shl_align. destruct (f - e) as [|d|d] eqn:E; [|lia|]; cbn [fst].
  - by replace f with e by lia.
  - rewrite iter_xO_shift, inject_Z_mult, <- p2_Z, <- Qmult_assoc, <- p2_add by lia.
    by replace (Zpos d + f) with e by lia.
Qed.

Lemma normalize_RN z e s : rnd (inject_Z z * p2 e) (binary_normalize prec emax z e s).
Proof.
  destruct z as [|p|p]; cbn [binary_normalize].
  - eapply rnd_compat; [|apply rnd_zero]. change (inject_Z 0) with 0%Q. ring.
  - exists false. cbn [signed]. split; [|by apply round_rounds].
    apply Qmult_le_0_compat; [by apply (proj1 (inj_le 0 (Zpos p)))|]. apply Qlt_le_weak, p2_pos.
  - assert (E : (signed true (inject_Z (Zneg p) * p2 e) == inject_Z (Zpos p) * p2 e)%Q).
    { cbn [signed]. change (Zneg p) with (- Zpos p). rewrite inject_Z_opp. ring. }
    exists true. split; [rewrite E|eapply rounds_compat; [symmetry; exact E|by apply round_rounds]].
    apply Qmult_le_0_compat; [by apply (proj1 (inj_le 0 (Zpos p)))|]. apply Qlt_le_weak, p2_pos.
Qed.

Lemma fin_cases a : fin a = true -> (exists s, a = S754_zero s) \/ exists s m e, a = S754_finite s m e /\ bounded prec emax m e = true.
Proof. unfold fin, finite_in. destruct a; cbn; try done; eauto 6. Qed.

Lemma nadd_RN a b : fin a = true -> fin b = true -> rnd (fval a + fval b) (a + b)%num.
Proof.
  intros Ha Hb. destruct (fin_cases a Ha) as [(s & ->)|(s & m & e & -> & Hm)],
    (fin_cases b Hb) as [(t & ->)|(t & m' & e' & -> & Hm')].
  - eapply rnd_compat; [|destruct s, t; apply rnd_zero]. cbn [fval]. ring.
  - apply (rnd_compat (fval (S754_finite t m' e'))); [cbn [fval]; ring|exact (rnd_val _ Hb)].
  - apply (rnd_compat (fval (S754_finite s m e))); [cbn [fval]; ring|exact (rnd_val _ Ha)].
  - unfold nadd, SFadd. eapply rnd_compat; [|apply normalize_RN]. rewrite inject_Z_plus, Qmult_plus_distr_l.
    pose proof (align_val m e (Z.min e e') ltac:(lia)) as H1. pose proof (align_val m' e' (Z.min e e') ltac:(lia)) as H2.
    cbn [fval]. destruct s, t; cbn [SpecFloat.cond_Zopp signed]; rewrite ?inject_Z_opp; lra.
Qed.

Lemma nsub_nadd a b : (a - b)%num = (a + - b)%num.
Proof.
  destruct a as [[]|[]| |[] m e], b as [[]|[]| |[] m' e']; cbn; try done;
    unfold Z.sub; rewrite ?Z.opp_involutive; done.
Qed.

Lemma fin_opp a : fin (- a)%num = fin a.
Proof. by destruct a. Qed.

Lemma fval_opp a : (fval (- a)%num == - fval a)%Q.
Proof. destruct a as [| | |[] m e]; cbn [nopp SFopp fval signed negb]; ring. Qed.

Lemma nsub_RN a b : fin a = true -> fin b = true -> rnd (fval a - fval b) (a - b)%num.
Proof.
  intros Ha Hb. rewrite nsub_nadd. eapply rnd_compat; [|apply nadd_RN; [done|by rewrite fin_opp]].
  rewrite fval_opp. ring.
Qed.

Lemma signed_mul s t x y : (signed s x * signed t y == signed (xorb s t) (x * y))%Q.
Proof. destruct s, t; cbn [signed xorb]; ring. Qed.

Lemma fval_nonneg m e : (0 <= inject_Z (Zpos m) * p2 e)%Q.
Proof. apply Qmult_le_0_compat; [by apply (proj1 (inj_le 0 (Zpos m)))|]. apply Qlt_le_weak, p2_pos. Qed.

Lemma nmul_RN a b : fin a = true -> fin b = true -> rnd (fval a * fval b) (a * b)%num.
Proof.
  intros Ha Hb. destruct (fin_cases a Ha) as [(s & ->)|(s & m & e & -> & Hm)],
    (fin_cases b Hb) as [(t & ->)|(t & m' & e' & -> & Hm')].
  1-3: cbn [nmul SFmul]; (eapply rnd_compat; [|apply rnd_zero]); cbn [fval]; ring.
  eapply rnd_compat; [symmetry; apply signed_mul|]. apply RN_signed; [|by apply mul_rounds].
  apply Qmult_le_0_compat; apply fval_nonneg.
Qed.

Lemma fval_pos m e : (0 < inject_Z (Zpos m) * p2 e)%Q.
Proof. apply Qmult_lt_0_compat; [by apply (proj1 (inj_lt 0 (Zpos m)))|apply p2_pos]. Qed.

Lemma signed_div s t x y : (0 < y)%Q -> (signed s x / signed t y == signed (xorb s t) (x / y))%Q.
Proof. intros Hy. destruct s, t; cbn [signed xorb]; field; lra. Qed.

Lemma ndiv_RN a s m e :
  fin a = true -> rnd (fval a / fval (S754_finite s m e)) (a / S754_finite s m e)%num.
Proof.
  intros Ha. pose proof (fval_pos m e) as Hp.
  destruct (fin_cases a Ha) as [(t & ->)|(t & m' & e' & -> & Hm')].
  - apply (rnd_compat 0); [cbn [fval]; unfold Qdiv; ring|apply rnd_zero].
  - eapply rnd_compat; [symmetry; by apply signed_div|]. apply RN_signed; [|by apply div_rounds].
    apply Qle_shift_div_l; [done|]. rewrite Qmult_0_l. apply fval_nonneg.
Qed.

(** ** Interval arithmetic *)

Definition between (lo hi a : num) : Prop := fin a = true /\ nleb lo a = true /\ nleb a hi = true.

Lemma between_finite lo hi a :
  isFinite lo = true -> isFinite hi = true -> nleb lo a = true -> nleb a hi = true -> isFinite a = true.
Proof. by destruct a as [|[]| |], lo, hi. Qed.

Lemma rnd_between l x h flo f fhi :
  (l <= x)%Q -> (x <= h)%Q -> rnd l flo -> rnd x f -> rnd h fhi ->
  isFinite flo = true -> isFinite fhi = true -> between flo fhi f.
Proof.
  intros Hl Hh Rl Rx Rh Fl Fh. pose proof (rnd_mono _ _ _ _ Hl Rl Rx) as H1. pose proof (rnd_mono _ _ _ _ Hh Rx Rh) as H2.
  split; [|done]. eapply rnd_fin; [done|]. exact (between_finite flo fhi f Fl Fh H1 H2).
Qed.

Lemma between_val lo hi a :
  fin lo = true -> fin hi = true -> between lo hi a -> (fval lo <= fval a /\ fval a <= fval hi)%Q.
Proof. intros Hl Hh (Ha & H1 & H2). by rewrite <- !nleb_val. Qed.

Lemma between_const c : fin c = true -> between c c c.
Proof.
  intros Hc. assert (isNaN c = false) by (by destruct c). split; [done|]. by rewrite nleb_refl.
Qed.

Lemma between_weaken lo hi lo' hi' a :
  between lo hi a -> nleb lo' lo = true -> nleb hi hi' = true -> between lo' hi' a.
Proof. intros (Ha & H1 & H2) Hl Hh. split; [done|]. eauto using nleb_trans. Qed.

Section Rules.
Context (lo hi lo' hi' a b : num).
Context (Hlo : fin lo = true) (Hhi : fin hi = true) (Ha : between lo hi a).

Lemma between_add :
  fin lo' = true -> fin hi' = true -> between lo' hi' b ->
  isFinite (lo + lo')%num = true -> isFinite (hi + hi')%num = true -> between (lo + lo') (hi + hi') (a + b)%num.
Proof.
  intros Hlo' Hhi' Hb Fl Fh. pose proof (between_val lo hi a Hlo Hhi Ha). pose proof (between_val lo' hi' b Hlo' Hhi' Hb).
  destruct Ha as [Fa _], Hb as [Fb _].
  eapply rnd_between; [| |by apply nadd_RN..|done|done]; lra.
Qed.

Lemma between_sub :
  fin lo' = true -> fin hi' = true -> between lo' hi' b ->
  isFinite (lo - hi')%num = true -> isFinite (hi - lo')%num = true -> between (lo - hi') (hi - lo') (a - b)%num.
Proof.
  intros Hlo' Hhi' Hb Fl Fh. pose proof (between_val lo hi a Hlo Hhi Ha). pose proof (between_val lo' hi' b Hlo' Hhi' Hb).
  destruct Ha as [Fa _], Hb as [Fb _].
  eapply rnd_between; [| |by apply nsub_RN..|done|done]; lra.
Qed.

Lemma between_mul c :
  fin c = true -> nleb nzero c = true ->
  isFinite (lo * c)%num = true -> isFinite (hi * c)%num = true -> between (lo * c) (hi * c) (a * c)%num.
Proof.
  intros Hc H0 Fl Fh. pose proof (between_val lo hi a Hlo Hhi Ha) as [H1 H2]. apply nleb_val in H0; [|done|done].
  destruct Ha as [Fa _]. cbn [fval nzero] in H0.
  eapply rnd_between; [| |by apply nmul_RN..|done|done]; by apply Qmult_le_compat_r.
Qed.

Lemma between_div m e :
  let c := S754_finite false m e in
  isFinite (lo / c)%num = true -> isFinite (hi / c)%num = true -> between (lo / c) (hi / c) (a / c)%num.
Proof.
  intros c Fl Fh. pose proof (between_val lo hi a Hlo Hhi Ha) as [H1 H2]. destruct Ha as [Fa _].
  pose proof (fval_pos m e) as Hp.
  assert (Hi : (0 <= / fval c)%Q) by (apply Qinv_le_0_compat; cbn; lra).
  eapply rnd_between; [| |by apply ndiv_RN..|done|done]; unfold Qdiv; by apply Qmult_le_compat_r.
Qed.

End Rules.

(** Bounds on a square root, each away by a factor of two. *)
Lemma between_sqrt b c a :
  fin a = true -> fin b = true -> fin c = true -> (0 <= fval b)%Q -> (0 <= fval c)%Q ->
  (4 * (fval b * fval b) <= fval a /\ 4 * fval a <= fval c * fval c)%Q -> between b c (nsqrt a).
Proof.
  intros Ha Hb Hc Hb0 Hc0 [Hl Hh].
  assert (exists v, rnd v (nsqrt a) /\ (fval b <= v /\ v <= fval c)%Q) as (v & Rv & H1 & H2).
  { destruct (fin_cases a Ha) as [(s & ->)|([] & m & e & -> & Hm)]; cbn [fval signed] in *.
    - exists 0%Q. split; [apply rnd_zero|]. nra.
    - pose proof (fval_pos m e). nra.
    - destruct (sqrt_rounds prec emax prec_ok m e) as (v & Hv & V0 & L & U). exists v. split.
      + apply (RN_signed prec emax) in Hv; [exact Hv|done].
      + split; [destruct (Qlt_le_dec v (fval b))|destruct (Qlt_le_dec (fval c) v)]; try done; nra. }
  eapply rnd_between; [exact H1|exact H2|by apply rnd_val|exact Rv|by apply rnd_val| |]; [by destruct b|by destruct c].
Qed.

(** Storing in a [Float32Array] is monotone, too. *)
Lemma fround_RN a : fin a = true -> exists f, RN 24 128 (fval a) f /\
  (isFinite (fround a) = true -> isFinite f = true) /\ (isFinite f = true -> rnd (fval f) (fround a)).
Proof.
  intros Ha. destruct (fin_cases a Ha) as [(s & ->)|(s & m & e & -> & Hm)].
  - exists (S754_zero s). split; [by apply RN_zero|]. split; [done|]. intros _. apply rnd_zero.
  - exists (binary_round 24 128 s m e). split; [apply RN_signed; [apply fval_nonneg|by apply round_rounds]|].
    cbn [fround]. destruct (binary_round 24 128 s m e) as [t|t| |t m' e']; try done.
    + split; [done|]. intros _. apply rnd_zero.
    + split; [done|]. intros _. apply RN_signed; [apply fval_nonneg|by apply round_rounds].
Qed.

Lemma between_fround lo hi a :
  fin lo = true -> fin hi = true -> between lo hi a ->
  isFinite (fround lo) = true -> isFinite (fround hi) = true -> between (fround lo) (fround hi) (fround a).
Proof.
  intros Hlo Hhi Ha Fl Fh. pose proof (between_val lo hi a Hlo Hhi Ha) as [H1 H2]. destruct Ha as [Fa _].
  destruct (fround_RN lo Hlo) as (l & Rl & Hl & Ql), (fround_RN hi Hhi) as (h & Rh & Hh & Qh),
    (fround_RN a Fa) as (f & Rf & _ & Qf). specialize (Hl Fl). specialize (Hh Fh).
  assert (L1 : nleb l f = true) by (eapply (RN_mono 24 128); [done|exact H1|exact Rl|exact Rf]).
  assert (L2 : nleb f h = true) by (eapply (RN_mono 24 128); [done|exact H2|exact Rf|exact Rh]).
  pose proof (between_finite l h f Hl Hh L1 L2) as Ff.
  assert (V : forall x g, RN 24 128 x g -> isFinite g = true -> finite_in 24 128 g = true).
  { intros x g. by apply RN_finite. }
  apply (nleb_fval 24 128) in L1, L2; eauto; try done.
  eapply rnd_between; [exact L1|exact L2|auto..].
Qed.

Lemma between_of_Z a b z :
  a <= z <= b -> isFinite (num_of_Z a) = true -> isFinite (num_of_Z b) = true ->
  between (num_of_Z a) (num_of_Z b) (num_of_Z z).
Proof.
  intros [Ha Hb] Fa Fb. assert (R : forall k, rnd (inject_Z k) (num_of_Z k)).
  { intros k. eapply rnd_compat; [|apply (normalize_RN k 0 false)]. change (p2 0) with 1%Q. ring. }
  eapply rnd_between; [by apply (proj1 (inj_le a z))|by apply (proj1 (inj_le z b))|done..].
Qed.

Lemma nmul_comm a b : (a * b)%num = (b * a)%num.
Proof.
  destruct a as [s|s| |s m e], b as [t|t| |t m' e']; cbn; rewrite ?(xorb_comm s t); try done.
  by rewrite Pos.mul_comm, Z.add_comm.
Qed.

Lemma between_mul_l lo hi a c :
  fin lo = true -> fin hi = true -> between lo hi a -> fin c = true -> nleb nzero c = true ->
  isFinite (lo * c)%num = true -> isFinite (hi * c)%num = true -> between (lo * c) (hi * c) (c * a)%num.
Proof. intros. rewrite (nmul_comm c a). by apply between_mul. Qed.

(** [Math.floor] is the floor of the value. *)
Lemma num_floor_val a :
  fin a = true -> (inject_Z (num_floor a) <= fval a /\ fval a < inject_Z (num_floor a + 1))%Q.
Proof.
  intros Ha. destruct (fin_cases a Ha) as [(s & ->)|(s & m & e & -> & _)]; [by cbn|]. unfold num_floor.
  assert (Hc : forall k, (inject_Z (cond_Zopp s k) == signed s (inject_Z k))%Q).
  { intros k. destruct s; cbn [SpecFloat.cond_Zopp signed]; [by rewrite inject_Z_opp|done]. }
  destruct (Z.leb_spec 0 e) as [He|He].
  - rewrite inject_Z_plus. change (inject_Z 1) with 1%Q. rewrite Hc.
    destruct s; cbn [fval signed]; rewrite (p2_Z e), inject_Z_mult by done; lra.
  - assert (Hp : 0 < 2 ^ (- e)) by (apply Z.pow_pos_nonneg; lia). set (n := cond_Zopp s (Zpos m)).
    pose proof (Z.div_mod n (2 ^ (- e)) ltac:(lia)) as Hd. pose proof (Z.mod_pos_bound n (2 ^ (- e)) Hp) as Hr.
    assert (Hv : (fval (S754_finite s m e) * inject_Z (2 ^ (- e)) == inject_Z n)%Q).
    { unfold n. rewrite Hc, <- p2_Z by lia. cbn [fval].
      assert (E : (p2 e * p2 (- e) == 1)%Q) by (rewrite <- p2_add; by replace (e + - e) with 0 by lia).
      transitivity (signed s (inject_Z (Zpos m)) * (p2 e * p2 (- e)))%Q; [destruct s; cbn [signed]; ring|rewrite E; ring]. }
    apply (proj1 (inj_lt 0 (2 ^ (- e)))) in Hp. change (inject_Z 0) with 0%Q in Hp. split.
    + apply (Qmult_le_r _ _ (inject_Z (2 ^ (- e)))); [done|]. rewrite Hv, <- inject_Z_mult. apply (proj1 (inj_le _ _)). lia.
    + apply (Qmult_lt_r _ _ (inject_Z (2 ^ (- e)))); [done|]. rewrite Hv, <- inject_Z_mult. apply (proj1 (inj_lt _ _)). lia.
Qed.

Lemma between_floor lo hi a :
  fin lo = true -> fin hi = true -> between lo hi a -> num_floor lo <= num_floor a <= num_floor hi.
Proof.
  intros Hl Hh Ha. pose proof (between_val lo hi a Hl Hh Ha) as [H1 H2]. destruct Ha as [Fa _].
  assert (M : forall x y, fin x = true -> fin y = true -> (fval x <= fval y)%Q -> num_floor x <= num_floor y).
  { intros x y Hx Hy Hle. pose proof (num_floor_val x Hx) as [X _]. pose proof (num_floor_val y Hy) as [_ Y].
    assert (inject_Z (num_floor x) < inject_Z (num_floor y + 1))%Q as Hlt by lra. apply inj_lt in Hlt. lia. }
  split; by apply M.
Qed.

(** [Math.max] and [Math.min] of finite numbers. *)
Lemma fin_max a b : fin a = true -> fin b = true -> fin (math_max a b) = true.
Proof. intros Ha Hb. unfold math_max. destruct a, b; try done; by destruct (nltb _ _). Qed.

Lemma fin_min a b : fin a = true -> fin b = true -> fin (math_min a b) = true.
Proof. intros Ha Hb. unfold math_min. destruct a, b; try done; by destruct (nltb _ _). Qed.

Lemma fin_number a : fin a = true -> isNaN a = false.
Proof. by destruct a. Qed.

Lemma between_clamp lo hi x :
  fin lo = true -> fin hi = true -> fin x = true -> nleb lo hi = true -> between lo hi (clamp lo hi x).
Proof.
  intros Hl Hh Hx Hle. split; [by apply fin_max, fin_min|]. by apply clamp_bounds, fin_number.
Qed.

Lemma between_min lo hi a :
  fin hi = true -> fin a = true -> nleb lo a = true -> nleb lo hi = true -> between lo hi (math_min a hi).
Proof.
  intros Hh Ha Hla Hlh. split; [by apply fin_min|]. pose proof (nleb_nan _ _ Hla) as [Nl Na].
  pose proof (fin_number _ Hh) as Nh. destruct (math_min_spec a hi Na Nh) as [Nm Hm].
  apply nleb_rank in Hla, Hlh; try done. rewrite !nleb_rank by done. rewrite Hm.
  destruct (nltb hi a) eqn:E; [tauto|]. split; [done|]. apply nleb_rank; try done. by rewrite nleb_nltb, E.
Qed.

Lemma below_le a b : nltb a b = true -> nleb a b = true.
Proof.
  intros Hlt. pose proof (nltb_nan _ _ Hlt) as [Na Nb]. apply nltb_rank in Hlt; try done. apply nleb_rank; auto.
Qed.

Lemma between_max lo hi a :
  fin lo = true -> fin a = true -> nleb lo hi = true -> nleb a hi = true -> between lo hi (math_max lo a).
Proof.
  intros Hl Ha Hlh Hah. split; [by apply fin_max|]. pose proof (nleb_nan _ _ Hah) as [Na Nh].
  pose proof (fin_number _ Hl) as Nl. destruct (math_max_spec lo a Nl Na) as [Nm Hm].
  apply nleb_rank in Hlh, Hah; try done. rewrite !nleb_rank by done. rewrite Hm.
  destruct (nltb lo a) eqn:E; [|by auto]. split; [|done]. left. by apply nltb_rank.
Qed.

Lemma between_max_r lo hi a :
  fin lo = true -> fin a = true -> nleb lo hi = true -> nleb a hi = true -> between lo hi (math_max a lo).
Proof.
  intros Hl Ha Hlh Hah. split; [by apply fin_max|]. pose proof (nleb_nan _ _ Hah) as [Na Nh].
  pose proof (fin_number _ Hl) as Nl. destruct (math_max_spec a lo Na Nl) as [Nm Hm].
  apply nleb_rank in Hlh, Hah; try done. rewrite !nleb_rank by done. rewrite Hm.
  destruct (nltb a lo) eqn:E; [by auto|]. split; [|done]. apply nleb_rank; try done. by rewrite nleb_nltb, E.
Qed.

Lemma nabs_le b x : fin b = true -> between (- b) b x -> nleb (nabs x) b = true.
Proof.
  intros Fb (Fx & H1 & H2). assert (Fm : fin (- b)%num = true) by (by destruct b).
  apply nleb_val in H1, H2; try done. rewrite fval_opp in H1.
  destruct x as [s|s| |s m e]; try done.
  - change (nabs (S754_zero s)) with (S754_zero false). apply nleb_val; [done|done|]. cbn [fval] in *. lra.
  - destruct s.
    + change (nabs (S754_finite true m e)) with (- S754_finite true m e)%num. apply nleb_val; [done|done|].
      rewrite fval_opp. lra.
    + change (nabs (S754_finite false m e)) with (S754_finite false m e). by apply nleb_val.
Qed.

(** ** More rules *)

Lemma between_fin lo hi a : between lo hi a -> fin a = true.
Proof. by intros [? _]. Qed.

Lemma between_mul_abs A B a b :
  fin A = true -> fin B = true -> between (- A) A a -> between (- B) B b ->
  isFinite (- A * B)%num = true -> isFinite (A * B)%num = true -> between (- A * B) (A * B) (a * b)%num.
Proof.
  intros FA FB Ha Hb F1 F2. assert (FmA : fin (- A)%num = true) by (by rewrite fin_opp).
  assert (FmB : fin (- B)%num = true) by (by rewrite fin_opp).
  pose proof (between_val _ _ _ FmA FA Ha) as [H1 H2]. pose proof (between_val _ _ _ FmB FB Hb) as [H3 H4].
  rewrite fval_opp in H1, H3. pose proof (nmul_RN (- A) B FmA FB) as R1. apply (rnd_compat _ (- (fval A * fval B))) in R1.
  2: { rewrite fval_opp. ring. }
  eapply rnd_between; [| |exact R1|apply nmul_RN; by eapply between_fin|by apply nmul_RN|done|done]; nra.
Qed.

Lemma between_abs b x : fin b = true -> between (- b) b x -> between nzero b (nabs x).
Proof.
  intros Fb Hx. pose proof (nabs_le _ _ Fb Hx) as Hle. destruct Hx as [Fx _].
  assert (fin (nabs x) = true) by (by destruct x). split; [done|]. split; [|done].
  apply nleb_val; [done|done|]. destruct x as [s|s| |s m e]; try done. change (nabs (S754_finite s m e)) with (S754_finite false m e).
  apply fval_nonneg.
Qed.

(** Dividing by at least [lo]. *)
Lemma between_div_above lo c a d :
  fin c = true -> fin lo = true -> nltb nzero lo = true -> between (- c) c a -> (fin d = true \/ d = S754_infinity false) -> nleb lo d = true ->
  isFinite (- c / lo)%num = true -> isFinite (c / lo)%num = true -> between (- c / lo) (c / lo) (a / d)%num.
Proof.
  intros Fc Fl Pl Ha Hd Hle F1 F2. destruct lo as [| | |[] m e]; try done. set (lo := S754_finite false m e) in *. assert (Fm : fin (- c)%num = true) by (by rewrite fin_opp).
  pose proof (between_val _ _ _ Fm Fc Ha) as [H1 H2]. rewrite fval_opp in H1. pose proof (between_fin _ _ _ Ha) as Fa.
  pose proof (ndiv_RN (- c) false m e Fm) as R1. pose proof (ndiv_RN c false m e Fc) as R2. fold lo in R1, R2.
  clear Pl. pose proof (fval_pos m e) as Pl. change (0 < fval lo)%Q in Pl.
  assert (Hi : (0 < / fval lo)%Q) by (by apply Qinv_lt_0_compat).
  apply (rnd_compat _ (- (fval c / fval lo))) in R1; [|rewrite fval_opp; unfold Qdiv; ring].
  assert (L : forall x, (0 <= x -> x <= / fval lo -> - (fval c / fval lo) <= fval a * x /\ fval a * x <= fval c / fval lo)%Q).
  { intros x X0 X1. unfold Qdiv. set (i := (/ fval lo)%Q) in *. split; nra. }
  destruct Hd as [Fd|Ed].
  - destruct (fin_cases d Fd) as [(s & ->)|(s & m' & e' & -> & _)].
    { apply nleb_val in Hle; [|done|done]. cbn [fval] in Hle. lra. }
    apply nleb_val in Hle; [|done|done]. pose proof (fval_pos m' e') as Pd. destruct s; [cbn [fval signed] in Hle; lra|].
    destruct (L (/ fval (S754_finite false m' e'))%Q) as [L1 L2].
    { apply Qlt_le_weak, Qinv_lt_0_compat. exact Pd. }
    { assert (Pd' : (0 < fval (S754_finite false m' e'))%Q) by exact Pd. apply Qle_shift_inv_l; [exact Pl|].
      set (x := fval (S754_finite false m' e')) in *.
      assert (E : (/ x * x == 1)%Q) by (field; lra). assert (0 < / x)%Q by (by apply Qinv_lt_0_compat). nra. }
    eapply rnd_between; [exact L1|exact L2|exact R1|by apply ndiv_RN|exact R2|done|done].
  - subst d. destruct (L 0%Q) as [L1 L2]; [lra|lra|]. rewrite Qmult_0_r in L1, L2.
    eapply rnd_between; [exact L1|exact L2|exact R1| |exact R2|done|done].
    destruct a as [s|s| |s m' e']; try done; apply rnd_zero.
Qed.

(** Evaluate the bounds of an expression from those of its variables. *)
Ltac evaluate := vm_compute; reflexivity.
Ltac between_rule :=
  lazymatch goal with
  | |- between _ _ (nadd _ _) => eapply between_add; [| |between_rule| | |between_rule| |]
  | |- between _ _ (nsub _ _) => eapply between_sub; [| |between_rule| | |between_rule| |]
  | |- between _ _ (nmul _ _) =>
      first [eapply between_mul; [| |between_rule|evaluate|evaluate| |]
            |eapply between_mul_l; [| |between_rule|evaluate|evaluate| |]]
  | |- between _ _ (ndiv _ _) => eapply between_div; [| |between_rule| |]
  | |- between _ _ (fround _) => eapply between_fround; [| |between_rule| |]
  | |- between _ _ _ => first [eassumption|apply between_const]
  end; try evaluate.
Ltac bounds := eapply between_weaken; [between_rule|evaluate|evaluate].
