(* ===== verification/JsString.v ===== *)
(** * JavaScript strings

    A JavaScript string is a sequence of UTF-16 code units, here a list of
    integers in [0, 2^16).  This file has the operations the sources use:
    [trim], the whitespace collapse [replace(/\s+/g, " ")], [slice(0, n)] and
    [startsWith]. *)

From S2P Require Import Prelude.
From Stdlib Require Ascii String.
Export (notations) String.

Definition jsstr : Type := list Z.

(** An ASCII literal of the source. *)
Fixpoint js (s : String.string) : jsstr :=
  match s with
  | String.EmptyString => []
  | String.String c s' => Z.of_nat (Ascii.nat_of_ascii c) :: js s'
  end.

#[export] Instance jsstr_eq_dec : EqDecision jsstr := _.
#[export] Instance jsstr_countable : Countable jsstr := _.

Definition str_eqb (a b : jsstr) : bool := bool_decide (a = b).

(** [s.startsWith(p)]. *)
Fixpoint startsWith (s p : jsstr) : bool :=
  match p, s with
  | [], _ => true
  | x :: p', y :: s' => (x =? y) && startsWith s' p'
  | _ :: _, [] => false
  end.

(** WhiteSpace and LineTerminator: what [trim] removes and [\s] matches. *)
Definition isSpace (c : Z) : bool :=
  (9 <=? c) && (c <=? 13) || (c =? 32) || (c =? 160) || (c =? 5760)
  || (8192 <=? c) && (c <=? 8202) || (c =? 8232) || (c =? 8233)
  || (c =? 8239) || (c =? 8287) || (c =? 12288) || (c =? 65279).

Fixpoint trimStart (s : jsstr) : jsstr :=
  match s with
  | [] => []
  | c :: s' => if isSpace c then trimStart s' else s
  end.

Definition trimEnd (s : jsstr) : jsstr := rev (trimStart (rev s)).

(** [s.trim()]. *)
Definition trim (s : jsstr) : jsstr := trimEnd (trimStart s).

(** [s.replace(/\s+/g, " ")]: [inrun] tells whether the previous code unit was
    already part of the run being replaced. *)
Fixpoint collapse_from (inrun : bool) (s : jsstr) : jsstr :=
  match s with
  | [] => []
  | c :: s' =>
      if isSpace c
      then if inrun then collapse_from true s' else 32 :: collapse_from true s'
      else c :: collapse_from false s'
  end.
Definition collapse (s : jsstr) : jsstr := collapse_from false s.

(** [s.slice(0, n)] for a literal [n >= 0]. *)
Definition slice0 (n : Z) (s : jsstr) : jsstr := take (Z.to_nat n) s.

Definition str_length (s : jsstr) : Z := Z.of_nat (length s).

(** ** Facts about trimming and collapsing *)

Lemma trimStart_head s c s' : trimStart s = c :: s' -> isSpace c = false.
Proof.
  induction s as [|d s IH]; simpl; [done|]. destruct (isSpace d) eqn:E; [exact IH|].
  intros. by simplify_eq.
Qed.

Lemma trimStart_suffix s : trimStart s `suffix_of` s.
Proof.
  induction s as [|d s IH]; simpl; [done|]. destruct (isSpace d); [|done].
  by apply suffix_cons_r.
Qed.

Lemma trimEnd_prefix s : trimEnd s `prefix_of` s.
Proof.
  unfold trimEnd. destruct (trimStart_suffix (rev s)) as [k Hk].
  exists (rev k). rewrite <- rev_app_distr, <- Hk. by rewrite rev_involutive.
Qed.

Lemma trimEnd_last s k c : trimEnd s = k ++ [c] -> isSpace c = false.
Proof.
  unfold trimEnd. intros Hr.
  assert (Hs : trimStart (rev s) = c :: rev k).
  { rewrite <- (rev_involutive (trimStart (rev s))), Hr, rev_app_distr. done. }
  by apply trimStart_head in Hs.
Qed.

(** A trimmed string neither starts nor ends with white space. *)
Lemma trim_head s c s' : trim s = c :: s' -> isSpace c = false.
Proof.
  unfold trim. intros Ht. destruct (trimEnd_prefix (trimStart s)) as [k Hk].
  rewrite Ht in Hk. simpl in Hk. by eapply trimStart_head.
Qed.

Lemma trim_last s k c : trim s = k ++ [c] -> isSpace c = false.
Proof. apply trimEnd_last. Qed.

(** No two adjacent code units of a collapsed string are white space, and the
    only white space left is U+0020. *)
Fixpoint single_spaced (s : jsstr) : Prop :=
  match s with
  | [] => True
  | c :: s' =>
      (isSpace c = true -> c = 32 /\ match s' with [] => True | d :: _ => isSpace d = false end)
      /\ single_spaced s'
  end.

Lemma collapse_from_spaced b s :
  single_spaced (collapse_from b s) /\
  (b = true -> match collapse_from b s with [] => True | d :: _ => isSpace d = false end).
Proof.
  revert b. induction s as [|c s IH]; intros b; simpl; [done|].
  destruct (isSpace c) eqn:E.
  - destruct b; [apply IH|]. split; [|done]. simpl.
    destruct (IH true) as [H1 H2]. split; [|done]. intros _. split; [done|by apply H2].
  - destruct (IH false) as [H1 _]. simpl. rewrite E. split; [|done]. split; done.
Qed.

Lemma collapse_spaced s : single_spaced (collapse s).
Proof. apply collapse_from_spaced. Qed.

Lemma single_spaced_take n s : single_spaced s -> single_spaced (take n s).
Proof.
  revert n. induction s as [|c s IH]; intros [|n]; simpl; try done.
  intros [H1 H2]. split; [|auto]. intros Hc. destruct (H1 Hc) as [-> Hn]. split; [done|].
  destruct n, s; simpl in *; done.
Qed.

Lemma collapse_head c s :
  isSpace c = false -> collapse (c :: s) = c :: collapse s.
Proof. unfold collapse. simpl. by intros ->. Qed.

Lemma collapse_nonempty c s : isSpace c = false -> collapse (c :: s) <> [].
Proof. intros Hc. by rewrite collapse_head. Qed.

(** ** Splitting *)

(** [s.split(c)]. *)
Fixpoint split_on (c : Z) (s : jsstr) : list jsstr :=
  match s with
  | [] => [[]]
  | d :: s' =>
      if d =? c then [] :: split_on c s'
      else match split_on c s' with
           | p :: ps => (d :: p) :: ps
           | [] => [[d]]
           end
  end.

(** The longest prefix without [c]. *)
Fixpoint until (c : Z) (s : jsstr) : jsstr :=
  match s with d :: s' => if d =? c then [] else d :: until c s' | [] => [] end.

Lemma split_on_none c s : Forall (fun d => d <> c) s -> split_on c s = [s].
Proof. induction 1 as [|d s Hd _ IH]; [done|]. cbn. rewrite IH. by zdec. Qed.

Lemma split_on_cons c s t : Forall (fun d => d <> c) s -> split_on c (s ++ c :: t) = s :: split_on c t.
Proof.
  induction 1 as [|d s Hd _ IH]; cbn; [by rewrite Z.eqb_refl|]. rewrite IH. by zdec.
Qed.

Lemma until_stop c s t : Forall (fun d => d <> c) s -> until c (s ++ c :: t) = s.
Proof. induction 1 as [|d s Hd _ IH]; cbn; [by rewrite Z.eqb_refl|]. rewrite IH. by zdec. Qed.

Lemma until_all c s : Forall (fun d => d <> c) s -> until c s = s.
Proof. induction 1 as [|d s Hd _ IH]; cbn; [done|]. rewrite IH. by zdec. Qed.

(** The parts [split] returns, put back together. *)
Fixpoint join_on (c : Z) (ps : list jsstr) : jsstr :=
  match ps with
  | [] => []
  | [p] => p
  | p :: ps' => p ++ c :: join_on c ps'
  end.

Lemma split_on_join c s : split_on c s <> [] /\ join_on c (split_on c s) = s.
Proof.
  induction s as [|d s [Hne IH]]; [done|]. cbn. destruct (Z.eqb_spec d c) as [->|Hd].
  - split; [done|]. cbn. destruct (split_on c s) as [|p ps]; [done|]. cbn in *. by rewrite IH.
  - destruct (split_on c s) as [|p ps]; [done|]. split; [done|].
    destruct ps; cbn in *; by rewrite IH.
Qed.

(** A prefix without separators belongs to the first part. *)
Lemma split_on_prefix c p s :
  Forall (fun d => d <> c) p ->
  exists q qs, split_on c s = q :: qs /\ split_on c (p ++ s) = (p ++ q) :: qs.
Proof.
  intros Hp. destruct (split_on c s) as [|q qs] eqn:E; [by destruct (split_on_join c s)|].
  exists q, qs. split; [done|]. induction Hp as [|d p Hd _ IH]; [done|]. cbn [app split_on]. rewrite IH.
  by rewrite (proj2 (Z.eqb_neq d c)).
Qed.
