(* ===== verification/Codec.v ===== *)
(** * Text and binary codecs of the platform

    [TextEncoder] and [TextDecoder('utf-8')] (the decoder as the byte-at-a-time
    state machine of the Encoding Standard, with replacement characters and
    the byte order mark removed), [btoa] and [atob] (the forgiving base64
    decoder), and their round trips. *)

From S2P Require Import Prelude JsString.

(** ** Code points and UTF-16 *)

(** Unicode scalar values: code points that are not surrogates. *)
Definition scalar (c : Z) : bool :=
  (0 <=? c) && (c <? 55296) || (57344 <=? c) && (c <? 1114112).

Definition utf16_1 (c : Z) : jsstr :=
  if c <? 65536 then [c]
  else [55296 + (c - 65536) / 1024; 56320 + (c - 65536) mod 1024].

Definition utf16 (cs : list Z) : jsstr := concat (map utf16_1 cs).

Definition isHigh (u : Z) : bool := (55296 <=? u) && (u <? 56320).
Definition isLow (u : Z) : bool := (56320 <=? u) && (u <? 57344).
Definition REPLACEMENT : Z := 65533.
Definition BOM : Z := 65279.

(** The scalar values of a string; a lone surrogate becomes U+FFFD. *)
Fixpoint scalars (s : jsstr) : list Z :=
  match s with
  | [] => []
  | u :: s' =>
      if isHigh u then
        match s' with
        | v :: s'' =>
            if isLow v then (65536 + (u - 55296) * 1024 + (v - 56320)) :: scalars s''
            else REPLACEMENT :: scalars s'
        | [] => [REPLACEMENT]
        end
      else if isLow u then REPLACEMENT :: scalars s'
      else u :: scalars s'
  end.

(** ** UTF-8 *)

Definition utf8_1 (c : Z) : list Z :=
  if c <? 128 then [c]
  else if c <? 2048 then [192 + c / 64; 128 + c mod 64]
  else if c <? 65536 then [224 + c / 4096; 128 + c / 64 mod 64; 128 + c mod 64]
  else [240 + c / 262144; 128 + c / 4096 mod 64; 128 + c / 64 mod 64; 128 + c mod 64].

Definition utf8 (cs : list Z) : list Z := concat (map utf8_1 cs).

(** [new TextEncoder().encode(s)]. *)
Definition textEncode (s : jsstr) : list Z := utf8 (scalars s).

(** The decoder's state: the code point so far, the bytes still needed, and
    the range of the next continuation byte. *)
Record DecState := mkDec { d_cp : Z; d_needed : nat; d_lower : Z; d_upper : Z }.

Definition dec_init : DecState := mkDec 0 0 128 191.

Definition dec_start (b : Z) : list Z * DecState :=
  if b <=? 127 then ([b], dec_init)
  else if (194 <=? b) && (b <=? 223) then ([], mkDec (b - 192) 1 128 191)
  else if (224 <=? b) && (b <=? 239) then
    ([], mkDec (b - 224) 2 (if b =? 224 then 160 else 128) (if b =? 237 then 159 else 191))
  else if (240 <=? b) && (b <=? 244) then
    ([], mkDec (b - 240) 3 (if b =? 240 then 144 else 128) (if b =? 244 then 143 else 191))
  else ([REPLACEMENT], dec_init).

Definition dec_step (st : DecState) (b : Z) : list Z * DecState :=
  match d_needed st with
  | O => dec_start b
  | S n =>
      if (d_lower st <=? b) && (b <=? d_upper st) then
        let cp := d_cp st * 64 + (b - 128) in
        match n with
        | O => ([cp], dec_init)
        | S _ => ([], mkDec cp n 128 191)
        end
      else let '(out, st') := dec_start b in (REPLACEMENT :: out, st')
  end.

Fixpoint dec_run (st : DecState) (bs : list Z) : list Z :=
  match bs with
  | [] => match d_needed st with O => [] | S _ => [REPLACEMENT] end
  | b :: bs' => let '(out, st') := dec_step st b in out ++ dec_run st' bs'
  end.

Definition strip_bom (cs : list Z) : list Z :=
  match cs with c :: cs' => if c =? BOM then cs' else cs | [] => [] end.

(** [new TextDecoder('utf-8').decode(bytes)]: three bytes EF BB BF at the start
    are dropped. *)
Definition textDecode (bs : list Z) : jsstr := utf16 (strip_bom (dec_run dec_init bs)).

(** ** Round trips of the text codecs *)

Lemma scalar_cases c :
  scalar c = true -> 0 <= c < 55296 \/ 57344 <= c < 1114112.
Proof. unfold scalar. intros Hc. zbool. lia. Qed.

(** One byte of the decoder, its range tests decided by arithmetic. *)
Ltac dec_byte :=
  cbn [app dec_run]; unfold dec_step at 1, dec_start;
  cbn [d_needed d_cp d_lower d_upper dec_init]; zdec; cbn [app].

Lemma dec_run_utf8_1 c bs :
  scalar c = true -> dec_run dec_init (utf8_1 c ++ bs) = c :: dec_run dec_init bs.
Proof.
  intros Hc%scalar_cases. unfold utf8_1.
  destruct (digits64 c ltac:(lia)) as (d3 & d2 & d1 & d0 & Hd & H3 & H2 & H1 & H0 & -> & -> & -> & -> & Hm1 & Hm2).
  destruct (c <? 128) eqn:E1; [|destruct (c <? 2048) eqn:E2; [|destruct (c <? 65536) eqn:E3]]; zbool;
    rewrite ?Hm1, ?Hm2.
  - by dec_byte.
  - do 2 dec_byte. f_equal. lia.
  - assert (d3 = 0) as -> by lia. dec_byte.
    destruct (224 + (64 * 0 + d2) =? 224) eqn:Ea, (224 + (64 * 0 + d2) =? 237) eqn:Eb; zbool; try lia;
      do 2 dec_byte; f_equal; lia.
  - dec_byte. destruct (240 + d3 =? 240) eqn:Ea, (240 + d3 =? 244) eqn:Eb; zbool; try lia;
      do 3 dec_byte; f_equal; lia.
Qed.

Lemma dec_run_utf8 cs :
  Forall (fun c => scalar c = true) cs -> dec_run dec_init (utf8 cs) = cs.
Proof.
  induction 1 as [|c cs Hc _ IH]; [done|]. unfold utf8. simpl.
  rewrite dec_run_utf8_1 by done. by f_equal.
Qed.

Lemma scalars_utf16_1 c s : scalar c = true -> scalars (utf16_1 c ++ s) = c :: scalars s.
Proof.
  intros Hc%scalar_cases. unfold utf16_1. destruct (c <? 65536) eqn:E; zbool.
  - simpl. unfold isHigh, isLow. destruct Hc; zdec; done.
  - pose proof (Z.div_mod (c - 65536) 1024 ltac:(lia)).
    pose proof (Z.mod_pos_bound (c - 65536) 1024 ltac:(lia)).
    assert (0 <= (c - 65536) / 1024 < 1024)
      by (split; [apply Z.div_pos; lia|apply Z.div_lt_upper_bound; lia]).
    cbn [app scalars]. unfold isHigh, isLow. zdec. f_equal. lia.
Qed.

Lemma scalars_utf16 cs : Forall (fun c => scalar c = true) cs -> scalars (utf16 cs) = cs.
Proof.
  induction 1 as [|c cs Hc _ IH]; [done|]. unfold utf16. simpl.
  rewrite scalars_utf16_1 by done. by f_equal.
Qed.

(** Encoding and decoding a string without lone surrogates. *)
Lemma textDecode_encode cs :
  Forall (fun c => scalar c = true) cs -> head cs <> Some BOM ->
  textDecode (textEncode (utf16 cs)) = utf16 cs.
Proof.
  intros Hc Hb. unfold textDecode, textEncode. rewrite scalars_utf16, dec_run_utf8 by done.
  destruct cs as [|c cs]; [done|]. simpl. destruct (c =? BOM) eqn:E; [|done].
  zbool. by subst.
Qed.

Definition byte (b : Z) : Prop := 0 <= b < 256.

Lemma utf8_bytes cs : Forall (fun c => scalar c = true) cs -> Forall byte (utf8 cs).
Proof.
  induction 1 as [|c cs Hc%scalar_cases _ IH]; [constructor|]. unfold utf8. simpl.
  apply Forall_app. split; [|exact IH]. unfold utf8_1.
  destruct (digits64 c ltac:(lia)) as (d3 & d2 & d1 & d0 & Hd & H3 & H2 & H1 & H0 & -> & -> & -> & -> & -> & ->).
  destruct (c <? 128) eqn:E1; [|destruct (c <? 2048) eqn:E2; [|destruct (c <? 65536) eqn:E3]]; zbool;
    repeat constructor; unfold byte; lia.
Qed.

Lemma scalars_scalar s : Forall (fun u => 0 <= u < 65536) s -> Forall (fun c => scalar c = true) (scalars s).
Proof.
  intros Hs. remember (length s) as n eqn:En. assert (Hn : (length s <= n)%nat) by lia. clear En.
  revert s Hs Hn. induction n as [|n IH]; intros [|u s] Hs Hn; simpl in *; try (by constructor); [lia|].
  apply Forall_cons in Hs as [Hu Hs].
  assert (Hrest : Forall (fun c => scalar c = true) (scalars s)) by (apply IH; [done|lia]).
  unfold isHigh, isLow. destruct ((55296 <=? u) && (u <? 56320)) eqn:E.
  - destruct s as [|v s']; [by repeat constructor|].
    destruct ((56320 <=? v) && (v <? 57344)) eqn:E'; [|by constructor].
    apply Forall_cons in Hs as [Hv Hs]. simpl in Hn. zbool.
    constructor; [|apply IH; [done|lia]]. unfold scalar. zdec. done.
  - destruct ((56320 <=? u) && (u <? 57344)) eqn:E'; [by constructor|].
    constructor; [|done]. apply andb_false_iff in E, E'. unfold scalar.
    destruct (0 <=? u) eqn:?, (u <? 55296) eqn:?, (57344 <=? u) eqn:?, (u <? 1114112) eqn:?;
      zbool; try done; exfalso; destruct E, E'; zbool; lia.
Qed.

(** ** Base64 *)

Definition b64_char (v : Z) : Z :=
  if v <? 26 then 65 + v
  else if v <? 52 then 97 + (v - 26)
  else if v <? 62 then 48 + (v - 52)
  else if v =? 62 then 43 else 47.

Definition b64_val (c : Z) : option Z :=
  if (65 <=? c) && (c <=? 90) then Some (c - 65)
  else if (97 <=? c) && (c <=? 122) then Some (c - 97 + 26)
  else if (48 <=? c) && (c <=? 57) then Some (c - 48 + 52)
  else if c =? 43 then Some 62
  else if c =? 47 then Some 63
  else None.

Definition PAD : Z := 61.

Fixpoint b64_enc (bs : list Z) : list Z :=
  match bs with
  | a :: b :: c :: bs' =>
      b64_char (a / 4) :: b64_char (a mod 4 * 16 + b / 16) ::
      b64_char (b mod 16 * 4 + c / 64) :: b64_char (c mod 64) :: b64_enc bs'
  | [a; b] => [b64_char (a / 4); b64_char (a mod 4 * 16 + b / 16); b64_char (b mod 16 * 4); PAD]
  | [a] => [b64_char (a / 4); b64_char (a mod 4 * 16); PAD; PAD]
  | [] => []
  end.

(** [btoa(s)]: an error when a code unit is above 255. *)
Definition btoa (s : jsstr) : option jsstr :=
  if forallb (fun u => u <=? 255) s then Some (b64_enc s) else None.

(** Groups of four sextets; the spare bits of the last group are dropped. *)
Fixpoint b64_dec (vs : list Z) : list Z :=
  match vs with
  | a :: b :: c :: d :: vs' =>
      (a * 4 + b / 16) :: (b mod 16 * 16 + c / 4) :: (c mod 4 * 64 + d) :: b64_dec vs'
  | [a; b; c] => [a * 4 + b / 16; b mod 16 * 16 + c / 4]
  | [a; b] => [a * 4 + b / 16]
  | _ => []
  end.

Definition isAsciiSpace (c : Z) : bool :=
  (c =? 9) || (c =? 10) || (c =? 12) || (c =? 13) || (c =? 32).

(** With a length divisible by four, up to two [=] at the end are removed. *)
Definition drop_pad (s : jsstr) : jsstr :=
  if Z.of_nat (length s) mod 4 =? 0 then
    match rev s with
    | p :: q :: r =>
        if p =? PAD then if q =? PAD then rev r else rev (q :: r) else s
    | _ => s
    end
  else s.

(** [atob(s)]: forgiving base64 decoding. *)
Definition atob (s : jsstr) : option jsstr :=
  let s1 := drop_pad (List.filter (fun c => negb (isAsciiSpace c)) s) in
  if Z.of_nat (length s1) mod 4 =? 1 then None
  else match mapM b64_val s1 with
       | Some vs => Some (b64_dec vs)
       | None => None
       end.

(** *** Round trip *)

Lemma b64_val_char v : 0 <= v < 64 -> b64_val (b64_char v) = Some v.
Proof.
  intros Hv. unfold b64_char. destruct (v <? 26) eqn:E1; [|destruct (v <? 52) eqn:E2;
    [|destruct (v <? 62) eqn:E3; [|destruct (v =? 62) eqn:E4]]]; zbool; unfold b64_val; zdec;
    f_equal; lia.
Qed.

Lemma b64_char_range v : 0 <= v < 64 -> 43 <= b64_char v <= 122 /\ b64_char v <> PAD.
Proof.
  intros Hv. unfold b64_char, PAD. destruct (v <? 26) eqn:E1; [|destruct (v <? 52) eqn:E2;
    [|destruct (v <? 62) eqn:E3; [|destruct (v =? 62) eqn:E4]]]; zbool; lia.
Qed.

(** The sextets of a byte string, before padding. *)
Fixpoint sextets (bs : list Z) : list Z :=
  match bs with
  | a :: b :: c :: bs' =>
      a / 4 :: (a mod 4 * 16 + b / 16) :: (b mod 16 * 4 + c / 64) :: c mod 64 :: sextets bs'
  | [a; b] => [a / 4; a mod 4 * 16 + b / 16; b mod 16 * 4]
  | [a] => [a / 4; a mod 4 * 16]
  | [] => []
  end.

Definition padding (bs : list Z) : list Z :=
  match (length bs mod 3)%nat with
  | 1%nat => [PAD; PAD]
  | 2%nat => [PAD]
  | _ => []
  end.

(** Induction by groups of three bytes. *)
Lemma three_ind (P : list Z -> Prop) :
  P [] -> (forall a, P [a]) -> (forall a b, P [a; b]) ->
  (forall a b c bs, P bs -> P (a :: b :: c :: bs)) -> forall bs, P bs.
Proof.
  intros H0 H1 H2 H3 bs. remember (length bs) as n eqn:En.
  assert (Hn : (length bs <= n)%nat) by lia. clear En. revert bs Hn.
  induction n as [|n IH]; intros [|a [|b [|c bs]]] Hn; simpl in *; auto; try lia.
  apply H3, IH. lia.
Qed.

Lemma b64_enc_split bs : b64_enc bs = map b64_char (sextets bs) ++ padding bs.
Proof.
  induction bs as [| | |a b c bs IH] using three_ind; try done.
  cbn [b64_enc sextets map app]. rewrite IH. unfold padding.
  replace (length (a :: b :: c :: bs) mod 3)%nat with (length bs mod 3)%nat; [done|].
  simpl length. replace (S (S (S (length bs)))) with (length bs + 1 * 3)%nat by lia.
  by rewrite Nat.Div0.mod_add.
Qed.

Ltac byte_bounds a :=
  let H := fresh in assert (H := Z.div_mod a 4 ltac:(lia));
  let H := fresh in assert (H := Z.mod_pos_bound a 4 ltac:(lia));
  let H := fresh in assert (H := Z.div_mod a 16 ltac:(lia));
  let H := fresh in assert (H := Z.mod_pos_bound a 16 ltac:(lia));
  let H := fresh in assert (H := Z.div_mod a 64 ltac:(lia));
  let H := fresh in assert (H := Z.mod_pos_bound a 64 ltac:(lia)).

Lemma sextets_range bs : Forall byte bs -> Forall (fun v => 0 <= v < 64) (sextets bs).
Proof.
  induction bs as [|a|a b|a b c bs IH] using three_ind; rewrite ?Forall_cons; unfold byte;
    intros Hb; cbn [sextets]; [done| | |]; destruct_and? Hb;
    try byte_bounds a; try byte_bounds b; try byte_bounds c; repeat constructor; auto; lia.
Qed.

(** Recombining the digits of adjacent sextets. *)
Lemma dec_first a x : 0 <= a -> 0 <= x < 16 -> a / 4 * 4 + (a mod 4 * 16 + x) / 16 = a.
Proof.
  intros Ha Hx. rewrite Z.div_add_l, (Z.div_small x) by lia. pose proof (Z.div_mod a 4 ltac:(lia)). lia.
Qed.

Lemma dec_second p b x : 0 <= b < 256 -> 0 <= x < 4 -> (p * 16 + b / 16) mod 16 * 16 + (b mod 16 * 4 + x) / 4 = b.
Proof.
  intros Hb Hx. rewrite (Z.add_comm (p * 16)), Z.mod_add by lia. rewrite Z.div_add_l, (Z.div_small x) by lia.
  assert (0 <= b / 16 < 16) by (split; [apply Z.div_pos; lia|apply Z.div_lt_upper_bound; lia]).
  rewrite (Z.mod_small (b / 16)) by lia. pose proof (Z.div_mod b 16 ltac:(lia)). lia.
Qed.

Lemma dec_third p c : 0 <= c < 256 -> (p * 4 + c / 64) mod 4 * 64 + c mod 64 = c.
Proof.
  intros Hc. rewrite (Z.add_comm (p * 4)), Z.mod_add by lia.
  assert (0 <= c / 64 < 4) by (split; [apply Z.div_pos; lia|apply Z.div_lt_upper_bound; lia]).
  rewrite (Z.mod_small (c / 64)) by lia. pose proof (Z.div_mod c 64 ltac:(lia)). lia.
Qed.

Lemma b64_dec_sextets bs : Forall byte bs -> b64_dec (sextets bs) = bs.
Proof.
  induction bs as [|a|a b|a b c bs IH] using three_ind; rewrite ?Forall_cons; unfold byte;
    intros Hb; cbn [sextets b64_dec]; [done| | |]; destruct_and? Hb.
  - f_equal. rewrite <- (Z.add_0_r (a mod 4 * 16)). apply dec_first; lia.
  - byte_bounds b. f_equal; [apply dec_first; lia|]. f_equal.
    rewrite <- (Z.add_0_r (b mod 16 * 4)). apply dec_second; lia.
  - byte_bounds b. byte_bounds c. f_equal; [apply dec_first; lia|].
    f_equal; [apply dec_second; lia|]. f_equal; [apply dec_third; lia|]. auto.
Qed.

Lemma b64_enc_length bs : exists n, length (b64_enc bs) = (4 * n)%nat.
Proof.
  induction bs as [|a|a b|a b c bs [n IH]] using three_ind; [by exists 0%nat|by exists 1%nat..|].
  exists (S n). cbn [b64_enc length]. lia.
Qed.

Lemma sextets_length bs :
  Z.of_nat (length (map b64_char (sextets bs))) mod 4 <> 1.
Proof.
  rewrite length_map. induction bs as [|a|a b|a b c bs IH] using three_ind; try done.
  cbn [sextets length]. rewrite !Nat2Z.inj_succ. intros E. apply IH.
  rewrite <- E. replace (Z.succ (Z.succ (Z.succ (Z.succ (Z.of_nat (length (sextets bs)))))))
    with (Z.of_nat (length (sextets bs)) + 1 * 4) by lia. by rewrite Z.mod_add.
Qed.

Lemma drop_pad_app l k :
  Z.of_nat (length (l ++ repeat PAD k)) mod 4 = 0 -> Forall (fun c => (c =? PAD) = false) l ->
  (k <= 2)%nat -> drop_pad (l ++ repeat PAD k) = l.
Proof.
  intros Hlen Hl Hk. unfold drop_pad. rewrite Hlen, Z.eqb_refl, rev_app_distr.
  destruct l as [|x l _] using rev_ind.
  - destruct k as [|[|[|k]]]; try done; lia.
  - apply Forall_app in Hl as [_ [Hx _]%Forall_cons]. rewrite rev_app_distr.
    destruct k as [|[|[|k]]]; simpl; [| | |lia].
    + rewrite app_nil_r. destruct (rev l); [done|]. by rewrite Hx.
    + rewrite Hx. by rewrite rev_involutive.
    + by rewrite rev_involutive.
Qed.

Lemma drop_pad_enc bs : Forall byte bs -> drop_pad (b64_enc bs) = map b64_char (sextets bs).
Proof.
  intros Hb. destruct (b64_enc_length bs) as [n Hn]. rewrite b64_enc_split in *.
  assert (Hp : exists k, (k <= 2)%nat /\ padding bs = repeat PAD k).
  { unfold padding. destruct (length bs mod 3)%nat as [|[|[|]]];
      [exists 0%nat|exists 2%nat|exists 1%nat|exists 0%nat]; split; lia || done. }
  destruct Hp as (k & Hk & Hp). rewrite Hp in *. apply drop_pad_app; [|  |done].
  - rewrite Hn, Nat2Z.inj_mul, Z.mul_comm, Z.mod_mul; lia.
  - apply Forall_map. eapply Forall_impl; [by apply sextets_range|].
    intros v Hv. simpl. destruct (b64_char_range v Hv). by apply Z.eqb_neq.
Qed.

Lemma filter_all {A} (f : A -> bool) l : Forall (fun x => f x = true) l -> List.filter f l = l.
Proof. induction 1 as [|x l Hx _ IH]; simpl; [done|]. rewrite Hx. by f_equal. Qed.

Lemma b64_enc_no_space bs :
  Forall byte bs -> Forall (fun c => negb (isAsciiSpace c) = true) (b64_enc bs).
Proof.
  intros Hb. rewrite b64_enc_split. apply Forall_app. split.
  - apply Forall_map. eapply Forall_impl; [by apply sextets_range|].
    intros v Hv. simpl. destruct (b64_char_range v Hv). unfold isAsciiSpace. by zdec.
  - unfold padding. destruct (length bs mod 3)%nat as [|[|[|]]]; repeat constructor.
Qed.

Lemma mapM_sextets bs : Forall byte bs -> mapM b64_val (map b64_char (sextets bs)) = Some (sextets bs).
Proof.
  intros Hb. apply mapM_Some. apply Forall2_fmap_l, Forall_Forall2_diag.
  eapply Forall_impl; [by apply sextets_range|]. intros v Hv. by apply b64_val_char.
Qed.

(** Decoding what [btoa] produced gives the bytes back. *)
Lemma atob_enc bs : Forall byte bs -> atob (b64_enc bs) = Some bs.
Proof.
  intros Hb. unfold atob. rewrite filter_all by (by apply b64_enc_no_space).
  rewrite drop_pad_enc by done.
  rewrite (proj2 (Z.eqb_neq _ _) (sextets_length bs)).
  rewrite mapM_sextets by done. by rewrite b64_dec_sextets.
Qed.

Lemma btoa_bytes bs : Forall byte bs -> btoa bs = Some (b64_enc bs).
Proof.
  intros Hb. unfold btoa. replace (forallb _ bs) with true; [done|]. symmetry.
  apply forallb_forall. intros b Hin%list_elem_of_In. rewrite Forall_forall in Hb.
  destruct (Hb b Hin). apply Z.leb_le. lia.
Qed.

(** ** Hexadecimal digits *)

Definition hexVal (c : Z) : option Z :=
  if (48 <=? c) && (c <=? 57) then Some (c - 48)
  else if (97 <=? c) && (c <=? 102) then Some (c - 97 + 10)
  else if (65 <=? c) && (c <=? 70) then Some (c - 65 + 10)
  else None.

(** The hexadecimal digits of a byte, as [toString(16)] writes them. *)
Definition hexDigit (v : Z) : Z := if v <? 10 then 48 + v else 97 + (v - 10).
(** A digit of a percent escape. *)
Definition upperHex (v : Z) : Z := if v <? 10 then 48 + v else 65 + (v - 10).

Definition hexByte (b : Z) : list Z := [hexDigit (b / 16); hexDigit (b mod 16)].

Lemma hexVal_digit v : 0 <= v < 16 -> hexVal (hexDigit v) = Some v.
Proof.
  intros Hv. unfold hexDigit, hexVal. destruct (v <? 10) eqn:E; zbool; zdec; f_equal; lia.
Qed.

Lemma hexDigit_range v : 0 <= v < 16 -> 48 <= hexDigit v <= 57 \/ 97 <= hexDigit v <= 102.
Proof. intros Hv. unfold hexDigit. destruct (v <? 10) eqn:E; zbool; lia. Qed.
