(* ===== verification/JsValue.v ===== *)
(** * Dynamic values

    What a client sends is only known to be JSON: the handlers read its
    properties without checking its shape first.  [jsval] is a decoded JSON
    value (plus [undefined], the value of an absent property), and the
    accessors below raise what the code raises on the wrong shape. *)

From S2P Require Import Prelude JsNum JsString.

(** The exceptions the modelled code can raise. *)
Inductive exn :=
| TypeError          (* property of null/undefined, or a call of a non-function *)
| InvalidStateError  (* WebSocket.send on a socket that is not open *)
| SqlError           (* a SQLite constraint or binding error *)
| RangeError         (* e.g. String.prototype.repeat of a negative count *)
| SyntaxError        (* JSON.parse of malformed text *)
| URIError           (* decodeURI of a malformed escape *)
| DOMException       (* atob of malformed base64, an unusable key *)
| NetworkError       (* a fetch that fails *)
| NotFound           (* a file that does not exist *)
| Error.             (* throw new Error(...) *)

#[export] Instance exn_eq_dec : EqDecision exn.
Proof. solve_decision. Defined.

Inductive jsval :=
| JUndef
| JNull
| JBool (b : bool)
| JNum (n : num)
| JStr (s : jsstr)
| JArr (l : list jsval)
| JObj (fields : list (jsstr * jsval)).

(** [!!v]. *)
Definition truthy (v : jsval) : bool :=
  match v with
  | JUndef | JNull => false
  | JBool b => b
  | JNum n => num_truthy n
  | JStr s => match s with [] => false | _ => true end
  | JArr _ | JObj _ => true
  end.

(** [v ?? d]. *)
Definition nullish (v : jsval) : bool :=
  match v with JUndef | JNull => true | _ => false end.

Fixpoint field (k : jsstr) (fs : list (jsstr * jsval)) : jsval :=
  match fs with
  | [] => JUndef
  | (k', v) :: fs' => if str_eqb k k' then v else field k fs'
  end.

(** [v.k] for a property name [k] that no built-in prototype defines. *)
Definition prop (v : jsval) (k : String.string) : exn + jsval :=
  match v with
  | JUndef | JNull => inl TypeError
  | JObj fs => inr (field (js k) fs)
  | _ => inr JUndef
  end.

(** The same where [v] is already known to be an object or a primitive other
    than [null] and [undefined]. *)
Definition prop_ok (v : jsval) (k : String.string) : jsval :=
  match v with JObj fs => field (js k) fs | _ => JUndef end.

(** [typeof v === "number"] and [Number.isFinite(v)]. *)
Definition as_number (v : jsval) : option num :=
  match v with JNum n => Some n | _ => None end.
Definition numberIsFinite (v : jsval) : bool :=
  match v with JNum n => isFinite n | _ => false end.

(** [v === s] for a string [s]. *)
Definition is_str (v : jsval) (s : String.string) : bool :=
  match v with JStr t => str_eqb t (js s) | _ => false end.
