(* ===== verification/Json.v ===== *)
(** * [JSON.stringify] and [JSON.parse]

    Everything that crosses a socket and every token is JSON text.  This file
    has the two functions of the language on decoded values: the printer with
    the shortest decimal that reads back for numbers and with escapes for
    strings, and the parser as recursive descent over the JSON grammar with
    correctly rounded decimals.

    [parse] runs the descent with fuel; [pval_fuel] shows that the fuel it
    takes is always enough.  [parse_stringify] is the round trip.

    Own properties are kept in the order of their creation; that the language
    lists integer-like keys first is not represented. *)

From S2P Require Import Prelude JsNum JsString Codec JsValue.

(** ** Decimal numerals *)

Definition isDigit (c : Z) : bool := (48 <=? c) && (c <=? 57).

(** The digits of [z >= 0], most significant first, in front of [acc]. *)
Fixpoint dec_print (fuel : nat) (z : Z) (acc : jsstr) : jsstr :=
  match fuel with
  | O => acc
  | S f => if z <? 10 then (48 + z) :: acc else dec_print f (z / 10) ((48 + z mod 10) :: acc)
  end.
Definition dec_str (z : Z) : jsstr := dec_print (S (Z.to_nat (Z.log2 z))) z [].

(** A run of digits: its value after [acc], its length, and what follows. *)
Fixpoint digits (acc : Z) (n : nat) (s : jsstr) : Z * nat * jsstr :=
  match s with
  | c :: s' => if isDigit c then digits (acc * 10 + (c - 48)) (S n) s' else (acc, n, s)
  | [] => (acc, n, s)
  end.

(** The number nearest to [(-1)^neg * d * 10^e]. *)
Definition num_decimal (neg : bool) (d e : Z) : num :=
  if d =? 0 then S754_zero neg
  else if 0 <=? e then binary_normalize prec emax ((if neg then - d else d) * 10 ^ e) 0 neg
  else let '(m, x, l) := SFdiv_core_binary prec emax d 0 (10 ^ (- e)) 0 in
       binary_round_aux prec emax neg m x l.

(** ** [Number::toString] *)

(** The value of a number that is integral. *)
Definition num_integer (a : num) : option Z :=
  match a with
  | S754_zero _ => Some 0
  | S754_finite s m e =>
      if 0 <=? e then Some (cond_Zopp s (Zpos m * 2 ^ e))
      else if Zpos m mod 2 ^ (- e) =? 0 then Some (cond_Zopp s (Zpos m / 2 ^ (- e)))
      else None
  | _ => None
  end.

Definition num_same (a b : num) : bool :=
  match a, b with
  | S754_zero s, S754_zero s' => Bool.eqb s s'
  | S754_infinity s, S754_infinity s' => Bool.eqb s s'
  | S754_nan, S754_nan => true
  | S754_finite s m e, S754_finite s' m' e' => Bool.eqb s s' && (m =? m')%positive && (e =? e')
  | _, _ => false
  end.

(** [n] with [10^(n-1) <= p / q < 10^n], searched upwards from an estimate by
    binary digits that is at most three below it. *)
Fixpoint magnitude (fuel : nat) (n p q : Z) : Z :=
  match fuel with
  | O => n
  | S f => if p * 10 ^ (Z.max 0 (- n)) <? q * 10 ^ (Z.max 0 n) then n else magnitude f (n + 1) p q
  end.

(** The shortest decimal [(s, e)], meaning [s * 10^e], that reads back as [x],
    where [x = p / q] in absolute value and [n] is its magnitude: for each
    number of digits [k] the two neighbours of [x], the nearer one first. *)
Fixpoint shortest (fuel : nat) (k : Z) (x : num) (p q n : Z) : Z * Z :=
  let e := n - k in
  let num := p * 10 ^ (Z.max 0 (- e)) in
  let den := q * 10 ^ (Z.max 0 e) in
  let lo := num / den in
  let '(a, b) := if 2 * (num mod den) <? den then (lo, lo + 1)
                 else if den <? 2 * (num mod den) then (lo + 1, lo)
                 else if Z.even lo then (lo, lo + 1) else (lo + 1, lo) in
  match fuel with
  | O => (a, e)
  | S f =>
      if num_same (num_decimal false a e) x then (a, e)
      else if num_same (num_decimal false b e) x then (b, e)
      else shortest f (k + 1) x p q n
  end.

Fixpoint strip_zeros (fuel : nat) (s e : Z) : Z * Z :=
  match fuel with
  | O => (s, e)
  | S f => if s mod 10 =? 0 then strip_zeros f (s / 10) (e + 1) else (s, e)
  end.

(** The layout of the digits [ds] of a number below [10^n]. *)
Definition num_layout (ds : jsstr) (n : Z) : jsstr :=
  let k := str_length ds in
  if (k <=? n) && (n <=? 21) then ds ++ repeat 48 (Z.to_nat (n - k))
  else if (0 <? n) && (n <=? 21) then take (Z.to_nat n) ds ++ 46 :: drop (Z.to_nat n) ds
  else if (-6 <? n) && (n <=? 0) then 48 :: 46 :: repeat 48 (Z.to_nat (- n)) ++ ds
  else let ex := (if 0 <=? n - 1 then 43 else 45) :: dec_str (Z.abs (n - 1)) in
       match ds with
       | [d] => d :: 101 :: ex
       | d :: ds' => d :: 46 :: ds' ++ 101 :: ex
       | [] => []
       end.

Definition shortest_print (m : positive) (e : Z) : jsstr :=
  let p := if 0 <=? e then Zpos m * 2 ^ e else Zpos m in
  let q := if 0 <=? e then 1 else 2 ^ (- e) in
  let n := magnitude 5 ((Z.log2 p - Z.log2 q - 1) * 30103 / 100000 - 1) p q in
  let '(s, x) := shortest 17 1 (S754_finite false m e) p q n in
  let '(s, x) := strip_zeros 20 s x in
  let ds := dec_str s in
  num_layout ds (str_length ds + x).

(** [String(a)] of a finite number.  Integers below 2^53 are all numbers of
    their own, so their shortest decimal is their numeral. *)
Definition num_print (a : num) : jsstr :=
  match num_integer a with
  | Some z =>
      if Z.abs z <? 2 ^ 53 then if z <? 0 then 45 :: dec_str (- z) else dec_str z
      else match a with
           | S754_finite s m e => (if s then [45] else []) ++ shortest_print m e
           | _ => []
           end
  | None =>
      match a with
      | S754_finite s m e => (if s then [45] else []) ++ shortest_print m e
      | _ => []
      end
  end.

(** ** Printing *)

Fixpoint commas (l : list jsstr) : jsstr :=
  match l with
  | [] => []
  | [t] => t
  | t :: l' => t ++ 44 :: commas l'
  end.

(** [\u] and four lower-case hexadecimal digits. *)
Definition unicode_escape (c : Z) : jsstr := 92 :: 117 :: hexByte (c / 256) ++ hexByte (c mod 256).

Definition escape_unit (c : Z) : jsstr :=
  if c =? 8 then [92; 98]
  else if c =? 9 then [92; 116]
  else if c =? 10 then [92; 110]
  else if c =? 12 then [92; 102]
  else if c =? 13 then [92; 114]
  else if c =? 34 then [92; 34]
  else if c =? 92 then [92; 92]
  else if c <? 32 then unicode_escape c
  else if isHigh c || isLow c then unicode_escape c
  else [c].

(** Surrogates that form a pair are left alone. *)
Fixpoint quote_body (s : jsstr) : jsstr :=
  match s with
  | [] => []
  | c :: s' =>
      match s' with
      | d :: s'' => if isHigh c && isLow d then c :: d :: quote_body s'' else escape_unit c ++ quote_body s'
      | [] => escape_unit c
      end
  end.
Definition quote (s : jsstr) : jsstr := 34 :: quote_body s ++ [34].

(** [JSON.stringify(v)]: [None] is [undefined]. *)
Fixpoint stringify (v : jsval) : option jsstr :=
  match v with
  | JUndef => None
  | JNull => Some (js "null")
  | JBool b => Some (js (if b then "true" else "false"))
  | JNum n => Some (if isFinite n then num_print n else js "null")
  | JStr s => Some (quote s)
  | JArr l =>
      Some (91 :: commas ((fix items (l : list jsval) : list jsstr :=
        match l with
        | [] => []
        | x :: l' => default (js "null") (stringify x) :: items l'
        end) l) ++ [93])
  | JObj fs =>
      Some (123 :: commas ((fix members (fs : list (jsstr * jsval)) : list jsstr :=
        match fs with
        | [] => []
        | (k, x) :: fs' =>
            match stringify x with
            | Some t => (quote k ++ 58 :: t) :: members fs'
            | None => members fs'
            end
        end) fs) ++ [125])
  end.

(** ** Parsing *)

Definition isJsonSpace (c : Z) : bool := (c =? 32) || (c =? 9) || (c =? 10) || (c =? 13).

Fixpoint skipws (s : jsstr) : jsstr :=
  match s with c :: s' => if isJsonSpace c then skipws s' else s | [] => [] end.

(** An exponent part, if there is one. *)
Definition pexp (s : jsstr) : option (Z * jsstr) :=
  match s with
  | c :: s1 =>
      if (c =? 101) || (c =? 69) then
        let '(neg, s2) :=
          match s1 with
          | d :: s2 => if d =? 45 then (true, s2) else if d =? 43 then (false, s2) else (false, s1)
          | [] => (false, s1)
          end in
        let '(e, k, r) := digits 0 0 s2 in
        if (k =? 0)%nat then None else Some (if neg then - e else e, r)
      else Some (0, s)
  | [] => Some (0, s)
  end.

(** A fraction part, if there is one: the value of all digits so far, and how
    many of them are behind the point. *)
Definition pfrac (d : Z) (s : jsstr) : option (Z * nat * jsstr) :=
  match s with
  | c :: s1 =>
      if c =? 46 then
        let '(d', k, r) := digits d 0 s1 in
        if (k =? 0)%nat then None else Some (d', k, r)
      else Some (d, 0%nat, s)
  | [] => Some (d, 0%nat, s)
  end.

(** An integer part has no leading zero. *)
Definition pint (s : jsstr) : option (Z * jsstr) :=
  match s with
  | c :: s1 =>
      if c =? 48 then Some (0, s1)
      else if isDigit c then let '(d, _, r) := digits 0 0 s in Some (d, r)
      else None
  | [] => None
  end.

Definition pnum (s : jsstr) : option (num * jsstr) :=
  let '(neg, s1) := match s with
                    | c :: s1 => if c =? 45 then (true, s1) else (false, s)
                    | [] => (false, s)
                    end in
  match pint s1 with
  | None => None
  | Some (i, s2) =>
      match pfrac i s2 with
      | None => None
      | Some (d, k, s3) =>
          match pexp s3 with
          | None => None
          | Some (e, r) => Some (num_decimal neg d (e - Z.of_nat k), r)
          end
      end
  end.

Definition unescape (c : Z) : option Z :=
  if c =? 98 then Some 8
  else if c =? 116 then Some 9
  else if c =? 110 then Some 10
  else if c =? 102 then Some 12
  else if c =? 114 then Some 13
  else if (c =? 34) || (c =? 92) || (c =? 47) then Some c
  else None.

Definition hex4 (a b c d : Z) : option Z :=
  match hexVal a, hexVal b, hexVal c, hexVal d with
  | Some a, Some b, Some c, Some d => Some (((a * 16 + b) * 16 + c) * 16 + d)
  | _, _, _, _ => None
  end.

Definition push (c : Z) (r : option (jsstr * jsstr)) : option (jsstr * jsstr) :=
  match r with Some (t, s) => Some (c :: t, s) | None => None end.

(** The rest of a string literal after its opening quote. *)
Fixpoint pstr (s : jsstr) : option (jsstr * jsstr) :=
  match s with
  | [] => None
  | c :: s1 =>
      if c =? 34 then Some ([], s1)
      else if c =? 92 then
        match s1 with
        | [] => None
        | x :: s2 =>
            if x =? 117 then
              match s2 with
              | h1 :: h2 :: h3 :: h4 :: s3 =>
                  match hex4 h1 h2 h3 h4 with Some u => push u (pstr s3) | None => None end
              | _ => None
              end
            else match unescape x with Some u => push u (pstr s2) | None => None end
        end
      else if c <? 32 then None
      else push c (pstr s1)
  end.

(** What follows a fixed word. *)
Fixpoint after (w s : jsstr) : option jsstr :=
  match w, s with
  | [], _ => Some s
  | x :: w', y :: s' => if x =? y then after w' s' else None
  | _ :: _, [] => None
  end.

Definition literal (w : String.string) (v : jsval) (s : jsstr) : option (jsval * jsstr) :=
  match after (js w) s with Some r => Some (v, r) | None => None end.

(** A later member with the same key replaces the value. *)
Fixpoint set_field (k : jsstr) (v : jsval) (fs : list (jsstr * jsval)) : list (jsstr * jsval) :=
  match fs with
  | [] => [(k, v)]
  | (k', v') :: fs' => if str_eqb k k' then (k', v) :: fs' else (k', v') :: set_field k v fs'
  end.

(** A value; the elements of an array up to its bracket, after those in [acc];
    the members of an object up to its brace, after those in [acc]. *)
Fixpoint pval (fuel : nat) (s : jsstr) : option (jsval * jsstr) :=
  match fuel with
  | O => None
  | S f =>
      match skipws s with
      | [] => None
      | c :: s1 =>
          if c =? 123 then
            match skipws s1 with
            | d :: r => if d =? 125 then Some (JObj [], r) else pmembers f s1 []
            | [] => None
            end
          else if c =? 91 then
            match skipws s1 with
            | d :: r => if d =? 93 then Some (JArr [], r) else pelems f s1 []
            | [] => None
            end
          else if c =? 34 then
            match pstr s1 with Some (t, r) => Some (JStr t, r) | None => None end
          else if c =? 116 then literal "true" (JBool true) (c :: s1)
          else if c =? 102 then literal "false" (JBool false) (c :: s1)
          else if c =? 110 then literal "null" JNull (c :: s1)
          else match pnum (c :: s1) with Some (n, r) => Some (JNum n, r) | None => None end
      end
  end
with pelems (fuel : nat) (s : jsstr) (acc : list jsval) : option (jsval * jsstr) :=
  match fuel with
  | O => None
  | S f =>
      match pval f s with
      | None => None
      | Some (v, r) =>
          match skipws r with
          | [] => None
          | c :: r' =>
              if c =? 44 then pelems f r' (acc ++ [v])
              else if c =? 93 then Some (JArr (acc ++ [v]), r')
              else None
          end
      end
  end
with pmembers (fuel : nat) (s : jsstr) (acc : list (jsstr * jsval)) : option (jsval * jsstr) :=
  match fuel with
  | O => None
  | S f =>
      match skipws s with
      | [] => None
      | q :: s1 =>
          if q =? 34 then
            match pstr s1 with
            | None => None
            | Some (k, s2) =>
                match skipws s2 with
                | [] => None
                | c :: s3 =>
                    if c =? 58 then
                      match pval f s3 with
                      | None => None
                      | Some (v, r) =>
                          match skipws r with
                          | [] => None
                          | c' :: r' =>
                              if c' =? 44 then pmembers f r' (set_field k v acc)
                              else if c' =? 125 then Some (JObj (set_field k v acc), r')
                              else None
                          end
                      end
                    else None
                end
            end
          else None
      end
  end.

(** [JSON.parse(s)]: [None] is a [SyntaxError]. *)
Definition parse (s : jsstr) : option jsval :=
  match pval (S (2 * length s)) s with
  | Some (v, r) => match skipws r with [] => Some v | _ => None end
  | None => None
  end.

(** ** Strings read back *)

Definition units (s : jsstr) : bool := forallb (fun u => (0 <=? u) && (u <? 65536)) s.

Lemma hex4_escape u r :
  0 <= u < 65536 -> pstr (unicode_escape u ++ r) = push u (pstr r).
Proof.
  intros Hu. unfold unicode_escape, hexByte. cbn [app pstr].
  change (92 =? 34) with false. change (92 =? 92) with true. change (117 =? 117) with true.
  cbv iota. unfold hex4.
  assert (Hq : 0 <= u / 256 < 256) by (split; [apply Z.div_pos; lia|apply Z.div_lt_upper_bound; lia]).
  pose proof (Z.mod_pos_bound u 256 ltac:(lia)) as Hr.
  assert (Hd : forall b, 0 <= b < 256 -> 0 <= b / 16 < 16 /\ 0 <= b mod 16 < 16 /\ b = 16 * (b / 16) + b mod 16).
  { intros b Hb. split; [split; [apply Z.div_pos; lia|apply Z.div_lt_upper_bound; lia]|].
    split; [apply Z.mod_pos_bound; lia|apply Z.div_mod; lia]. }
  destruct (Hd _ Hq) as (Q1 & Q2 & Q3). destruct (Hd _ Hr) as (R1 & R2 & R3).
  rewrite !hexVal_digit by done. f_equal. pose proof (Z.div_mod u 256 ltac:(lia)). lia.
Qed.

Lemma pstr_escape u r : 0 <= u < 65536 -> pstr (escape_unit u ++ r) = push u (pstr r).
Proof.
  intros Hu. unfold escape_unit.
  repeat match goal with
  | |- context [if ?a =? ?b then _ else _] =>
      destruct (Z.eqb_spec a b) as [->|?]; [done|]
  end.
  destruct (Z.ltb_spec u 32); [by apply hex4_escape|].
  destruct (isHigh u || isLow u); [by apply hex4_escape|]. cbn [app pstr].
  by zdec.
Qed.

Lemma pstr_plain u r : 128 <= u -> pstr (u :: r) = push u (pstr r).
Proof. intros Hu. cbn [pstr]. by zdec. Qed.

Lemma pstr_quote s r : units s = true -> pstr (quote_body s ++ 34 :: r) = Some (s, r).
Proof.
  unfold units. remember (length s) as n eqn:E. revert s E r. induction n as [n IH] using lt_wf_ind.
  intros s -> r Hs. destruct s as [|c s']; [done|].
  cbn [forallb] in Hs. apply andb_true_iff in Hs as [Hc Hs]. zbool.
  cbn [quote_body]. destruct s' as [|d s''].
  - rewrite pstr_escape by lia. done.
  - destruct (isHigh c && isLow d) eqn:E.
    + apply andb_true_iff in E as [E1 E2]. unfold isHigh, isLow in E1, E2. zbool.
      cbn [app]. rewrite !pstr_plain by lia. cbn [forallb] in Hs. apply andb_true_iff in Hs as [_ Hs].
      rewrite (IH (length s'') ltac:(simpl; lia) s'') by done. done.
    + rewrite <- app_assoc, pstr_escape by lia.
      rewrite (IH (length (d :: s'')) ltac:(simpl; lia) (d :: s'')) by done. done.
Qed.

(** ** Numbers read back *)

(** What may follow a number without being taken for a part of it. *)
Definition delim (r : jsstr) : bool :=
  match r with
  | c :: _ => negb (isDigit c || (c =? 46) || (c =? 101) || (c =? 69))
  | [] => true
  end.

Lemma digits_stop acc n r : delim r = true -> digits acc n r = (acc, n, r).
Proof.
  destruct r as [|c r]; [done|]. cbn [delim digits]. intros H. zbool. by destruct (isDigit c).
Qed.

Lemma digits_app acc n t d k r :
  digits acc n t = (d, k, []) -> delim r = true -> digits acc n (t ++ r) = (d, k, r).
Proof.
  revert acc n. induction t as [|c t IH]; intros acc n Ht Hr; cbn [digits app] in *.
  - simplify_eq. by apply digits_stop.
  - destruct (isDigit c); [by apply IH|done].
Qed.

Lemma digits_app_cons acc n t d k c t' r :
  digits acc n t = (d, k, c :: t') -> digits acc n (t ++ r) = (d, k, (c :: t') ++ r).
Proof.
  revert acc n. induction t as [|c0 t IH]; intros acc n Ht; cbn [digits app] in *; [done|].
  destruct (isDigit c0); [by apply IH|]. by simplify_eq.
Qed.

(** Each part of a number reads the same in front of a delimiter. *)
Lemma pexp_app t e t' r :
  pexp t = Some (e, t') -> t' = [] -> delim r = true -> pexp (t ++ r) = Some (e, r).
Proof.
  intros Ht -> Hr. unfold pexp in *. destruct t as [|c t]; cbn [app].
  - simplify_eq. destruct r as [|c r]; [done|]. cbn [delim] in Hr. zbool. by zdec.
  - destruct ((c =? 101) || (c =? 69)); [|done].
    destruct t as [|d t]; cbn [app] in *; [done|]. change (d :: t ++ r) with ((d :: t) ++ r).
    destruct (d =? 45); [|destruct (d =? 43)];
      match goal with |- context [digits 0 0 (?u ++ r)] => destruct (digits 0 0 u) as [[e' k'] t''] eqn:E end;
      destruct (k' =? 0)%nat eqn:Ek; try done; simplify_eq; by rewrite (digits_app _ _ _ _ _ _ E Hr), Ek.
Qed.

Lemma pfrac_app d t d' k t' r :
  pfrac d t = Some (d', k, t') -> (t' = [] -> delim r = true) -> pfrac d (t ++ r) = Some (d', k, t' ++ r).
Proof.
  intros Ht Hr. unfold pfrac in *. destruct t as [|c t]; cbn [app].
  - simplify_eq. specialize (Hr eq_refl). destruct r as [|c r]; [done|]. cbn [delim] in Hr. zbool. by zdec.
  - destruct (c =? 46); [|by simplify_eq].
    destruct (digits d 0 t) as [[d1 k1] [|c1 t1]] eqn:E; destruct (k1 =? 0)%nat eqn:Ek; try done; simplify_eq.
    + by rewrite (digits_app _ _ _ _ _ _ E (Hr eq_refl)), Ek.
    + by rewrite (digits_app_cons _ _ _ _ _ _ _ r E), Ek.
Qed.

Lemma pint_app t i t' r :
  pint t = Some (i, t') -> (t' = [] -> delim r = true) -> pint (t ++ r) = Some (i, t' ++ r).
Proof.
  intros Ht Hr. unfold pint in *. destruct t as [|c t]; [done|]. cbn [app].
  destruct (c =? 48); [by simplify_eq|]. destruct (isDigit c); [|done].
  change (c :: t ++ r) with ((c :: t) ++ r).
  destruct (digits 0 0 (c :: t)) as [[d1 k1] [|c1 t1]] eqn:E; simplify_eq.
  - by rewrite (digits_app _ _ _ _ _ _ E (Hr eq_refl)).
  - by rewrite (digits_app_cons _ _ _ _ _ _ _ r E).
Qed.

Lemma pnum_app t n r : pnum t = Some (n, []) -> delim r = true -> pnum (t ++ r) = Some (n, r).
Proof.
  intros Ht Hr. unfold pnum in *.
  destruct t as [|c t]; [done|]. cbn [app].
  assert (Hs : forall neg u,
    match pint u with
    | None => None
    | Some (i, s2) => match pfrac i s2 with
      | None => None
      | Some (d, k, s3) => match pexp s3 with
        | None => None
        | Some (e, r) => Some (num_decimal neg d (e - Z.of_nat k), r) end end
    end = Some (n, []) ->
    match pint (u ++ r) with
    | None => None
    | Some (i, s2) => match pfrac i s2 with
      | None => None
      | Some (d, k, s3) => match pexp s3 with
        | None => None
        | Some (e, r) => Some (num_decimal neg d (e - Z.of_nat k), r) end end
    end = Some (n, r)).
  { intros neg u Hu. destruct (pint u) as [[i s2]|] eqn:E1; [|done].
    destruct (pfrac i s2) as [[[d k] s3]|] eqn:E2; [|done].
    destruct (pexp s3) as [[e s4]|] eqn:E3; [|done]. simplify_eq.
    rewrite (pint_app _ _ _ _ E1) by done. rewrite (pfrac_app _ _ _ _ _ _ E2) by done.
    by rewrite (pexp_app _ _ _ _ E3) by done. }
  destruct (c =? 45); [by apply Hs|]. change (c :: t ++ r) with ((c :: t) ++ r). by apply Hs.
Qed.

(** ** Values read back *)

(** A number whose text reads back as itself. *)
Definition printable (n : num) : bool :=
  isFinite n && match pnum (num_print n) with Some (m, []) => num_same m n | _ => false end.

(** Values that JSON can carry: no [undefined], only printable numbers, code
    units in range, and each key once. *)
Fixpoint plain (v : jsval) : bool :=
  match v with
  | JUndef => false
  | JNull | JBool _ => true
  | JNum n => printable n
  | JStr s => units s
  | JArr l => forallb plain l
  | JObj fs => bool_decide (NoDup (map fst fs)) && forallb (fun f => units (fst f) && plain (snd f)) fs
  end.

Lemma num_same_eq a b : num_same a b = true -> a = b.
Proof.
  destruct a, b; simpl; try done; intros H; zbool;
    repeat match goal with H : Bool.eqb _ _ = true |- _ => apply Bool.eqb_prop in H; subst end; try done.
  match goal with H : (_ =? _)%positive = true |- _ => apply Pos.eqb_eq in H end. by subst.
Qed.

Lemma printable_reads n r :
  printable n = true -> delim r = true -> isFinite n = true /\ pnum (num_print n ++ r) = Some (n, r).
Proof.
  unfold printable. intros H Hr. zbool. split; [done|].
  destruct (pnum (num_print n)) as [[m [|]]|] eqn:E; try done.
  apply num_same_eq in H0 as <-. by apply pnum_app.
Qed.

Lemma pnum_head s n r : pnum s = Some (n, r) -> exists c s', s = c :: s' /\ (c = 45 \/ isDigit c = true).
Proof.
  destruct s as [|c s]; [done|]. intros H. exists c, s. split; [done|]. unfold pnum in H.
  destruct (Z.eqb_spec c 45); [auto|]. right. unfold pint in H.
  destruct (Z.eqb_spec c 48) as [->|]; [done|]. by destruct (isDigit c).
Qed.

Lemma forallb_Forall_true {A} (f : A -> bool) l : forallb f l = true <-> Forall (fun x => f x = true) l.
Proof. rewrite forallb_forall, List.Forall_forall. done. Qed.

Lemma jsval_nested_ind (P : jsval -> Prop) :
  P JUndef -> P JNull -> (forall b, P (JBool b)) -> (forall n, P (JNum n)) -> (forall s, P (JStr s)) ->
  (forall l, Forall P l -> P (JArr l)) ->
  (forall fs, Forall (fun f => P (snd f)) fs -> P (JObj fs)) -> forall v, P v.
Proof.
  intros Hu Hl Hb Hn Hs Ha Ho. fix IH 1. intros [| |b|n|s|l|fs].
  1-5: clear IH; auto.
  - apply Ha. induction l as [|x l IHl]; constructor; auto.
  - apply Ho. induction fs as [|[k x] fs IHl]; constructor; [apply IH|apply IHl].
Qed.

Definition json_text (v : jsval) : jsstr := default (js "null") (stringify v).
Definition member (f : jsstr * jsval) : jsstr := quote (fst f) ++ 58 :: json_text (snd f).

Lemma plain_text v : plain v = true -> stringify v = Some (json_text v).
Proof. by destruct v. Qed.

Lemma json_text_arr l : json_text (JArr l) = 91 :: commas (map json_text l) ++ [93].
Proof. done. Qed.

Lemma json_text_obj fs :
  forallb (fun f => units (fst f) && plain (snd f)) fs = true ->
  json_text (JObj fs) = 123 :: commas (map member fs) ++ [125].
Proof.
  intros Hp. unfold json_text. cbn [stringify from_option id]. do 2 f_equal. f_equal.
  induction fs as [|[k x] fs IH]; [done|]. cbn [forallb fst snd] in Hp. zbool.
  rewrite plain_text by done. cbn [map]. rewrite IH by done. done.
Qed.

(** The first character of a value's text. *)
Lemma text_head v :
  plain v = true ->
  exists c t, json_text v = c :: t /\ isJsonSpace c = false /\ c <> 93 /\ c <> 125 /\ c < 128.
Proof.
  destruct v as [| |[]|n|s|l|fs]; intros Hp; try done; try by (eexists _, _).
  destruct (printable_reads n [] Hp eq_refl) as [Hf Hn]. rewrite app_nil_r in Hn.
  destruct (pnum_head _ _ _ Hn) as (c & t & Ht & Hc). exists c, t.
  unfold json_text. cbn [stringify from_option]. rewrite Hf. split; [done|].
  unfold isDigit, isJsonSpace in *. destruct Hc as [->|Hc]; [done|]. zbool. zdec. split; [done|lia].
Qed.

Lemma commas_cons t l : commas (t :: l) = t ++ match l with [] => [] | _ => 44 :: commas l end.
Proof. destruct l; [by rewrite app_nil_r|done]. Qed.

Definition reads (v : jsval) : Prop :=
  forall fuel r, delim r = true -> (length (json_text v) <= fuel)%nat -> pval fuel (json_text v ++ r) = Some (v, r).

Lemma pelems_reads l acc fuel r :
  l <> [] -> Forall reads l -> (length (commas (map json_text l)) < fuel)%nat ->
  pelems fuel (commas (map json_text l) ++ 93 :: r) acc = Some (JArr (acc ++ l), r).
Proof.
  intros Hne Hl. revert acc fuel. induction Hl as [|x l Hx Hl IH]; [done|]. intros acc fuel Hf.
  cbn [map] in *. rewrite commas_cons in *. rewrite length_app in Hf. destruct fuel as [|f]; [lia|].
  cbn [pelems]. rewrite <- app_assoc. rewrite Hx; [|by destruct l|lia].
  destruct l as [|y l]; [done|]. cbn [map app skipws length] in *.
  change (isJsonSpace 44) with false. cbv iota. change (44 =? 44) with true. cbv iota.
  rewrite IH; [by rewrite <- app_assoc|done|lia].
Qed.

Lemma set_field_fresh k v fs : ~ In k (map fst fs) -> set_field k v fs = fs ++ [(k, v)].
Proof.
  induction fs as [|[k' v'] fs IH]; [done|]. cbn. intros Hk. unfold str_eqb.
  rewrite bool_decide_eq_false_2 by naive_solver. by rewrite IH by tauto.
Qed.

Lemma pmembers_reads fs acc fuel r :
  fs <> [] -> Forall (fun f => reads (snd f)) fs -> Forall (fun f => units (fst f) = true) fs ->
  NoDup (map fst (acc ++ fs)) -> (length (commas (map member fs)) < fuel)%nat ->
  pmembers fuel (commas (map member fs) ++ 125 :: r) acc = Some (JObj (acc ++ fs), r).
Proof.
  intros Hne Hl. revert acc fuel. induction Hl as [|[k x] fs Hx Hl IH]; [done|].
  intros acc fuel Hu Hd Hf. apply Forall_cons in Hu as [Hk Hu]. cbn [fst snd] in *.
  assert (Hfresh : ~ In k (map fst acc)).
  { rewrite map_app in Hd. apply NoDup_app in Hd as (_ & Hd & _). intros Hi.
    apply (Hd k); [by apply list_elem_of_In|left]. }
  cbn [map] in *. rewrite commas_cons in *. rewrite length_app in Hf. destruct fuel as [|f]; [lia|].
  unfold member, quote in *. cbn [fst snd] in *. rewrite !length_app in Hf. cbn [length] in Hf.
  rewrite <- !app_assoc. cbn [app]. rewrite <- !app_assoc. cbn [app].
  cbn [pmembers skipws]. change (isJsonSpace 34) with false. cbv iota. change (34 =? 34) with true. cbv iota.
  rewrite pstr_quote by done. cbn [skipws]. change (isJsonSpace 58) with false. cbv iota.
  change (58 =? 58) with true. cbv iota. rewrite Hx; [|by destruct fs|rewrite length_app in Hf; cbn in Hf; lia].
  rewrite set_field_fresh by done.
  destruct fs as [|y fs]; [done|]. cbn [map app skipws length] in *.
  change (isJsonSpace 44) with false. cbv iota. change (44 =? 44) with true. cbv iota.
  rewrite IH; [by rewrite <- app_assoc|done|done|by rewrite <- app_assoc|].
  lia.
Qed.

Lemma after_app w r : after w (w ++ r) = Some r.
Proof. induction w as [|c w IH]; [done|]. cbn. by rewrite Z.eqb_refl. Qed.

(** The dispatch of [pval] on the first character, for the structured cases. *)
Lemma pval_arr f c t r :
  isJsonSpace c = false -> c <> 93 -> pval (S f) (91 :: (c :: t) ++ r) = pelems f ((c :: t) ++ r) [].
Proof. intros Hc Hn. cbn [pval app skipws]. cbn. rewrite Hc. by zdec. Qed.

Lemma pval_obj f c t r :
  isJsonSpace c = false -> c <> 125 -> pval (S f) (123 :: (c :: t) ++ r) = pmembers f ((c :: t) ++ r) [].
Proof. intros Hc Hn. cbn [pval app skipws]. cbn. rewrite Hc. by zdec. Qed.

Lemma pval_num f s n r :
  pnum s = Some (n, r) -> pval (S f) s = Some (JNum n, r).
Proof.
  intros Hn. destruct (pnum_head _ _ _ Hn) as (c & s' & -> & Hc). cbn [pval skipws].
  assert (Hr : c = 45 \/ 48 <= c <= 57)
    by (destruct Hc as [->|Hc]; [auto|]; right; unfold isDigit in Hc; zbool; lia).
  replace (isJsonSpace c) with false by (unfold isJsonSpace; destruct Hr; zdec; done).
  repeat match goal with
  | |- context [if c =? ?b then _ else _] => rewrite (proj2 (Z.eqb_neq c b)) by lia
  end.
  by rewrite Hn.
Qed.

Lemma plain_reads v : plain v = true -> reads v.
Proof.
  induction v as [| |b|n|s|l IH|fs IH] using jsval_nested_ind; intros Hp fuel r Hr Hf; try done.
  - destruct fuel; [simpl in Hf; lia|done].
  - destruct fuel; [destruct b; simpl in Hf; lia|by destruct b].
  - destruct (printable_reads n r Hp Hr) as [Hfin Hn]. unfold json_text in *.
    cbn [stringify from_option id] in *. rewrite Hfin in *.
    destruct fuel; [|by apply pval_num].
    destruct (pnum_head _ _ _ (proj2 (printable_reads n [] Hp eq_refl))) as (c & t & Ht & _).
    rewrite app_nil_r in Ht. rewrite Ht in Hf. simpl in Hf. lia.
  - destruct fuel; [simpl in Hf; lia|]. 
    change (json_text (JStr s) ++ r) with (34 :: (quote_body s ++ [34]) ++ r). rewrite <- app_assoc.
    cbn. by rewrite pstr_quote.
  - rewrite json_text_arr in *. cbn [length] in Hf. rewrite length_app in Hf. cbn [length] in Hf.
    cbn [plain] in Hp. apply forallb_Forall_true in Hp.
    destruct fuel as [|f]; [lia|]. destruct l as [|x l]; [done|].
    cbn [app]. rewrite <- app_assoc. cbn [app].
    destruct (text_head x) as (c & t & Ht & Hc & H93 & _); [by apply Forall_cons in Hp as [? _]|].
    assert (exists t', commas (map json_text (x :: l)) = c :: t') as [t' Ht'].
    { cbn [map]. rewrite commas_cons, Ht. by eexists. }
    rewrite Ht', pval_arr, <- Ht' by done. rewrite pelems_reads; try done; [|lia].
    eapply Forall_impl; [apply Forall_and; split; [exact IH|exact Hp]|]. naive_solver.
  - cbn [plain] in Hp. apply andb_true_iff in Hp as [Hd Hp]. apply bool_decide_eq_true in Hd.
    rewrite json_text_obj in * by done. cbn [length] in Hf. rewrite length_app in Hf. cbn [length] in Hf.
    apply forallb_Forall_true in Hp.
    apply Forall_impl with (Q := fun f => units (fst f) = true /\ plain (snd f) = true) in Hp;
      [|by intros x Hx%andb_true_iff].
    destruct fuel as [|f]; [lia|]. destruct fs as [|[k x] fs]; [done|].
    cbn [app]. rewrite <- app_assoc. cbn [app].
    assert (exists t', commas (map member ((k, x) :: fs)) = 34 :: t') as [t' Ht'].
    { cbn [map]. rewrite commas_cons. by eexists. }
    rewrite Ht', pval_obj, <- Ht' by done. rewrite pmembers_reads; try done; [| |lia].
    + eapply Forall_impl; [apply Forall_and; split; [exact IH|exact Hp]|]. naive_solver.
    + eapply Forall_impl; [exact Hp|]. naive_solver.
Qed.

(** The fuel of [parse] does not matter beyond a bound. *)

Lemma skipws_length s : (length (skipws s) <= length s)%nat.
Proof. induction s as [|c s IH]; [done|]. cbn. destruct (isJsonSpace c); simpl; lia. Qed.

Lemma digits_length acc n s : (length (snd (digits acc n s)) <= length s)%nat.
Proof.
  revert acc n. induction s as [|c s IH]; intros acc n; [done|]. cbn [digits].
  destruct (isDigit c); [|done]. specialize (IH (acc * 10 + (c - 48)) (S n)). simpl. lia.
Qed.

Lemma after_length w s r : after w s = Some r -> (length r + length w = length s)%nat.
Proof.
  revert s. induction w as [|x w IH]; intros s Hs; cbn in Hs; [simplify_eq; simpl; lia|].
  destruct s as [|y s]; [done|]. destruct (x =? y); [|done]. apply IH in Hs. simpl. lia.
Qed.

Lemma pint_length s i r : pint s = Some (i, r) -> (length r < length s)%nat.
Proof.
  unfold pint. destruct s as [|c s]; [done|]. destruct (c =? 48); [intros; simplify_eq; simpl; lia|].
  destruct (isDigit c) eqn:Ec; [|done]. cbn [digits]. rewrite Ec.
  pose proof (digits_length (0 * 10 + (c - 48)) 1 s) as Hl.
  destruct (digits _ _ s) as [[d k] r']. intros. simplify_eq. simpl in *. lia.
Qed.

Lemma pfrac_length d s d' k r : pfrac d s = Some (d', k, r) -> (length r <= length s)%nat.
Proof.
  unfold pfrac. destruct s as [|c s]; [by intros; simplify_eq|].
  destruct (c =? 46); [|by intros; simplify_eq].
  pose proof (digits_length d 0 s) as Hl. destruct (digits d 0 s) as [[d1 k1] r1].
  destruct (k1 =? 0)%nat; [done|]. intros. simplify_eq. simpl in *. lia.
Qed.

Lemma pexp_length s e r : pexp s = Some (e, r) -> (length r <= length s)%nat.
Proof.
  unfold pexp. destruct s as [|c s]; [by intros; simplify_eq|].
  destruct ((c =? 101) || (c =? 69)); [|by intros; simplify_eq].
  destruct (match s with
    | [] => (false, s)
    | d :: s2 => if d =? 45 then (true, s2) else if d =? 43 then (false, s2) else (false, s)
    end) as [neg s2] eqn:E.
  assert (Hs : (length s2 <= length s)%nat).
  { destruct s as [|d s]; [by simplify_eq|]. repeat split_match_in E; simplify_eq; simpl; lia. }
  pose proof (digits_length 0 0 s2) as Hl. destruct (digits 0 0 s2) as [[d1 k1] r1].
  destruct (k1 =? 0)%nat; [done|]. intros. simplify_eq. simpl in *. lia.
Qed.

Lemma pnum_length s n r : pnum s = Some (n, r) -> (length r < length s)%nat.
Proof.
  unfold pnum.
  destruct (match s with
    | [] => (false, s)
    | c :: s1 => if c =? 45 then (true, s1) else (false, s)
    end) as [neg s1] eqn:E.
  assert (Hs : (length s1 <= length s)%nat).
  { destruct s as [|d s]; [by simplify_eq|]. repeat split_match_in E; simplify_eq; simpl; lia. }
  destruct (pint s1) as [[i s2]|] eqn:E1; [|done]. apply pint_length in E1.
  destruct (pfrac i s2) as [[[d k] s3]|] eqn:E2; [|done]. apply pfrac_length in E2.
  destruct (pexp s3) as [[e s4]|] eqn:E3; [|done]. apply pexp_length in E3.
  intros. simplify_eq. lia.
Qed.

Lemma push_some u o t r : push u o = Some (t, r) -> exists t', o = Some (t', r).
Proof. destruct o as [[]|]; cbn; intros; simplify_eq; eauto. Qed.

Lemma pstr_length s t r : pstr s = Some (t, r) -> (length r < length s)%nat.
Proof.
  remember (length s) as n eqn:E. revert s E t. induction n as [n IH] using lt_wf_ind. intros s -> t Hs.
  destruct s as [|c s1]; [done|]. cbn [pstr] in Hs. destruct (c =? 34); [simplify_eq; simpl; lia|].
  assert (Hrec : forall u s', (length s' < length (c :: s1))%nat -> push u (pstr s') = Some (t, r) ->
    (length r < length (c :: s1))%nat).
  { intros u s' Hl [t' Ht']%push_some. specialize (IH _ Hl s' eq_refl _ Ht'). lia. }
  repeat split_match_in Hs; try done; eapply Hrec; try exact Hs; simpl; lia.
Qed.

(** Every parser consumes something. *)
Definition consumes {A} (p : jsstr -> option (A * jsstr)) : Prop :=
  forall s v r, p s = Some (v, r) -> (length r < length s)%nat.

Lemma skipws_cons s c s1 : skipws s = c :: s1 -> (length s1 < length s)%nat.
Proof. intros E. pose proof (skipws_length s). rewrite E in *. simpl in *. lia. Qed.

Lemma literal_length w v s x r :
  literal w v s = Some (x, r) -> (0 < length (js w))%nat -> (length r < length s)%nat.
Proof.
  unfold literal. destruct (after (js w) s) as [r'|] eqn:E; [|done]. intros ? ?. simplify_eq.
  apply after_length in E. lia.
Qed.

Lemma parsers_consume f :
  consumes (pval f) /\ (forall acc, consumes (fun s => pelems f s acc)) /\
  (forall acc, consumes (fun s => pmembers f s acc)).
Proof.
  induction f as [|f (IHv & IHe & IHm)]; [done|]. split; [|split].
  - intros s v r H. cbn [pval] in H. destruct (skipws s) as [|c s1] eqn:Es; [done|].
    apply skipws_cons in Es. pose proof (fun acc => IHe acc s1 v r). pose proof (fun acc => IHm acc s1 v r).
    repeat split_match_in H; try done; simplify_eq;
      try match goal with E : skipws s1 = _ :: _ |- _ => apply skipws_cons in E end;
      try match goal with E : pstr s1 = Some _ |- _ => apply pstr_length in E end;
      try match goal with E : pnum _ = Some _ |- _ => apply pnum_length in E; simpl in E end;
      try match goal with H : literal _ _ _ = Some _ |- _ => apply literal_length in H; [simpl in H|simpl; lia] end;
      naive_solver lia.
  - intros acc s v r H. cbn [pelems] in H. destruct (pval f s) as [[x r0]|] eqn:Ev; [|done].
    apply IHv in Ev. destruct (skipws r0) as [|c r'] eqn:Es; [done|]. apply skipws_cons in Es.
    repeat split_match_in H; try done; [apply IHe in H|simplify_eq]; lia.
  - intros acc s v r H. cbn [pmembers] in H. destruct (skipws s) as [|q s1] eqn:Es; [done|].
    apply skipws_cons in Es. destruct (q =? 34); [|done].
    destruct (pstr s1) as [[k s2]|] eqn:Ek; [|done]. apply pstr_length in Ek.
    destruct (skipws s2) as [|c s3] eqn:E3; [done|]. apply skipws_cons in E3. destruct (c =? 58); [|done].
    destruct (pval f s3) as [[x r0]|] eqn:Ev; [|done]. apply IHv in Ev.
    destruct (skipws r0) as [|c' r'] eqn:E4; [done|]. apply skipws_cons in E4.
    repeat split_match_in H; try done; [apply IHm in H|simplify_eq]; lia.
Qed.

Lemma parsers_fuel f :
  (forall s f', (2 * length s < f)%nat -> (f <= f')%nat -> pval f' s = pval f s) /\
  (forall s acc f', (2 * length s + 1 < f)%nat -> (f <= f')%nat -> pelems f' s acc = pelems f s acc) /\
  (forall s acc f', (2 * length s + 1 < f)%nat -> (f <= f')%nat -> pmembers f' s acc = pmembers f s acc).
Proof.
  induction f as [|f (IHv & IHe & IHm)]; [split; [|split]; intros; lia|].
  pose proof (parsers_consume f) as (Cv & _).
  split; [|split]; [intros s f' Hf Hf'|intros s acc f' Hf Hf'|intros s acc f' Hf Hf'];
    (destruct f' as [|f']; [lia|]); [cbn [pval]|cbn [pelems]|cbn [pmembers]].
  - destruct (skipws s) as [|c s1] eqn:Es; [done|]. apply skipws_cons in Es.
    by rewrite IHe, IHm by lia.
  - rewrite IHv by lia. destruct (pval f s) as [[x r0]|] eqn:Ev; [|done]. apply Cv in Ev.
    destruct (skipws r0) as [|c r'] eqn:E; [done|]. apply skipws_cons in E. by rewrite IHe by lia.
  - destruct (skipws s) as [|q s1] eqn:Es; [done|]. apply skipws_cons in Es. destruct (q =? 34); [|done].
    destruct (pstr s1) as [[k s2]|] eqn:Ek; [|done]. apply pstr_length in Ek.
    destruct (skipws s2) as [|c s3] eqn:E3; [done|]. apply skipws_cons in E3. destruct (c =? 58); [|done].
    rewrite IHv by lia. destruct (pval f s3) as [[x r0]|] eqn:Ev; [|done]. apply Cv in Ev.
    destruct (skipws r0) as [|c' r'] eqn:E4; [done|]. apply skipws_cons in E4. by rewrite IHm by lia.
Qed.

(** The fuel of [parse] is enough: more of it changes no answer, acceptance or
    rejection. *)
Lemma pval_fuel s fuel : (2 * length s < fuel)%nat -> pval fuel s = pval (S (2 * length s)) s.
Proof. intros Hf. apply (proj1 (parsers_fuel (S (2 * length s)))); lia. Qed.

Lemma parse_text v : plain v = true -> parse (json_text v) = Some v.
Proof.
  intros Hp. unfold parse.
  pose proof (plain_reads v Hp (S (2 * length (json_text v))) [] eq_refl ltac:(lia)) as Hr.
  rewrite app_nil_r in Hr. by rewrite Hr.
Qed.

(** ** Safe integers are printable *)

Lemma digits_count acc n s : (n <= snd (fst (digits acc n s)))%nat.
Proof.
  revert acc n. induction s as [|c s IH]; intros acc n; [done|]. cbn [digits].
  destruct (isDigit c); [|done]. specialize (IH (acc * 10 + (c - 48)) (S n)). lia.
Qed.

Definition safe (z : Z) : Prop := Z.abs z < 2 ^ 53.

Lemma num_integer_round s p :
  Zpos p < 2 ^ 53 ->
  num_integer (binary_round prec emax s p 0) = Some (cond_Zopp s (Zpos p)) /\
  isFinite (binary_round prec emax s p 0) = true.
Proof.
  intros Hp. destruct (binary_round_small s p Hp) as (m & -> & Hm). split; [|done].
  pose proof (size_small p Hp) as Hd. cbn [num_integer]. destruct (Z.leb_spec 0 (Zpos (Pos.size p) - 53)).
  - replace (Zpos (Pos.size p) - 53) with 0 by lia. rewrite Z.mul_1_r, Hm.
    replace (53 - Zpos (Pos.size p)) with 0 by lia. by rewrite Z.mul_1_r.
  - replace (- (Zpos (Pos.size p) - 53)) with (53 - Zpos (Pos.size p)) by lia.
    assert (2 ^ (53 - Zpos (Pos.size p)) <> 0) by (apply Z.pow_nonzero; lia).
    rewrite Hm, Z.mod_mul, Z.div_mul by done. done.
Qed.

Lemma num_of_Z_integer z :
  safe z -> num_integer (num_of_Z z) = Some z /\ isFinite (num_of_Z z) = true.
Proof.
  unfold safe. intros Hz. destruct z as [|p|p]; [done| |].
  - apply (num_integer_round false p). lia.
  - apply (num_integer_round true p). lia.
Qed.

Lemma isDigit_range d : 0 <= d < 10 -> isDigit (48 + d) = true.
Proof. intros. unfold isDigit. by zdec. Qed.

(** Reading the digits of [z] is reading [z]. *)
Lemma digits_dec_print fuel z t acc n :
  0 <= z < 2 ^ Z.of_nat fuel -> fuel <> 0%nat ->
  exists k, digits acc n (dec_print fuel z t) = digits (acc * 10 ^ Z.of_nat k + z) (n + k) t /\
    exists c s, dec_print fuel z t = c :: s /\ isDigit c = true /\ (0 < z -> c <> 48) /\
      (z = 0 -> c = 48 /\ s = t).
Proof.
  revert z t. induction fuel as [|f IH]; intros z t Hz Hf; [done|]. cbn [dec_print].
  destruct (Z.ltb_spec z 10).
  - exists 1%nat. split.
    + cbn [digits]. rewrite isDigit_range by lia. change (10 ^ Z.of_nat 1) with 10. f_equal; lia.
    + exists (48 + z), t. rewrite isDigit_range by lia. do 2 (split; [done|]). split; [lia|]. intros. split; [lia|done].
  - assert (Hq : 0 < z / 10 /\ z / 10 < 2 ^ Z.of_nat f).
    { split; [apply Z.div_str_pos; lia|]. apply Z.div_lt_upper_bound; [lia|].
      rewrite Nat2Z.inj_succ, Z.pow_succ_r in Hz by lia. lia. }
    pose proof (Z.mod_pos_bound z 10 ltac:(lia)) as Hr.
    destruct (IH (z / 10) ((48 + z mod 10) :: t) ltac:(lia) ltac:(intros ->; simpl in Hq; lia)) as (k & Hk & c & s & Hs & Hc & Hc0 & _).
    exists (S k). split.
    + rewrite Hk. cbn [digits]. rewrite isDigit_range by lia. f_equal; [|lia].
      rewrite Nat2Z.inj_succ, Z.pow_succ_r by lia. pose proof (Z.div_mod z 10 ltac:(lia)). lia.
    + exists c, s. split; [done|]. split; [done|]. split; [naive_solver lia|lia].
Qed.

(** A numeral consists of digits. *)
Lemma dec_print_digits fuel z t :
  0 <= z -> Forall (fun d => isDigit d = true) t -> Forall (fun d => isDigit d = true) (dec_print fuel z t).
Proof.
  revert z t. induction fuel as [|f IH]; intros z t Hz Ht; [done|]. cbn [dec_print].
  destruct (Z.ltb_spec z 10); [constructor; [by apply isDigit_range|done]|].
  apply IH; [apply Z.div_pos; lia|]. constructor; [|done]. apply isDigit_range, Z.mod_pos_bound. lia.
Qed.

Lemma dec_str_digits z :
  0 <= z -> exists k c s, (0 < k)%nat /\ digits 0 0 (dec_str z) = (z, k, []) /\ dec_str z = c :: s /\
    isDigit c = true /\ (0 < z -> c <> 48) /\ Forall (fun d => isDigit d = true) (dec_str z).
Proof.
  intros Hz. pose proof (dec_print_digits (S (Z.to_nat (Z.log2 z))) z [] Hz ltac:(constructor)) as Hall.
  unfold dec_str. assert (Hf : 0 <= z < 2 ^ Z.of_nat (S (Z.to_nat (Z.log2 z)))).
  { split; [done|]. rewrite Nat2Z.inj_succ, Z2Nat.id by apply Z.log2_nonneg.
    destruct (decide (z = 0)) as [->|]; [done|]. apply Z.log2_spec. lia. }
  destruct (digits_dec_print _ z [] 0 0 Hf ltac:(done)) as (k & Hk & c & s & Hs & Hc & Hc0 & _).
  exists k, c, s. destruct k as [|k].
  - exfalso. rewrite Hs in Hk. cbn [digits] in Hk. rewrite Hc in Hk.
    pose proof (digits_count (0 * 10 + (c - 48)) 1 s) as Hn. rewrite Hk in Hn. cbn in Hn. lia.
  - split; [lia|]. split; [by rewrite Hk|]. done.
Qed.

Lemma pnum_dec_str neg z :
  0 <= z -> pnum ((if neg : bool then [45] else []) ++ dec_str z) = Some (num_decimal neg z 0, []).
Proof.
  intros Hz. unfold dec_str.
  assert (Hf : 0 <= z < 2 ^ Z.of_nat (S (Z.to_nat (Z.log2 z)))).
  { split; [done|]. rewrite Nat2Z.inj_succ, Z2Nat.id by apply Z.log2_nonneg.
    destruct (decide (z = 0)) as [->|]; [done|]. apply Z.log2_spec. lia. }
  destruct (digits_dec_print _ z [] 0 0 Hf ltac:(done)) as (k & Hk & c & s & Hs & Hc & Hc0 & Hcz).
  assert (Hi : pint (c :: s) = Some (z, [])).
  { unfold pint. destruct (Z.eqb_spec c 48) as [->|].
    - destruct (decide (z = 0)) as [->|]; [by destruct (Hcz eq_refl) as [_ ->]|]. exfalso. by apply Hc0; [lia|].
    - rewrite Hc, <- Hs, Hk. done. }
  assert (Hn : c <> 45) by (intros ->; done).
  rewrite Hs. unfold pnum. destruct neg; cbn [app].
  - change (45 =? 45) with true. cbv iota. by rewrite Hi.
  - rewrite (proj2 (Z.eqb_neq c 45)) by done. by rewrite Hi.
Qed.

Lemma num_decimal_int z : num_decimal (z <? 0) (Z.abs z) 0 = num_of_Z z.
Proof. unfold num_decimal. change (10 ^ 0) with 1. rewrite Z.mul_1_r. by destruct z. Qed.

Lemma num_same_refl a : num_same a a = true.
Proof. destruct a as [[]|[]| |[] m e]; cbn; rewrite ?Pos.eqb_refl, ?Z.eqb_refl; done. Qed.

Lemma safe_printable z : safe z -> printable (num_of_Z z) = true.
Proof.
  intros Hz. destruct (num_of_Z_integer z Hz) as [Hi Hf]. unfold printable. rewrite Hf. cbn [andb].
  unfold num_print. rewrite Hi, (proj2 (Z.ltb_lt _ _)) by exact Hz.
  pose proof (pnum_dec_str (z <? 0) (Z.abs z) ltac:(lia)) as Hp. rewrite num_decimal_int in Hp.
  destruct (Z.ltb_spec z 0); cbn [app] in Hp.
  - rewrite Z.abs_neq in Hp by lia. rewrite Hp. apply num_same_refl.
  - rewrite Z.abs_eq in Hp by lia. rewrite Hp. apply num_same_refl.
Qed.

(** ** The text is well-formed UTF-16 *)

(** The text of scalar values, that is without lone surrogates. *)
Definition wf16 (s : jsstr) : Prop := exists cs, Forall (fun c => scalar c = true) cs /\ s = utf16 cs.

Lemma wf16_app s t : wf16 s -> wf16 t -> wf16 (s ++ t).
Proof.
  intros (cs & Hs & ->) (ds & Ht & ->). exists (cs ++ ds). split; [by apply Forall_app|].
  unfold utf16. by rewrite map_app, concat_app.
Qed.

Lemma wf16_unit c : 0 <= c < 65536 -> isHigh c = false -> isLow c = false -> wf16 [c].
Proof.
  intros Hc Hh Hl. exists [c]. unfold isHigh, isLow in *. split.
  - constructor; [|done]. unfold scalar. destruct (c <? 55296) eqn:E; zbool; [by zdec|].
    destruct (55296 <=? c) eqn:E1, (c <? 56320) eqn:E2, (56320 <=? c) eqn:E3, (c <? 57344) eqn:E4;
      zbool; try done; try lia; by zdec.
  - unfold utf16, utf16_1. cbn [map concat]. by zdec.
Qed.

Lemma wf16_ascii s : Forall (fun c => 0 <= c < 128) s -> wf16 s.
Proof.
  induction 1 as [|c s Hc _ IH]; [by exists []|]. change (c :: s) with ([c] ++ s).
  apply wf16_app; [|done]. apply wf16_unit; unfold isHigh, isLow; zdec; done || lia.
Qed.

Lemma wf16_cons c s : 0 <= c < 128 -> wf16 s -> wf16 (c :: s).
Proof. intros Hc Hs. apply (wf16_app [c]); [|done]. apply wf16_ascii. by constructor. Qed.

Lemma wf16_pair c d : isHigh c = true -> isLow d = true -> wf16 [c; d].
Proof.
  unfold isHigh, isLow. intros Hc Hd. zbool.
  exists [65536 + (c - 55296) * 1024 + (d - 56320)]. split.
  - constructor; [|done]. unfold scalar. by zdec.
  - unfold utf16, utf16_1. cbn [map concat]. zdec. rewrite app_nil_r.
    set (x := c - 55296). set (y := d - 56320).
    replace (65536 + x * 1024 + y - 65536) with (y + x * 1024) by lia.
    rewrite Z.div_add, Z.mod_add, Z.div_small, Z.mod_small by lia. f_equal; [lia|f_equal; lia].
Qed.

Lemma hexByte_ascii b : 0 <= b < 256 -> Forall (fun c => 0 <= c < 128) (hexByte b).
Proof.
  intros Hb. unfold hexByte.
  assert (0 <= b / 16 < 16) by (split; [apply Z.div_pos; lia|apply Z.div_lt_upper_bound; lia]).
  assert (0 <= b mod 16 < 16) by (apply Z.mod_pos_bound; lia).
  repeat constructor; pose proof (hexDigit_range (b / 16)); pose proof (hexDigit_range (b mod 16)); lia.
Qed.

Lemma wf16_escape c : 0 <= c < 65536 -> wf16 (escape_unit c).
Proof.
  intros Hc. assert (Hu : wf16 (unicode_escape c)).
  { unfold unicode_escape. do 2 (apply wf16_cons; [lia|]). apply wf16_ascii, Forall_app.
    split; apply hexByte_ascii; [split; [apply Z.div_pos; lia|apply Z.div_lt_upper_bound; lia]|].
    apply Z.mod_pos_bound. lia. }
  unfold escape_unit.
  repeat match goal with
  | |- context [if ?a =? ?b then _ else _] =>
      destruct (a =? b); [apply wf16_ascii; repeat constructor; lia|]
  end.
  destruct (c <? 32); [done|]. destruct (isHigh c || isLow c) eqn:E; [done|].
  apply orb_false_iff in E as [? ?]. by apply wf16_unit.
Qed.

Lemma wf16_quote_body s : units s = true -> wf16 (quote_body s).
Proof.
  remember (length s) as n eqn:E. revert s E. induction n as [n IH] using lt_wf_ind. intros s -> Hs.
  destruct s as [|c s']; [by exists []|]. unfold units in *. cbn [forallb] in Hs.
  apply andb_true_iff in Hs as [Hc Hs]. zbool. cbn [quote_body]. destruct s' as [|d s''].
  - apply wf16_escape. lia.
  - destruct (isHigh c && isLow d) eqn:Ep.
    + apply andb_true_iff in Ep as [? ?]. cbn [forallb] in Hs. apply andb_true_iff in Hs as [_ Hs].
      apply (wf16_app [c; d]); [by apply wf16_pair|]. apply (IH (length s'')); [simpl; lia|done|done].
    + apply wf16_app; [apply wf16_escape; lia|]. apply (IH (length (d :: s''))); [simpl; lia|done|done].
Qed.

Lemma wf16_quote s : units s = true -> wf16 (quote s).
Proof.
  intros Hs. unfold quote. apply wf16_cons; [lia|]. apply wf16_app; [by apply wf16_quote_body|].
  apply wf16_ascii. repeat constructor; lia.
Qed.

(** A numeral is ASCII. *)
Definition ascii (s : jsstr) : Prop := Forall (fun c => 0 <= c < 128) s.

Lemma digits_ascii acc n s d k r : digits acc n s = (d, k, r) -> ascii r -> ascii s.
Proof.
  revert acc n. induction s as [|c s IH]; intros acc n Hs Hr; cbn [digits] in Hs; [by simplify_eq|].
  destruct (isDigit c) eqn:Ec; [|by simplify_eq]. unfold isDigit in Ec. zbool.
  constructor; [lia|]. by eapply IH.
Qed.

Lemma pexp_ascii s e r : pexp s = Some (e, r) -> ascii r -> ascii s.
Proof.
  unfold pexp. destruct s as [|c s]; [by constructor|].
  destruct ((c =? 101) || (c =? 69)) eqn:Ec; [|by intros; simplify_eq].
  intros H Hr. constructor; [apply orb_true_iff in Ec; destruct Ec; zbool; lia|].
  destruct s as [|d s]; [by constructor|].
  destruct (Z.eqb_spec d 45) as [->|]; [|destruct (Z.eqb_spec d 43) as [->|]];
    match type of H with context [digits 0 0 ?u] => destruct (digits 0 0 u) as [[? k] ?] eqn:E end;
    destruct (k =? 0)%nat; try done; simplify_eq; apply digits_ascii in E; try done.
  all: constructor; [lia|done].
Qed.

Lemma pfrac_ascii d s d' k r : pfrac d s = Some (d', k, r) -> ascii r -> ascii s.
Proof.
  unfold pfrac. destruct s as [|c s]; [by constructor|].
  destruct (Z.eqb_spec c 46) as [->|]; [|by intros; simplify_eq].
  destruct (digits d 0 s) as [[d1 k1] r1] eqn:E. destruct (k1 =? 0)%nat; [done|].
  intros. simplify_eq. constructor; [lia|]. by eapply digits_ascii.
Qed.

Lemma pint_ascii s i r : pint s = Some (i, r) -> ascii r -> ascii s.
Proof.
  unfold pint. destruct s as [|c s]; [done|].
  destruct (Z.eqb_spec c 48) as [->|]; [intros; simplify_eq; constructor; [lia|done]|].
  destruct (isDigit c); [|done]. destruct (digits 0 0 (c :: s)) as [[d1 k1] r1] eqn:E.
  intros. simplify_eq. by eapply digits_ascii.
Qed.

Lemma pnum_ascii s n : pnum s = Some (n, []) -> ascii s.
Proof.
  unfold pnum. intros H.
  assert (Hs : forall neg u,
    match pint u with
    | None => None
    | Some (i, s2) => match pfrac i s2 with
      | None => None
      | Some (d, k, s3) => match pexp s3 with
        | None => None
        | Some (e, r) => Some (num_decimal neg d (e - Z.of_nat k), r) end end
    end = Some (n, []) -> ascii u).
  { intros neg u Hu. destruct (pint u) as [[i s2]|] eqn:E1; [|done].
    destruct (pfrac i s2) as [[[d k] s3]|] eqn:E2; [|done].
    destruct (pexp s3) as [[e s4]|] eqn:E3; [|done]. simplify_eq.
    eapply pint_ascii; [done|]. eapply pfrac_ascii; [done|]. eapply pexp_ascii; [done|constructor]. }
  destruct s as [|c s]; [by constructor|]. destruct (Z.eqb_spec c 45) as [->|]; [|by eapply Hs].
  constructor; [lia|]. by eapply Hs.
Qed.

Lemma printable_ascii n : printable n = true -> ascii (num_print n).
Proof.
  intros Hn. destruct (printable_reads n [] Hn eq_refl) as [_ H]. rewrite app_nil_r in H.
  by eapply pnum_ascii.
Qed.

Lemma wf16_commas l : Forall wf16 l -> wf16 (commas l).
Proof.
  induction 1 as [|t l Ht Hl IH]; [by exists []|]. rewrite commas_cons. apply wf16_app; [done|].
  destruct l; [by exists []|]. apply wf16_cons; [lia|done].
Qed.

Lemma wf16_close l c d : Forall wf16 l -> 0 <= c < 128 -> 0 <= d < 128 -> wf16 (c :: commas l ++ [d]).
Proof.
  intros Hl Hc Hd. apply wf16_cons; [done|]. apply wf16_app; [by apply wf16_commas|].
  apply wf16_ascii. constructor; [done|constructor].
Qed.

(** The text of a value has no lone surrogate, whatever its strings hold. *)
Lemma json_text_wf16 v : plain v = true -> wf16 (json_text v).
Proof.
  induction v as [| |b|n|s|l IH|fs IH] using jsval_nested_ind; intros Hp; try done.
  - apply wf16_ascii. repeat constructor; lia.
  - apply wf16_ascii. destruct b; repeat constructor; lia.
  - unfold json_text. cbn [stringify from_option id].
    destruct (printable_reads n [] Hp eq_refl) as [-> _]. by apply wf16_ascii, printable_ascii.
  - by apply wf16_quote.
  - rewrite json_text_arr. apply wf16_close; [|lia|lia]. apply Forall_map.
    cbn [plain] in Hp. apply forallb_Forall_true in Hp.
    eapply Forall_impl; [apply Forall_and; split; [exact IH|exact Hp]|]. naive_solver.
  - cbn [plain] in Hp. apply andb_true_iff in Hp as [_ Hp]. rewrite json_text_obj by done.
    apply wf16_close; [|lia|lia]. apply Forall_map. apply forallb_Forall_true in Hp.
    eapply Forall_impl; [apply Forall_and; split; [exact IH|exact Hp]|]. intros [k x] [Hx Hk].
    cbn [fst snd] in *. apply andb_true_iff in Hk as [Hk Hpx]. change (member (k, x)) with (quote k ++ 58 :: json_text x).
    apply wf16_app; [by apply wf16_quote|]. apply wf16_cons; [lia|auto].
Qed.

Lemma truthy_pos z : 0 < z < 2 ^ 53 -> num_truthy (num_of_Z z) = true.
Proof.
  intros Hz. destruct z as [|p|p]; try lia. unfold num_of_Z. cbn [binary_normalize].
  by destruct (binary_round_small false p) as (m & -> & _); [lia|].
Qed.
