(* ===== verification/JsConv.v ===== *)
(** * Conversions between strings and numbers

    [Number(s)], [String(v)] and the relational operator on arbitrary values,
    as far as query parameters, template strings and token payloads need
    them. *)

From S2P Require Import Prelude JsNum JsString JsValue Json.

(** ** [Number(s)] *)

(** A run of digits in base [b] that is all of [s]. *)
Fixpoint radix_digits (b : Z) (val : Z -> option Z) (acc : Z) (s : jsstr) : option Z :=
  match s with
  | [] => Some acc
  | c :: s' =>
      match val c with
      | Some v => if v <? b then radix_digits b val (acc * b + v) s' else None
      | None => None
      end
  end.

Definition radix_literal (b : Z) (s : jsstr) : num :=
  match s with
  | [] => nan
  | _ => match radix_digits b Codec.hexVal 0 s with Some z => num_of_Z z | None => nan end
  end.

(** An unsigned decimal literal: digits on at least one side of the point. *)
Definition decimal_literal (neg : bool) (s : jsstr) : num :=
  if str_eqb s (js "Infinity") then S754_infinity neg
  else
    let '(i, k, s1) := digits 0 0 s in
    let '(d, k', s2) := match s1 with
                        | c :: s2 => if c =? 46 then digits i 0 s2 else (i, 0%nat, s1)
                        | [] => (i, 0%nat, s1)
                        end in
    if (k + k' =? 0)%nat then nan
    else match pexp s2 with
         | Some (e, []) => num_decimal neg d (e - Z.of_nat k')
         | _ => nan
         end.

Definition str_number (s : jsstr) : num :=
  match trim s with
  | [] => nzero
  | c :: s1 =>
      if c =? 45 then decimal_literal true s1
      else if c =? 43 then decimal_literal false s1
      else if c =? 48 then
        match s1 with
        | x :: s2 =>
            if (x =? 120) || (x =? 88) then radix_literal 16 s2
            else if (x =? 111) || (x =? 79) then radix_literal 8 s2
            else if (x =? 98) || (x =? 66) then radix_literal 2 s2
            else decimal_literal false (c :: s1)
        | [] => decimal_literal false (c :: s1)
        end
      else decimal_literal false (c :: s1)
  end.

(** ** [String(v)] of a decoded JSON value

    An object with a [toString] of its own is not represented. *)
Definition num_text (n : num) : jsstr :=
  match n with
  | S754_nan => js "NaN"
  | S754_infinity s => js (if s then "-Infinity" else "Infinity")
  | _ => num_print n
  end.

Fixpoint to_text (v : jsval) : jsstr :=
  match v with
  | JUndef => js "undefined"
  | JNull => js "null"
  | JBool b => js (if b then "true" else "false")
  | JNum n => num_text n
  | JStr s => s
  | JArr l =>
      commas ((fix items (l : list jsval) : list jsstr :=
        match l with
        | [] => []
        | x :: l' => (if nullish x then [] else to_text x) :: items l'
        end) l)
  | JObj _ => js "[object Object]"
  end.

(** [Number(v)]. *)
Definition to_number (v : jsval) : num :=
  match v with
  | JUndef | JObj _ => nan
  | JNull => nzero
  | JBool b => num_of_Z (if b then 1 else 0)
  | JNum n => n
  | JStr s => str_number s
  | JArr _ => str_number (to_text v)
  end.

(** [a || b]. *)
Definition js_or (a b : jsval) : jsval := if truthy a then a else b.
