(* ===== verification/Latin1.v ===== *)
(** * UTF-8 read as Latin-1

    [createJWT] encodes the payload as UTF-8 before base64, [verifyJWT] hands
    the bytes [atob] returns to [JSON.parse] without decoding them, so every
    byte becomes a character.  [latin] is what that does to a value, and
    [parse_latin1] says so.  On ASCII text it is the identity. *)

From S2P Require Import Prelude JsNum JsString Codec JsValue Json.

(** [s.isWellFormed()]: no lone surrogates. *)
Definition isWellFormed (s : jsstr) : bool := bool_decide (utf16 (scalars s) = s).

(** All strings of a value, keys included, are well formed. *)
Fixpoint wellFormed (v : jsval) : bool :=
  match v with
  | JStr s => isWellFormed s
  | JArr l => forallb wellFormed l
  | JObj fs => forallb (fun f => isWellFormed (fst f) && wellFormed (snd f)) fs
  | _ => true
  end.

Fixpoint latin (v : jsval) : jsval :=
  match v with
  | JStr s => JStr (textEncode s)
  | JArr l => JArr (map latin l)
  | JObj fs => JObj (map (fun f => (textEncode (fst f), latin (snd f))) fs)
  | _ => v
  end.

Lemma isWellFormed_wf16 s : units s = true -> isWellFormed s = true -> wf16 s.
Proof.
  intros Hu Hw. apply bool_decide_eq_true in Hw. exists (scalars s). split; [|done].
  apply scalars_scalar. apply forallb_Forall_true in Hu. eapply Forall_impl; [exact Hu|].
  cbn. intros u H. zbool. lia.
Qed.

Lemma textEncode_utf16 cs : Forall (fun c => scalar c = true) cs -> textEncode (utf16 cs) = utf8 cs.
Proof. intros Hcs. unfold textEncode. by rewrite scalars_utf16. Qed.

Lemma textEncode_app s t : wf16 s -> wf16 t -> textEncode (s ++ t) = textEncode s ++ textEncode t.
Proof.
  intros (cs & Hs & ->) (ds & Ht & ->).
  replace (utf16 cs ++ utf16 ds) with (utf16 (cs ++ ds)) by (unfold utf16; by rewrite map_app, concat_app).
  rewrite !textEncode_utf16 by (done || by apply Forall_app). unfold utf8. by rewrite map_app, concat_app.
Qed.

Lemma textEncode_inj s t : wf16 s -> wf16 t -> textEncode s = textEncode t -> s = t.
Proof.
  intros (cs & Hs & ->) (ds & Ht & ->). rewrite !textEncode_utf16 by done. intros E.
  f_equal. rewrite <- (dec_run_utf8 cs), <- (dec_run_utf8 ds), E by done. done.
Qed.

Lemma textEncode_cons c s : 0 <= c < 128 -> wf16 s -> textEncode (c :: s) = c :: textEncode s.
Proof.
  intros Hc (cs & Hs & ->).
  assert (Hcs : scalar c = true) by (unfold scalar; by zdec).
  replace (c :: utf16 cs) with (utf16 (c :: cs)) by (unfold utf16; cbn; unfold utf16_1; by zdec).
  rewrite !textEncode_utf16 by (done || by constructor). unfold utf8. cbn. unfold utf8_1 at 1. by zdec.
Qed.

Lemma textEncode_ascii s : ascii s -> textEncode s = s.
Proof.
  induction 1 as [|c s Hc Hs IH]; [done|]. rewrite textEncode_cons, IH; [done|done|by apply wf16_ascii].
Qed.

Lemma textEncode_bytes s : wf16 s -> Forall byte (textEncode s).
Proof. intros (cs & Hs & ->). rewrite textEncode_utf16 by done. by apply utf8_bytes. Qed.

(** ** Quoting commutes with the encoding *)

Lemma quote_body_unit u t : isHigh u = false -> quote_body (u :: t) = escape_unit u ++ quote_body t.
Proof. intros Hu. cbn [quote_body]. rewrite Hu. destruct t; [by rewrite app_nil_r|done]. Qed.

Lemma escape_unit_plain u : 128 <= u -> isHigh u = false -> isLow u = false -> escape_unit u = [u].
Proof. intros Hu Hh Hl. unfold escape_unit. rewrite Hh, Hl. by zdec. Qed.

Lemma quote_body_bytes bs t :
  Forall (fun b => 128 <= b < 256) bs -> quote_body (bs ++ t) = bs ++ quote_body t.
Proof.
  induction 1 as [|b bs Hb _ IH]; [done|]. cbn [app].
  rewrite quote_body_unit, escape_unit_plain by (unfold isHigh, isLow; zdec; done || lia). cbn. by rewrite IH.
Qed.

Lemma utf8_1_high c : 128 <= c -> scalar c = true -> Forall (fun b => 128 <= b < 256) (utf8_1 c).
Proof.
  intros Hc Hs%scalar_cases. unfold utf8_1.
  destruct (digits64 c ltac:(lia)) as (d3 & d2 & d1 & d0 & Hd & H3 & H2 & H1 & H0 & -> & -> & -> & -> & -> & ->).
  destruct (c <? 128) eqn:E1; [zbool; lia|].
  destruct (c <? 2048) eqn:E2; [|destruct (c <? 65536) eqn:E3]; zbool; repeat constructor; lia.
Qed.

(** The escape of one scalar value, in UTF-16 and in UTF-8. *)
Definition escape_scalar (c : Z) : jsstr := if c <? 65536 then escape_unit c else utf16_1 c.

Lemma escape_unit_ascii c : 0 <= c < 128 -> ascii (escape_unit c).
Proof.
  intros Hc. unfold escape_unit.
  repeat match goal with
  | |- context [if ?a =? ?b then _ else _] => destruct (a =? b); [repeat constructor; lia|]
  end.
  assert (Hu : ascii (unicode_escape c)).
  { unfold unicode_escape. do 2 (constructor; [lia|]). apply Forall_app. rewrite Z.div_small, Z.mod_small by lia.
    split; apply hexByte_ascii; lia. }
  destruct (c <? 32); [done|]. destruct (isHigh c || isLow c); [done|]. repeat constructor; lia.
Qed.

Lemma quote_body_scalar c t :
  scalar c = true -> quote_body (utf16_1 c ++ t) = escape_scalar c ++ quote_body t.
Proof.
  intros Hc%scalar_cases. unfold escape_scalar, utf16_1. destruct (c <? 65536) eqn:E; zbool.
  - cbn [app]. apply quote_body_unit. unfold isHigh. destruct Hc; zdec; done.
  - pose proof (Z.mod_pos_bound (c - 65536) 1024 ltac:(lia)).
    assert (0 <= (c - 65536) / 1024 < 1024)
      by (split; [apply Z.div_pos; lia|apply Z.div_lt_upper_bound; lia]).
    cbn [app quote_body]. unfold isHigh, isLow. by zdec.
Qed.

Lemma escape_scalar_wf16 c : scalar c = true -> wf16 (escape_scalar c).
Proof.
  intros Hc. pose proof (scalar_cases c Hc). unfold escape_scalar. destruct (c <? 65536) eqn:E; zbool.
  - apply wf16_escape. lia.
  - exists [c]. split; [by constructor|]. unfold utf16. cbn. by rewrite app_nil_r.
Qed.

Lemma textEncode_escape c t :
  scalar c = true -> quote_body (utf8_1 c ++ t) = textEncode (escape_scalar c) ++ quote_body t.
Proof.
  intros Hc. pose proof (scalar_cases c Hc) as Hr. destruct (Z.ltb_spec c 128).
  - unfold utf8_1, escape_scalar. zdec. cbn [app].
    rewrite quote_body_unit by (unfold isHigh; by zdec). by rewrite textEncode_ascii by (apply escape_unit_ascii; lia).
  - rewrite quote_body_bytes by (by apply utf8_1_high). f_equal.
    assert (E : escape_scalar c = utf16_1 c).
    { unfold escape_scalar. destruct (c <? 65536) eqn:E; [|done]. zbool. unfold utf16_1. zdec.
      apply escape_unit_plain; [lia| |]; unfold isHigh, isLow; destruct Hr; zdec; done. }
    rewrite E. replace (utf16_1 c) with (utf16 [c]) by (unfold utf16; cbn; by rewrite app_nil_r).
    rewrite textEncode_utf16 by (by constructor). unfold utf8. cbn. by rewrite app_nil_r.
Qed.

Lemma textEncode_quote_body s : wf16 s -> textEncode (quote_body s) = quote_body (textEncode s).
Proof.
  intros (cs & Hcs & ->). rewrite textEncode_utf16 by done.
  cut (wf16 (quote_body (utf16 cs)) /\ textEncode (quote_body (utf16 cs)) = quote_body (utf8 cs)); [naive_solver|].
  induction Hcs as [|c cs Hc Hcs [IHw IH]]; [split; [by exists []|done]|].
  unfold utf16, utf8. cbn [map concat]. fold (utf16 cs) (utf8 cs).
  rewrite quote_body_scalar, textEncode_escape, <- IH by done.
  pose proof (escape_scalar_wf16 c Hc). split; [by apply wf16_app|by apply textEncode_app].
Qed.

Lemma textEncode_quote s : units s = true -> wf16 s -> textEncode (quote s) = quote (textEncode s).
Proof.
  intros Hu Hw. unfold quote. pose proof (wf16_quote_body s Hu).
  assert (wf16 [34]) by (apply wf16_ascii; repeat constructor; lia).
  rewrite textEncode_cons by (try lia; by apply wf16_app).
  rewrite textEncode_app, textEncode_quote_body by done.
  by rewrite (textEncode_ascii [34]) by (repeat constructor; lia).
Qed.

Lemma textEncode_commas l : Forall wf16 l -> textEncode (commas l) = commas (map textEncode l).
Proof.
  induction 1 as [|t l Ht Hl IH]; [done|]. cbn [map]. rewrite !commas_cons.
  destruct l as [|t' l]; [by rewrite !app_nil_r|]. pose proof (wf16_commas _ Hl).
  rewrite textEncode_app by (done || by apply wf16_cons).
  rewrite textEncode_cons, IH by (lia || done). done.
Qed.

Lemma textEncode_close l c d :
  Forall wf16 l -> 0 <= c < 128 -> 0 <= d < 128 ->
  textEncode (c :: commas l ++ [d]) = c :: commas (map textEncode l) ++ [d].
Proof.
  intros Hl Hc Hd. assert (Hd' : ascii [d]) by (constructor; [done|constructor]).
  pose proof (wf16_commas _ Hl). pose proof (wf16_ascii _ Hd').
  rewrite textEncode_cons by (done || by apply wf16_app).
  rewrite textEncode_app, textEncode_commas, (textEncode_ascii [d]) by done. done.
Qed.

(** ** Values *)

Lemma units_bytes bs : Forall byte bs -> units bs = true.
Proof.
  intros Hb. apply forallb_Forall_true. eapply Forall_impl; [exact Hb|]. unfold byte. cbn. intros. by zdec.
Qed.

Lemma wellFormed_member f :
  isWellFormed (fst f) && wellFormed (snd f) = true -> units (fst f) && plain (snd f) = true ->
  wf16 (fst f) /\ units (fst f) = true /\ plain (snd f) = true /\ wellFormed (snd f) = true.
Proof. intros [? ?]%andb_true_iff [? ?]%andb_true_iff. split; [by apply isWellFormed_wf16|done]. Qed.

Lemma latin_plain v : plain v = true -> wellFormed v = true -> plain (latin v) = true.
Proof.
  induction v as [| |b|n|s|l IH|fs IH] using jsval_nested_ind; intros Hp Hw; cbn [latin]; try done.
  - by apply units_bytes, textEncode_bytes, isWellFormed_wf16.
  - cbn [plain wellFormed] in *. apply forallb_Forall_true in Hp, Hw. apply forallb_Forall_true, Forall_map.
    eapply Forall_impl; [apply Forall_and; split; [exact IH|apply Forall_and; split; [exact Hp|exact Hw]]|].
    naive_solver.
  - cbn [plain wellFormed] in *. apply andb_true_iff in Hp as [Hd Hp]. apply bool_decide_eq_true in Hd.
    apply forallb_Forall_true in Hp, Hw. apply andb_true_iff. split.
    + apply bool_decide_eq_true. rewrite map_map. cbn [fst]. clear IH.
      induction fs as [|[k x] fs IHfs]; [constructor|]. cbn [map fst] in *.
      apply Forall_cons in Hp as [Hp1 Hp], Hw as [Hw1 Hw]. apply NoDup_cons in Hd as [Hk Hd].
      apply NoDup_cons. split; [|by apply IHfs]. intros Hin. apply Hk.
      apply list_elem_of_In, in_map_iff in Hin as (f & Ef & Hf%list_elem_of_In).
      rewrite Forall_forall in Hp, Hw. destruct (wellFormed_member f (Hw f Hf) (Hp f Hf)) as (? & _).
      destruct (wellFormed_member (k, x) Hw1 Hp1) as (? & _).
      apply textEncode_inj in Ef; [|done|done]. cbn in Ef. subst.
      apply list_elem_of_In, in_map, list_elem_of_In, Hf.
    + apply forallb_Forall_true, Forall_map.
      eapply Forall_impl; [apply Forall_and; split; [exact IH|apply Forall_and; split; [exact Hp|exact Hw]]|].
      cbn [fst snd]. intros f (IHf & Hpf & Hwf).
      destruct (wellFormed_member f Hwf Hpf) as (? & _ & ? & ?). apply andb_true_iff.
      split; [by apply units_bytes, textEncode_bytes|auto].
Qed.

Lemma textEncode_json v :
  plain v = true -> wellFormed v = true -> textEncode (json_text v) = json_text (latin v).
Proof.
  induction v as [| |b|n|s|l IH|fs IH] using jsval_nested_ind; intros Hp Hw; cbn [latin]; try done.
  - by destruct b.
  - apply textEncode_ascii. unfold json_text. cbn [stringify from_option id].
    destruct (printable_reads n [] Hp eq_refl) as [-> _]. by apply printable_ascii.
  - cbn [plain wellFormed] in *. apply textEncode_quote; [done|by apply isWellFormed_wf16].
  - rewrite !json_text_arr. cbn [plain wellFormed] in *. apply forallb_Forall_true in Hp, Hw.
    rewrite textEncode_close; [|apply Forall_map; eapply Forall_impl; [exact Hp|apply json_text_wf16]|lia|lia].
    do 3 f_equal. rewrite !map_map. apply map_ext_in. intros x Hx%list_elem_of_In.
    rewrite Forall_forall in IH, Hp, Hw. auto.
  - pose proof (latin_plain _ Hp Hw) as Hl. cbn [latin plain] in Hl. apply andb_true_iff in Hl as [_ Hl].
    cbn [plain wellFormed] in Hp, Hw. apply andb_true_iff in Hp as [_ Hp].
    rewrite !json_text_obj by done. apply forallb_Forall_true in Hp, Hw. rewrite Forall_forall in IH, Hp, Hw.
    assert (Hm : forall f, f ∈ fs -> wf16 (member f) /\
      textEncode (member f) = member (textEncode (fst f), latin (snd f))).
    { intros f Hf. destruct (wellFormed_member f (Hw f Hf) (Hp f Hf)) as (? & ? & ? & ?).
      unfold member. cbn [fst snd]. pose proof (wf16_quote (fst f)). pose proof (json_text_wf16 (snd f)).
      assert (wf16 (58 :: json_text (snd f))) by (apply wf16_cons; [lia|auto]).
      split; [apply wf16_app; auto|].
      rewrite textEncode_app, textEncode_quote, textEncode_cons by (auto || lia). by rewrite IH. }
    rewrite textEncode_close; [|apply Forall_map, Forall_forall; intros; by apply Hm|lia|lia].
    do 3 f_equal. rewrite !map_map. apply map_ext_in. intros f Hf%list_elem_of_In. by apply Hm.
Qed.

(** Reading the UTF-8 bytes of a value's text as characters. *)
Lemma parse_latin1 v :
  plain v = true -> wellFormed v = true -> parse (textEncode (json_text v)) = Some (latin v).
Proof. intros Hp Hw. rewrite textEncode_json by done. by apply parse_text, latin_plain. Qed.

Lemma wf16_isWellFormed s : wf16 s -> isWellFormed s = true.
Proof. intros (cs & Hs & ->). apply bool_decide_eq_true. by rewrite scalars_utf16. Qed.

Lemma ascii_units s : ascii s -> units s = true.
Proof. intros Hs. apply forallb_Forall_true. eapply Forall_impl; [exact Hs|]. cbn. intros. by zdec. Qed.

(** ASCII strings are serialisable as they are. *)
Lemma ascii_carried s : ascii s -> plain (JStr s) = true /\ wellFormed (JStr s) = true.
Proof. intros Hs. split; [by apply ascii_units|by apply wf16_isWellFormed, wf16_ascii]. Qed.
