(* ===== verification/Uri.v ===== *)
(** * [encodeURI], [decodeURI] and [decodeURIComponent]

    The language's percent-decoding: an escape of an ASCII character becomes
    the character, except that [decodeURI] leaves the reserved ones escaped;
    the escapes of a well-formed UTF-8 sequence become its character; anything
    else raises [URIError] ([None]). *)

From S2P Require Import Prelude JsString Codec.

Definition hex2 (a b : Z) : option Z :=
  match hexVal a, hexVal b with Some x, Some y => Some (x * 16 + y) | _, _ => None end.

(** The scalar value whose UTF-8 encoding is the given sequence. *)
Definition utf8_value (bs : list Z) : option Z :=
  let v := match bs with
           | [a; b] => (a - 192) * 64 + (b - 128)
           | [a; b; c] => (a - 224) * 4096 + (b - 128) * 64 + (c - 128)
           | [a; b; c; d] => (a - 240) * 262144 + (b - 128) * 4096 + (c - 128) * 64 + (d - 128)
           | _ => 0
           end in
  if scalar v && bool_decide (utf8_1 v = bs) then Some v else None.

Definition prepend (p : jsstr) (r : option jsstr) : option jsstr :=
  match r with Some s => Some (p ++ s) | None => None end.

Definition chunk (bs : list Z) (r : option jsstr) : option jsstr :=
  match utf8_value bs with Some v => prepend (utf16_1 v) r | None => None end.

(** [keep] are the characters whose escapes stay. *)
Fixpoint decodeWith (keep : Z -> bool) (s : jsstr) : option jsstr :=
  match s with
  | [] => Some []
  | c :: s0 =>
      if c =? 37 then
        match s0 with
        | a :: b :: s1 =>
            match hex2 a b with
            | None => None
            | Some x =>
                if x <? 128 then prepend (if keep x then [37; a; b] else [x]) (decodeWith keep s1)
                else
                  match s1 with
                  | p1 :: a1 :: b1 :: s2 =>
                      match (if p1 =? 37 then hex2 a1 b1 else None) with
                      | None => None
                      | Some x1 =>
                          if x <? 224 then chunk [x; x1] (decodeWith keep s2)
                          else
                            match s2 with
                            | p2 :: a2 :: b2 :: s3 =>
                                match (if p2 =? 37 then hex2 a2 b2 else None) with
                                | None => None
                                | Some x2 =>
                                    if x <? 240 then chunk [x; x1; x2] (decodeWith keep s3)
                                    else
                                      match s3 with
                                      | p3 :: a3 :: b3 :: s4 =>
                                          match (if p3 =? 37 then hex2 a3 b3 else None) with
                                          | None => None
                                          | Some x3 => chunk [x; x1; x2; x3] (decodeWith keep s4)
                                          end
                                      | _ => None
                                      end
                                end
                            | _ => None
                            end
                      end
                  | _ => None
                  end
            end
        | _ => None
        end
      else prepend [c] (decodeWith keep s0)
  end.

(** [;/?:@&=+$,#] *)
Definition uriReserved (c : Z) : bool :=
  existsb (Z.eqb c) [59; 47; 63; 58; 64; 38; 61; 43; 36; 44; 35].

Definition decodeURI : jsstr -> option jsstr := decodeWith uriReserved.
Definition decodeURIComponent : jsstr -> option jsstr := decodeWith (fun _ => false).

(** [encodeURI]: letters, digits, marks and reserved characters stay, the
    bytes of everything else are escaped; a lone surrogate is an error. *)
Definition uriUnescaped (c : Z) : bool :=
  (48 <=? c) && (c <=? 57) || (65 <=? c) && (c <=? 90) || (97 <=? c) && (c <=? 122)
  || uriReserved c || existsb (Z.eqb c) [45; 95; 46; 33; 126; 42; 39; 40; 41].

Definition escapeByte (b : Z) : jsstr := [37; upperHex (b / 16); upperHex (b mod 16)].

Definition encodeURI (s : jsstr) : option jsstr :=
  if bool_decide (utf16 (scalars s) = s) then
    Some (concat (map (fun c => if uriUnescaped c then [c] else concat (map escapeByte (utf8_1 c))) (scalars s)))
  else None.

(** ** What decoding does, step by step *)

(** One character or escape sequence, and what it becomes. *)
Inductive dstep (keep : Z -> bool) : jsstr -> jsstr -> Prop :=
| ds_plain c : c <> 37 -> dstep keep [c] [c]
| ds_ascii a b x : hex2 a b = Some x -> x < 128 -> dstep keep [37; a; b] (if keep x then [37; a; b] else [x])
| ds_multi p v : Forall (fun c => c = 37 \/ hexVal c <> None) p -> 128 <= v -> dstep keep p (utf16_1 v).

Inductive dseq (keep : Z -> bool) : jsstr -> jsstr -> Prop :=
| dq_nil : dseq keep [] []
| dq_step p o s d : dstep keep p o -> dseq keep s d -> dseq keep (p ++ s) (o ++ d).

Lemma hex2_digits a b x : hex2 a b = Some x -> hexVal a <> None /\ hexVal b <> None.
Proof. unfold hex2. by destruct (hexVal a), (hexVal b). Qed.

Lemma utf8_value_high bs v : utf8_value bs = Some v -> (2 <= length bs)%nat -> 128 <= v.
Proof.
  unfold utf8_value. destruct (scalar _ && bool_decide _) eqn:E; [|done]. intros [= <-] Hl.
  apply andb_true_iff in E as [_ E]. apply bool_decide_eq_true in E.
  destruct (Z.le_gt_cases 128 (match bs with
           | [a; b] => (a - 192) * 64 + (b - 128)
           | [a; b; c] => (a - 224) * 4096 + (b - 128) * 64 + (c - 128)
           | [a; b; c; d] => (a - 240) * 262144 + (b - 128) * 4096 + (c - 128) * 64 + (d - 128)
           | _ => 0
           end)) as [Hv|Hv]; [done|].
  unfold utf8_1 in E. rewrite (proj2 (Z.ltb_lt _ _) Hv) in E. rewrite <- E in Hl. simpl in Hl. lia.
Qed.

Lemma prepend_some p r d : prepend p r = Some d -> exists d', r = Some d' /\ d = p ++ d'.
Proof. destruct r; cbn; intros; simplify_eq; eauto. Qed.

Lemma chunk_some bs r d :
  (2 <= length bs)%nat -> chunk bs r = Some d -> exists v d', 128 <= v /\ r = Some d' /\ d = utf16_1 v ++ d'.
Proof.
  unfold chunk. intros Hl. destruct (utf8_value bs) as [v|] eqn:E; [|done].
  intros (d' & -> & ->)%prepend_some. exists v, d'. split; [by eapply utf8_value_high|done].
Qed.

Lemma decode_dseq keep s d : decodeWith keep s = Some d -> dseq keep s d.
Proof.
  remember (length s) as n eqn:En. revert s En d. induction n as [n IH] using lt_wf_ind. intros s -> d Hd.
  assert (Hrec : forall p s' o d', s = p ++ s' -> p <> [] -> dstep keep p o -> decodeWith keep s' = Some d' ->
    dseq keep s (o ++ d')).
  { intros p s' o d' -> Hp Ho Hs'. constructor; [done|]. apply (IH (length s')); [|done|done].
    rewrite length_app. destruct p; [done|simpl; lia]. }
  assert (Hm : forall p s' bs, s = p ++ s' -> p <> [] -> Forall (fun c => c = 37 \/ hexVal c <> None) p ->
    (2 <= length bs)%nat -> chunk bs (decodeWith keep s') = Some d -> dseq keep s d).
  { intros p s' bs Hs Hp Hh Hl (v & d' & Hv & Hd' & ->)%chunk_some; [|done].
    apply (Hrec p s'); [done|done|by constructor|done]. }
  destruct s as [|c s0]; [simpl in Hd; simplify_eq; constructor|]. cbn [decodeWith] in Hd.
  destruct (Z.eqb_spec c 37) as [->|Hc].
  2: { apply prepend_some in Hd as (d' & Hd' & ->). apply (Hrec [c] s0); [done|done|by constructor|done]. }
  destruct s0 as [|a [|b s1]]; try done. destruct (hex2 a b) as [x|] eqn:Ex; [|done].
  pose proof (hex2_digits _ _ _ Ex) as [Ha Hb].
  destruct (Z.ltb_spec x 128).
  { apply prepend_some in Hd as (d' & Hd' & ->). apply (Hrec [37; a; b] s1); [done|done|by constructor|done]. }
  destruct s1 as [|p1 [|a1 [|b1 s2]]]; try done.
  destruct (Z.eqb_spec p1 37) as [->|]; [|done]. destruct (hex2 a1 b1) as [x1|] eqn:Ex1; [|done].
  pose proof (hex2_digits _ _ _ Ex1) as [Ha1 Hb1].
  destruct (x <? 224).
  { apply (Hm [37; a; b; 37; a1; b1] s2 [x; x1]); [done|done|repeat constructor; tauto|simpl; lia|done]. }
  destruct s2 as [|p2 [|a2 [|b2 s3]]]; try done.
  destruct (Z.eqb_spec p2 37) as [->|]; [|done]. destruct (hex2 a2 b2) as [x2|] eqn:Ex2; [|done].
  pose proof (hex2_digits _ _ _ Ex2) as [Ha2 Hb2].
  destruct (x <? 240).
  { apply (Hm [37; a; b; 37; a1; b1; 37; a2; b2] s3 [x; x1; x2]);
      [done|done|repeat constructor; tauto|simpl; lia|done]. }
  destruct s3 as [|p3 [|a3 [|b3 s4]]]; try done.
  destruct (Z.eqb_spec p3 37) as [->|]; [|done]. destruct (hex2 a3 b3) as [x3|] eqn:Ex3; [|done].
  pose proof (hex2_digits _ _ _ Ex3) as [Ha3 Hb3].
  apply (Hm [37; a; b; 37; a1; b1; 37; a2; b2; 37; a3; b3] s4 [x; x1; x2; x3]);
    [done|done|repeat constructor; tauto|simpl; lia|done].
Qed.

(** ** Path segments *)

Definition SLASH : Z := 47.

Lemma hexVal_slash c : hexVal c <> None -> c <> SLASH.
Proof. by intros H ->. Qed.

Lemma utf16_1_high v : 128 <= v -> Forall (fun u => 128 <= u) (utf16_1 v).
Proof.
  intros Hv. unfold utf16_1. destruct (v <? 65536) eqn:E; zbool; [by repeat constructor|].
  assert (0 <= (v - 65536) / 1024) by (apply Z.div_pos; lia).
  pose proof (Z.mod_pos_bound (v - 65536) 1024 ltac:(lia)). repeat constructor; lia.
Qed.

(** Apart from a slash itself, no step of [decodeURI] touches a slash. *)
Lemma dstep_slash p o :
  dstep uriReserved p o ->
  (p = [SLASH] /\ o = [SLASH]) \/ (Forall (fun c => c <> SLASH) p /\ Forall (fun c => c <> SLASH) o).
Proof.
  intros [c Hc|a b x Hx Hl|q v Hq Hv].
  - destruct (decide (c = SLASH)) as [->|]; [by left|right]. by repeat constructor.
  - right. destruct (hex2_digits _ _ _ Hx) as [Ha%hexVal_slash Hb%hexVal_slash].
    split; [by repeat constructor|]. destruct (uriReserved x) eqn:E; [by repeat constructor|].
    constructor; [|constructor]. by intros ->.
  - right. split.
    + eapply Forall_impl; [exact Hq|]. cbn. intros c [->|H]; [done|by apply hexVal_slash].
    + eapply Forall_impl; [by apply utf16_1_high|]. cbn. unfold SLASH. lia.
Qed.

(** [decodeURI] decodes the segments of a path one by one. *)
Lemma dseq_segments s d :
  dseq uriReserved s d -> Forall2 (dseq uriReserved) (split_on SLASH s) (split_on SLASH d).
Proof.
  induction 1 as [|p o s d Ho Hs IH]; [repeat constructor|].
  destruct (dstep_slash p o Ho) as [[-> ->]|[Hp Hq]].
  - change ([SLASH] ++ s) with ([] ++ SLASH :: s). change ([SLASH] ++ d) with ([] ++ SLASH :: d).
    rewrite !split_on_cons by constructor. constructor; [constructor|done].
  - destruct (split_on_prefix SLASH p s Hp) as (q & qs & Eq & ->).
    destruct (split_on_prefix SLASH o d Hq) as (q' & qs' & Eq' & ->).
    rewrite Eq, Eq' in IH. apply Forall2_cons in IH as [IH1 IH2]. constructor; [by constructor|done].
Qed.

(** ** Dots *)

Lemma dseq_nil_inv keep s : dseq keep s [] -> s = [].
Proof.
  remember [] as d eqn:Ed. induction 1 as [|p o s d Ho Hs IH]; [done|].
  apply app_nil in Ed as [-> ->]. exfalso. clear -Ho. remember [] as o eqn:Eo.
  destruct Ho as [|a b x|p v]; [done|by destruct (keep x)|].
  unfold utf16_1 in Eo. by destruct (v <? 65536).
Qed.

Lemma hex2_dot a b : hex2 a b = Some 46 -> a = 50 /\ (b = 101 \/ b = 69).
Proof.
  unfold hex2. destruct (hexVal a) as [x|] eqn:Ea; [|done]. destruct (hexVal b) as [y|] eqn:Eb; [|done].
  intros [= Hxy]. unfold hexVal in *.
  repeat match goal with H : context [if ?c then _ else _] |- _ => destruct c eqn:? end;
    zbool; simplify_eq; lia.
Qed.

(** A dot comes from a dot or from its escape. *)
Lemma dseq_dot s d :
  dseq uriReserved s (46 :: d) ->
  exists s', dseq uriReserved s' d /\ (s = 46 :: s' \/ s = 37 :: 50 :: 101 :: s' \/ s = 37 :: 50 :: 69 :: s').
Proof.
  remember (46 :: d) as e eqn:Ee. intros Hs. revert d Ee.
  destruct Hs as [|p o s e' Ho Hs]; intros d Ee; [done|]. destruct Ho as [c Hc|a b x Hx Hl|q v Hq Hv].
  - simplify_eq/=. exists s. auto.
  - destruct (uriReserved x); [done|]. simplify_eq/=. destruct (hex2_dot a b Hx) as [-> [->| ->]]; eauto.
  - pose proof (utf16_1_high v Hv) as Hu. destruct (utf16_1 v) as [|u us] eqn:Eu.
    + unfold utf16_1 in Eu. by destruct (v <? 65536).
    + apply Forall_cons in Hu as [Hu _]. simplify_eq/=. lia.
Qed.

(** The parent directory, and the ways to write it with an escape, which the
    URL standard calls double-dot path segments. *)
Definition DOTDOT : jsstr := js "..".
Definition escapedDotDot (p : jsstr) : bool :=
  existsb (str_eqb p) (map js [".%2e"; ".%2E"; "%2e."; "%2E."; "%2e%2e"; "%2e%2E"; "%2E%2e"; "%2E%2E"]%string).

Lemma dseq_dotdot p : dseq uriReserved p DOTDOT -> p = DOTDOT \/ escapedDotDot p = true.
Proof.
  intros (p1 & (p2 & Hp2 & E2)%dseq_dot & E1)%dseq_dot. apply dseq_nil_inv in Hp2 as ->.
  destruct E1 as [->|[->| ->]], E2 as [->|[->| ->]]; auto.
Qed.

(** Text without escapes is left alone. *)
Lemma decodeWith_plain keep p r :
  Forall (fun c => c <> 37) p -> decodeWith keep (p ++ r) = prepend p (decodeWith keep r).
Proof.
  induction 1 as [|c p Hc _ IH]; cbn [app].
  - by destruct (decodeWith keep r).
  - cbn [decodeWith]. rewrite (proj2 (Z.eqb_neq c 37)) by done. rewrite IH. by destruct (decodeWith keep r).
Qed.
