(* ===== verification/Wire.v ===== *)
(** * The encrypted wire format ([utils.ts], [client_src/utils.js])

    Messages travel as base64 of a 12-byte initialisation vector followed by
    the AES-GCM ciphertext of the UTF-8 text.  Server and client each have
    their own copy of the code; the theorem is that each reads what the other
    writes.  The cipher is Web Crypto's, a parameter with its documented
    contract. *)

From S2P Require Import Prelude JsNum JsString Codec JsValue Json.

(** [crypto.subtle] with AES-GCM: key, initialisation vector, data. *)
Class SubtleCrypto := {
  subtle_encrypt : list Z -> list Z -> list Z -> list Z;
  subtle_decrypt : list Z -> list Z -> list Z -> option (list Z);
}.

(** Decryption inverts encryption under the same key and vector, and a
    ciphertext is a byte string. *)
Class SubtleCryptoOk `{SubtleCrypto} : Prop := {
  subtle_inverse : forall key iv data,
    subtle_decrypt key iv (subtle_encrypt key iv data) = Some data;
  subtle_bytes : forall key iv data,
    Forall byte data -> Forall byte (subtle_encrypt key iv data);
}.

(** ** [parseInt(s, 16)] stored into a [Uint8Array] *)

(** The value of the longest prefix of hexadecimal digits. *)
Fixpoint hexPrefix (acc : option Z) (s : jsstr) : option Z :=
  match s with
  | [] => acc
  | c :: s' =>
      match hexVal c with
      | Some v => hexPrefix (Some (default 0 acc * 16 + v)) s'
      | None => acc
      end
  end.

(** [parseInt(s, 16)]: leading white space, a sign and [0x] are skipped; NaN
    is [None]. *)
Definition parseInt16 (s : jsstr) : option Z :=
  let s := trimStart s in
  let '(neg, s) :=
    match s with
    | c :: s' => if c =? 45 then (true, s') else if c =? 43 then (false, s') else (false, s)
    | [] => (false, s)
    end in
  let s :=
    match s with
    | a :: b :: s' => if (a =? 48) && ((b =? 120) || (b =? 88)) then s' else s
    | _ => s
    end in
  match hexPrefix None s with
  | Some v => Some (if neg then - v else v)
  | None => None
  end.

Definition toUint8 (v : option Z) : Z := match v with Some z => z mod 256 | None => 0 end.

(** [s.slice(i, j)] for [0 <= i <= j]. *)
Definition slice (i j : nat) (s : jsstr) : jsstr := take (j - i) (drop i s).

(** The configured key. *)
Definition WS_AES_KEY_HEX : jsstr :=
  js "85237b044148ccbcb10a383765ae7359bb1ef8ca816674e2080d76a5f70338bb".

(** ** The server's copy *)

Module Server.
Section Aes.
Context `{SubtleCrypto}.

Definition getAesKey (hex : jsstr) : list Z :=
  map (fun i => toUint8 (parseInt16 (slice (i * 2) (i * 2 + 2) hex))) (seq 0 32).

(** [iv] is what [crypto.getRandomValues] filled in. *)
Definition aesEncrypt (hex : jsstr) (iv : list Z) (plaintext : jsstr) : option jsstr :=
  let key := getAesKey hex in
  let encoded := textEncode plaintext in
  let ciphertext := subtle_encrypt key iv encoded in
  let combined := iv ++ ciphertext in
  btoa combined.

(** [None] is [null]: whatever fails is caught. *)
Definition aesDecrypt (hex : jsstr) (encrypted : jsstr) : option jsstr :=
  let key := getAesKey hex in
  match atob encrypted with
  | None => None
  | Some combined =>
      let iv := slice 0 12 combined in
      let ciphertext := drop 12 combined in
      match subtle_decrypt key iv ciphertext with
      | None => None
      | Some decrypted => Some (textDecode decrypted)
      end
  end.

(** [safeParse]: a [SyntaxError] becomes [null]. *)
Definition safeParse (s : jsstr) : option jsval := Json.parse s.

Definition decodeClientWsMsg (hex s : jsstr) : option jsval :=
  match aesDecrypt hex s with
  | None | Some [] => None
  | Some d => safeParse d
  end.

(** The text [wsSend] hands to the socket.  [TextEncoder] encodes an absent
    argument as the empty text. *)
Definition wsSendText (hex : jsstr) (iv : list Z) (msg : jsval) : option jsstr :=
  aesEncrypt hex iv (default [] (stringify msg)).

End Aes.
End Server.

(** ** The client's copy *)

Module Client.
Section Aes.
Context `{SubtleCrypto}.

Definition getAesKey (hex : jsstr) : list Z :=
  map (fun i => toUint8 (parseInt16 (slice (i * 2) (i * 2 + 2) hex))) (seq 0 32).

Definition aesEncrypt (hex : jsstr) (iv : list Z) (plaintext : jsstr) : option jsstr :=
  let key := getAesKey hex in
  let encoded := textEncode plaintext in
  let ciphertext := subtle_encrypt key iv encoded in
  btoa (iv ++ ciphertext).

Definition aesDecrypt (hex : jsstr) (encrypted : jsstr) : option jsstr :=
  let key := getAesKey hex in
  match atob encrypted with
  | None => None
  | Some combined =>
      match subtle_decrypt key (slice 0 12 combined) (drop 12 combined) with
      | None => None
      | Some decrypted => Some (textDecode decrypted)
      end
  end.

(** [wsDecode]: an empty or failed decryption, or malformed JSON, is [null]. *)
Definition wsDecode (hex str : jsstr) : option jsval :=
  match aesDecrypt hex str with
  | None | Some [] => None
  | Some d => Json.parse d
  end.

Definition wsEncode (hex : jsstr) (iv : list Z) (obj : jsval) : option jsstr :=
  aesEncrypt hex iv (default [] (stringify obj)).

End Aes.
End Client.

(** ** Both directions *)

(** The hexadecimal digits of a byte string. *)
Definition hexBytes (bs : list Z) : jsstr := concat (map hexByte bs).

Lemma parse_hexByte b : byte b -> parseInt16 (hexByte b) = Some b.
Proof.
  intros Hb. unfold byte in Hb. unfold hexByte.
  assert (Hq : 0 <= b / 16 < 16) by (split; [apply Z.div_pos; lia|apply Z.div_lt_upper_bound; lia]).
  assert (Hr : 0 <= b mod 16 < 16) by (apply Z.mod_pos_bound; lia).
  pose proof (hexVal_digit _ Hq) as Vq. pose proof (hexVal_digit _ Hr) as Vr.
  pose proof (hexDigit_range _ Hq) as Rq. pose proof (hexDigit_range _ Hr) as Rr.
  set (q := hexDigit (b / 16)) in *. set (r := hexDigit (b mod 16)) in *.
  unfold parseInt16. cbn [trimStart].
  replace (isSpace q) with false by (unfold isSpace; destruct Rq; zdec; done).
  replace (q =? 45) with false by (symmetry; apply Z.eqb_neq; lia).
  replace (q =? 43) with false by (symmetry; apply Z.eqb_neq; lia).
  replace ((q =? 48) && ((r =? 120) || (r =? 88))) with false
    by (replace (r =? 120) with false by (symmetry; apply Z.eqb_neq; lia);
        replace (r =? 88) with false by (symmetry; apply Z.eqb_neq; lia); by rewrite andb_false_r).
  cbn [hexPrefix]. rewrite Vq. cbn [hexPrefix]. rewrite Vr. cbn. f_equal.
  pose proof (Z.div_mod b 16 ltac:(lia)). lia.
Qed.

Lemma slice_hexBytes bs i b :
  bs !! i = Some b -> slice (i * 2) (i * 2 + 2) (hexBytes bs) = hexByte b.
Proof.
  revert i. induction bs as [|b' bs IH]; intros [|i] Hi; try done; simpl in Hi.
  - by simplify_eq.
  - unfold slice, hexBytes in *. simpl. exact (IH i Hi).
Qed.

(** The 32 bytes of the key are recovered from their 64 hexadecimal
    digits, on both sides. *)
Theorem getAesKey_hex bs :
  length bs = 32%nat -> Forall byte bs ->
  Server.getAesKey (hexBytes bs) = bs /\ Client.getAesKey (hexBytes bs) = bs.
Proof.
  intros Hl Hb.
  assert (E : map (fun i => toUint8 (parseInt16 (slice (i * 2) (i * 2 + 2) (hexBytes bs)))) (seq 0 32) = bs).
  { apply list_eq. intros i. change (map ?f ?l) with (f <$> l). rewrite list_lookup_fmap.
    destruct (decide (i < 32)%nat) as [Hi|Hi].
    - destruct (lookup_lt_is_Some_2 bs i ltac:(lia)) as [b Hbi].
      rewrite lookup_seq_lt, Hbi by done. cbn [fmap option_fmap option_map]. f_equal. change (0 + i)%nat with i.
      rewrite (slice_hexBytes _ _ _ Hbi). rewrite Forall_lookup in Hb.
      pose proof (Hb i b Hbi) as Hby. rewrite parse_hexByte by done. apply Z.mod_small, Hby.
    - rewrite (lookup_ge_None_2 bs) by lia. rewrite lookup_seq_ge by lia. done. }
  done.
Qed.

Section RoundTrip.
Context `{SubtleCryptoOk}.

Lemma frame_decode hex iv cs enc :
  length iv = 12%nat -> Forall byte iv -> Forall (fun c => scalar c = true) cs ->
  head cs <> Some BOM ->
  btoa (iv ++ subtle_encrypt (Server.getAesKey hex) iv (textEncode (utf16 cs))) = Some enc ->
  Server.aesDecrypt hex enc = Some (utf16 cs).
Proof.
  intros Hl Hiv Hcs Hbom Henc.
  assert (Hb : Forall byte (iv ++ subtle_encrypt (Server.getAesKey hex) iv (textEncode (utf16 cs)))).
  { apply Forall_app. split; [done|]. apply subtle_bytes. unfold textEncode.
    rewrite scalars_utf16 by done. by apply utf8_bytes. }
  rewrite btoa_bytes in Henc by done. simplify_eq. unfold Server.aesDecrypt.
  rewrite atob_enc by done. unfold slice. rewrite drop_0, take_app_length', drop_app_length' by lia.
  rewrite subtle_inverse. by rewrite textDecode_encode.
Qed.

(** Whatever text one side encrypts (a string without lone surrogates
    that does not start with a byte order mark), with any 12-byte vector, is
    encrypted without error, and the other side decrypts it to the same text:
    client to server and server to client. *)
Lemma frame_roundtrip hex iv cs :
  length iv = 12%nat -> Forall byte iv -> Forall (fun c => scalar c = true) cs ->
  head cs <> Some BOM ->
  (exists enc, Client.aesEncrypt hex iv (utf16 cs) = Some enc /\
     Server.aesDecrypt hex enc = Some (utf16 cs)) /\
  (exists enc, Server.aesEncrypt hex iv (utf16 cs) = Some enc /\
     Client.aesDecrypt hex enc = Some (utf16 cs)).
Proof.
  intros Hl Hiv Hcs Hbom.
  assert (Hb : Forall byte (iv ++ subtle_encrypt (Server.getAesKey hex) iv (textEncode (utf16 cs)))).
  { apply Forall_app. split; [done|]. apply subtle_bytes. unfold textEncode.
    rewrite scalars_utf16 by done. by apply utf8_bytes. }
  split; eexists; (split; [by apply btoa_bytes|]);
    eapply (frame_decode hex iv cs); try done; by apply btoa_bytes.
Qed.

(** C15: A message is received as it was sent: whatever value JSON can carry
    one side encodes, serialised, encrypted and framed with any 12-byte vector,
    the other side decodes to the same value, client to server and server to
    client. *)
Theorem message_roundtrip hex iv msg :
  length iv = 12%nat -> Forall byte iv -> plain msg = true ->
  (exists enc, Client.wsEncode hex iv msg = Some enc /\
     Server.decodeClientWsMsg hex enc = Some msg) /\
  (exists enc, Server.wsSendText hex iv msg = Some enc /\ Client.wsDecode hex enc = Some msg).
Proof.
  intros Hl Hiv Hp. destruct (json_text_wf16 msg Hp) as (cs & Hcs & Ht).
  destruct (text_head msg Hp) as (c & t & Hc & _ & _ & _ & Ha).
  assert (Hbom : head cs <> Some BOM).
  { intros Hh. destruct cs as [|b cs]; [done|]. cbn in Hh. simplify_eq.
    rewrite Hc in Ht. cbn in Ht. simplify_eq. unfold BOM in Ha. lia. }
  pose proof (parse_text msg Hp) as Hr.
  destruct (frame_roundtrip hex iv cs Hl Hiv Hcs Hbom) as [(e1 & E1 & D1) (e2 & E2 & D2)].
  unfold Client.wsEncode, Server.wsSendText, Server.decodeClientWsMsg, Client.wsDecode, Server.safeParse.
  rewrite (plain_text msg Hp). cbn [default from_option id]. rewrite Ht.
  split; [exists e1|exists e2]; (split; [done|]); rewrite ?D1, ?D2, <- Ht, Hc, <- Hc; exact Hr.
Qed.

End RoundTrip.

(** ** A concrete cipher for the witnesses: the data behind a tag. *)

Definition plain_cipher : SubtleCrypto := {|
  subtle_encrypt := fun key iv data => Z.of_nat (length iv) mod 256 :: data;
  subtle_decrypt := fun key iv data =>
    match data with
    | t :: d => if t =? Z.of_nat (length iv) mod 256 then Some d else None
    | [] => None
    end
|}.

Lemma plain_cipher_ok : @SubtleCryptoOk plain_cipher.
Proof.
  constructor; simpl.
  - intros key iv data. by rewrite Z.eqb_refl.
  - intros key iv data Hd. constructor; [|done]. unfold byte.
    pose proof (Z.mod_pos_bound (Z.of_nat (length iv)) 256 ltac:(lia)). lia.
Qed.

#[local] Existing Instance plain_cipher.
#[local] Existing Instance plain_cipher_ok.

Lemma getAesKey_hex_witness :
  Server.getAesKey (hexBytes (repeat 200 32)) = repeat 200 32.
Proof.
  apply (proj1 (getAesKey_hex (repeat 200 32) eq_refl
    ltac:(apply Forall_forall; intros b Hb%list_elem_of_In%repeat_spec; subst; unfold byte; lia))).
Defined.

(** A chat message with an emoji, a lone surrogate and a quotation mark. *)
Definition sample_msg : jsval :=
  JObj [(js "t", JStr (js "chat")); (js "text", JStr [72; 233; 55357; 56832; 55357; 34]);
        (js "at", JNum (num_dec 15 1))].

Lemma message_roundtrip_witness :
  exists enc, Client.wsEncode WS_AES_KEY_HEX (repeat 7 12) sample_msg = Some enc /\
    Server.decodeClientWsMsg WS_AES_KEY_HEX enc = Some sample_msg.
Proof.
  apply (proj1 (message_roundtrip WS_AES_KEY_HEX (repeat 7 12) sample_msg eq_refl
    ltac:(apply Forall_forall; intros b Hb%list_elem_of_In%repeat_spec; subst; unfold byte; lia)
    ltac:(vm_compute; reflexivity))).
Defined.
