(* ===== verification/Async.v ===== *)
(** * Asynchronous handlers

    The server is a single-threaded event loop of [async] functions.  Between
    two [await]s a handler runs alone; at an [await] it is suspended and any
    other pending handler may run on the shared state before it resumes.

    [M W A] is the type of such a computation on shared state [W]: one atomic
    segment, which ends with a result, an uncaught exception, or a
    continuation to be run later ([RAwait]) on whatever the state is then.
    [triple] is the program logic: an invariant that every segment
    re-establishes before it gives up control.  [sys] is the event loop with
    its pending continuations, and [step] its interleaving semantics. *)

From S2P Require Import Prelude JsValue.

Section Async.
Context {W : Type}.

Inductive res (A : Type) : Type :=
| RDone (a : A)
| RThrow (e : exn)
| RAwait (k : W -> W * res A).

#[global] Arguments RDone {A} a.
#[global] Arguments RThrow {A} e.
#[global] Arguments RAwait {A} k.

Definition M (A : Type) : Type := W -> W * res A.

Fixpoint bindr {A B} (r : res A) (f : A -> M B) (w : W) : W * res B :=
  match r with
  | RDone a => f a w
  | RThrow e => (w, RThrow e)
  | RAwait k => (w, RAwait (fun w1 => let '(w2, r2) := k w1 in bindr r2 f w2))
  end.

#[global] Instance M_ret : MRet M := fun A a w => (w, RDone a).
#[global] Instance M_bind : MBind M := fun A B f m w => let '(w', r) := m w in bindr r f w'.

(** Raise, read, update, suspend. *)
Definition throw {A} (e : exn) : M A := fun w => (w, RThrow e).
Definition gets {A} (f : W -> A) : M A := fun w => (w, RDone (f w)).
Definition modify (f : W -> W) : M unit := fun w => (f w, RDone tt).
Definition await : M unit := fun w => (w, RAwait (fun w1 => (w1, RDone tt))).
Definition lift {A} (r : exn + A) : M A :=
  match r with inl e => throw e | inr a => mret a end.

(** [try { m } catch { }]: the exception of [m] is dropped. *)
Fixpoint catchr {A} (r : res A) (h : exn -> M A) (w : W) : W * res A :=
  match r with
  | RDone a => (w, RDone a)
  | RThrow e => h e w
  | RAwait k => (w, RAwait (fun w1 => let '(w2, r2) := k w1 in catchr r2 h w2))
  end.
Definition try_catch {A} (m : M A) (h : exn -> M A) : M A :=
  fun w => let '(w', r) := m w in catchr r h w'.

(** [for (const x of l) f(x)]. *)
Fixpoint for_each {X} (l : list X) (f : X -> M unit) : M unit :=
  match l with
  | [] => mret tt
  | x :: l' => mbind (fun _ => for_each l' f) (f x)
  end.

(** ** Program logic *)

Section Triple.
Context (I : W -> Prop).

(** [sat Q r w]: the segment ended in state [w] with [r]; the invariant holds
    if it gave up control, and then every later segment behaves. *)
Fixpoint sat {A} (Q : A -> W -> Prop) (r : res A) (w : W) : Prop :=
  match r with
  | RDone a => Q a w
  | RThrow _ => I w
  | RAwait k => I w /\ forall w1, I w1 -> let '(w2, r2) := k w1 in sat Q r2 w2
  end.

Definition triple {A} (P : W -> Prop) (m : M A) (Q : A -> W -> Prop) : Prop :=
  forall w, P w -> let '(w', r) := m w in sat Q r w'.

(** Induction on a suspended computation, through its continuations. *)
Lemma res_induct {A} (P : res A -> Prop) :
  (forall a, P (RDone a)) -> (forall e, P (RThrow e)) ->
  (forall k, (forall w, P (snd (k w))) -> P (RAwait k)) -> forall r, P r.
Proof.
  intros Hd Ht Ha. fix IH 1. intros [a|e|k]; [apply Hd|apply Ht|].
  apply Ha. intros w. destruct (k w) as [w' r']. apply IH.
Qed.

Lemma sat_impl {A} (Q Q' : A -> W -> Prop) r w :
  (forall a w, Q a w -> Q' a w) -> sat Q r w -> sat Q' r w.
Proof.
  intros HQ. revert w. induction r as [a|e|k IH] using res_induct; intros w; simpl; auto.
  intros [HI Hk]. split; [done|]. intros w1 H1. specialize (Hk w1 H1). specialize (IH w1).
  destruct (k w1) as [w2 r2]. apply IH, Hk.
Qed.

Lemma sat_bind {A B} (Q : A -> W -> Prop) (R : B -> W -> Prop) (f : A -> M B) r w :
  sat Q r w -> (forall a, triple (Q a) (f a) R) ->
  let '(w', r') := bindr r f w in sat R r' w'.
Proof.
  intros Hs Hf. revert w Hs. induction r as [a|e|k IH] using res_induct; intros w Hs; simpl in *.
  - by apply Hf.
  - done.
  - destruct Hs as [HI Hk]. split; [done|]. intros w1 H1. specialize (Hk w1 H1). specialize (IH w1).
    destruct (k w1) as [w2 r2]. simpl in IH. by apply IH.
Qed.

Lemma triple_bind {A B} P (Q : A -> W -> Prop) (R : B -> W -> Prop) (m : M A) (f : A -> M B) :
  triple P m Q -> (forall a, triple (Q a) (f a) R) -> triple P (m ≫= f) R.
Proof.
  intros Hm Hf w Hw. specialize (Hm w Hw). unfold mbind, M_bind.
  destruct (m w) as [w' r]. by apply (sat_bind Q).
Qed.

Lemma triple_ret {A} (P : W -> Prop) (a : A) (Q : A -> W -> Prop) :
  (forall w, P w -> Q a w) -> triple P (mret a) Q.
Proof. intros HQ w Hw. simpl. auto. Qed.

Lemma triple_throw {A} (P : W -> Prop) e (Q : A -> W -> Prop) :
  (forall w, P w -> I w) -> triple P (throw e) Q.
Proof. intros HI w Hw. simpl. auto. Qed.

Lemma triple_gets {A} (P : W -> Prop) (f : W -> A) (Q : A -> W -> Prop) :
  (forall w, P w -> Q (f w) w) -> triple P (gets f) Q.
Proof. intros HQ w Hw. simpl. auto. Qed.

Lemma triple_modify (P : W -> Prop) f (Q : unit -> W -> Prop) :
  (forall w, P w -> Q tt (f w)) -> triple P (modify f) Q.
Proof. intros HQ w Hw. simpl. auto. Qed.

Lemma triple_await (P : W -> Prop) (Q : unit -> W -> Prop) :
  (forall w, P w -> I w) -> (forall w, I w -> Q tt w) -> triple P await Q.
Proof. intros HI HQ w Hw. simpl. split; auto. Qed.

Lemma triple_pre {A} (P P' : W -> Prop) (m : M A) Q :
  (forall w, P w -> P' w) -> triple P' m Q -> triple P m Q.
Proof. intros HP Hm w Hw. apply Hm, HP, Hw. Qed.

Lemma triple_post {A} (P : W -> Prop) (m : M A) (Q Q' : A -> W -> Prop) :
  (forall a w, Q a w -> Q' a w) -> triple P m Q -> triple P m Q'.
Proof.
  intros HQ Hm w Hw. specialize (Hm w Hw). destruct (m w) as [w' r].
  eapply sat_impl; eauto.
Qed.

(** A fact that does not mention the state can be carried around. *)
Lemma triple_pure {A} (F : Prop) (P : W -> Prop) (m : M A) Q :
  (F -> triple P m Q) -> triple (fun w => F /\ P w) m Q.
Proof. intros Hm w [HF Hw]. by apply Hm. Qed.

Lemma triple_try {A} P (m : M A) h Q :
  triple P m Q -> (forall e, triple I (h e) Q) -> triple P (try_catch m h) Q.
Proof.
  intros Hm Hh w Hw. specialize (Hm w Hw). unfold try_catch.
  destruct (m w) as [w' r]. revert w' Hm.
  induction r as [a|e|k IH] using res_induct; intros w' Hs; simpl in *.
  - done.
  - by apply Hh.
  - destruct Hs as [HI Hk]. split; [done|]. intros w1 H1. specialize (Hk w1 H1). specialize (IH w1).
    destruct (k w1) as [w2 r2]. simpl in IH. by apply IH.
Qed.

(** [keeps m F]: [m] maintains the invariant and returns values that satisfy
    [F], a fact that later segments can rely on because it does not mention
    the state. *)
Definition keeps {A} (m : M A) (F : A -> Prop) : Prop :=
  triple I m (fun a w => F a /\ I w).

Lemma keeps_bind {A B} (m : M A) (f : A -> M B) F G :
  keeps m F -> (forall a, F a -> keeps (f a) G) -> keeps (m ≫= f) G.
Proof.
  intros Hm Hf. eapply triple_bind; [exact Hm|]. intros a. apply triple_pure. apply Hf.
Qed.

Lemma keeps_seq {A B} (m : M A) (k : M B) G :
  keeps m (fun _ => True) -> keeps k G -> keeps (m ≫= fun _ => k) G.
Proof. intros Hm Hk. eapply keeps_bind; [exact Hm|auto]. Qed.

Lemma keeps_ret {A} (a : A) (F : A -> Prop) : F a -> keeps (mret a) F.
Proof. intros Ha. by apply triple_ret. Qed.

Lemma keeps_throw {A} e (F : A -> Prop) : keeps (throw e) F.
Proof. by apply triple_throw. Qed.

Lemma keeps_gets {A} (f : W -> A) (F : A -> Prop) :
  (forall w, I w -> F (f w)) -> keeps (gets f) F.
Proof. intros Hf. apply triple_gets. auto. Qed.

Lemma keeps_modify f : (forall w, I w -> I (f w)) -> keeps (modify f) (fun _ => True).
Proof. intros Hf. apply triple_modify. auto. Qed.

Lemma keeps_await : keeps await (fun _ => True).
Proof. by apply triple_await. Qed.

Lemma keeps_lift {A} (r : exn + A) (F : A -> Prop) :
  (forall a, r = inr a -> F a) -> keeps (lift r) F.
Proof. destruct r; intros Hr; [apply keeps_throw|apply keeps_ret; auto]. Qed.

Lemma keeps_weaken {A} (m : M A) (F G : A -> Prop) :
  keeps m F -> (forall a, F a -> G a) -> keeps m G.
Proof. intros Hm HFG. eapply triple_post; [|exact Hm]. simpl. intros a w [? ?]. auto. Qed.

Lemma keeps_for_each {X} (l : list X) (f : X -> M unit) :
  (forall x, x ∈ l -> keeps (f x) (fun _ => True)) -> keeps (for_each l f) (fun _ => True).
Proof.
  induction l as [|x l IH]; intros Hf; simpl; [by apply keeps_ret|].
  apply keeps_seq; [apply Hf; left|]. apply IH. intros y Hy. apply Hf. by right.
Qed.

Lemma keeps_try {A} (m : M A) h (F : A -> Prop) :
  keeps m F -> (forall e, keeps (h e) F) -> keeps (try_catch m h) F.
Proof. intros Hm Hh. apply triple_try; [exact Hm|exact Hh]. Qed.

End Triple.

(** ** What a segment may change *)

Section Segments.
Context (R : W -> W -> Prop) `{!PreOrder R}.

(** Every segment of the computation relates its start to its end by [R]. *)
Fixpoint segr {A} (r : res A) : Prop :=
  match r with
  | RAwait k => forall w, let '(w', r') := k w in R w w' /\ segr r'
  | _ => True
  end.

Definition segs_at {A} (m : M A) (w : W) : Prop := let '(w', r) := m w in R w w' /\ segr r.
Definition segs {A} (m : M A) : Prop := forall w, segs_at m w.

(** The rest of a segment that started in [w0] and has come to [w]. *)
Definition segs_from (w0 : W) {A} (m : M A) (w : W) : Prop := let '(w', r) := m w in R w0 w' /\ segr r.

Lemma segs_from_bind w0 {A B} (m : M A) (f : A -> M B) w :
  segs_from w0 m w -> (forall a, segs (f a)) -> segs_from w0 (m ≫= f) w.
Proof.
  intros Hm Hf. unfold segs_from, mbind, M_bind in *. destruct (m w) as [w1 r].
  destruct Hm as [H1 Hr]. revert w0 w1 H1 Hr.
  induction r as [a|e|k IH] using res_induct; intros w0 w1 H1 Hr; simpl in *.
  - specialize (Hf a w1). unfold segs_at in Hf. destruct (f a w1) as [w2 r2].
    destruct Hf. split; [by etrans|done].
  - done.
  - split; [done|]. intros w2. specialize (Hr w2). specialize (IH w2).
    destruct (k w2) as [w3 r3]. destruct Hr as [H3 H4]. by apply IH.
Qed.

Lemma segs_from_try w0 {A} (m : M A) h w :
  segs_from w0 m w -> (forall e, segs (h e)) -> segs_from w0 (try_catch m h) w.
Proof.
  intros Hm Hh. unfold segs_from, try_catch in *. destruct (m w) as [w1 r].
  destruct Hm as [H1 Hr]. revert w0 w1 H1 Hr.
  induction r as [a|e|k IH] using res_induct; intros w0 w1 H1 Hr; simpl in *.
  - done.
  - specialize (Hh e w1). unfold segs_at in Hh. destruct (h e w1) as [w2 r2]. destruct Hh. split; [by etrans|done].
  - split; [done|]. intros w2. specialize (Hr w2). specialize (IH w2).
    destruct (k w2) as [w3 r3]. destruct Hr as [H3 H4]. by apply IH.
Qed.

(** A step inside the segment, whatever it does to the state. *)
Lemma segs_from_done w0 {A B} (m : M A) (k : A -> M B) w w1 a :
  m w = (w1, RDone a) -> segs_from w0 (k a) w1 -> segs_from w0 (m ≫= k) w.
Proof. unfold segs_from, mbind, M_bind. by intros ->. Qed.

Lemma segs_at_bind {A B} (m : M A) (f : A -> M B) w :
  segs_at m w -> (forall a, segs (f a)) -> segs_at (m ≫= f) w.
Proof. apply segs_from_bind. Qed.

Lemma segs_bind {A B} (m : M A) (f : A -> M B) :
  segs m -> (forall a, segs (f a)) -> segs (m ≫= f).
Proof. intros Hm Hf w. by apply segs_at_bind. Qed.

(** Reads and updates inside one segment, followed in the state they see. *)
Lemma segs_at_gets {A B} (f : W -> A) (k : A -> M B) w :
  segs_at (k (f w)) w -> segs_at (gets f ≫= k) w.
Proof. done. Qed.

Lemma segs_at_modify {B} f (k : unit -> M B) w :
  R w (f w) -> segs_at (k tt) (f w) -> segs_at (modify f ≫= k) w.
Proof.
  unfold segs_at, mbind, M_bind, modify. intros H1. destruct (bindr _ _ _) as [w2 r2] eqn:E.
  simpl in E. rewrite E. intros [H2 Hr]. split; [by etrans|done].
Qed.

Lemma segs_at_done {A B} (m : M A) (k : A -> M B) w w1 a :
  m w = (w1, RDone a) -> R w w1 -> segs_at (k a) w1 -> segs_at (m ≫= k) w.
Proof.
  unfold segs_at, mbind, M_bind. intros -> H1. simpl. destruct (k a w1) as [w2 r2].
  intros [H2 Hr]. split; [by etrans|done].
Qed.

Lemma segs_ret {A} (a : A) : segs (mret a).
Proof. intros w. simpl. by split. Qed.

Lemma segs_throw {A} e : segs (throw (A:=A) e).
Proof. intros w. simpl. by split. Qed.

Lemma segs_gets {A} (f : W -> A) : segs (gets f).
Proof. intros w. simpl. by split. Qed.

Lemma segs_modify f : (forall w, R w (f w)) -> segs (modify f).
Proof. intros Hf w. simpl. by split. Qed.

Lemma segs_await : segs await.
Proof. intros w. simpl. split; [done|]. intros w1. by split. Qed.

Lemma segs_lift {A} (r : exn + A) : segs (lift r).
Proof. destruct r; [apply segs_throw|apply segs_ret]. Qed.

Lemma segs_for_each {X} (l : list X) (f : X -> M unit) :
  (forall x, segs (f x)) -> segs (for_each l f).
Proof. intros Hf. induction l; simpl; [apply segs_ret|]. apply segs_bind; auto. Qed.

Lemma segs_try {A} (m : M A) h : segs m -> (forall e, segs (h e)) -> segs (try_catch m h).
Proof. intros Hm Hh w. by apply segs_from_try; [apply Hm|]. Qed.

End Segments.

(** ** Outcomes

    [outcome J Q E m w]: started in [w] and resumed in any states that satisfy
    [J], [m] comes to an end, with a value in [Q] or an exception in [E]. *)

Section Outcome.
Context (J : W -> Prop).

Fixpoint ends {A} (Q : A -> Prop) (E : exn -> Prop) (r : res A) : Prop :=
  match r with
  | RDone a => Q a
  | RThrow e => E e
  | RAwait k => forall w, J w -> ends Q E (snd (k w))
  end.

Definition outcome {A} (Q : A -> Prop) (E : exn -> Prop) (m : M A) (w : W) : Prop :=
  ends Q E (snd (m w)).

Lemma ends_bind {A B} (P : A -> Prop) (Q : B -> Prop) E (f : A -> M B) r w :
  ends P E r -> (forall a w', P a -> outcome Q E (f a) w') -> ends Q E (snd (bindr r f w)).
Proof.
  intros Hr Hf. revert w Hr. induction r as [a|e|k IH] using res_induct; intros w Hr; simpl in *; auto.
  - by apply Hf.
  - intros w1 H1. specialize (IH w1). specialize (Hr w1 H1). destruct (k w1) as [w2 r2]. by apply IH.
Qed.

Lemma outcome_bind {A B} (P : A -> Prop) (Q : B -> Prop) E (m : M A) (f : A -> M B) w :
  outcome P E m w -> (forall a w', P a -> outcome Q E (f a) w') -> outcome Q E (m ≫= f) w.
Proof.
  unfold outcome. intros Hm Hf. unfold mbind, M_bind. destruct (m w) as [w' r]. by apply (ends_bind P).
Qed.

Lemma outcome_done {A B} (Q : B -> Prop) E (m : M A) (f : A -> M B) w w' a :
  m w = (w', RDone a) -> outcome Q E (f a) w' -> outcome Q E (m ≫= f) w.
Proof. unfold outcome, mbind, M_bind. by intros ->. Qed.

Lemma outcome_await {B} (Q : B -> Prop) E (f : unit -> M B) w :
  (forall w', J w' -> outcome Q E (f tt) w') -> outcome Q E (await ≫= f) w.
Proof. done. Qed.

Lemma outcome_ret {A} (Q : A -> Prop) E (a : A) w : Q a -> outcome Q E (mret a) w.
Proof. done. Qed.

Lemma outcome_throw {A} (Q : A -> Prop) (E : exn -> Prop) e w : E e -> outcome Q E (throw e) w.
Proof. done. Qed.

Lemma outcome_weaken {A} (P Q : A -> Prop) (D E : exn -> Prop) (m : M A) w :
  outcome P D m w -> (forall a, P a -> Q a) -> (forall e, D e -> E e) -> outcome Q E m w.
Proof.
  unfold outcome. intros Hm HQ HE. revert Hm.
  generalize (snd (m w)). intros r. induction r as [a|e|k IH] using res_induct; simpl; auto.
Qed.

Lemma outcome_try {A} (Q : A -> Prop) (D E : exn -> Prop) (m : M A) h w :
  outcome Q D m w -> (forall e w', D e -> outcome Q E (h e) w') -> outcome Q E (try_catch m h) w.
Proof.
  unfold outcome, try_catch. intros Hm Hh. destruct (m w) as [w1 r]. revert w1 Hm.
  induction r as [a|e|k IH] using res_induct; intros w1 Hm; simpl in *.
  - done.
  - by apply Hh.
  - intros w2 H2. specialize (IH w2). specialize (Hm w2 H2). destruct (k w2) as [w3 r3]. by apply IH.
Qed.

End Outcome.

(** Fewer states to be resumed in. *)
Lemma outcome_ends_mono (J J' : W -> Prop) {A} (Q : A -> Prop) E (m : M A) w :
  outcome J Q E m w -> (forall w', J' w' -> J w') -> outcome J' Q E m w.
Proof.
  unfold outcome. intros Hm HJ. revert Hm. generalize (snd (m w)). intros r.
  induction r as [a|e|k IH] using res_induct; simpl; auto.
Qed.

(** ** The event loop *)

(** The shared state, the suspended handlers, and the exceptions no handler
    caught. *)
Record sys := mkSys {
  sys_world : W;
  sys_tasks : list (res unit);
  sys_uncaught : list exn;
}.

(** What becomes of the loop when a segment ends. *)
Definition settle (rest : list (res unit)) (unc : list exn) (o : W * res unit) : sys :=
  match o with
  | (w, RDone _) => mkSys w rest unc
  | (w, RThrow e) => mkSys w rest (unc ++ [e])
  | (w, RAwait k) => mkSys w (rest ++ [RAwait k]) unc
  end.

Context {E : Type} (handler : E -> M unit).

(** Either something arrives and its handler starts, or a suspended handler
    resumes. *)
Inductive step : sys -> sys -> Prop :=
| step_start e s :
    step s (settle (sys_tasks s) (sys_uncaught s) (handler e (sys_world s)))
| step_resume i k s :
    sys_tasks s !! i = Some (RAwait k) ->
    step s (settle (base.delete i (sys_tasks s)) (sys_uncaught s) (k (sys_world s))).

Inductive reachable (w0 : W) : sys -> Prop :=
| reach_init : reachable w0 (mkSys w0 [] [])
| reach_step s s' : reachable w0 s -> step s s' -> reachable w0 s'.

Lemma reachable_rtc w0 s : reachable w0 s -> rtc step (mkSys w0 [] []) s.
Proof. induction 1 as [|s s' _ IH Hs]; [done|]. by eapply rtc_r. Qed.

(** A schedule, and its execution. *)
Inductive choice := Start (e : E) | Resume (i : nat).

Definition exec (c : choice) (s : sys) : option sys :=
  match c with
  | Start e => Some (settle (sys_tasks s) (sys_uncaught s) (handler e (sys_world s)))
  | Resume i =>
      match sys_tasks s !! i with
      | Some (RAwait k) =>
          Some (settle (base.delete i (sys_tasks s)) (sys_uncaught s) (k (sys_world s)))
      | _ => None
      end
  end.

Fixpoint run (cs : list choice) (s : sys) : option sys :=
  match cs with
  | [] => Some s
  | c :: cs' => match exec c s with Some s' => run cs' s' | None => None end
  end.

Lemma exec_step c s s' : exec c s = Some s' -> step s s'.
Proof.
  destruct c as [e|i]; simpl.
  - intros [= <-]. constructor.
  - destruct (sys_tasks s !! i) as [[| |k]|] eqn:Ei; intros [= <-]. by constructor.
Qed.

Lemma run_reachable w0 cs s s' : reachable w0 s -> run cs s = Some s' -> reachable w0 s'.
Proof.
  revert s. induction cs as [|c cs IH]; simpl; intros s Hr.
  - by intros [= <-].
  - destruct (exec c s) eqn:Ec; [|done]. apply IH. eapply reach_step; eauto using exec_step.
Qed.

Lemma run_steps cs s s' : run cs s = Some s' -> rtc step s s'.
Proof.
  revert s. induction cs as [|c cs IH]; simpl; intros s.
  - by intros [= <-].
  - destruct (exec c s) eqn:Ec; [|done]. intros Hr. eapply rtc_l; [by eapply exec_step|auto].
Qed.

(** An invariant of every segment is an invariant of every interleaving. *)
Section Invariant.
Context (I : W -> Prop).

Definition sys_inv (s : sys) : Prop :=
  I (sys_world s) /\
  Forall (fun r => forall k, r = RAwait k -> forall w, I w ->
    let '(w', r') := k w in sat I (fun _ => I) r' w') (sys_tasks s).

Lemma settle_inv rest unc w r :
  sat I (fun _ => I) r w ->
  Forall (fun r => forall k, r = RAwait k -> forall w, I w ->
    let '(w', r') := k w in sat I (fun _ => I) r' w') rest ->
  sys_inv (settle rest unc (w, r)).
Proof.
  intros Hs Hr. destruct r as [[]|e|k]; simpl in *.
  - by split.
  - by split.
  - destruct Hs as [HI Hk]. split; [done|]. simpl. apply Forall_app. split; [done|].
    constructor; [|constructor]. intros k' [= ->] w1 H1. by apply Hk.
Qed.

Lemma reachable_inv w0 :
  (forall e, triple I I (handler e) (fun _ => I)) -> I w0 ->
  forall s, reachable w0 s -> sys_inv s.
Proof.
  intros Hh H0 s. induction 1 as [|s s' Hr IH Hs].
  - split; [done|constructor].
  - destruct IH as [HI Ht]. destruct Hs as [e s|i k s Hi].
    + specialize (Hh e _ HI). destruct (handler e (sys_world s)) as [w r].
      by apply settle_inv.
    + pose proof Ht as Ht'. rewrite Forall_forall in Ht'.
      pose proof (Ht' _ (list_elem_of_lookup_2 _ _ _ Hi) k eq_refl _ HI) as Hk.
      destruct (k (sys_world s)) as [w r]. apply settle_inv; [done|].
      by apply Forall_delete.
Qed.

End Invariant.

(** A relation of every segment is a relation of every step. *)
Section StepRelation.
Context (R : W -> W -> Prop).
Context (Hsegs : forall e, segs R (handler e)).

Lemma settle_segr rest unc w r :
  segr R r -> Forall (segr R) rest -> Forall (segr R) (sys_tasks (settle rest unc (w, r))).
Proof.
  destruct r; simpl; try done. intros Hr Hrest. apply Forall_app. split; [done|].
  constructor; [exact Hr|constructor].
Qed.

Lemma sys_world_settle rest unc w r : sys_world (settle rest unc (w, r)) = w.
Proof. by destruct r. Qed.

Lemma step_segr s s' :
  Forall (segr R) (sys_tasks s) -> step s s' ->
  R (sys_world s) (sys_world s') /\ Forall (segr R) (sys_tasks s').
Proof.
  intros Ht Hs. destruct Hs as [e s|i k s Hi].
  - specialize (Hsegs e (sys_world s)). unfold segs_at in Hsegs.
    destruct (handler e (sys_world s)) as [w r]. destruct Hsegs as [H1 H2].
    rewrite sys_world_settle. split; [done|by apply settle_segr].
  - pose proof Ht as Ht'. rewrite Forall_forall in Ht'.
    pose proof (Ht' _ (list_elem_of_lookup_2 _ _ _ Hi) (sys_world s)) as Hk.
    destruct (k (sys_world s)) as [w r]. destruct Hk as [H1 H2].
    rewrite sys_world_settle. split; [done|]. apply settle_segr; [done|by apply Forall_delete].
Qed.

Lemma reachable_segr w0 s : reachable w0 s -> Forall (segr R) (sys_tasks s).
Proof.
  induction 1 as [|s s' _ IH Hs]; [constructor|]. by eapply step_segr.
Qed.

(** ... and, for a preorder, of every execution. *)
Lemma steps_rel_tasks `{!PreOrder R} s s' :
  Forall (segr R) (sys_tasks s) -> rtc step s s' -> R (sys_world s) (sys_world s').
Proof.
  intros Ht. induction 1 as [s|s s1 s2 H1 _ IH]; [done|].
  destruct (step_segr s s1 Ht H1) as [HR Ht1]. etrans; [exact HR|auto].
Qed.

Lemma steps_rel `{!PreOrder R} w0 s s' :
  reachable w0 s -> rtc step s s' -> R (sys_world s) (sys_world s').
Proof. intros Hr. by eapply steps_rel_tasks, reachable_segr. Qed.

End StepRelation.
End Async.

Arguments res : clear implicits.
Arguments M : clear implicits.
Arguments sys : clear implicits.
Arguments choice : clear implicits.

(** ** A computation on a part of the state *)

Section Zoom.
Context {V W : Type} (get : V -> W) (put : W -> V -> V).

Fixpoint zoomr {A} (r : res W A) : res V A :=
  match r with
  | RDone a => RDone a
  | RThrow e => RThrow e
  | RAwait k => RAwait (fun v => let '(w, r') := k (get v) in (put w v, zoomr r'))
  end.

Definition zoom {A} (m : M W A) : M V A := fun v => let '(w, r) := m (get v) in (put w v, zoomr r).

End Zoom.

#[export] Hint Resolve keeps_ret keeps_throw keeps_gets keeps_await : snow.

Create HintDb segs.
#[export] Hint Extern 1 (segs _ (mret _)) => apply segs_ret; apply _ : segs.
#[export] Hint Extern 1 (segs _ (throw _)) => apply segs_throw; apply _ : segs.
#[export] Hint Extern 1 (segs _ (gets _)) => apply segs_gets; apply _ : segs.
#[export] Hint Extern 1 (segs _ await) => apply segs_await; apply _ : segs.
#[export] Hint Extern 1 (segs _ (lift _)) => apply segs_lift; apply _ : segs.

(** One step through a handler: sequencing, case analysis, loops, and the
    hints for everything else. *)
Ltac sstep :=
  cbv zeta;
  lazymatch goal with
  | |- segs _ (mbind _ _) => apply segs_bind; [apply _| |intros]
  | |- segs _ (match ?x with _ => _ end) => destruct x
  | |- segs _ (try_catch _ _) => apply segs_try; [apply _| |intros]
  | |- segs _ (for_each _ _) => apply segs_for_each; [apply _|intros]
  | |- segs _ _ => solve [eauto 3 with segs]
  end.
Ltac ssteps := repeat sstep.
