(* ===== verification/Config.v ===== *)
(** * Constants ([config.ts])

    Times, counters and hit points are integral and far below [2^53], where
    binary64 arithmetic is exact, so they are [Z]; everything that enters
    floating-point geometry is a [num]. *)

From S2P Require Import Prelude JsNum JsString.

Module CONFIG.
Definition WORLD : jsstr := js "global".
Definition RATE_windowMs : Z := 10000.
Definition RATE_maxMsgs : Z := 1200.
Definition STATE_HZ : Z := 20.
Definition MAX_NAME : Z := 20.
Definition MAX_CHAT : Z := 80.
Definition CLEANUP_IDLE_MS : Z := 5000.
Definition CLEANUP_SCAN_MS : Z := 5000.
Definition MAP_HALF : num := num_of_Z 190.
Definition ALLOW_DUPLICATE_NAMES : bool := true.

(** [CONFIG.GAME] *)
Definition gravity : num := num_of_Z 20.
Definition snowballSpeed : num := num_of_Z 25.
Definition snowballLifeSec : num := num_of_Z 3.
Definition snowballSimSteps : nat := 60.
Definition hitRadius : num := num_dec 9 1.
Definition hitHeight : num := num_dec 22 1.
Definition knockbackForce : num := num_of_Z 26.
Definition knockUp : num := num_dec 12 1.
Definition damage : Z := 10.
Definition respawnMs : Z := 3000.
End CONFIG.

Module TTL.
Definition EVENT_MS : Z := 2 * 60000.
End TTL.
