(* ===== verification/Protocol.v ===== *)
(** * Messages and snapshots ([protocol.ts])

    The records are parametric in the type of a vector: on the server a
    position may be a reference to an object that a bot mutates in place, on
    the wire it is the three numbers [JSON.stringify] read from it.

    A player name is a [jsval]: a rename stores whatever the client sent. *)

From S2P Require Import Prelude JsNum JsString JsValue.

Section Protocol.
Context {V : Type}.

Record PlayerSnapshot := mkSnap {
  ps_id : jsstr;
  ps_name : jsval;
  ps_pos : V;
  ps_rotY : num;
  ps_vel : V;
  ps_hp : Z;
  ps_crouch : bool;
  ps_deadUntil : option Z;
  ps_updatedAt : Z;
  ps_pingMs : option num;
}.

(** The cases of [WorldEvent], without the [seq] and [at] every case has. *)
Inductive EventBody :=
| EvJoin (player : PlayerSnapshot)
| EvLeave (playerId : jsstr) (name : jsval)
| EvChat (playerId : jsstr) (name : jsval) (text : jsstr)
| EvState (playerId : jsstr) (pos : V) (rotY : num) (vel : V) (crouch : bool)
| EvSnowball (id ownerId : jsstr) (origin dir : V) (speed : num)
| EvHit (attackerId victimId : jsstr) (impulse : V) (victimHp : Z) (shotId : jsstr)
| EvRename (playerId : jsstr) (name : jsstr)
| EvDeath (victimId : jsstr) (victimName : jsval) (attackerId : jsstr) (attackerName : jsval)
          (shotId : jsstr) (respawnAt : Z)
| EvRespawn (playerId : jsstr) (pos : V) (hp : Z).

Record WorldEvent := mkEvent {
  ev_seq : Z;
  ev_at : Z;
  ev_body : EventBody;
}.

(** The batched state of one player (state.ts). *)
Record PendingState := mkPending {
  pd_id : jsstr;
  pd_pos : V;
  pd_rotY : num;
  pd_vel : V;
  pd_crouch : bool;
  pd_updatedAt : Z;
  pd_pingMs : option num;
}.

(** [ServerMsg], with the batched [states] message. *)
Inductive ServerMsg :=
| SWelcome (id : jsstr) (world : jsstr) (now : Z) (seed : Z)
| SSnapshot (world : jsstr) (players : list PlayerSnapshot) (latestSeq : Z)
| SEvent (ev : WorldEvent)
| SStates (at_ : Z) (list : list PendingState)
| SPong (now : Z)
| SError (message : jsstr).

End Protocol.

Arguments PlayerSnapshot : clear implicits.
Arguments EventBody : clear implicits.
Arguments WorldEvent : clear implicits.
Arguments PendingState : clear implicits.
Arguments ServerMsg : clear implicits.

(** ** Changing the type of vectors *)

Section MapVectors.
Context {V V' : Type} (f : V -> V').

Definition map_snap (p : PlayerSnapshot V) : PlayerSnapshot V' :=
  mkSnap (ps_id p) (ps_name p) (f (ps_pos p)) (ps_rotY p) (f (ps_vel p)) (ps_hp p)
    (ps_crouch p) (ps_deadUntil p) (ps_updatedAt p) (ps_pingMs p).

Definition map_body (b : EventBody V) : EventBody V' :=
  match b with
  | EvJoin p => EvJoin (map_snap p)
  | EvLeave i n => EvLeave i n
  | EvChat i n t => EvChat i n t
  | EvState i p r v c => EvState i (f p) r (f v) c
  | EvSnowball i o p d s => EvSnowball i o (f p) (f d) s
  | EvHit a v i h s => EvHit a v (f i) h s
  | EvRename i n => EvRename i n
  | EvDeath v vn a an s r => EvDeath v vn a an s r
  | EvRespawn i p h => EvRespawn i (f p) h
  end.

Definition map_event (e : WorldEvent V) : WorldEvent V' :=
  mkEvent (ev_seq e) (ev_at e) (map_body (ev_body e)).

Definition map_pending (p : PendingState V) : PendingState V' :=
  mkPending (pd_id p) (f (pd_pos p)) (pd_rotY p) (f (pd_vel p)) (pd_crouch p)
    (pd_updatedAt p) (pd_pingMs p).

Definition map_msg (m : ServerMsg V) : ServerMsg V' :=
  match m with
  | SWelcome i w n s => SWelcome i w n s
  | SSnapshot w ps l => SSnapshot w (map map_snap ps) l
  | SEvent e => SEvent (map_event e)
  | SStates a l => SStates a (map map_pending l)
  | SPong n => SPong n
  | SError m => SError m
  end.

End MapVectors.
