(* ===== verification/ServerUtils.v ===== *)
(** * Server utilities ([utils.ts])

    Input clamping, validation of vectors, and the snowball ballistics shared
    by players and bots. *)

From S2P Require Import Prelude JsNum JsString JsValue Config.

(** [isFiniteVec3(v)]: on success the vector it validates. *)
Definition isFiniteVec3 (v : jsval) : option Vec3 :=
  if truthy v then
    match prop_ok v "x", prop_ok v "y", prop_ok v "z" with
    | JNum x, JNum y, JNum z =>
        if isFinite x && isFinite y && isFinite z then Some (mkVec3 x y z) else None
    | _, _, _ => None
    end
  else None.

(** [(name ?? "").trim()] of an arbitrary JSON value. *)
Definition trim_value (v : jsval) : exn + jsstr :=
  match v with
  | JUndef | JNull => inr (trim [])
  | JStr s => inr (trim s)
  | _ => inl TypeError
  end.

Definition clampName (name : jsval) : exn + jsstr :=
  match trim_value name with
  | inl e => inl e
  | inr t =>
      let trimmed := collapse t in
      inr (slice0 CONFIG.MAX_NAME (match trimmed with [] => js "Player" | _ => trimmed end))
  end.

Definition clampChat (textValue : jsval) : exn + jsstr :=
  match trim_value textValue with
  | inl e => inl e
  | inr t => inr (slice0 CONFIG.MAX_CHAT t)
  end.

(** [typeof s === "string" && s.length >= 8 && s.length <= 64]. *)
Definition isUuidLike (v : jsval) : option jsstr :=
  match v with
  | JStr s => if (8 <=? str_length s) && (str_length s <=? 64) then Some s else None
  | _ => None
  end.

Section Geometry.
Context `{JsMath}.
#[local] Open Scope num_scope.

(** [x || 1] *)
Definition or_one (x : num) : num := if num_truthy x then x else num_of_Z 1.

Definition norm (v : Vec3) : Vec3 :=
  let len := or_one (hypot3 (vx v) (vy v) (vz v)) in
  mkVec3 (vx v / len) (vy v / len) (vz v / len).

Definition vec3Mul (a : Vec3) (s : num) : Vec3 := mkVec3 (vx a * s) (vy a * s) (vz a * s).

Definition vec3Len (a : Vec3) : num := hypot3 (vx a) (vy a) (vz a).

Definition vec3Normalize (a : Vec3) : Vec3 :=
  let L := or_one (vec3Len a) in mkVec3 (vx a / L) (vy a / L) (vz a / L).

Definition snowballPosAt (origin v0 : Vec3) (t : num) : Vec3 :=
  mkVec3 (vx origin + vx v0 * t)
    (vy origin + vy v0 * t - num_dec 5 1 * CONFIG.gravity * t * t)
    (vz origin + vz v0 * t).

Definition intersectsPlayerCylinder (p playerPos : Vec3) : bool :=
  let dx := vx p - vx playerPos in
  let dz := vz p - vz playerPos in
  let horizontal := hypot2 dx dz in
  if horizontal >? CONFIG.hitRadius then false
  else
    let yMin := vy playerPos in
    let yMax := vy playerPos + CONFIG.hitHeight in
    (vy p >=? yMin) && (vy p <=? yMax).

End Geometry.

(** ** What clamping guarantees *)

Lemma slice0_length n s : 0 <= n -> str_length (slice0 n s) <= n.
Proof. intros Hn. unfold str_length, slice0. rewrite length_take. lia. Qed.

(** What the name table may hold: between 1 and [MAX_NAME] code units, no
    leading white space, and only single U+0020 as white space. *)
Definition clean_name (n : jsstr) : Prop :=
  1 <= str_length n <= CONFIG.MAX_NAME /\ single_spaced n /\
  match n with [] => False | c :: _ => isSpace c = false end.

Lemma slice0_clean c s :
  isSpace c = false -> single_spaced (c :: s) -> clean_name (slice0 CONFIG.MAX_NAME (c :: s)).
Proof.
  intros Hc Hs. split; [|split].
  - split; [|by apply slice0_length]. unfold str_length. simpl. lia.
  - by apply single_spaced_take.
  - done.
Qed.

Lemma clampName_string s : exists n, clampName (JStr s) = inr n /\ clean_name n.
Proof.
  unfold clampName. simpl. destruct (trim s) as [|c t] eqn:E.
  - eexists. split; [done|]. apply slice0_clean; [done|]. vm_compute. repeat split; done.
  - pose proof (trim_head _ _ _ E) as Hc. pose proof (collapse_spaced (c :: t)) as Hs.
    rewrite collapse_head in * by done. eexists. split; [done|]. by apply slice0_clean.
Qed.

(** A value that is neither a string nor nullish is what makes [trim] raise. *)
Definition not_text (v : jsval) : bool :=
  match v with JUndef | JNull | JStr _ => false | _ => true end.

(** [clampName] is total on strings and on missing names, its result is
    always a clean name (1 to 20 code units, no leading white space, white
    space collapsed to single U+0020), and it raises a TypeError exactly on a
    value that is neither a string nor null/undefined. *)
Theorem clampName_correct v :
  match clampName v with
  | inr n => not_text v = false /\ clean_name n
  | inl e => not_text v = true /\ e = TypeError
  end.
Proof.
  destruct v as [| | | |s| |]; try done.
  destruct (clampName_string s) as (n & -> & Hc). by split.
Qed.

(** [clampChat] yields at most 80 code units that do not start with white
    space, is empty exactly when the text is blank (or missing), and raises a
    TypeError exactly on a value that is neither a string nor null/undefined. *)
Theorem clampChat_correct v :
  match clampChat v with
  | inr t =>
      not_text v = false /\ str_length t <= CONFIG.MAX_CHAT /\
      (match t with [] => True | c :: _ => isSpace c = false end) /\
      (t = [] <-> match v with JStr s => trim s = [] | _ => True end)
  | inl e => not_text v = true /\ e = TypeError
  end.
Proof.
  destruct v as [| | | |s| |]; try done; try (vm_compute; naive_solver).
  unfold clampChat, trim_value. split; [done|]. split; [by apply slice0_length|].
  destruct (trim s) as [|c t] eqn:E; [done|].
  change (slice0 CONFIG.MAX_CHAT (c :: t)) with (c :: take 79 t).
  split; [exact (trim_head _ _ _ E)|done].
Qed.
