(* ===== verification/Build.v ===== *)
(** * The client page ([client_html.ts], [build_prod.ts])

    At start-up the server decides which page to serve: it rebuilds
    [client.prod.html] from [client_src/] when a source is newer, sending the
    merged scripts to a remote obfuscator with up to five attempts, and then
    reads that file.

    All of this runs before the server listens, so nothing interleaves with
    it: the computations of [Async] are used without their suspensions.  The
    file system is a map from paths to texts with modification times; the
    obfuscator's answers are the stream [api_result], and the times at which
    files are written the stream [write_time]. *)

From S2P Require Import Prelude JsMap JsNum JsString Codec JsValue Json JsConv Wire Async.

(** A text file; [stat.mtime] may be absent. *)
Record File := mkFile { f_text : jsstr; f_mtime : option Z }.

Record BuildState := mkBuild {
  bs_files : JMap.jsmap jsstr File;
  bs_srcDir : bool;              (* does [client_src/] exist? *)
  bs_calls : nat;                (* requests to the obfuscator so far *)
  bs_waits : nat;                (* retry delays so far *)
  bs_writes : nat;               (* files written so far *)
  bs_source : jsstr;             (* CLIENT_HTML_SOURCE *)
}.

Inductive ApiRes :=
| ApiRejects
| ApiAnswers (ok : bool) (body : option jsval).

Class BuildEnv := {
  api_result : nat -> ApiRes;
  write_time : nat -> option Z;
}.

Definition CLIENT_SRC_DIR : jsstr := js "./client_src".
Definition PROD_HTML_PATH : jsstr := js "./client.prod.html".

Definition JS_FILES : list jsstr :=
  map js ["utils.js"; "network.js"; "player.js"; "snowball.js"; "environment.js"; "init.js"]%string.

(** ** Text *)

(** An ASCII literal in which back quotes stand for double quotes. *)
Definition jsq (s : String.string) : jsstr := map (fun c => if c =? 96 then 34 else c) (js s).

(** [s.replace(/pat/g, rep)] for a literal pattern: [skip] characters belong
    to the match just replaced. *)
Fixpoint replaceFrom (pat rep : jsstr) (skip : nat) (s : jsstr) : jsstr :=
  match s with
  | [] => []
  | c :: s' =>
      match skip with
      | S k => replaceFrom pat rep k s'
      | O =>
          match after pat s with
          | Some _ => rep ++ replaceFrom pat rep (length pat - 1) s'
          | None => c :: replaceFrom pat rep 0 s'
          end
      end
  end.
Definition replaceText (pat rep s : jsstr) : jsstr := replaceFrom pat rep 0 s.

(** [l.join("\n\n")]. *)
Fixpoint joinBlank (l : list jsstr) : jsstr :=
  match l with
  | [] => []
  | [t] => t
  | t :: l' => t ++ [10; 10] ++ joinBlank l'
  end.

(** The script that decodes and runs the obfuscated code. *)
Definition wrapPrefix : jsstr := js "eval(new TextDecoder().decode(Uint8Array.from(atob('".
Definition wrapSuffix : jsstr := js "'), c => c.charCodeAt(0))))".

Definition TITLE : jsstr := [22307; 35806; 38634; 29699; 22823; 20081; 26007].

Definition lines (l : list jsstr) : jsstr :=
  match l with
  | [] => []
  | t :: l' => t ++ concat (map (fun u => 10 :: u) l')
  end.

Definition pageText (style body obfuscatedJS : jsstr) : jsstr := lines
  [js "<!DOCTYPE html>"; jsq "<html lang=`zh-CN`>"; js "<head>"; jsq "  <meta charset=`UTF-8` />";
   jsq "  <meta name=`viewport` content=`width=device-width, initial-scale=1.0` />";
   js "  <title>" ++ TITLE ++ js "</title>"; js "  <style>"; style; js "  </style>"; js "</head>"; js "<body>";
   body; jsq "  <script src=`https://cdnjs.cloudflare.com/ajax/libs/three.js/r128/three.min.js`></script>";
   jsq "  <script src=`https://unpkg.com/three@0.128.0/examples/js/loaders/GLTFLoader.js`></script>";
   js "  <script>"; obfuscatedJS; js "  </script>"; js "</body>"; js "</html>"].

(** ** The file system *)

Definition inSrc (name : jsstr) : jsstr := CLIENT_SRC_DIR ++ 47 :: name.

(** Is [path] a file directly in [dir]? *)
Definition entryOf (dir path : jsstr) : bool :=
  match after (dir ++ [47]) path with Some r => negb (existsb (Z.eqb 47) r) | None => false end.

Definition readTextFile (path : jsstr) : M BuildState jsstr :=
  found ← gets (fun w => JMap.get path (bs_files w));
  match found with Some f => mret (f_text f) | None => throw NotFound end.

(** [(await Deno.stat(path)).mtime?.getTime() ?? 0]. *)
Definition statMtime (path : jsstr) : M BuildState Z :=
  found ← gets (fun w => JMap.get path (bs_files w));
  match found with Some f => mret (default 0 (f_mtime f)) | None => throw NotFound end.

Section Build.
Context `{BuildEnv}.

Definition writeTextFile (path text : jsstr) : M BuildState unit :=
  modify (fun w => mkBuild (JMap.set path (mkFile text (write_time (bs_writes w))) (bs_files w))
    (bs_srcDir w) (bs_calls w) (bs_waits w) (S (bs_writes w)) (bs_source w)).

(** The newest file of [client_src/], in both modules. *)
Definition getLatestMtime : M BuildState Z :=
  here ← gets bs_srcDir;
  if (here : bool) then
    entries ← gets (fun w => List.filter (fun e => entryOf CLIENT_SRC_DIR (fst e)) (bs_files w));
    mret (foldl (fun latest e => let mtime := default 0 (f_mtime (snd e)) in
                                 if mtime >? latest then mtime else latest) 0 entries)
  else throw NotFound.

(** ** The obfuscator *)

(** One request. *)
Definition askApi (jsCode : jsstr) : M BuildState (bool * option jsval) := fun w =>
  (mkBuild (bs_files w) (bs_srcDir w) (S (bs_calls w)) (bs_waits w) (bs_writes w) (bs_source w),
   match api_result (bs_calls w) with
   | ApiRejects => RThrow NetworkError
   | ApiAnswers ok body => RDone (ok, body)
   end).

Definition orError {A} (e : exn) (o : option A) : M BuildState A :=
  match o with Some a => mret a | None => throw e end.

(** [result.status !== 0]. *)
Definition statusZero (v : jsval) : bool := match v with JNum n => neqb n nzero | _ => false end.

(** [TextEncoder.encode] of whatever the answer holds. *)
Definition encodeAny (v : jsval) : list Z :=
  match v with JUndef => [] | _ => textEncode (to_text v) end.

(** The [try] block of one attempt. *)
Definition obfuscateOnce (jsCode : jsstr) : M BuildState jsstr :=
  response ← askApi jsCode;
  if negb (fst response) then throw Error
  else
    result ← orError SyntaxError (snd response);
    status ← lift (prop result "status");
    if negb (statusZero status) then throw Error
    else
      base64Code ← orError DOMException (btoa (encodeAny (prop_ok result "content")));
      mret (wrapPrefix ++ base64Code ++ wrapSuffix).

Definition MAX_RETRIES : nat := 5.

Definition wait : M BuildState unit :=
  modify (fun w => mkBuild (bs_files w) (bs_srcDir w) (bs_calls w) (S (bs_waits w)) (bs_writes w) (bs_source w)).

(** The loop, [left] attempts before its end. *)
Fixpoint obfuscateLoop (left : nat) (jsCode : jsstr) : M BuildState jsstr :=
  match left with
  | O => throw Error
  | S left' =>
      try_catch (obfuscateOnce jsCode)
        (fun _ => if (left' =? 0)%nat then throw Error else wait;; obfuscateLoop left' jsCode)
  end.

Definition obfuscateJS (jsCode : jsstr) : M BuildState jsstr := obfuscateLoop MAX_RETRIES jsCode.

(** The scripts in order, the key put in place of its placeholder. *)
Fixpoint readScripts (files : list jsstr) : M BuildState (list jsstr) :=
  match files with
  | [] => mret []
  | f :: files' =>
      content ← readTextFile (inSrc f);
      rest ← readScripts files';
      mret (replaceText (js "__WS_AES_KEY__") WS_AES_KEY_HEX content :: rest)
  end.

Definition buildProdHtml : M BuildState jsstr :=
  style ← readTextFile (inSrc (js "style.css"));
  body ← readTextFile (inSrc (js "body.html"));
  jsContents ← readScripts JS_FILES;
  obfuscatedJS ← obfuscateJS (joinBlank jsContents);
  mret (pageText style body obfuscatedJS).

Definition shouldRebuild : M BuildState bool :=
  prod ← try_catch (m ← statMtime PROD_HTML_PATH; mret (Some m)) (fun _ => mret None);
  match prod with
  | None => mret true
  | Some prodMtime =>
      dev ← try_catch (m ← getLatestMtime; mret (Some m)) (fun _ => mret None);
      match dev with
      | None => mret false
      | Some devMtime => mret (devMtime >? prodMtime)
      end
  end.

Definition setSource (s : String.string) : M BuildState unit :=
  modify (fun w => mkBuild (bs_files w) (bs_srcDir w) (bs_calls w) (bs_waits w) (bs_writes w) (js s)).

(** The automatic build, whose failure is only logged. *)
Definition rebuild : M BuildState unit :=
  try_catch (prodHtml ← buildProdHtml; writeTextFile PROD_HTML_PATH prodHtml) (fun _ => mret tt).

(** The choice of the page.  Every branch reads the production page; they
    differ in what they call the source. *)
Definition chooseHtml : M BuildState jsstr :=
  prod ← try_catch (m ← statMtime PROD_HTML_PATH; mret (Some m)) (fun _ => mret None);
  dev ← try_catch (m ← getLatestMtime; mret m) (fun _ => mret 0);
  let devExists := dev >? 0 in
  match prod with
  | None =>
      if devExists then setSource "dev";; readTextFile PROD_HTML_PATH else throw Error
  | Some prodMtime =>
      if devExists then
        if dev >? prodMtime then setSource "dev";; readTextFile PROD_HTML_PATH
        else setSource "prod";; readTextFile PROD_HTML_PATH
      else setSource "prod";; readTextFile PROD_HTML_PATH
  end.

Definition loadClientHtml : M BuildState jsstr :=
  needed ← shouldRebuild;
  (if (needed : bool) then rebuild else mret tt);;
  chooseHtml.

(** The command-line entry: [false] is exit code 1. *)
Definition buildMain (force : bool) : M BuildState bool :=
  try_catch
    (needed ← (if force then mret true else shouldRebuild);
     (if (needed : bool) then html ← buildProdHtml; writeTextFile PROD_HTML_PATH html else mret tt);;
     mret true)
    (fun _ => mret false).

End Build.
