(* ===== verification/BuildThms.v ===== *)
(** * Theorems about the client page

    The retry loop, the script wrapper, and which page is served. *)

From S2P Require Import Prelude JsMap JsNum JsString Codec JsValue Json JsConv Wire Async Build.

Section Theorems.
Context `{BuildEnv}.

(** ** The retry loop *)

(** The script an answer of the obfuscator amounts to, if it is a success. *)
Definition apiScript (r : ApiRes) : option jsstr :=
  match r with
  | ApiAnswers true (Some result) =>
      match prop result "status" with
      | inr status =>
          if statusZero status then
            match btoa (encodeAny (prop_ok result "content")) with
            | Some b => Some (wrapPrefix ++ b ++ wrapSuffix)
            | None => None
            end
          else None
      | inl _ => None
      end
  | _ => None
  end.

(** The first success among [left] answers from the [n]-th on, with the number
    of failures before it. *)
Fixpoint firstScript (left n : nat) : option (nat * jsstr) :=
  match left with
  | O => None
  | S left' =>
      match apiScript (api_result n) with
      | Some t => Some (0%nat, t)
      | None => match firstScript left' (S n) with Some (i, t) => Some (S i, t) | None => None end
      end
  end.

Definition bump (calls waits : nat) (w : BuildState) : BuildState :=
  mkBuild (bs_files w) (bs_srcDir w) (bs_calls w + calls) (bs_waits w + waits) (bs_writes w) (bs_source w).

Lemma obfuscateOnce_spec c w :
  exists e, obfuscateOnce c w =
    (bump 1 0 w, match apiScript (api_result (bs_calls w)) with Some t => RDone t | None => RThrow e end).
Proof.
  unfold obfuscateOnce, askApi, mbind, M_bind, bump. rewrite Nat.add_1_r, Nat.add_0_r.
  destruct (api_result (bs_calls w)) as [|[] [result|]]; cbn; try by (eexists; reflexivity).
  destruct (prop result "status") as [e|st]; cbn; [by exists e|].
  destruct (statusZero st); cbn; [|by exists Error].
  destruct (btoa _); cbn; [by exists Error|by exists DOMException].
Qed.

Lemma obfuscateLoop_spec left c w :
  obfuscateLoop left c w =
    match firstScript left (bs_calls w) with
    | Some (i, t) => (bump (S i) i w, RDone t)
    | None => (bump left (left - 1) w, RThrow Error)
    end.
Proof.
  revert w. induction left as [|left IH]; intros w.
  - cbn. unfold bump. rewrite !Nat.add_0_r. by destruct w.
  - cbn [obfuscateLoop firstScript]. unfold try_catch.
    destruct (obfuscateOnce_spec c w) as [e ->]. destruct (apiScript _) as [t|]; [done|]. cbn [catchr].
    destruct left as [|left]; [cbn; done|]. cbn [Nat.eqb]. unfold wait, mbind, M_bind, modify. cbn [bindr].
    rewrite IH. unfold bump. cbn [bs_calls bs_files bs_srcDir bs_waits bs_writes bs_source].
    rewrite Nat.add_1_r. destruct (firstScript _ _) as [[i t]|]; do 2 f_equal; lia.
Qed.

(** The obfuscation is tried until it succeeds, at most five times: the
    result is the script of the first of the next five answers that is a
    success, after exactly as many requests as answers were used and one delay
    between each two; when all five fail it is an error after five requests and
    four delays. *)
Theorem obfuscateJS_retries c w :
  obfuscateJS c w =
    match firstScript 5 (bs_calls w) with
    | Some (i, t) => (bump (S i) i w, RDone t)
    | None => (bump 5 4 w, RThrow Error)
    end.
Proof. apply (obfuscateLoop_spec 5). Qed.

(** The page runs what the obfuscator returned: whatever text without lone
    surrogates and byte order mark the answer holds, the script wrapped around
    it is a string literal without a quotation mark inside, and decoding the
    literal as the script does gives the text back. *)
Theorem wrapped_script_decodes result cs :
  prop result "status" = inr (JNum nzero) -> prop_ok result "content" = JStr (utf16 cs) ->
  Forall (fun c => scalar c = true) cs -> head cs <> Some BOM ->
  exists b bytes, apiScript (ApiAnswers true (Some result)) = Some (wrapPrefix ++ b ++ wrapSuffix) /\
    Forall (fun c => c <> 39) b /\ atob b = Some bytes /\ textDecode bytes = utf16 cs.
Proof.
  intros Hst Hc Hcs Hb. cbn [apiScript]. rewrite Hst, Hc. cbn [statusZero encodeAny to_text].
  change (neqb nzero nzero) with true. cbv iota.
  assert (Hby : Forall byte (textEncode (utf16 cs)))
    by (unfold textEncode; rewrite scalars_utf16 by done; by apply utf8_bytes).
  rewrite btoa_bytes by done. eexists _, (textEncode (utf16 cs)). split; [done|]. split; [|split].
  - rewrite b64_enc_split. apply Forall_app. split.
    + apply Forall_map. eapply Forall_impl; [by apply sextets_range|]. intros v Hv.
      destruct (b64_char_range v Hv). lia.
    + unfold padding. destruct (length _ mod 3)%nat as [|[|[|]]]; by repeat constructor.
  - by apply atob_enc.
  - by apply textDecode_encode.
Qed.

(** ** Which page is served *)

Definition fileText (path : jsstr) (w : BuildState) : option jsstr := f_text <$> JMap.get path (bs_files w).

Fixpoint scriptsOf (files : list jsstr) (w : BuildState) : option (list jsstr) :=
  match files with
  | [] => Some []
  | f :: files' =>
      match fileText (inSrc f) w, scriptsOf files' w with
      | Some c, Some l => Some (replaceText (js "__WS_AES_KEY__") WS_AES_KEY_HEX c :: l)
      | _, _ => None
      end
  end.

(** The page the present sources build, when they are complete and the
    obfuscator answers in time. *)
Definition currentPage (w : BuildState) : option jsstr :=
  match fileText (inSrc (js "style.css")) w, fileText (inSrc (js "body.html")) w, scriptsOf JS_FILES w with
  | Some style, Some body, Some _ =>
      match firstScript 5 (bs_calls w) with Some (_, t) => Some (pageText style body t) | None => None end
  | _, _, _ => None
  end.

Definition prodFile (w : BuildState) : option File := JMap.get PROD_HTML_PATH (bs_files w).

Definition latestOf (files : JMap.jsmap jsstr File) : Z :=
  foldl (fun latest e => let mtime := default 0 (f_mtime (snd e)) in if mtime >? latest then mtime else latest) 0
    (List.filter (fun e => entryOf CLIENT_SRC_DIR (fst e)) files).

(** Is there no production page, or a source that is newer? *)
Definition outdated (w : BuildState) : bool :=
  match prodFile w with
  | None => true
  | Some f => bs_srcDir w && (latestOf (bs_files w) >? default 0 (f_mtime f))
  end.

(** What the page should be: the present sources when the stored page is
    outdated and they can be built, otherwise the stored page. *)
Definition servedPage (w : BuildState) : option jsstr :=
  let stored := f_text <$> prodFile w in
  if outdated w then match currentPage w with Some p => Some p | None => stored end else stored.

Lemma readTextFile_spec path w :
  readTextFile path w = (w, match fileText path w with Some t => RDone t | None => RThrow NotFound end).
Proof.
  unfold readTextFile, fileText, mbind, M_bind, gets. cbn [bindr]. by destruct (JMap.get path (bs_files w)).
Qed.

Lemma readScripts_spec files w :
  readScripts files w = (w, match scriptsOf files w with Some l => RDone l | None => RThrow NotFound end).
Proof.
  induction files as [|f files IH]; [done|]. cbn [readScripts scriptsOf]. unfold mbind at 1, M_bind.
  rewrite readTextFile_spec. destruct (fileText (inSrc f) w) as [c|]; [|done]. cbn [bindr].
  unfold mbind, M_bind. rewrite IH. by destruct (scriptsOf files w).
Qed.

Lemma buildProdHtml_spec w :
  exists calls waits e, buildProdHtml w =
    (bump calls waits w, match currentPage w with Some p => RDone p | None => RThrow e end).
Proof.
  assert (H0 : bump 0 0 w = w) by (unfold bump; rewrite !Nat.add_0_r; by destruct w).
  unfold buildProdHtml, currentPage. unfold mbind at 1, M_bind at 1. rewrite readTextFile_spec.
  destruct (fileText (inSrc (js "style.css")) w) as [style|]; [|by exists 0%nat, 0%nat, NotFound; rewrite H0].
  cbn [bindr]. unfold mbind at 1, M_bind at 1. rewrite readTextFile_spec.
  destruct (fileText (inSrc (js "body.html")) w) as [body|]; [|by exists 0%nat, 0%nat, NotFound; rewrite H0].
  cbn [bindr]. unfold mbind at 1, M_bind at 1. rewrite readScripts_spec.
  destruct (scriptsOf JS_FILES w) as [l|]; [|by exists 0%nat, 0%nat, NotFound; rewrite H0].
  cbn [bindr]. unfold mbind, M_bind, obfuscateJS, MAX_RETRIES. rewrite (obfuscateLoop_spec 5).
  destruct (firstScript 5 (bs_calls w)) as [[i t]|]; [exists (S i), i, Error|exists 5%nat, 4%nat, Error]; done.
Qed.

(** The state after the automatic build. *)
Lemma rebuild_spec w :
  exists w', rebuild w = (w', RDone tt) /\ bs_srcDir w' = bs_srcDir w /\
    bs_files w' = match currentPage w with
                  | Some p => JMap.set PROD_HTML_PATH (mkFile p (write_time (bs_writes w))) (bs_files w)
                  | None => bs_files w
                  end.
Proof.
  unfold rebuild, try_catch, mbind, M_bind. destruct (buildProdHtml_spec w) as (c & d & e & ->).
  destruct (currentPage w) as [p|]; cbn; by eexists.
Qed.

Lemma latestOf_set files f : latestOf (JMap.set PROD_HTML_PATH f files) = latestOf files.
Proof.
  unfold latestOf. f_equal. induction files as [|[k v] files IH]; [done|]. cbn [JMap.set].
  destruct (decide (PROD_HTML_PATH = k)) as [<-|Hk]; cbn [List.filter fst]; [done|].
  by rewrite IH.
Qed.

Lemma statOrNone_spec w :
  try_catch (m ← statMtime PROD_HTML_PATH; mret (Some m)) (fun _ => mret None) w =
    (w, RDone ((fun f => default 0 (f_mtime f)) <$> prodFile w)).
Proof.
  unfold try_catch, statMtime, mbind, M_bind, gets, prodFile. cbn [bindr].
  by destruct (JMap.get PROD_HTML_PATH (bs_files w)).
Qed.

Lemma latestOr_spec {A} (d : A) (k : Z -> A) w :
  try_catch (m ← getLatestMtime; mret (k m)) (fun _ => mret d) w =
    (w, RDone (if bs_srcDir w then k (latestOf (bs_files w)) else d)).
Proof. unfold try_catch, getLatestMtime, mbind, M_bind, gets. cbn [bindr]. by destruct (bs_srcDir w). Qed.

Lemma shouldRebuild_spec w : shouldRebuild w = (w, RDone (outdated w)).
Proof.
  unfold shouldRebuild, outdated. unfold mbind at 1, M_bind at 1. rewrite statOrNone_spec. cbn [bindr].
  destruct (prodFile w) as [f|]; [|done]. cbn [fmap option_fmap option_map].
  unfold mbind at 1, M_bind at 1. rewrite latestOr_spec. cbn [bindr]. by destruct (bs_srcDir w).
Qed.

(** The second half of [loadClientHtml]: whatever it calls the source, it reads
    the production page, or fails when there is none. *)
Definition sourceOf (w : BuildState) : jsstr :=
  match prodFile w with
  | Some f => js (if bs_srcDir w && (latestOf (bs_files w) >? 0) && (latestOf (bs_files w) >? default 0 (f_mtime f))
                  then "dev" else "prod")
  | None => js "dev"
  end.

Lemma chooseHtml_spec w :
  exists w', match prodFile w with
  | Some f => chooseHtml w = (w', RDone (f_text f)) /\ bs_source w' = sourceOf w /\ bs_files w' = bs_files w
  | None => exists e, chooseHtml w = (w', RThrow e)
  end.
Proof.
  assert (Hc : chooseHtml w = (let dev := if bs_srcDir w then latestOf (bs_files w) else 0 in
    match (fun f => default 0 (f_mtime f)) <$> prodFile w with
    | None => if dev >? 0 then setSource "dev";; readTextFile PROD_HTML_PATH else throw Error
    | Some prodMtime =>
        if dev >? 0 then
          if dev >? prodMtime then setSource "dev";; readTextFile PROD_HTML_PATH
          else setSource "prod";; readTextFile PROD_HTML_PATH
        else setSource "prod";; readTextFile PROD_HTML_PATH
    end) w).
  { unfold chooseHtml. unfold mbind at 1, M_bind at 1. rewrite statOrNone_spec. cbn [bindr].
    unfold mbind at 1, M_bind at 1. rewrite latestOr_spec. done. }
  rewrite Hc. clear Hc. unfold sourceOf, prodFile.
  assert (Hread : forall s, exists w', (setSource s;; readTextFile PROD_HTML_PATH) w =
    (w', match fileText PROD_HTML_PATH w with Some t => RDone t | None => RThrow NotFound end) /\
    bs_source w' = js s /\ bs_files w' = bs_files w).
  { intros s. eexists. unfold setSource, mbind, M_bind, modify. cbn [bindr]. rewrite readTextFile_spec.
    split; [done|]. done. }
  unfold fileText in Hread.
  destruct (JMap.get PROD_HTML_PATH (bs_files w)) as [f|] eqn:Ef; cbn [fmap option_fmap option_map] in *.
  - destruct (bs_srcDir w); cbn [andb].
    2: { change (0 >? 0) with false. cbv zeta iota. destruct (Hread "prod"%string) as (w' & -> & ? & ?). by eexists. }
    cbv zeta.
    destruct (latestOf _ >? 0); cbn [andb];
      [|by destruct (Hread "prod"%string) as (w' & -> & ? & ?); eexists].
    destruct (latestOf _ >? default 0 (f_mtime f));
      [destruct (Hread "dev"%string) as (w' & -> & ? & ?)|destruct (Hread "prod"%string) as (w' & -> & ? & ?)];
      by eexists.
  - cbv beta zeta. destruct ((if bs_srcDir w then latestOf (bs_files w) else 0) >? 0);
      [destruct (Hread "dev"%string) as (w' & -> & _)|]; by eexists _, _.
Qed.

Lemma loadClientHtml_unfold w :
  loadClientHtml w = chooseHtml (if outdated w then fst (rebuild w) else w).
Proof.
  unfold loadClientHtml, mbind, M_bind. rewrite shouldRebuild_spec. cbn [bindr].
  destruct (outdated w); [|done]. by destruct (rebuild_spec w) as (w1 & -> & _).
Qed.


(** A failed build is served as if it had succeeded: when a source is
    newer than the stored page but the page cannot be built, the old page is
    served and reported by [/health] as the development version, although no
    branch of the code ever serves the development sources. *)
Theorem stale_page_called_dev w f :
  prodFile w = Some f -> outdated w = true -> 0 < latestOf (bs_files w) -> currentPage w = None ->
  exists w', loadClientHtml w = (w', RDone (f_text f)) /\ bs_source w' = js "dev".
Proof.
  intros Hf Ho Hl Hc. rewrite loadClientHtml_unfold, Ho.
  destruct (rebuild_spec w) as (w1 & -> & Hd & Hfs). rewrite Hc in Hfs. cbn [fst]. destruct (chooseHtml_spec w1) as [w' Hw'].
  unfold outdated, sourceOf in *. unfold prodFile in *. rewrite Hfs, Hd, Hf in *. destruct Hw' as (-> & Hs & _).
  exists w'. split; [done|]. rewrite Hs. apply andb_true_iff in Ho as [-> ->].
  by rewrite (proj2 (Z.gtb_lt _ _)).
Qed.

End Theorems.

Definition sample_answer : jsval :=
  JObj [(js "status", JNum nzero); (js "content", JStr (utf16 [118; 61; 233; 128512]))].

(** An obfuscator that does not answer. *)
Definition silent_api : BuildEnv := {| api_result := fun _ => ApiRejects; write_time := fun _ => Some 9 |}.

Definition sample_files : BuildState :=
  mkBuild [(PROD_HTML_PATH, mkFile (js "old") (Some 1)); (inSrc (js "init.js"), mkFile (js "new") (Some 5))]
    true 0 0 0 [].

Lemma wrapped_script_decodes_witness :
  exists b bytes, apiScript (ApiAnswers true (Some sample_answer)) = Some (wrapPrefix ++ b ++ wrapSuffix) /\
    Forall (fun c => c <> 39) b /\ atob b = Some bytes /\ textDecode bytes = utf16 [118; 61; 233; 128512].
Proof.
  exact (wrapped_script_decodes sample_answer [118; 61; 233; 128512] eq_refl eq_refl
    ltac:(repeat constructor) ltac:(discriminate)).
Defined.

Lemma stale_page_called_dev_witness :
  exists w', @loadClientHtml silent_api sample_files = (w', RDone (js "old")) /\ bs_source w' = js "dev".
Proof.
  exact (@stale_page_called_dev silent_api sample_files (mkFile (js "old") (Some 1))
    ltac:(vm_compute; reflexivity) ltac:(vm_compute; reflexivity) ltac:(vm_compute; reflexivity)
    ltac:(vm_compute; reflexivity)).
Defined.
