(* ===== verification/Storage.v ===== *)
(** * Persistence ([storage.ts])

    The two SQLite tables.  [kills] is the list of its rows in insertion
    order; [player_stats] is keyed by its primary key [player_name].  Each
    prepared statement is the function its SQL text denotes.  The driver is
    not part of the sources: how it binds a JavaScript value to a [TEXT]
    parameter is the operation [sql_text], and the order SQLite gives to rows
    with equal [ORDER BY] keys is the operation [sql_order]. *)

From S2P Require Import Prelude JsMap JsNum JsString JsValue.
From Stdlib Require Import Sorting.Permutation Sorting.Sorted.

Record KillRecord := mkKill {
  k_id : jsstr;
  k_attackerId : jsstr;
  k_attackerName : jsstr;
  k_victimId : jsstr;
  k_victimName : jsstr;
  k_shotId : jsstr;
  k_timestamp : Z;
}.

Record PlayerStats := mkStats {
  st_kills : Z;
  st_deaths : Z;
  st_lastSeen : Z;
  st_lastPlayerId : jsstr;
}.

Record Db := mkDb {
  db_kills : list KillRecord;
  db_stats : JMap.jsmap jsstr PlayerStats;
}.

(** The SQLite driver: [sql_text v] is the text bound for [v], [None] for
    NULL, or an error; [sql_int n] the integer a [LIMIT] takes from the number
    [n], or an error; [sql_order key rows] is the order of [ORDER BY key DESC]. *)
Class SqlDriver := {
  sql_text : jsval -> exn + option jsstr;
  sql_int : num -> exn + Z;
  sql_order : forall {A : Type}, (A -> Z) -> list A -> list A;
}.

(** Documented behaviour the sources rely on: strings, null and integers bind
    as themselves, and [ORDER BY ... DESC] is a descending permutation. *)
Class SqlDriverOk `{SqlDriver} : Prop := {
  sql_text_str : forall s, sql_text (JStr s) = inr (Some s);
  sql_text_null : sql_text JNull = inr None;
  sql_int_safe : forall z, Z.abs z < 2 ^ 53 -> sql_int (num_of_Z z) = inr z;
  sql_order_perm : forall A (key : A -> Z) rows, Permutation (sql_order key rows) rows;
  sql_order_desc : forall A (key : A -> Z) rows,
    StronglySorted (fun a b => key b <= key a) (sql_order key rows);
}.

Section Storage.
Context `{SqlDriver}.

(** A [TEXT NOT NULL] column. *)
Definition text_not_null (v : jsval) : exn + jsstr :=
  match sql_text v with
  | inl e => inl e
  | inr None => inl SqlError
  | inr (Some s) => inr s
  end.

(** [INSERT INTO kills ...]: the primary key must be fresh. *)
Definition insertKillStmt (r : KillRecord) (db : Db) : exn + Db :=
  if existsb (fun k => str_eqb (k_id k) (k_id r)) (db_kills db) then inl SqlError
  else inr (mkDb (db_kills db ++ [r]) (db_stats db)).

(** [INSERT INTO player_stats ... ON CONFLICT(player_name) DO UPDATE ...]. *)
Definition upsertStatsStmt (name : jsstr) (kills deaths lastSeen : Z) (playerId : jsstr)
    (db : Db) : Db :=
  let row :=
    match JMap.get name (db_stats db) with
    | Some s => mkStats (st_kills s + kills) (st_deaths s + deaths) lastSeen playerId
    | None => mkStats kills deaths lastSeen playerId
    end in
  mkDb (db_kills db) (JMap.set name row (db_stats db)).

(** [recordKill]: [id] and [timestamp] are the values the caller drew from
    [crypto.randomUUID()] and [Date.now()].  Each statement commits on its
    own, so a failing statement leaves the effect of the earlier ones. *)
Definition recordKill (id : jsstr) (timestamp : Z)
    (attackerId : jsstr) (attackerName : jsval) (victimId : jsstr) (victimName : jsval)
    (shotId : jsstr) (db : Db) : Db * (exn + KillRecord) :=
  match text_not_null attackerName, text_not_null victimName with
  | inl e, _ => (db, inl e)
  | _, inl e => (db, inl e)
  | inr an, inr vn =>
      let r := mkKill id attackerId an victimId vn shotId timestamp in
      match insertKillStmt r db with
      | inl e => (db, inl e)
      | inr db1 =>
          let db2 := upsertStatsStmt an 1 0 timestamp attackerId db1 in
          let db3 := upsertStatsStmt vn 0 1 timestamp victimId db2 in
          (db3, inr r)
      end
  end.

Definition getPlayerStats (playerName : jsstr) (db : Db) : option PlayerStats :=
  JMap.get playerName (db_stats db).

(** [LIMIT n]: a negative limit is no limit. *)
Definition sql_limit {A} (n : Z) (rows : list A) : list A :=
  if n <? 0 then rows else take (Z.to_nat n) rows.

Definition getRecentKills (limit : Z) (db : Db) : list KillRecord :=
  sql_limit limit (sql_order k_timestamp (db_kills db)).

Definition getLeaderboard (limit : Z) (db : Db) : list (jsstr * PlayerStats) :=
  sql_limit limit (sql_order (fun e => st_kills (snd e)) (db_stats db)).

(** [SELECT attacker_name, COUNT( * ) ... GROUP BY attacker_name]. *)
Definition kills_of (name : jsstr) (rows : list KillRecord) : Z :=
  Z.of_nat (length (List.filter (fun r => str_eqb (k_attackerName r) name) rows)).

Definition group_kills (rows : list KillRecord) : list (jsstr * Z) :=
  map (fun n => (n, kills_of n rows)) (remove_dups (map k_attackerName rows)).

(** [Date.now() - hours * 60 * 60 * 1000]. *)
Definition sinceOf (now : Z) (hours : num) : num :=
  (num_of_Z now - hours * num_of_Z 60 * num_of_Z 60 * num_of_Z 1000)%num.

(** [WHERE timestamp > ?]; NaN binds as NULL, which no timestamp exceeds. *)
Definition killsSince (since : num) (db : Db) : list KillRecord :=
  List.filter (fun r => nltb since (num_of_Z (k_timestamp r))) (db_kills db).

Definition getLeaderboardByTime (now : Z) (hours : num) (limit : Z) (db : Db) : list (jsstr * Z) :=
  let rows := killsSince (sinceOf now hours) db in
  sql_limit limit (sql_order snd (group_kills rows)).

(** [cleanupOldKills]: the remaining table and the number of deleted rows. *)
Definition cleanupOldKills (now : Z) (db : Db) : Db * Z :=
  let cutoff := now - 30 * 24 * 60 * 60 * 1000 in
  let kept := List.filter (fun r => negb (k_timestamp r <? cutoff)) (db_kills db) in
  (mkDb kept (db_stats db), Z.of_nat (length (db_kills db)) - Z.of_nat (length kept)).

End Storage.
