(* ===== verification/World.v ===== *)
(** * The server's state

    One record holds every module-level variable of [state.ts], [game.ts],
    [bot.ts] and [storage.ts], the sockets, and the heap of the objects that
    are shared and mutated in place: the [WSClient] of a connection is reached
    both through [clients] and through the closure of its socket, and the
    [pos] and [vel] of a bot are the very objects its cached snapshot and its
    pending state hold.

    The runtime is the class [Runtime]: the readings of [Date.now()],
    [Math.random()] and [crypto.randomUUID()] are streams indexed by the
    number of calls so far. *)

From S2P Require Import Prelude JsMap JsNum JsString JsValue Wire Async Config Protocol Storage.

(** A vector of the server: a value, or a reference to a mutable object. *)
Inductive vref := VVal (v : Vec3) | VRef (addr : nat).

(** [Bot] (bot.ts); [b_pos] and [b_vel] are addresses of vector objects. *)
Record Bot := mkBot {
  b_id : jsstr;
  b_name : jsstr;
  b_pos : nat;
  b_rotY : num;
  b_vel : nat;
  b_hp : Z;
  b_targetPos : option Vec3;
  b_lastShotAt : num;
  b_moveTimer : Z;
}.

(** [WSClient] (state.ts); [c_ws] is the number of its socket. *)
Record WSClient := mkClient {
  c_id : jsstr;
  c_name : jsval;
  c_ws : nat;
  c_connectedAt : Z;
  c_bucketStart : Z;
  c_bucketCount : Z;
  c_lastStateAt : Z;
}.

Inductive ReadyState := OPEN | CLOSING | CLOSED.

(** A socket with the closure variables of [handleWs]: [s_client] is the
    variable [client], [s_helloTimer] whether the hello timeout is armed.
    [s_sent] are the messages handed to the network, oldest first. *)
Record Sock := mkSock {
  s_ready : ReadyState;
  s_buffered : Z;
  s_sent : list (ServerMsg Vec3);
  s_client : option nat;
  s_helloTimer : bool;
}.

Record World := mkWorld {
  latestSeq : Z; (* state.ts: latestSeq *)
  lastSeenSeq : Z; (* state.ts: lastSeenSeq *)
  events : list (WorldEvent vref); (* state.ts: events, oldest first *)
  playersCache : JMap.jsmap jsstr (PlayerSnapshot vref); (* state.ts: playersCache *)
  clients : JMap.jsmap jsstr nat; (* state.ts: clients, to addresses in wsClients *)
  pendingStates : JMap.jsmap jsstr (PendingState vref); (* state.ts: pendingStates *)
  seenShots : JMap.jsmap jsstr Z; (* game.ts: seenShots *)
  bots : JMap.jsmap jsstr Bot; (* bot.ts: bots *)
  wsClients : list WSClient; (* the WSClient objects ever created *)
  vecs : list Vec3; (* the vector objects bots mutate *)
  sockets : list Sock; (* the accepted sockets *)
  outbox : list (nat * ServerMsg Vec3); (* wsSend calls whose encryption is pending *)
  db : Db; (* storage.ts: the database *)
  stateSyncStarted : bool; (* state.ts: stateSyncStarted *)
  stateTickStarted : bool; (* state.ts: stateTickStarted *)
  ticks : nat; (* readings of the clock so far *)
  randoms : nat; (* draws of Math.random so far *)
  uuids : nat; (* draws of crypto.randomUUID so far *)
}.

Definition set_latestSeq (x : Z) (w : World) : World :=
  mkWorld x (lastSeenSeq w) (events w) (playersCache w) (clients w) (pendingStates w)
    (seenShots w) (bots w) (wsClients w) (vecs w) (sockets w) (outbox w) (db w)
    (stateSyncStarted w) (stateTickStarted w) (ticks w) (randoms w) (uuids w).
Definition set_lastSeenSeq (x : Z) (w : World) : World :=
  mkWorld (latestSeq w) x (events w) (playersCache w) (clients w) (pendingStates w)
    (seenShots w) (bots w) (wsClients w) (vecs w) (sockets w) (outbox w) (db w)
    (stateSyncStarted w) (stateTickStarted w) (ticks w) (randoms w) (uuids w).
Definition set_events (x : list (WorldEvent vref)) (w : World) : World :=
  mkWorld (latestSeq w) (lastSeenSeq w) x (playersCache w) (clients w) (pendingStates w)
    (seenShots w) (bots w) (wsClients w) (vecs w) (sockets w) (outbox w) (db w)
    (stateSyncStarted w) (stateTickStarted w) (ticks w) (randoms w) (uuids w).
Definition set_playersCache (x : JMap.jsmap jsstr (PlayerSnapshot vref)) (w : World) : World :=
  mkWorld (latestSeq w) (lastSeenSeq w) (events w) x (clients w) (pendingStates w) (seenShots w)
    (bots w) (wsClients w) (vecs w) (sockets w) (outbox w) (db w) (stateSyncStarted w)
    (stateTickStarted w) (ticks w) (randoms w) (uuids w).
Definition set_clients (x : JMap.jsmap jsstr nat) (w : World) : World :=
  mkWorld (latestSeq w) (lastSeenSeq w) (events w) (playersCache w) x (pendingStates w)
    (seenShots w) (bots w) (wsClients w) (vecs w) (sockets w) (outbox w) (db w)
    (stateSyncStarted w) (stateTickStarted w) (ticks w) (randoms w) (uuids w).
Definition set_pendingStates (x : JMap.jsmap jsstr (PendingState vref)) (w : World) : World :=
  mkWorld (latestSeq w) (lastSeenSeq w) (events w) (playersCache w) (clients w) x (seenShots w)
    (bots w) (wsClients w) (vecs w) (sockets w) (outbox w) (db w) (stateSyncStarted w)
    (stateTickStarted w) (ticks w) (randoms w) (uuids w).
Definition set_seenShots (x : JMap.jsmap jsstr Z) (w : World) : World :=
  mkWorld (latestSeq w) (lastSeenSeq w) (events w) (playersCache w) (clients w)
    (pendingStates w) x (bots w) (wsClients w) (vecs w) (sockets w) (outbox w) (db w)
    (stateSyncStarted w) (stateTickStarted w) (ticks w) (randoms w) (uuids w).
Definition set_bots (x : JMap.jsmap jsstr Bot) (w : World) : World :=
  mkWorld (latestSeq w) (lastSeenSeq w) (events w) (playersCache w) (clients w)
    (pendingStates w) (seenShots w) x (wsClients w) (vecs w) (sockets w) (outbox w) (db w)
    (stateSyncStarted w) (stateTickStarted w) (ticks w) (randoms w) (uuids w).
Definition set_wsClients (x : list WSClient) (w : World) : World :=
  mkWorld (latestSeq w) (lastSeenSeq w) (events w) (playersCache w) (clients w)
    (pendingStates w) (seenShots w) (bots w) x (vecs w) (sockets w) (outbox w) (db w)
    (stateSyncStarted w) (stateTickStarted w) (ticks w) (randoms w) (uuids w).
Definition set_vecs (x : list Vec3) (w : World) : World :=
  mkWorld (latestSeq w) (lastSeenSeq w) (events w) (playersCache w) (clients w)
    (pendingStates w) (seenShots w) (bots w) (wsClients w) x (sockets w) (outbox w) (db w)
    (stateSyncStarted w) (stateTickStarted w) (ticks w) (randoms w) (uuids w).
Definition set_sockets (x : list Sock) (w : World) : World :=
  mkWorld (latestSeq w) (lastSeenSeq w) (events w) (playersCache w) (clients w)
    (pendingStates w) (seenShots w) (bots w) (wsClients w) (vecs w) x (outbox w) (db w)
    (stateSyncStarted w) (stateTickStarted w) (ticks w) (randoms w) (uuids w).
Definition set_outbox (x : list (nat * ServerMsg Vec3)) (w : World) : World :=
  mkWorld (latestSeq w) (lastSeenSeq w) (events w) (playersCache w) (clients w)
    (pendingStates w) (seenShots w) (bots w) (wsClients w) (vecs w) (sockets w) x (db w)
    (stateSyncStarted w) (stateTickStarted w) (ticks w) (randoms w) (uuids w).
Definition set_db (x : Db) (w : World) : World :=
  mkWorld (latestSeq w) (lastSeenSeq w) (events w) (playersCache w) (clients w)
    (pendingStates w) (seenShots w) (bots w) (wsClients w) (vecs w) (sockets w) (outbox w) x
    (stateSyncStarted w) (stateTickStarted w) (ticks w) (randoms w) (uuids w).
Definition set_stateSyncStarted (x : bool) (w : World) : World :=
  mkWorld (latestSeq w) (lastSeenSeq w) (events w) (playersCache w) (clients w)
    (pendingStates w) (seenShots w) (bots w) (wsClients w) (vecs w) (sockets w) (outbox w)
    (db w) x (stateTickStarted w) (ticks w) (randoms w) (uuids w).
Definition set_stateTickStarted (x : bool) (w : World) : World :=
  mkWorld (latestSeq w) (lastSeenSeq w) (events w) (playersCache w) (clients w)
    (pendingStates w) (seenShots w) (bots w) (wsClients w) (vecs w) (sockets w) (outbox w)
    (db w) (stateSyncStarted w) x (ticks w) (randoms w) (uuids w).
Definition set_ticks (x : nat) (w : World) : World :=
  mkWorld (latestSeq w) (lastSeenSeq w) (events w) (playersCache w) (clients w)
    (pendingStates w) (seenShots w) (bots w) (wsClients w) (vecs w) (sockets w) (outbox w)
    (db w) (stateSyncStarted w) (stateTickStarted w) x (randoms w) (uuids w).
Definition set_randoms (x : nat) (w : World) : World :=
  mkWorld (latestSeq w) (lastSeenSeq w) (events w) (playersCache w) (clients w)
    (pendingStates w) (seenShots w) (bots w) (wsClients w) (vecs w) (sockets w) (outbox w)
    (db w) (stateSyncStarted w) (stateTickStarted w) (ticks w) x (uuids w).
Definition set_uuids (x : nat) (w : World) : World :=
  mkWorld (latestSeq w) (lastSeenSeq w) (events w) (playersCache w) (clients w)
    (pendingStates w) (seenShots w) (bots w) (wsClients w) (vecs w) (sockets w) (outbox w)
    (db w) (stateSyncStarted w) (stateTickStarted w) (ticks w) (randoms w) x.

(** The state when the process starts, before [initBots]. *)
Definition init_world : World :=
  mkWorld 0 0 [] [] [] [] [] [] [] [] [] [] (mkDb [] []) false false 0 0 0.

(** What the runtime supplies. *)
Class Runtime := {
  date_now : nat -> Z;
  math_random : nat -> num;
  random_uuid : nat -> jsstr;
  ws_send_raises : ReadyState -> bool;
  rt_crypto : SubtleCrypto;
  world_seed : Z;
}.

(** A clock that does not go backwards, as [Date.now()] is read. *)
Class ClockMono `{Runtime} : Prop := {
  clock_pos : forall i, 0 <= date_now i;
  clock_mono : forall i j, (i <= j)%nat -> date_now i <= date_now j;
}.

Section Ops.
Context `{Runtime}.

(** [Date.now()], [Math.random()] and [crypto.randomUUID()]. *)
Definition now : M World Z := fun w => (set_ticks (S (ticks w)) w, RDone (date_now (ticks w))).
Definition random : M World num :=
  fun w => (set_randoms (S (randoms w)) w, RDone (math_random (randoms w))).
Definition randomUUID : M World jsstr :=
  fun w => (set_uuids (S (uuids w)) w, RDone (random_uuid (uuids w))).

(** [await m()] of an [async] function [m]. *)
Definition awaiting {A} (m : M World A) : M World A := a ← m; await;; mret a.

(** ** Shared objects *)

Definition deref (w : World) (v : vref) : Vec3 :=
  match v with
  | VVal x => x
  | VRef a => default vec_zero (vecs w !! a)
  end.

Definition alloc_vec (v : Vec3) : M World nat :=
  fun w => (set_vecs (vecs w ++ [v]) w, RDone (length (vecs w))).

Definition store_vec (a : nat) (v : Vec3) : M World unit :=
  modify (fun w => set_vecs (<[a := v]> (vecs w)) w).

Definition upd_client (a : nat) (f : WSClient -> WSClient) (w : World) : World :=
  set_wsClients (alter f a (wsClients w)) w.

Definition upd_sock (i : nat) (f : Sock -> Sock) (w : World) : World :=
  set_sockets (alter f i (sockets w)) w.

(** [ws.send(data)] on socket [i]. *)
Definition ws_send (i : nat) (m : ServerMsg Vec3) : M World unit :=
  fun w =>
    match sockets w !! i with
    | Some s =>
        if ws_send_raises (s_ready s) then (w, RThrow InvalidStateError)
        else (upd_sock i (fun s => mkSock (s_ready s) (s_buffered s) (s_sent s ++ [m])
                                     (s_client s) (s_helloTimer s)) w, RDone tt)
    | None => (w, RDone tt)
    end.

(** [JSON.stringify] reads the current value of every referenced object; a
    ping that is not finite is serialised as null. *)
Definition json_ping (p : option num) : option num :=
  match p with Some n => if isFinite n then Some n else None | None => None end.

Definition freeze (w : World) (m : ServerMsg vref) : ServerMsg Vec3 :=
  let m' :=
    match m with
    | SSnapshot wd ps l =>
        SSnapshot wd (map (fun p => mkSnap (ps_id p) (ps_name p) (ps_pos p) (ps_rotY p) (ps_vel p)
          (ps_hp p) (ps_crouch p) (ps_deadUntil p) (ps_updatedAt p) (json_ping (ps_pingMs p))) ps) l
    | SStates a l =>
        SStates a (map (fun p => mkPending (pd_id p) (pd_pos p) (pd_rotY p) (pd_vel p)
          (pd_crouch p) (pd_updatedAt p) (json_ping (pd_pingMs p))) l)
    | _ => m
    end in
  map_msg (deref w) m'.

Lemma segs_awaiting {A} (R : World -> World -> Prop) `{!PreOrder R} (m : M World A) :
  segs R m -> segs R (awaiting m).
Proof. intros Hm. unfold awaiting. ssteps. Qed.

End Ops.

#[export] Hint Extern 1 (segs _ (awaiting _)) => apply segs_awaiting; [apply _|] : segs.
