(* ===== verification/Auth.v ===== *)
(** * Authentication ([auth.ts])

    JSON web tokens signed with HMAC-SHA-256, the login cookie, the OAuth
    redirect with its table of pending states, and the developer login.

    The environment variables are the class [AuthEnv], HMAC is the class
    [Hmac] with Web Crypto's contract in [HmacOk], and the answers of the two
    remote endpoints are the stream [fetch_result], indexed by the number of
    requests so far.  A request is what [new URL(req.url)] and [req.headers]
    deliver of it. *)

From S2P Require Import Prelude JsMap JsNum JsString Codec JsValue Json JsConv Async World.

(** ** Requests and responses *)

Record Request := mkRequest {
  rq_base : jsstr;                       (* [`${url.protocol}//${url.host}`] *)
  rq_pathname : jsstr;                   (* [url.pathname] *)
  rq_param : jsstr -> option jsstr;      (* [url.searchParams.get] *)
  rq_header : jsstr -> option jsstr;     (* [req.headers.get], lower-case names *)
}.

Record Response := mkResponse {
  rs_status : Z;
  rs_headers : list (jsstr * jsstr);
  rs_body : option jsstr;
}.

(** [Response.redirect(url, 302)]. *)
Definition redirect (url : jsstr) : Response := mkResponse 302 [(js "location", url)] None.

(** A request to one of the OAuth endpoints. *)
Inductive FetchReq :=
| FetchToken (url : jsstr) (body : list (jsstr * jsstr))
| FetchUser (url : jsstr) (authorization : jsstr).

(** Its answer: the promise is rejected, or there is a response whose body is
    JSON or not. *)
Inductive FetchRes :=
| FetchRejects
| FetchAnswers (ok : bool) (body : option jsval).

Class AuthEnv := {
  env_get : jsstr -> option jsstr;
  fetch_result : nat -> FetchRes;
}.

(** [crypto.subtle] with HMAC-SHA-256: [None] is a key it refuses. *)
Class Hmac := {
  hmac_import : list Z -> option (list Z);
  hmac_sign : list Z -> list Z -> list Z;
  hmac_verify : list Z -> list Z -> list Z -> bool;
}.

(** Verification compares with the code of the data, which is a byte string. *)
Class HmacOk `{Hmac} : Prop := {
  hmac_verify_spec : forall key sig data, hmac_verify key sig data = bool_decide (sig = hmac_sign key data);
  hmac_bytes : forall key data, Forall byte (hmac_sign key data);
}.

(** ** The module's state *)

Record AuthState := mkAuth {
  oauthStates : JMap.jsmap jsstr Z; (* pendingStates *)
  au_ticks : nat;
  au_uuids : nat;
  au_randoms : nat;
  fetches : list FetchReq; (* requests sent so far, oldest first *)
}.

Definition init_auth : AuthState := mkAuth [] 0 0 0 [].

Definition set_oauthStates (f : JMap.jsmap jsstr Z -> JMap.jsmap jsstr Z) (w : AuthState) : AuthState :=
  mkAuth (f (oauthStates w)) (au_ticks w) (au_uuids w) (au_randoms w) (fetches w).

(** ** Text helpers *)

(** [s.replace(/a/g, "b")] for single characters. *)
Definition replaceAll (a b : Z) (s : jsstr) : jsstr := map (fun c => if c =? a then b else c) s.

(** [s.replace(/=+$/, "")]. *)
Fixpoint dropPads (s : jsstr) : jsstr :=
  match s with c :: s' => if c =? 61 then dropPads s' else s | [] => [] end.
Definition stripPads (s : jsstr) : jsstr := rev (dropPads (rev s)).

(** [new URLSearchParams(ps)] as text. *)
Definition formSafe (b : Z) : bool :=
  (48 <=? b) && (b <=? 57) || (65 <=? b) && (b <=? 90) || (97 <=? b) && (b <=? 122)
  || (b =? 42) || (b =? 45) || (b =? 46) || (b =? 95).
Definition formByte (b : Z) : jsstr :=
  if b =? 32 then [43] else if formSafe b then [b] else [37; upperHex (b / 16); upperHex (b mod 16)].
Definition formEncode (s : jsstr) : jsstr := concat (map formByte (textEncode s)).
Fixpoint formPairs (ps : list (jsstr * jsstr)) : jsstr :=
  match ps with
  | [] => []
  | [(k, v)] => formEncode k ++ 61 :: formEncode v
  | (k, v) :: ps' => formEncode k ++ 61 :: formEncode v ++ 38 :: formPairs ps'
  end.

Definition JWT_EXPIRE_HOURS : Z := 24.
Definition AUTHORIZE_URL : jsstr := js "https://connect.linux.do/oauth2/authorize".

(** [base64url] of bytes. *)
Definition base64urlBytes (bytes : list Z) : option jsstr :=
  match btoa bytes with
  | Some b => Some (stripPads (replaceAll 47 95 (replaceAll 43 45 b)))
  | None => None
  end.

(** [base64url] of a string: of its UTF-8 bytes. *)
Definition base64url (data : jsstr) : option jsstr := base64urlBytes (textEncode data).

(** [atob] after [replace(/-/g, "+").replace(/_/g, "/")]. *)
Definition unbase64url (s : jsstr) : option jsstr := atob (replaceAll 95 47 (replaceAll 45 43 s)).

(** The first match of [/auth_token=([^;]+)/]. *)
Fixpoint authToken (cookie : jsstr) : option jsstr :=
  match match after (js "auth_token=") cookie with
        | Some r => match until 59 r with [] => None | t => Some t end
        | None => None
        end with
  | Some t => Some t
  | None => match cookie with _ :: cookie' => authToken cookie' | [] => None end
  end.

Definition jsonResponse (v : jsval) : Response :=
  mkResponse 200 [(js "content-type", js "application/json")] (stringify v).

Definition field_list (fs : list (String.string * jsval)) : list (jsstr * jsval) :=
  map (fun f => (js (fst f), snd f)) fs.

(** [{ ...payload, iat: now, exp: now + JWT_EXPIRE_HOURS * 3600 }]. *)
Definition fullPayload (payload : list (jsstr * jsval)) (now : Z) : list (jsstr * jsval) :=
  set_field (js "exp") (JNum (num_of_Z (now + JWT_EXPIRE_HOURS * 3600)))
    (set_field (js "iat") (JNum (num_of_Z now)) payload).

Definition jwtHeader : jsval := JObj (field_list [("alg", JStr (js "HS256")); ("typ", JStr (js "JWT"))]%string).

Section Auth.
Context `{Runtime} `{AuthEnv} `{Hmac}.

Definition env (name : String.string) : jsstr := default [] (env_get (js name)).
Definition LINUXDO_CLIENT_ID : jsstr := env "LINUXDO_CLIENT_ID".
Definition LINUXDO_CLIENT_SECRET : jsstr := env "LINUXDO_CLIENT_SECRET".
Definition LINUXDO_REDIRECT_URI : jsstr :=
  default (js "http://localhost:8000/auth/callback") (env_get (js "LINUXDO_REDIRECT_URI")).
Definition JWT_SECRET : jsstr := env "JWT_SECRET".
Definition USE_CN_ENDPOINT : bool := negb (bool_decide (env_get (js "LINUXDO_USE_CN") = Some (js "false"))).
Definition TOKEN_URL : jsstr :=
  js (if USE_CN_ENDPOINT then "https://connect.linuxdo.org/oauth2/token" else "https://connect.linux.do/oauth2/token").
Definition USERINFO_URL : jsstr :=
  js (if USE_CN_ENDPOINT then "https://connect.linuxdo.org/api/user" else "https://connect.linux.do/api/user").

(** [Date.now()], [crypto.randomUUID()], [Math.random()]. *)
Definition anow : M AuthState Z := fun w =>
  (mkAuth (oauthStates w) (S (au_ticks w)) (au_uuids w) (au_randoms w) (fetches w),
   RDone (date_now (au_ticks w))).
Definition auuid : M AuthState jsstr := fun w =>
  (mkAuth (oauthStates w) (au_ticks w) (S (au_uuids w)) (au_randoms w) (fetches w),
   RDone (random_uuid (au_uuids w))).
Definition arandom : M AuthState num := fun w =>
  (mkAuth (oauthStates w) (au_ticks w) (au_uuids w) (S (au_randoms w)) (fetches w),
   RDone (math_random (au_randoms w))).

(** [Math.floor(Date.now() / 1000)]. *)
Definition nowSeconds : M AuthState Z := t ← anow; mret (t / 1000).

Definition orThrow {A} (e : exn) (o : option A) : M AuthState A :=
  match o with Some a => mret a | None => throw e end.

(** [await fetch(...)]. *)
Definition fetch (req : FetchReq) : M AuthState (bool * option jsval) := fun w =>
  (mkAuth (oauthStates w) (au_ticks w) (au_uuids w) (au_randoms w) (fetches w ++ [req]),
   RAwait (fun w1 =>
     (w1, match fetch_result (length (fetches w)) with
          | FetchRejects => RThrow NetworkError
          | FetchAnswers ok body => RDone (ok, body)
          end))).

(** The periodic removal of states older than ten minutes. *)
Definition sweepStates : M AuthState unit :=
  now ← anow;
  modify (set_oauthStates (JMap.sweep (fun _ ts => now - ts >? 10 * 60 * 1000))).

Definition createJWT (payload : list (jsstr * jsval)) : M AuthState jsstr :=
  now ← nowSeconds;
  headerB64 ← orThrow DOMException (base64url (default [] (stringify jwtHeader)));
  payloadB64 ← orThrow DOMException (base64url (default [] (stringify (JObj (fullPayload payload now)))));
  let data := headerB64 ++ 46 :: payloadB64 in
  key ← orThrow DOMException (hmac_import (textEncode JWT_SECRET));
  await;;
  let sig := hmac_sign key (textEncode data) in
  await;;
  sigB64 ← orThrow DOMException (base64urlBytes sig);
  mret (data ++ 46 :: sigB64).

(** The [try] block of [verifyJWT]. *)
Definition verifyParts (headerB64 payloadB64 sigB64 : jsstr) : M AuthState (option jsval) :=
  let data := headerB64 ++ 46 :: payloadB64 in
  key ← orThrow DOMException (hmac_import (textEncode JWT_SECRET));
  await;;
  sig ← orThrow DOMException (unbase64url sigB64);
  let valid := hmac_verify key sig (textEncode data) in
  await;;
  if negb valid then mret None
  else
    str ← orThrow DOMException (unbase64url payloadB64);
    payload ← orThrow SyntaxError (parse str);
    exp ← lift (prop payload "exp");
    if truthy exp then
      now ← nowSeconds;
      if nltb (to_number exp) (num_of_Z now) then mret None else mret (Some payload)
    else mret (Some payload).

Definition verifyJWT (token : jsstr) : M AuthState (option jsval) :=
  try_catch
    (match split_on 46 token with
     | [headerB64; payloadB64; sigB64] => verifyParts headerB64 payloadB64 sigB64
     | _ => mret None
     end)
    (fun _ => mret None).

Definition getUserFromCookie (req : Request) : M AuthState (option jsval) :=
  let cookie := default [] (rq_header req (js "cookie")) in
  match authToken cookie with
  | None => mret None
  | Some t => verifyJWT t
  end.

Definition isOAuthConfigured : bool :=
  truthy (JStr LINUXDO_CLIENT_ID) && truthy (JStr LINUXDO_CLIENT_SECRET).

Definition handleLogin (req : Request) : M AuthState Response :=
  if negb isOAuthConfigured then mret (mkResponse 500 [] (Some (js "OAuth not configured")))
  else
    state ← auuid;
    now ← anow;
    modify (set_oauthStates (JMap.set state now));;
    mret (redirect (AUTHORIZE_URL ++ 63 :: formPairs
      [(js "client_id", LINUXDO_CLIENT_ID); (js "redirect_uri", LINUXDO_REDIRECT_URI);
       (js "response_type", js "code"); (js "scope", js "read"); (js "state", state)])).

Definition withError (req : Request) (e : String.string) : Response :=
  redirect (rq_base req ++ js "/?error=" ++ js e).

(** The response that sets the login cookie and returns to the front page. *)
Definition loggedIn (req : Request) (jwt : jsstr) : Response :=
  mkResponse 302
    [(js "set-cookie", js "auth_token=" ++ jwt ++ js "; Path=/; HttpOnly; SameSite=Lax; Max-Age=" ++
       dec_str (JWT_EXPIRE_HOURS * 3600));
     (js "location", rq_base req ++ js "/")] None.

(** The [try] block of [handleCallback]. *)
Definition exchangeCode (req : Request) (code : jsstr) : M AuthState Response :=
  tokenRes ← fetch (FetchToken TOKEN_URL
    [(js "grant_type", js "authorization_code"); (js "client_id", LINUXDO_CLIENT_ID);
     (js "client_secret", LINUXDO_CLIENT_SECRET); (js "redirect_uri", LINUXDO_REDIRECT_URI);
     (js "code", code)]);
  if negb (fst tokenRes) then await;; mret (withError req "token_failed")
  else
    await;;
    tokenData ← orThrow SyntaxError (snd tokenRes);
    accessToken ← lift (prop tokenData "access_token");
    userRes ← fetch (FetchUser USERINFO_URL (js "Bearer " ++ to_text accessToken));
    if negb (fst userRes) then await;; mret (withError req "userinfo_failed")
    else
      await;;
      userInfo ← orThrow SyntaxError (snd userRes);
      username ← lift (prop userInfo "username");
      jwt ← createJWT (field_list
        [("sub", username); ("id", prop_ok userInfo "id");
         ("name", js_or (prop_ok userInfo "name") username);
         ("trust_level", js_or (prop_ok userInfo "trust_level") (JNum (num_of_Z 0)))]%string);
      await;;
      mret (loggedIn req jwt).

Definition handleCallback (req : Request) : M AuthState Response :=
  let code : jsstr := default [] (rq_param req (js "code")) in
  let state : jsstr := default [] (rq_param req (js "state")) in
  pending ← gets (fun w => JMap.has state (oauthStates w));
  if negb (truthy (JStr code)) || negb (truthy (JStr state)) || negb pending then
    mret (withError req "invalid_state")
  else
    modify (set_oauthStates (JMap.delete state));;
    try_catch (exchangeCode req code) (fun _ => mret (withError req "callback_failed")).

Definition handleLogout (req : Request) : Response :=
  mkResponse 302
    [(js "set-cookie", js "auth_token=; Path=/; HttpOnly; Max-Age=0"); (js "location", rq_base req ++ js "/")]
    None.

Definition handleMe (req : Request) : M AuthState Response :=
  user ← getUserFromCookie req;
  await;;
  match user with
  | Some u =>
      if truthy u then mret (jsonResponse (JObj (field_list [("authenticated", JBool true); ("user", u)]%string)))
      else mret (jsonResponse (JObj (field_list [("authenticated", JBool false)]%string)))
  | None => mret (jsonResponse (JObj (field_list [("authenticated", JBool false)]%string)))
  end.

Definition randomNames : list jsstr :=
  map js ["SnowWarrior"; "IceKnight"; "FrostMage"; "WinterHero"; "ChillMaster"; "SnowNinja"; "IceWizard";
    "FrostGuard"; "WinterStar"; "ColdFighter"; "SnowHunter"; "IceDragon"; "FrostLord"; "WinterKing";
    "ChillHero"]%string.

Definition handleDevLogin (req : Request) : M AuthState Response :=
  if negb (bool_decide (rq_param req (js "secret") = Some LINUXDO_CLIENT_SECRET)) then
    mret (mkResponse 403 [] (Some (js "Forbidden")))
  else
    uuid ← auuid;
    let randomId := slice0 8 uuid in
    r ← arandom;
    let randomName :=
      match randomNames !! Z.to_nat (num_floor (nmul r (num_of_Z 15))) with
      | Some n => n
      | None => js "undefined"
      end ++ randomId in
    jwt ← createJWT (field_list
      [("sub", JStr randomName); ("id", JStr (js "dev_" ++ randomId)%list); ("name", JStr randomName);
       ("trust_level", JNum (num_of_Z 1)); ("dev_account", JBool true)]%string);
    await;;
    mret (loggedIn req jwt).

End Auth.
