(* ===== verification/Concrete.v ===== *)
(** * A concrete runtime

    An executable instance of the runtime classes, used to run the model on
    concrete inputs: a clock that advances 200 ms per reading, random
    numbers and identifiers derived from their index, square roots for
    [Math.hypot], and the data behind a tag in place of
    encryption. *)

From S2P Require Import Prelude JsMap JsNum JsString JsValue Json Wire Storage World.
From Stdlib Require Import Sorting.Permutation Sorting.Sorted.

(** [Math.hypot] by squares; the trigonometric functions are only evaluated
    where their value does not matter. *)
#[export] Instance sqrt_math : JsMath := {
  hypot2 := fun x y => nsqrt (x * x + y * y)%num;
  hypot3 := fun x y z => nsqrt (x * x + y * y + z * z)%num;
  msin := fun _ => num_of_Z 0;
  mcos := fun _ => num_of_Z 1;
  matan2 := fun _ _ => num_of_Z 0;
  mpow := fun x _ => x;
  mexp := fun _ => num_of_Z 1;
}.

Fixpoint insert_desc {A} (key : A -> Z) (x : A) (l : list A) : list A :=
  match l with
  | [] => [x]
  | y :: l' => if key y <? key x then x :: l else y :: insert_desc key x l'
  end.

Definition sort_desc {A} (key : A -> Z) (l : list A) : list A := foldr (insert_desc key) [] l.

Lemma insert_desc_perm {A} (key : A -> Z) x l : Permutation (insert_desc key x l) (x :: l).
Proof.
  induction l as [|y l IH]; simpl; [done|]. destruct (key y <? key x); [done|].
  rewrite IH. constructor.
Qed.

Lemma insert_desc_sorted {A} (key : A -> Z) x l :
  StronglySorted (fun a b => key b <= key a) l ->
  StronglySorted (fun a b => key b <= key a) (insert_desc key x l).
Proof.
  induction l as [|y l IH]; simpl; intros Hs; [repeat constructor|].
  apply StronglySorted_inv in Hs as [Hs Hy]. destruct (key y <? key x) eqn:E; zbool.
  - constructor; [by constructor|]. constructor; [lia|].
    eapply Forall_impl; [exact Hy|]. simpl. lia.
  - constructor; [auto|]. rewrite insert_desc_perm. constructor; done.
Qed.

#[export] Instance list_driver : SqlDriver := {
  sql_text := fun v => match v with JStr s => inr (Some s) | JNull => inr None | _ => inl SqlError end;
  sql_int := fun n => match num_integer n with Some z => inr z | None => inl SqlError end;
  sql_order := fun A key rows => sort_desc key rows;
}.

#[export] Instance list_driver_ok : SqlDriverOk.
Proof.
  constructor; simpl; try done.
  - intros z Hz. by destruct (num_of_Z_integer z Hz) as [-> _].
  - intros A key rows. induction rows as [|x l IH]; simpl; [done|].
    by rewrite insert_desc_perm, IH.
  - intros A key rows. induction rows as [|x l IH]; simpl; [constructor|].
    by apply insert_desc_sorted.
Qed.

(** The [i]-th identifier: 36 code units, as a UUID has, the last ones
    encoding [i]. *)
Definition uuid_of (i : nat) : jsstr :=
  js "00000000-0000-4000-8000-000000000" ++ [97 + Z.of_nat i / 676; 97 + Z.of_nat i / 26 mod 26;
    97 + Z.of_nat i mod 26].

#[export] Instance demo : Runtime := {|
  date_now := fun i => 1000000 + 200 * Z.of_nat i;
  math_random := fun _ => num_dec 75 2;
  random_uuid := uuid_of;
  ws_send_raises := fun r => match r with OPEN => false | _ => true end;
  rt_crypto := plain_cipher;
  world_seed := 7;
|}.

#[export] Instance demo_clock : ClockMono.
Proof. constructor; simpl; intros; lia. Qed.

(** Shorthand for JSON objects. *)
Definition obj (fs : list (String.string * jsval)) : jsval := JObj (map (fun f => (js (fst f), snd f)) fs).
Definition vec (x y z : num) : jsval := obj [("x", JNum x); ("y", JNum y); ("z", JNum z)]%string.
Definition str (s : String.string) : jsval := JStr (js s).
