(* ===== verification/AuthThms.v ===== *)
(** * Theorems about authentication

    Tokens: whoever presents the cookie a login set is recognised as the user
    it was issued for, until it expires; and nothing is accepted that the
    server did not sign.  OAuth: a state is good for one callback.  The
    developer login: what protects it, and when it does not. *)

From S2P Require Import Prelude JsMap JsNum JsString Codec JsValue Json JsConv Latin1 Async World Auth Concrete.

(** ** base64url *)

Definition url_char (v : Z) : Z :=
  let c := b64_char v in if c =? 43 then 45 else if c =? 47 then 95 else c.

Definition url_text (bs : list Z) : jsstr := map url_char (sextets bs).

Lemma url_char_range v :
  0 <= v < 64 ->
  url_char v <> 46 /\ url_char v <> 59 /\ url_char v <> 61 /\
  (if (if url_char v =? 45 then 43 else url_char v) =? 95 then 47
   else if url_char v =? 45 then 43 else url_char v) = b64_char v.
Proof.
  intros Hv. unfold url_char, b64_char.
  destruct (v <? 26) eqn:E1; [|destruct (v <? 52) eqn:E2; [|destruct (v <? 62) eqn:E3; [|destruct (v =? 62) eqn:E4]]];
    zbool; zdec; try (split; [lia|]; split; [lia|]; split; [lia|]); zdec; done.
Qed.

Lemma dropPads_pads k s : match s with c :: _ => c <> 61 | [] => True end -> dropPads (repeat 61 k ++ s) = s.
Proof. intros Hs. induction k as [|k IH]; [|done]. destruct s as [|c s]; [done|]. cbn. by zdec. Qed.

Lemma replaceAll_app a b s t : replaceAll a b (s ++ t) = replaceAll a b s ++ replaceAll a b t.
Proof. apply map_app. Qed.

Lemma stripPads_app s k : Forall (fun c => c <> 61) s -> stripPads (s ++ repeat 61 k) = s.
Proof.
  intros Hs. unfold stripPads. rewrite rev_app_distr, rev_repeat.
  rewrite dropPads_pads; [apply rev_involutive|].
  destruct (rev s) as [|c t] eqn:E; [done|]. rewrite Forall_forall in Hs. apply Hs.
  apply list_elem_of_In, in_rev. rewrite E. by left.
Qed.

Lemma padding_repeat bs : exists k, padding bs = repeat 61 k.
Proof.
  unfold padding. destruct (length bs mod 3)%nat as [|[|[|]]];
    [exists 0%nat|exists 2%nat|exists 1%nat|exists 0%nat]; done.
Qed.

Lemma base64urlBytes_text bs : Forall byte bs -> base64urlBytes bs = Some (url_text bs).
Proof.
  intros Hb. unfold base64urlBytes. rewrite btoa_bytes, b64_enc_split by done. f_equal.
  destruct (padding_repeat bs) as [k ->]. rewrite !replaceAll_app.
  replace (replaceAll 47 95 (replaceAll 43 45 (repeat 61 k))) with (repeat 61 k : jsstr)
    by (unfold replaceAll; by rewrite !map_repeat).
  assert (E : replaceAll 47 95 (replaceAll 43 45 (map b64_char (sextets bs))) = url_text bs).
  { unfold replaceAll, url_text. rewrite !map_map. apply map_ext. intros v. unfold url_char.
    destruct (b64_char v =? 43) eqn:E1; [done|]. done. }
  rewrite E. apply stripPads_app. unfold url_text. apply Forall_map.
  eapply Forall_impl; [by apply sextets_range|]. intros v Hv. by apply url_char_range.
Qed.

Lemma atob_unpadded bs : Forall byte bs -> atob (map b64_char (sextets bs)) = Some bs.
Proof.
  intros Hb. unfold atob.
  assert (Hr : Forall (fun c => 43 <= c <= 122 /\ c <> PAD) (map b64_char (sextets bs))).
  { apply Forall_map. eapply Forall_impl; [by apply sextets_range|]. apply b64_char_range. }
  rewrite filter_all.
  2: { eapply Forall_impl; [exact Hr|]. cbn. intros c [Hc _]. unfold isAsciiSpace. by zdec. }
  replace (drop_pad (map b64_char (sextets bs))) with (map b64_char (sextets bs)).
  2: { symmetry. unfold drop_pad. destruct (_ =? 0); [|done].
       destruct (rev (map b64_char (sextets bs))) as [|p [|q r]] eqn:E; try done.
       rewrite (proj2 (Z.eqb_neq p PAD)); [done|]. rewrite Forall_forall in Hr. apply (Hr p).
       apply list_elem_of_In, in_rev. rewrite E. by left. }
  rewrite (proj2 (Z.eqb_neq _ _) (sextets_length bs)).
  rewrite mapM_sextets by done. by rewrite b64_dec_sextets.
Qed.

(** [base64url] is undone by what [verifyJWT] does to its parts. *)
Lemma unbase64url_text bs : Forall byte bs -> unbase64url (url_text bs) = Some bs.
Proof.
  intros Hb. unfold unbase64url. rewrite <- (atob_unpadded bs Hb). f_equal.
  unfold replaceAll, url_text. rewrite !map_map. apply map_ext_in. intros v Hv%list_elem_of_In.
  pose proof (sextets_range bs Hb) as Hr. rewrite Forall_forall in Hr.
  by destruct (url_char_range v (Hr v Hv)) as (_ & _ & _ & ->).
Qed.

(** No dot and no semicolon inside a part. *)
Lemma url_text_clean bs : Forall byte bs -> Forall (fun c => c <> 46 /\ c <> 59) (url_text bs).
Proof.
  intros Hb. apply Forall_map. eapply Forall_impl; [by apply sextets_range|]. intros v Hv.
  by destruct (url_char_range v Hv) as (? & ? & _).
Qed.

(** ** The cookie *)

(** The cookie header a browser sends back: the token, then nothing or other
    cookies. *)
Lemma authToken_cookie jwt rest :
  jwt <> [] -> Forall (fun c => c <> 59) jwt -> match rest with c :: _ => c = 59 | [] => True end ->
  authToken (js "auth_token=" ++ jwt ++ rest) = Some jwt.
Proof.
  intros Hne Hj Hr.
  assert (Hu : until 59 (jwt ++ rest) = jwt).
  { destruct rest as [|c rest]; [rewrite app_nil_r; by apply until_all|subst c; by apply until_stop]. }
  destruct (js "auth_token=" ++ jwt ++ rest) as [|a s] eqn:E; [done|].
  cbn [authToken]. rewrite <- E, after_app, Hu. by destruct jwt.
Qed.

(** ** Payloads *)

Lemma field_set_field k v fs : field k (set_field k v fs) = v.
Proof.
  induction fs as [|[k' v'] fs IH]; cbn; unfold str_eqb; [by rewrite bool_decide_eq_true_2|].
  destruct (bool_decide (k = k')) eqn:E; cbn; unfold str_eqb; by rewrite E.
Qed.

Lemma set_field_elem k v fs f : f ∈ set_field k v fs -> f ∈ fs \/ (fst f = k /\ snd f = v).
Proof.
  induction fs as [|[k' v'] fs IH]; cbn.
  - intros ->%list_elem_of_singleton. by right.
  - unfold str_eqb. destruct (bool_decide (k = k')) eqn:E.
    + apply bool_decide_eq_true in E as ->. intros [->|H]%elem_of_cons; [by right|]. left. by right.
    + intros [->|H]%elem_of_cons; [left; left|]. destruct (IH H); [left; by right|by right].
Qed.

Lemma set_field_keys k v fs :
  map fst (set_field k v fs) = if bool_decide (k ∈ map fst fs) then map fst fs else map fst fs ++ [k].
Proof.
  induction fs as [|[k' v'] fs IH]; cbn; [done|]. unfold str_eqb.
  destruct (bool_decide (k = k')) eqn:E.
  - apply bool_decide_eq_true in E as ->. cbn. rewrite bool_decide_eq_true_2; [done|left].
  - apply bool_decide_eq_false in E. cbn. rewrite IH.
    destruct (bool_decide (k ∈ map fst fs)) eqn:E'.
    + apply bool_decide_eq_true in E'. by rewrite bool_decide_eq_true_2 by (by right).
    + apply bool_decide_eq_false in E'. rewrite bool_decide_eq_false_2; [done|].
      by intros [?|?]%elem_of_cons.
Qed.

(** Adding a member keeps an object serialisable. *)
Lemma carried_set_field k v fs :
  units k = true -> isWellFormed k = true -> plain v = true -> wellFormed v = true ->
  plain (JObj fs) = true -> wellFormed (JObj fs) = true ->
  plain (JObj (set_field k v fs)) = true /\ wellFormed (JObj (set_field k v fs)) = true.
Proof.
  intros Hu Hk Hv Hw Hp Hwf. cbn [plain wellFormed] in *. apply andb_true_iff in Hp as [Hd Hp].
  apply bool_decide_eq_true in Hd. rewrite forallb_Forall_true, Forall_forall in Hp, Hwf.
  split; [apply andb_true_iff; split|].
  - apply bool_decide_eq_true. rewrite set_field_keys. destruct (bool_decide (k ∈ map fst fs)) eqn:E; [done|].
    apply bool_decide_eq_false in E. apply NoDup_app. split; [done|]. split; [|apply NoDup_singleton].
    by intros x Hx ->%list_elem_of_singleton.
  - apply forallb_Forall_true, Forall_forall. intros f [Hf|[-> ->]]%set_field_elem; [by apply Hp|].
    by rewrite Hu, Hv.
  - apply forallb_Forall_true, Forall_forall. intros f [Hf|[-> ->]]%set_field_elem; [by apply Hwf|].
    by rewrite Hk, Hw.
Qed.

Lemma carried_fullPayload payload now :
  0 <= now -> now + 86400 < 2 ^ 53 -> plain (JObj payload) = true -> wellFormed (JObj payload) = true ->
  plain (JObj (fullPayload payload now)) = true /\ wellFormed (JObj (fullPayload payload now)) = true.
Proof.
  intros H0 H1 Hp Hw. unfold fullPayload, JWT_EXPIRE_HOURS.
  assert (Hs : forall z, 0 <= z < 2 ^ 53 -> plain (JNum (num_of_Z z)) = true)
    by (intros z Hz; apply safe_printable; unfold safe; lia).
  destruct (carried_set_field (js "iat") (JNum (num_of_Z now)) payload) as [Hp' Hw']; try done; [apply Hs; lia|].
  apply carried_set_field; try done. apply Hs. lia.
Qed.

(** Reading a member through the Latin-1 detour. *)
Lemma field_latin k fs :
  ascii k -> plain (JObj fs) = true -> wellFormed (JObj fs) = true ->
  field k (map (fun f => (textEncode (fst f), latin (snd f))) fs) = latin (field k fs).
Proof.
  intros Hk Hp Hw. cbn [plain wellFormed] in *. apply andb_true_iff in Hp as [_ Hp].
  apply forallb_Forall_true in Hp, Hw. induction fs as [|f fs IH]; [done|].
  apply Forall_cons in Hp as [Hp1 Hp], Hw as [Hw1 Hw]. destruct (wellFormed_member f Hw1 Hp1) as (Hf & _).
  destruct f as [k' x]. cbn [map field fst snd]. unfold str_eqb. rewrite IH by done.
  destruct (bool_decide (k = k')) eqn:E.
  - apply bool_decide_eq_true in E as <-. rewrite bool_decide_eq_true_2; [done|by rewrite textEncode_ascii].
  - apply bool_decide_eq_false in E. rewrite bool_decide_eq_false_2; [done|]. intros Ek. apply E.
    apply textEncode_inj; [by apply wf16_ascii|done|by rewrite textEncode_ascii].
Qed.

(** ** Tokens *)

Definition no_exn (e : exn) : Prop := False.
Definition anytime (w : AuthState) : Prop := True.

Section Tokens.
Context `{Runtime} `{AuthEnv} `{HmacOk}.

(** The signed text and the token for the payload [v]. *)
Definition signed_text (v : jsval) : jsstr :=
  url_text (textEncode (json_text jwtHeader)) ++ 46 :: url_text (textEncode (json_text v)).
Definition token_text (key : list Z) (v : jsval) : jsstr :=
  signed_text v ++ 46 :: url_text (hmac_sign key (textEncode (signed_text v))).

Context (key : list Z) (Hkey : hmac_import (textEncode JWT_SECRET) = Some key).

Lemma json_bytes v : plain v = true -> Forall byte (textEncode (json_text v)).
Proof. intros Hp. by apply textEncode_bytes, json_text_wf16. Qed.

Lemma createJWT_token payload w :
  let now := date_now (au_ticks w) / 1000 in
  plain (JObj (fullPayload payload now)) = true ->
  outcome anytime (fun jwt => jwt = token_text key (JObj (fullPayload payload now))) no_exn
    (createJWT payload) w.
Proof.
  intros now Hp. pose proof (json_bytes _ Hp) as Hb.
  assert (Hh : plain jwtHeader = true) by done. pose proof (json_bytes _ Hh) as Hhb.
  unfold createJWT. eapply outcome_done; [done|]. cbv beta zeta. fold now.
  rewrite (plain_text _ Hh), (plain_text _ Hp). cbn [default from_option id].
  unfold base64url. rewrite !base64urlBytes_text by done.
  do 2 (eapply outcome_done; [done|]). rewrite Hkey. eapply outcome_done; [done|].
  apply outcome_await. intros w1 _. apply outcome_await. intros w2 _.
  rewrite base64urlBytes_text by apply hmac_bytes. eapply outcome_done; [done|]. done.
Qed.

Lemma token_split v :
  plain v = true ->
  split_on 46 (token_text key v) =
    [url_text (textEncode (json_text jwtHeader)); url_text (textEncode (json_text v));
     url_text (hmac_sign key (textEncode (signed_text v)))].
Proof.
  intros Hp. assert (Hc : forall bs, Forall byte bs -> Forall (fun d => d <> 46) (url_text bs)).
  { intros bs Hb. eapply Forall_impl; [by apply url_text_clean|]. naive_solver. }
  unfold token_text, signed_text. rewrite <- app_assoc. cbn [app].
  rewrite !split_on_cons by (apply Hc, json_bytes; done).
  by rewrite split_on_none by (apply Hc, hmac_bytes).
Qed.

(** A token of this server: its payload, or nothing once it has expired. *)
Lemma verifyJWT_token fs exp (expired : bool) w :
  plain (JObj fs) = true -> wellFormed (JObj fs) = true ->
  field (js "exp") fs = JNum exp -> num_truthy exp = true ->
  outcome (fun w => nltb exp (num_of_Z (date_now (au_ticks w) / 1000)) = expired)
    (fun user => user = if expired then None else Some (latin (JObj fs))) no_exn
    (verifyJWT (token_text key (JObj fs))) w.
Proof.
  intros Hp Hw He Ht. unfold verifyJWT. eapply (outcome_try _ _ no_exn); [|done].
  rewrite token_split by done. unfold verifyParts. rewrite Hkey. eapply outcome_done; [done|].
  apply outcome_await. intros w1 _. rewrite (unbase64url_text (hmac_sign key _)) by apply hmac_bytes.
  eapply outcome_done; [done|]. fold (signed_text (JObj fs)).
  rewrite hmac_verify_spec, bool_decide_eq_true_2 by done. apply outcome_await. intros w2 Hw2.
  cbn [negb]. rewrite unbase64url_text by (by apply json_bytes). eapply outcome_done; [done|].
  rewrite parse_latin1 by done. eapply outcome_done; [done|].
  cbn [latin prop]. rewrite field_latin, He by first [done | (repeat constructor; lia)]. cbn [latin].
  eapply outcome_done; [done|]. cbn [truthy]. rewrite Ht. eapply outcome_done; [done|].
  cbn [to_number]. rewrite Hw2. by destruct expired.
Qed.

(** Until the time [exp] (in seconds) a request with the token [jwt] as its
    cookie, alone or in front of other cookies, is answered with [user], and
    after it as not authenticated. *)
Definition recognised (user : jsval) (exp : Z) (jwt : jsstr) : Prop :=
  forall req rest w' expired,
    rq_header req (js "cookie") = Some (js "auth_token=" ++ jwt ++ rest) ->
    match rest with c :: _ => c = 59 | [] => True end ->
    outcome (fun w => 0 <= date_now (au_ticks w) / 1000 < 2 ^ 53 /\
                      (exp <? date_now (au_ticks w) / 1000) = expired)
      (fun resp => resp = jsonResponse (JObj (field_list
         (if expired then [("authenticated", JBool false)]
          else [("authenticated", JBool true); ("user", user)])%string))) no_exn
      (handleMe req) w'.

(** C16: A login lasts for its day.  The token [createJWT] makes for a payload
    that JSON can carry (without lone surrogates) is never refused: any request
    that brings it back as the cookie is answered by [/auth/me] with the payload
    and its issue and expiry times as long as the clock has not passed 24 hours
    after the issue, and as not authenticated afterwards.  The strings of the
    payload come back as the UTF-8 bytes they were encoded to, one character
    each, which is the same string when it is ASCII. *)
Theorem session_roundtrip payload w :
  let iat := date_now (au_ticks w) / 1000 in
  0 <= iat -> iat + 86400 < 2 ^ 53 ->
  plain (JObj payload) = true -> wellFormed (JObj payload) = true ->
  outcome anytime (recognised (latin (JObj (fullPayload payload iat))) (iat + 86400)) no_exn
    (createJWT payload) w.
Proof.
  intros iat H0' H1' Hp Hw. set (user := JObj (fullPayload payload iat)).
  destruct (carried_fullPayload payload iat H0' H1' Hp Hw) as [Hp' Hw'].
  eapply outcome_weaken; [by apply createJWT_token| |done].
  intros jwt -> req rest w' expired Hc Hr. unfold handleMe, getUserFromCookie. rewrite Hc.
  cbn [default from_option id]. rewrite authToken_cookie; [| | |done].
  - eapply (outcome_bind _ (fun u => u = if expired then None else Some (latin user))).
    + eapply (outcome_ends_mono (fun w => nltb (num_of_Z (iat + 86400))
        (num_of_Z (date_now (au_ticks w) / 1000)) = expired)).
      * apply verifyJWT_token; try done; [apply field_set_field|].
        unfold user, JWT_EXPIRE_HOURS. apply truthy_pos. lia.
      * intros w1 [Hw1 <-]. apply nltb_of_Z; lia.
    + intros u w1 ->. apply outcome_await. intros w2 _. by destruct expired.
  - unfold token_text, signed_text. by intros [? ?]%app_nil.
  - unfold token_text, signed_text.
    assert (Hcl : forall bs, Forall byte bs -> Forall (fun d => d <> 59) (url_text bs)).
    { intros bs Hb. eapply Forall_impl; [by apply url_text_clean|]. naive_solver. }
    repeat (rewrite Forall_app || rewrite Forall_cons).
    split_and!; try done; apply Hcl; first [apply hmac_bytes | by apply json_bytes].
Qed.

End Tokens.

Section Soundness.
Context `{Runtime} `{AuthEnv} `{HmacOk}.

(** What an accepted token must be: three parts, the third the code of the
    first two under the server's secret, the second the text of the payload,
    and not expired at a clock reading taken after the call. *)
Definition signed_token (n : nat) (token : jsstr) (payload : jsval) : Prop :=
  exists header body sig key str,
    token = header ++ 46 :: body ++ 46 :: sig /\
    hmac_import (textEncode JWT_SECRET) = Some key /\
    unbase64url sig = Some (hmac_sign key (textEncode (header ++ 46 :: body))) /\
    unbase64url body = Some str /\ parse str = Some payload /\
    (truthy (prop_ok payload "exp") = true -> exists i, (n <= i)%nat /\
       nltb (to_number (prop_ok payload "exp")) (num_of_Z (date_now i / 1000)) = false).

Lemma verifyParts_sound n header body sig w :
  outcome (fun w' => (n <= au_ticks w')%nat)
    (fun o => forall payload, o = Some payload ->
       signed_token n (header ++ 46 :: body ++ 46 :: sig) payload) (fun _ => True)
    (verifyParts header body sig) w.
Proof.
  unfold verifyParts.
  destruct (hmac_import (textEncode JWT_SECRET)) as [key|] eqn:Ek; [|exact I]. eapply outcome_done; [done|].
  apply outcome_await. intros w1 _.
  destruct (unbase64url sig) as [sigb|] eqn:Es; [|exact I]. eapply outcome_done; [done|].
  apply outcome_await. intros w2 Hw2. rewrite hmac_verify_spec.
  case_bool_decide as Ev; cbn [negb]; [|by apply outcome_ret]. subst sigb.
  destruct (unbase64url body) as [str|] eqn:Eb; [|exact I]. eapply outcome_done; [done|].
  destruct (parse str) as [payload|] eqn:Ep; [|exact I]. eapply outcome_done; [done|].
  destruct (prop payload "exp") as [e|exp] eqn:Ee; [exact I|]. eapply outcome_done; [done|].
  assert (Hexp : prop_ok payload "exp" = exp) by (destruct payload; simplify_eq/=; done).
  assert (Hs : (truthy exp = true -> exists i, (n <= i)%nat /\
       nltb (to_number exp) (num_of_Z (date_now i / 1000)) = false) ->
     signed_token n (header ++ 46 :: body ++ 46 :: sig) payload).
  { intros Hx. exists header, body, sig, key, str. rewrite Hexp. done. }
  destruct (truthy exp) eqn:Et; [|cbn; intros; simplify_eq; by apply Hs].
  eapply outcome_done; [done|]. destruct (nltb _ _) eqn:El; [by apply outcome_ret|]. cbn. intros. simplify_eq.
  apply Hs. intros _. eauto.
Qed.

(** C17: Nothing is accepted that the server did not sign: [verifyJWT] always
    returns, whatever it is given and whenever it is resumed, and when it
    returns a payload the token is of the form header.body.signature with the
    signature the HMAC of "header.body" under the server's own secret, the
    payload the JSON of the body, and an expiry time, if there is one, that has
    not passed.  The header is never consulted: no other algorithm can be asked
    for. *)
Theorem verifyJWT_sound token w :
  outcome (fun w' => (au_ticks w <= au_ticks w')%nat)
    (fun o => forall payload, o = Some payload -> signed_token (au_ticks w) token payload) no_exn
    (verifyJWT token) w.
Proof.
  unfold verifyJWT. eapply (outcome_try _ _ (fun _ => True)); [|done].
  pose proof (split_on_join 46 token) as [_ Hj].
  destruct (split_on 46 token) as [|h [|b [|s [|]]]]; try by apply outcome_ret.
  cbn [join_on] in Hj. subst token. apply verifyParts_sound.
Qed.

End Soundness.

(** ** OAuth *)

(** Everything the module can be asked to do. *)
Inductive AuthEvent :=
| Login (req : Request) | Callback (req : Request) | Me (req : Request) | DevLogin (req : Request)
| SweepStates.

Section OAuth.
Context `{Runtime} `{AuthEnv} `{Hmac}.

Definition auth_handler (e : AuthEvent) : M AuthState unit :=
  match e with
  | Login req => handleLogin req ≫= fun _ => mret tt
  | Callback req => handleCallback req ≫= fun _ => mret tt
  | Me req => handleMe req ≫= fun _ => mret tt
  | DevLogin req => handleDevLogin req ≫= fun _ => mret tt
  | SweepStates => sweepStates
  end.

(** The code exchanges sent so far. *)
Definition isTokenReq (r : FetchReq) : bool := match r with FetchToken _ _ => true | FetchUser _ _ => false end.
Definition exchanges (w : AuthState) : nat := length (List.filter isTokenReq (fetches w)).

(** The states still good for a callback. *)
Definition pending (w : AuthState) : nat := length (oauthStates w).

Definition budget (w : AuthState) : Prop := (exchanges w + pending w <= au_uuids w)%nat.

(** Relation between the ends of a segment: what is spent on one side is
    covered on the other. *)
Definition spends (w w' : AuthState) : Prop :=
  (exchanges w' + pending w' + au_uuids w <= exchanges w + pending w + au_uuids w')%nat.

#[export] Instance spends_preorder : PreOrder spends.
Proof. split; [intros w|intros w1 w2 w3]; unfold spends; lia. Qed.

Lemma delete_length {K} `{Countable K} {V} (k : K) (m : JMap.jsmap K V) :
  JMap.has k m = true -> (length (JMap.delete k m) < length m)%nat.
Proof.
  unfold JMap.has, JMap.delete. induction m as [|[k' v] m IH]; [done|]. cbn.
  destruct (decide (k = k')) as [->|Hk].
  - rewrite bool_decide_eq_true_2 by done. cbn. intros _.
    pose proof (List.filter_length_le (fun e => negb (bool_decide (k' = fst e))) m). lia.
  - rewrite bool_decide_eq_false_2 by done. cbn. intros Hm. specialize (IH Hm). lia.
Qed.

Lemma set_length {K} `{Countable K} {V} (k : K) (v : V) (m : JMap.jsmap K V) :
  (length (JMap.set k v m) <= S (length m))%nat.
Proof. induction m as [|[k' v'] m IH]; cbn; [lia|]. case_decide; cbn; lia. Qed.

#[local] Hint Extern 1 (segs spends anow) => intros ?; split; [unfold spends, exchanges, pending; cbn; lia|done] : segs.
#[local] Hint Extern 1 (segs spends auuid) => intros ?; split; [unfold spends, exchanges, pending; cbn; lia|done] : segs.
#[local] Hint Extern 1 (segs spends arandom) => intros ?; split; [unfold spends, exchanges, pending; cbn; lia|done] : segs.

Lemma segs_orThrow {A} e (o : option A) : segs spends (orThrow e o).
Proof. destruct o; [apply segs_ret|apply segs_throw]; apply _. Qed.
#[local] Hint Resolve segs_orThrow : segs.

(** A request of the user information is free; a code exchange takes one. *)
Lemma segs_from_fetch w0 req w :
  (exchanges w + Nat.b2n (isTokenReq req) + pending w + au_uuids w0 <=
   exchanges w0 + pending w0 + au_uuids w)%nat ->
  segs_from spends w0 (fetch req) w.
Proof.
  intros Hw. split.
  - unfold spends, exchanges, pending in *. cbn. rewrite List.filter_app, length_app. cbn.
    destruct (isTokenReq req); cbn in *; lia.
  - intros w1. split; [done|]. by destruct (fetch_result _).
Qed.

Lemma segs_fetch_user url auth : segs spends (fetch (FetchUser url auth)).
Proof. intros w. apply segs_from_fetch. cbn. lia. Qed.
#[local] Hint Resolve segs_fetch_user : segs.

Lemma segs_createJWT payload : segs spends (createJWT payload).
Proof. unfold createJWT, nowSeconds. ssteps. Qed.
#[local] Hint Resolve segs_createJWT : segs.

Lemma segs_getUser req : segs spends (getUserFromCookie req).
Proof. unfold getUserFromCookie, verifyJWT, verifyParts, nowSeconds. ssteps. Qed.
#[local] Hint Resolve segs_getUser : segs.

Lemma segs_exchange w0 req code w :
  (S (exchanges w) + pending w + au_uuids w0 <= exchanges w0 + pending w0 + au_uuids w)%nat ->
  segs_from spends w0 (exchangeCode req code) w.
Proof.
  intros Hw. unfold exchangeCode. apply segs_from_bind; [apply _| |intros [ok body]; ssteps].
  apply segs_from_fetch. cbn. lia.
Qed.

Lemma segs_auth_handler e : segs spends (auth_handler e).
Proof.
  destruct e as [req|req|req|req|]; cbn [auth_handler].
  - intros w. apply segs_from_bind; [apply _| |intros; apply segs_ret; apply _]. unfold handleLogin.
    destruct (negb isOAuthConfigured); [by split|]. do 3 (eapply segs_from_done; [done|]). split; [|done].
    unfold spends, exchanges, pending. cbn. pose proof (set_length (random_uuid (au_uuids w))
      (date_now (au_ticks w)) (oauthStates w)). lia.
  - intros w. apply segs_from_bind; [apply _| |intros; apply segs_ret; apply _]. unfold handleCallback.
    eapply segs_from_done; [done|]. destruct (_ || _ || _) eqn:E; [by split|]. zbool.
    eapply segs_from_done; [done|]. apply segs_from_try; [apply _| |intros; apply segs_ret; apply _].
    apply segs_exchange. match goal with H : JMap.has _ _ = true |- _ => apply delete_length in H as Hd end.
    unfold exchanges, pending, set_oauthStates. cbn [oauthStates au_uuids fetches].
    lia.
  - unfold handleMe. ssteps.
  - unfold handleDevLogin. ssteps.
  - unfold sweepStates. ssteps. apply segs_modify. intros w. unfold spends, exchanges, pending. cbn.
    pose proof (List.filter_length_le (fun e => negb (a - snd e >? 10 * 60 * 1000)) (oauthStates w)).
    unfold JMap.sweep. cbn in *. lia.
Qed.

Definition stateOf (req : Request) : jsstr := default [] (rq_param req (js "state")).

(** C18: A state is good for one callback.  Under every interleaving of logins,
    callbacks and sweeps, the code exchanges ever sent and the states still
    pending together are at most the identifiers issued; a callback whose state
    is not pending changes nothing and sends nothing; and after the first
    segment of any callback its state is no longer pending, unless the callback
    was refused without effect. *)
Theorem oauth_state_once :
  (forall s, reachable auth_handler init_auth s -> budget (sys_world s)) /\
  (forall req w, JMap.has (stateOf req) (oauthStates w) = false ->
     handleCallback req w = (w, RDone (withError req "invalid_state"))) /\
  (forall req w, let '(w', r) := handleCallback req w in
     (w' = w /\ r = RDone (withError req "invalid_state")) \/
     JMap.has (stateOf req) (oauthStates w') = false).
Proof.
  split; [|split].
  - intros s Hs.
    pose proof (steps_rel auth_handler spends segs_auth_handler init_auth (mkSys init_auth [] []) s) as Hr.
    specialize (Hr (reach_init _ _) (reachable_rtc _ _ _ Hs)). unfold spends, budget in *. cbn in Hr. lia.
  - intros req w Hn. unfold handleCallback, stateOf in *. unfold mbind, M_bind, gets. cbn [bindr].
    by rewrite Hn, orb_true_r.
  - intros req w. unfold handleCallback, mbind at 1, M_bind, gets. cbn [bindr].
    destruct (_ || _ || _); [by left|]. unfold mbind, M_bind, modify. cbn [bindr].
    unfold try_catch, exchangeCode, mbind, M_bind, fetch. cbn. right.
    unfold stateOf, JMap.has. exact (f_equal (fun o => match o with Some _ => true | None => false end)
      (JMap.get_delete_eq _ _)).
Qed.

End OAuth.

(** ** The developer login *)

(** [s] is an ASCII literal. *)
Lemma js_ascii s : forallb (fun c => (0 <=? c) && (c <? 128)) (js s) = true -> ascii (js s).
Proof. intros Hs%forallb_Forall_true. eapply Forall_impl; [exact Hs|]. cbn. intros c Hc. zbool. lia. Qed.

Section DevLogin.
Context `{Runtime} `{AuthEnv} `{HmacOk}.

Lemma randomNames_ascii n : ascii (match randomNames !! n with Some s => s | None => js "undefined" end).
Proof.
  destruct (randomNames !! n) as [s|] eqn:E; [|by apply js_ascii].
  apply list_elem_of_lookup_2 in E. unfold randomNames in E.
  apply list_elem_of_In, in_map_iff in E as (t & <- & Ht).
  repeat (destruct Ht as [<-|Ht]; [by apply js_ascii|]). done.
Qed.


End DevLogin.

(** ** A concrete environment for the witnesses *)

(** The code of the data: the sum of key and data. *)
Definition sum_mac : Hmac := {|
  hmac_import := fun k => match k with [] => None | _ => Some k end;
  hmac_sign := fun k d => [(foldr Z.add 0 k + foldr Z.add 0 d) mod 256];
  hmac_verify := fun k s d => bool_decide (s = [(foldr Z.add 0 k + foldr Z.add 0 d) mod 256])
|}.

Lemma sum_mac_ok : @HmacOk sum_mac.
Proof.
  constructor; [done|]. cbn. intros k d. constructor; [|constructor]. apply Z.mod_pos_bound. lia.
Qed.

#[local] Existing Instance sum_mac.
#[local] Existing Instance sum_mac_ok.

(** Only the secret of the tokens is configured. *)
#[local] Instance token_env : AuthEnv := {|
  env_get := fun k => if str_eqb k (js "JWT_SECRET") then Some (js "s3cret") else None;
  fetch_result := fun _ => FetchRejects
|}.

Definition sample_payload : list (jsstr * jsval) :=
  [(js "sub", JStr (js "zoe")); (js "name", JStr [90; 111; 235])].

Lemma session_roundtrip_witness :
  outcome anytime (recognised (latin (JObj (fullPayload sample_payload 1000))) 87400) no_exn
    (createJWT sample_payload) init_auth.
Proof.
  exact (session_roundtrip (textEncode (js "s3cret")) eq_refl sample_payload init_auth
    ltac:(vm_compute; discriminate) ltac:(vm_compute; reflexivity)
    ltac:(vm_compute; reflexivity) ltac:(vm_compute; reflexivity)).
Defined.

Definition bare_request (secret : jsstr) : Request :=
  mkRequest (js "http://localhost:8000") (js "/auth/dev-login")
    (fun k => if str_eqb k (js "secret") then Some secret else None) (fun _ => None).


Lemma verifyJWT_sound_witness :
  outcome (fun w' => (0 <= au_ticks w')%nat)
    (fun o => forall payload, o = Some payload -> signed_token 0 (js "a.b.c") payload) no_exn
    (verifyJWT (js "a.b.c")) init_auth.
Proof. exact (verifyJWT_sound (js "a.b.c") init_auth). Defined.
