(* ===== verification/State.v ===== *)
(** * State and event stream ([state.ts])

    The event log with its sliding window, the player table as events are
    applied to it, broadcasting, the per-connection rate limits, and the
    batched state updates. *)

From S2P Require Import Prelude JsMap JsNum JsString JsValue Async Config Protocol Storage World.

(** ** The event log *)

(** The loop of [pruneEvents]: shift while the oldest event is before [cutoff]. *)
Fixpoint prune (cutoff : Z) (l : list (WorldEvent vref)) : list (WorldEvent vref) :=
  match l with
  | [] => []
  | e :: l' => if ev_at e <? cutoff then prune cutoff l' else l
  end.

Definition pruneEvents (now : Z) (l : list (WorldEvent vref)) : list (WorldEvent vref) :=
  prune (now - TTL.EVENT_MS) l.

(** ** Applying an event to the player table *)

Definition upd_snap (k : jsstr) (f : PlayerSnapshot vref -> PlayerSnapshot vref)
    (m : JMap.jsmap jsstr (PlayerSnapshot vref)) : JMap.jsmap jsstr (PlayerSnapshot vref) :=
  match JMap.get k m with
  | Some prev => JMap.set k (f prev) m
  | None => m
  end.

Definition applyEventToCache (ev : WorldEvent vref)
    (m : JMap.jsmap jsstr (PlayerSnapshot vref)) : JMap.jsmap jsstr (PlayerSnapshot vref) :=
  match ev_body ev with
  | EvJoin player => JMap.set (ps_id player) player m
  | EvLeave playerId _ => JMap.delete playerId m
  | EvState playerId pos rotY vel crouch =>
      upd_snap playerId (fun p => mkSnap (ps_id p) (ps_name p) pos rotY vel (ps_hp p) crouch
        (ps_deadUntil p) (ev_at ev) (ps_pingMs p)) m
  | EvRename playerId name =>
      upd_snap playerId (fun p => mkSnap (ps_id p) (JStr name) (ps_pos p) (ps_rotY p) (ps_vel p)
        (ps_hp p) (ps_crouch p) (ps_deadUntil p) (ev_at ev) (ps_pingMs p)) m
  | EvRespawn playerId pos hp =>
      upd_snap playerId (fun p => mkSnap (ps_id p) (ps_name p) pos (ps_rotY p) (ps_vel p)
        hp (ps_crouch p) (Some 0) (ev_at ev) (ps_pingMs p)) m
  | EvHit _ victimId _ victimHp _ =>
      upd_snap victimId (fun p => mkSnap (ps_id p) (ps_name p) (ps_pos p) (ps_rotY p) (ps_vel p)
        victimHp (ps_crouch p) (ps_deadUntil p) (ev_at ev) (ps_pingMs p)) m
  | EvDeath victimId _ _ _ _ respawnAt =>
      upd_snap victimId (fun p => mkSnap (ps_id p) (ps_name p) (ps_pos p) (ps_rotY p) (ps_vel p)
        0 (ps_crouch p) (Some respawnAt) (ev_at ev) (ps_pingMs p)) m
  | EvChat _ _ _ | EvSnowball _ _ _ _ _ => m
  end.

(** ** Rate limits *)

(** [rateLimitOk(c, now)]: the updated client and the verdict. *)
Definition rateLimitOk (c : WSClient) (now : Z) : WSClient * bool :=
  let '(start, count) :=
    if now - c_bucketStart c >? CONFIG.RATE_windowMs then (now, 0)
    else (c_bucketStart c, c_bucketCount c) in
  let count := count + 1 in
  (mkClient (c_id c) (c_name c) (c_ws c) (c_connectedAt c) start count (c_lastStateAt c),
   count <=? CONFIG.RATE_maxMsgs).

(** [stateFreqOk(c, now)]: the test [now - lastStateAt < (1000 / STATE_HZ) * 0.75]
    on integral times, multiplied out. *)
Definition stateFreqOk (c : WSClient) (now : Z) : WSClient * bool :=
  if 4 * CONFIG.STATE_HZ * (now - c_lastStateAt c) <? 3 * 1000 then (c, false)
  else (mkClient (c_id c) (c_name c) (c_ws c) (c_connectedAt c) (c_bucketStart c)
          (c_bucketCount c) now, true).

Section State.
Context `{Runtime}.

(** ** Broadcasting *)

(** [try { c.ws.send(encrypted) } catch {}] for every client [keep] selects. *)
Definition send_all (keep : Sock -> bool) (m : ServerMsg Vec3) : M World unit :=
  cs ← gets (fun w => JMap.values (clients w));
  for_each cs (fun a =>
    oc ← gets (fun w => wsClients w !! a);
    match oc with
    | None => mret tt
    | Some c =>
        os ← gets (fun w => sockets w !! c_ws c);
        match os with
        | Some s => if keep s then try_catch (ws_send (c_ws c) m) (fun _ => mret tt) else mret tt
        | None => mret tt
        end
    end).

(** [JSON.stringify] runs before [aesEncrypt] suspends. *)
Definition broadcast (msg : ServerMsg vref) : M World unit :=
  encrypted ← gets (fun w => freeze w msg);
  await;;
  send_all (fun _ => true) encrypted.

Definition DROP_BUFFER_BYTES : Z := 256000.

Definition broadcastDroppable (msg : ServerMsg vref) : M World unit :=
  encrypted ← gets (fun w => freeze w msg);
  await;;
  send_all (fun s => negb (s_buffered s >? DROP_BUFFER_BYTES)) encrypted.

(** ** appendEventInMem *)

(** The synchronous part: number and stamp the event, log it, prune, apply. *)
Definition append_sync (full : WorldEvent vref) (w : World) : World :=
  let w1 := set_lastSeenSeq (latestSeq w) w in
  let w2 := set_events (pruneEvents (ev_at full) (events w1 ++ [full])) w1 in
  set_playersCache (applyEventToCache full (playersCache w2)) w2.

Definition appendEventInMem (body : EventBody vref) : M World (WorldEvent vref) :=
  modify (fun w => set_latestSeq (latestSeq w + 1) w);;
  seq ← gets latestSeq;
  at_ ← now;
  let full := mkEvent seq at_ body in
  modify (append_sync full);;
  awaiting (broadcast (SEvent full));;
  mret full.

(** The state an event leaves when the broadcast suspends. *)
Definition append_world (body : EventBody vref) (w : World) : World :=
  append_sync (mkEvent (latestSeq w + 1) (date_now (ticks w)) body)
    (set_ticks (S (ticks w)) (set_latestSeq (latestSeq w + 1) w)).

Lemma append_unfold body w :
  appendEventInMem body w =
  (awaiting (broadcast (SEvent (mkEvent (latestSeq w + 1) (date_now (ticks w)) body)))
     ≫= fun _ => mret (mkEvent (latestSeq w + 1) (date_now (ticks w)) body))
  (append_world body w).
Proof. reflexivity. Qed.

(** ** Cleaning up idle players *)

Definition cleanupPlayers : M World unit :=
  t ← now;
  modify (fun w => set_playersCache
    (JMap.sweep (fun id snap =>
       negb (JMap.has id (clients w)) && (t - ps_updatedAt snap >? CONFIG.CLEANUP_IDLE_MS))
     (playersCache w)) w).

(** ** Batched states *)

Definition enqueuePendingState (s : PendingState vref) : M World unit :=
  modify (fun w => set_pendingStates (JMap.set (pd_id s) s (pendingStates w)) w).

Definition startStateSyncOnce : M World unit := modify (set_stateSyncStarted true).
Definition startStateTickOnce : M World unit := modify (set_stateTickStarted true).

(** One turn of the loop [startStateSyncOnce] starts. *)
Definition stateSyncTurn : M World unit :=
  started ← gets stateSyncStarted;
  n ← gets (fun w => JMap.size (clients w));
  if negb started || (n =? 0) then mret tt
  else
    try_catch
      (players ← gets (fun w => JMap.values (playersCache w));
       seq ← gets lastSeenSeq;
       awaiting (broadcastDroppable (SSnapshot CONFIG.WORLD players seq)))
      (fun _ => mret tt).

(** One turn of the loop [startStateTickOnce] starts. *)
Definition stateTickTurn : M World unit :=
  started ← gets stateTickStarted;
  n ← gets (fun w => JMap.size (clients w));
  if negb started || (n =? 0) then mret tt
  else
    p ← gets (fun w => JMap.size (pendingStates w));
    if p =? 0 then mret tt
    else
      list ← gets (fun w => JMap.values (pendingStates w));
      modify (set_pendingStates []);;
      t ← now;
      awaiting (broadcastDroppable (SStates t list)).

End State.

(** ** The rate limiter as a whole *)

(** The verdicts on a sequence of messages that arrive at the times [ts]. *)
Fixpoint rate_run (c : WSClient) (ts : list Z) : list (Z * bool) :=
  match ts with
  | [] => []
  | t :: ts' => let '(c', ok) := rateLimitOk c t in (t, ok) :: rate_run c' ts'
  end.

(** The messages accepted at a time in [[lo, hi]]. *)
Definition accepted_in (lo hi : Z) (vs : list (Z * bool)) : Z :=
  Z.of_nat (length (List.filter (fun v => snd v && (lo <=? fst v) && (fst v <=? hi)) vs)).

Fixpoint nondecreasing (ts : list Z) : Prop :=
  match ts with
  | [] => True
  | t :: ts' => Forall (Z.le t) ts' /\ nondecreasing ts'
  end.

Lemma accepted_in_cons lo hi t ok vs :
  accepted_in lo hi ((t, ok) :: vs) =
  (if ok && (lo <=? t) && (t <=? hi) then 1 else 0) + accepted_in lo hi vs.
Proof.
  unfold accepted_in. simpl. destruct (ok && (lo <=? t) && (t <=? hi)); simpl; lia.
Qed.

Lemma accepted_in_late lo hi c ts :
  Forall (fun t => hi < t) ts -> accepted_in lo hi (rate_run c ts) = 0.
Proof.
  revert c. induction ts as [|t ts IH]; intros c; [done|]. intros [Ht Hts]%Forall_cons.
  cbn [rate_run]. destruct (rateLimitOk c t) as [c' ok]. rewrite accepted_in_cons, IH by done.
  destruct (t <=? hi) eqn:E; zbool; [lia|]. by rewrite andb_false_r.
Qed.

(** While the bucket does not expire, the budget left is what it says. *)
Lemma accepted_one_bucket lo hi c ts :
  nondecreasing ts -> hi <= c_bucketStart c + CONFIG.RATE_windowMs ->
  accepted_in lo hi (rate_run c ts) <= Z.max 0 (CONFIG.RATE_maxMsgs - c_bucketCount c).
Proof.
  revert c. induction ts as [|t ts IH]; intros c; [unfold accepted_in; simpl; lia|].
  intros [Hts Hs] Hhi. destruct (Z.ltb_spec hi t) as [Hlt|Hle].
  - rewrite accepted_in_late; [lia|]. constructor; [done|].
    eapply Forall_impl; [exact Hts|]. simpl. lia.
  - cbn [rate_run]. unfold rateLimitOk. rewrite Z.gtb_ltb.
    destruct (Z.ltb_spec CONFIG.RATE_windowMs (t - c_bucketStart c)); [lia|].
    rewrite accepted_in_cons.
    match goal with |- context [rate_run ?c' ts] => specialize (IH c' Hs Hhi) end. simpl in IH.
    destruct (c_bucketCount c + 1 <=? CONFIG.RATE_maxMsgs) eqn:E; zbool; simpl; [|lia].
    destruct ((lo <=? t) && (t <=? hi)); lia.
Qed.

(** From the first message of an interval no longer than the window, at most
    one further bucket starts. *)
Lemma accepted_two_buckets lo hi t0 c ts :
  nondecreasing ts -> Forall (Z.le t0) ts -> hi <= t0 + CONFIG.RATE_windowMs ->
  accepted_in lo hi (rate_run c ts) <=
  Z.max 0 (CONFIG.RATE_maxMsgs - c_bucketCount c) + CONFIG.RATE_maxMsgs.
Proof.
  revert c. induction ts as [|t ts IH]; intros c; [unfold accepted_in, CONFIG.RATE_maxMsgs; simpl; lia|].
  intros [Hts Hs] [Ht0 Hf]%Forall_cons Hhi. cbn [rate_run]. unfold rateLimitOk. rewrite Z.gtb_ltb.
  destruct (Z.ltb_spec CONFIG.RATE_windowMs (t - c_bucketStart c)).
  - rewrite accepted_in_cons.
    match goal with |- context [rate_run ?c' ts] =>
      pose proof (accepted_one_bucket lo hi c' ts Hs) as Hb end. simpl in Hb.
    specialize (Hb ltac:(lia)). unfold CONFIG.RATE_maxMsgs in *. simpl in *.
    destruct ((lo <=? t) && (t <=? hi)); lia.
  - rewrite accepted_in_cons.
    match goal with |- context [rate_run ?c' ts] => specialize (IH c' Hs Hf Hhi) end. simpl in IH.
    destruct (c_bucketCount c + 1 <=? CONFIG.RATE_maxMsgs) eqn:E; zbool; simpl; [|lia].
    destruct ((lo <=? t) && (t <=? hi)); lia.
Qed.

(** C10: The fixed-window rate limiter: over any sequence of messages whose
    arrival times do not decrease, at most [2 * maxMsgs] messages are accepted
    in any interval of [windowMs] milliseconds. *)
Theorem rateLimit_window_bound c ts lo hi :
  0 <= c_bucketCount c -> nondecreasing ts -> hi - lo <= CONFIG.RATE_windowMs ->
  accepted_in lo hi (rate_run c ts) <= 2 * CONFIG.RATE_maxMsgs.
Proof.
  revert c. induction ts as [|t ts IH]; intros c Hc; [unfold accepted_in, CONFIG.RATE_maxMsgs; simpl; lia|].
  intros Hnd Hlen. destruct (Z.ltb_spec t lo) as [Hlt|Hge].
  - destruct Hnd as [Hts Hs]. cbn [rate_run]. unfold rateLimitOk. rewrite Z.gtb_ltb.
    destruct (Z.ltb_spec CONFIG.RATE_windowMs (t - c_bucketStart c)); rewrite accepted_in_cons;
      destruct (Z.leb_spec lo t); try lia; rewrite andb_false_r; simpl; apply IH; simpl; lia || done.
  - pose proof (accepted_two_buckets lo hi t c (t :: ts) Hnd) as Hb.
    assert (Hf : Forall (Z.le t) (t :: ts)) by (constructor; [lia|apply Hnd]).
    specialize (Hb Hf ltac:(lia)). unfold CONFIG.RATE_maxMsgs in *. lia.
Qed.

Lemma rateLimit_window_bound_witness :
  accepted_in 0 10000
    (rate_run (mkClient (js "a") (JStr (js "A")) 0 0 0 0 0) [0; 1; 5000; 10001; 10002]) <= 2400.
Proof.
  apply (rateLimit_window_bound _ [0; 1; 5000; 10001; 10002] 0 10000); simpl.
  - lia.
  - repeat (split || constructor); lia.
  - unfold CONFIG.RATE_windowMs. lia.
Defined.

(** ** State frequency *)

(** The accepted times of a sequence of state messages. *)
Fixpoint state_run (c : WSClient) (ts : list Z) : list Z :=
  match ts with
  | [] => []
  | t :: ts' =>
      let '(c', ok) := stateFreqOk c t in
      if (ok : bool) then t :: state_run c' ts' else state_run c' ts'
  end.

Fixpoint spaced (d last : Z) (ts : list Z) : Prop :=
  match ts with
  | [] => True
  | t :: ts' => last + d <= t /\ spaced d t ts'
  end.

(** Whatever the arrival times, accepted state messages of a connection
    are at least 38 ms apart (the code's 37.5 ms on an integral clock). *)
Theorem stateFreq_spacing c ts : spaced 38 (c_lastStateAt c) (state_run c ts).
Proof.
  revert c. induction ts as [|t ts IH]; intros c; [done|]. cbn [state_run]. unfold stateFreqOk.
  destruct (4 * CONFIG.STATE_HZ * (t - c_lastStateAt c) <? 3 * 1000) eqn:E; [apply IH|].
  zbool. unfold CONFIG.STATE_HZ in E. split; [lia|]. exact (IH (mkClient _ _ _ _ _ _ t)).
Qed.
