(* ===== verification/Game.v ===== *)
(** * Game logic ([game.ts])

    Joining, renaming, chatting, moving, respawning, and throwing snowballs
    with the server-side hit test. *)

From S2P Require Import Prelude JsMap JsNum JsString JsValue Async Config Protocol ServerUtils.
From S2P Require Import Storage World State.

Definition SHOT_DEDUP_MS : Z := 10000.

(** ** The hit test *)

Section HitTest.
Context `{JsMath}.
#[local] Open Scope num_scope.

(** The inner loop of the hit test: the first sampled time at which the
    snowball is inside the cylinder of the player at [ppos], unless it has gone
    below zero before. [fuel] counts the iterations left. *)
Fixpoint firstHit (origin v0 : Vec3) (dt : num) (ppos : Vec3) (i : Z) (fuel : nat) : option num :=
  match fuel with
  | O => None
  | S fuel' =>
      let t := num_of_Z i * dt in
      let pos := snowballPosAt origin v0 t in
      if vy pos <? num_of_Z 0 then None
      else if intersectsPlayerCylinder pos ppos then Some t
      else firstHit origin v0 dt ppos (i + 1)%Z fuel'
  end.

(** [T / steps] *)
Definition sim_dt : num :=
  CONFIG.snowballLifeSec / num_of_Z (Z.of_nat CONFIG.snowballSimSteps).

Definition hitTime (origin v0 ppos : Vec3) : option num :=
  firstHit origin v0 sim_dt ppos 0%Z (S CONFIG.snowballSimSteps).

Definition hit := (PlayerSnapshot vref * num)%type.

(** [if (!best || t < best.t) best = { victim: p, t }]. *)
Definition better (best : option hit) (p : PlayerSnapshot vref) (t : num) : option hit :=
  match best with
  | None => Some (p, t)
  | Some (_, t0) => if t <? t0 then Some (p, t) else best
  end.

(** The impulse [v0] (with a fixed upward component) gives its victim. *)
Definition knockback (v0 : Vec3) : Vec3 :=
  vec3Mul (vec3Normalize (mkVec3 (vx v0) CONFIG.knockUp (vz v0))) CONFIG.knockbackForce.

End HitTest.

(** Hit points after a hit, and the victim's updated snapshot. *)
Definition damaged (victim : PlayerSnapshot vref) : Z := Z.max 0 (ps_hp victim - CONFIG.damage).

Definition updatedVictim (victim : PlayerSnapshot vref) (now respawnAt : Z) : PlayerSnapshot vref :=
  let newHp := damaged victim in
  mkSnap (ps_id victim) (ps_name victim) (ps_pos victim) (ps_rotY victim) (ps_vel victim)
    newHp (ps_crouch victim)
    (if newHp =? 0 then Some respawnAt else Some (default 0 (ps_deadUntil victim)))
    now (ps_pingMs victim).

Section Game.
Context `{Runtime} `{JsMath} `{SqlDriver}.

Definition seenShotBefore (shotId : jsstr) : M World bool :=
  t ← now;
  exp ← gets (fun w => JMap.get shotId (seenShots w));
  match exp with
  | Some e =>
      if negb (e =? 0) && (e >? t) then mret true
      else modify (fun w => set_seenShots (JMap.set shotId (t + SHOT_DEDUP_MS) (seenShots w)) w);;
           mret false
  | None =>
      modify (fun w => set_seenShots (JMap.set shotId (t + SHOT_DEDUP_MS) (seenShots w)) w);;
      mret false
  end.

(** The timer that drops expired shot ids. *)
Definition sweepShots : M World unit :=
  t ← now;
  modify (fun w => set_seenShots (JMap.sweep (fun _ exp => exp <=? t) (seenShots w)) w).

(** [{ x: (Math.random() - 0.5) * 40, y: 0, z: (Math.random() - 0.5) * 40 }]. *)
Definition randomSpawn : M World Vec3 :=
  r1 ← random;
  r2 ← random;
  mret (mkVec3 ((r1 - num_dec 5 1) * num_of_Z 40)%num (num_of_Z 0)
               ((r2 - num_dec 5 1) * num_of_Z 40)%num).

Definition serverOnHello (name : jsval) : M World (PlayerSnapshot vref) :=
  t ← now;
  spawn ← randomSpawn;
  id ← randomUUID;
  clamped ← lift (clampName name);
  mret (mkSnap id (JStr clamped) (VVal spawn) (num_of_Z 0) (VVal vec_zero) 100 false (Some 0) t None).

Definition set_player (k : jsstr) (p : PlayerSnapshot vref) : M World unit :=
  modify (fun w => set_playersCache (JMap.set k p (playersCache w)) w).

Definition serverHandleRename (clientId : jsstr) (newRawName : jsval) : M World unit :=
  newName ← lift (clampName newRawName);
  match newName with
  | [] => mret tt
  | _ =>
      prev ← gets (fun w => JMap.get clientId (playersCache w));
      (match prev with
       | Some p =>
           t ← now;
           set_player clientId (mkSnap (ps_id p) (JStr newName) (ps_pos p) (ps_rotY p) (ps_vel p)
             (ps_hp p) (ps_crouch p) (ps_deadUntil p) t (ps_pingMs p))
       | None => mret tt
       end);;
      awaiting (appendEventInMem (EvRename clientId newName));;
      mret tt
  end.

Definition serverHandleChat (clientId : jsstr) (name : jsval) (msg : jsval) : M World unit :=
  text ← lift (clampChat (prop_ok msg "text"));
  match text with
  | [] => mret tt
  | _ => awaiting (appendEventInMem (EvChat clientId name text));; mret tt
  end.

(** The server-side guard on positions. *)
Definition outOfMap (pos : Vec3) : bool :=
  ((nabs (vx pos) >? CONFIG.MAP_HALF + num_of_Z 5)
   || (nabs (vz pos) >? CONFIG.MAP_HALF + num_of_Z 5)
   || (nabs (vy pos) >? num_of_Z 5000))%num.

(** [typeof msg.pingMs === "number" ? msg.pingMs : prev]. *)
Definition pingOf (msg : jsval) (prev : option num) : option num :=
  match as_number (prop_ok msg "pingMs") with Some n => Some n | None => prev end.

Definition respawnPlayer (clientId : jsstr) (prev : PlayerSnapshot vref) (rotY : num)
    (t : Z) (msg : jsval) : M World unit :=
  spawn ← randomSpawn;
  let revived := mkSnap (ps_id prev) (ps_name prev) (VVal spawn) rotY (VVal vec_zero) 100 false
                   (Some 0) t (pingOf msg (ps_pingMs prev)) in
  set_player clientId revived;;
  awaiting (appendEventInMem (EvRespawn clientId (VVal spawn) 100));;
  enqueuePendingState (mkPending clientId (ps_pos revived) (ps_rotY revived) (ps_vel revived)
    (ps_crouch revived) (ps_updatedAt revived) None).

Definition movePlayer (clientId : jsstr) (name : jsval) (prev : option (PlayerSnapshot vref))
    (pos : Vec3) (rotY : num) (vel : Vec3) (crouch : bool) (t : Z) (msg : jsval) : M World unit :=
  let prevPing := match prev with Some p => ps_pingMs p | None => None end in
  let next := mkSnap clientId name (VVal pos) rotY (VVal vel)
                (match prev with Some p => ps_hp p | None => 100 end) crouch
                (Some (match prev with Some p => default 0 (ps_deadUntil p) | None => 0 end))
                t (pingOf msg prevPing) in
  set_player clientId next;;
  enqueuePendingState (mkPending clientId (ps_pos next) (ps_rotY next) (ps_vel next)
    (ps_crouch next) (ps_updatedAt next) (pingOf msg prevPing)).

Definition serverHandleState (clientId : jsstr) (name : jsval) (msg : jsval) : M World unit :=
  match isFiniteVec3 (prop_ok msg "pos"), prop_ok msg "rotY" with
  | Some pos, JNum rotY =>
      if negb (isFinite rotY) then mret tt
      else
        let vel := match isFiniteVec3 (prop_ok msg "vel") with Some v => v | None => vec_zero end in
        let crouch := truthy (prop_ok msg "crouch") in
        if outOfMap pos then mret tt
        else
          t ← now;
          prev ← gets (fun w => JMap.get clientId (playersCache w));
          match prev with
          | Some p =>
              if (ps_hp p <=? 0) && (default 0 (ps_deadUntil p) >? t) then mret tt
              else if (ps_hp p <=? 0) && (default 0 (ps_deadUntil p) <=? t)
              then respawnPlayer clientId p rotY t msg
              else movePlayer clientId name prev pos rotY vel crouch t msg
          | None => movePlayer clientId name None pos rotY vel crouch t msg
          end
  | _, _ => mret tt
  end.

(** [(p.hp ?? 100) <= 0 && (p.deadUntil ?? 0) > Date.now()]: the clock is read
    only for a player without hit points. *)
Definition frozenDead (p : PlayerSnapshot vref) : M World bool :=
  if ps_hp p <=? 0 then t ← now; mret (default 0 (ps_deadUntil p) >? t) else mret false.

(** The outer loop of the hit test over [Array.from(playersCache.values())]. *)
Fixpoint findVictim (shooter : jsstr) (origin v0 : Vec3) (players : list (PlayerSnapshot vref))
    (best : option hit) : M World (option hit) :=
  match players with
  | [] => mret best
  | p :: ps =>
      if str_eqb (ps_id p) shooter then findVictim shooter origin v0 ps best
      else
        frozen ← frozenDead p;
        if (frozen : bool) then findVictim shooter origin v0 ps best
        else
          ppos ← gets (fun w => deref w (ps_pos p));
          findVictim shooter origin v0 ps
            (match hitTime origin v0 ppos with Some t => better best p t | None => best end)
  end.

(** [recordKill({...})] on the world's database. *)
Definition runRecordKill (id : jsstr) (timestamp : Z) (attackerId : jsstr) (attackerName : jsval)
    (victimId : jsstr) (victimName : jsval) (shotId : jsstr) : M World KillRecord :=
  fun w =>
    let '(d, r) := recordKill id timestamp attackerId attackerName victimId victimName shotId (db w) in
    (set_db d w, match r with inl e => RThrow e | inr k => RDone k end).

Definition recordKillM (attackerId : jsstr) (attackerName : jsval) (victimId : jsstr)
    (victimName : jsval) (shotId : jsstr) : M World KillRecord :=
  id ← randomUUID;
  timestamp ← now;
  runRecordKill id timestamp attackerId attackerName victimId victimName shotId.

(** [attacker?.name || "Unknown"]. *)
Definition attackerNameOf (attacker : option (PlayerSnapshot vref)) : jsval :=
  match attacker with
  | Some a => if truthy (ps_name a) then ps_name a else JStr (js "Unknown")
  | None => JStr (js "Unknown")
  end.

Definition serverHandleSnowball (clientId : jsstr) (msg : jsval) : M World unit :=
  match isFiniteVec3 (prop_ok msg "dir") with
  | None => mret tt
  | Some d =>
      shotId ← match isUuidLike (prop_ok msg "id") with
               | Some s => mret s
               | None => randomUUID
               end;
      seen ← seenShotBefore shotId;
      if (seen : bool) then mret tt
      else
        snap ← gets (fun w => JMap.get clientId (playersCache w));
        match snap with
        | None => mret tt
        | Some snap =>
            let dir := norm d in
            p0 ← gets (fun w => deref w (ps_pos snap));
            let origin := mkVec3 (vx p0) (vy p0 + num_dec 13 1)%num (vz p0) in
            awaiting (appendEventInMem
              (EvSnowball shotId clientId (VVal origin) (VVal dir) CONFIG.snowballSpeed));;
            players ← gets (fun w => JMap.values (playersCache w));
            let v0 := vec3Mul dir CONFIG.snowballSpeed in
            best ← findVictim clientId origin v0 players None;
            match best with
            | None => mret tt
            | Some (victim, _) =>
                let finalImpulse := knockback v0 in
                t ← now;
                let respawnAt := t + CONFIG.respawnMs in
                let newHp := damaged victim in
                set_player (ps_id victim) (updatedVictim victim t respawnAt);;
                awaiting (appendEventInMem
                  (EvHit clientId (ps_id victim) (VVal finalImpulse) newHp shotId));;
                if newHp =? 0 then
                  attacker ← gets (fun w => JMap.get clientId (playersCache w));
                  let attackerName := attackerNameOf attacker in
                  recordKillM clientId attackerName (ps_id victim) (ps_name victim) shotId;;
                  awaiting (appendEventInMem
                    (EvDeath (ps_id victim) (ps_name victim) clientId attackerName shotId respawnAt));;
                  mret tt
                else mret tt
            end
        end
  end.

End Game.
