(* ===== verification/HitTest.v ===== *)
(** * The hit test of the server

    [serverHandleSnowball] and [botShoot] sample the trajectory at 61 instants
    and pick the player hit first.  The theorems relate the two loops to their
    specification: the first sample inside the cylinder before the snowball
    goes below zero, and the earliest such player in table order. *)

From S2P Require Import Prelude JsMap JsNum JsString JsValue Async Config Protocol ServerUtils.
From S2P Require Import Storage World Concrete State Game.

Section HitTest.
Context `{Runtime} `{JsMath}.

(** The [i]-th sampled instant and position. *)
Definition sample_time (i : Z) : num := (num_of_Z i * sim_dt)%num.
Definition sample (origin v0 : Vec3) (i : Z) : Vec3 := snowballPosAt origin v0 (sample_time i).

(** Sample [i] is not below zero. *)
Definition above (origin v0 : Vec3) (i : Z) : bool :=
  negb (nltb (vy (sample origin v0 i)) (num_of_Z 0)).

Lemma firstHit_spec origin v0 ppos fuel i :
  match firstHit origin v0 sim_dt ppos i fuel with
  | Some t =>
      exists n, i <= n < i + Z.of_nat fuel /\ t = sample_time n /\
        intersectsPlayerCylinder (sample origin v0 n) ppos = true /\
        (forall j, i <= j <= n -> above origin v0 j = true) /\
        (forall j, i <= j < n -> intersectsPlayerCylinder (sample origin v0 j) ppos = false)
  | None =>
      forall n, i <= n < i + Z.of_nat fuel ->
        (forall j, i <= j <= n -> above origin v0 j = true) ->
        intersectsPlayerCylinder (sample origin v0 n) ppos = false
  end.
Proof.
  revert i. induction fuel as [|fuel IH]; intros i; cbn [firstHit]; [lia|].
  fold (sample_time i) (sample origin v0 i).
  destruct (nltb (vy (sample origin v0 i)) (num_of_Z 0)) eqn:Ey.
  { intros n Hn Ha. specialize (Ha i ltac:(lia)). unfold above in Ha. by rewrite Ey in Ha. }
  destruct (intersectsPlayerCylinder (sample origin v0 i) ppos) eqn:Ei.
  { exists i. repeat split; try lia; try done.
    intros j Hj. replace j with i by lia. unfold above. by rewrite Ey. }
  specialize (IH (i + 1)). destruct (firstHit origin v0 sim_dt ppos (i + 1) fuel) as [t|].
  - destruct IH as (n & Hn & -> & Hin & Hab & Hno). exists n.
    repeat split; try lia; try done.
    + intros j Hj. destruct (Z.eq_dec j i) as [->|]; [unfold above; by rewrite Ey|].
      apply Hab. lia.
    + intros j Hj. destruct (Z.eq_dec j i) as [->|]; [done|]. apply Hno. lia.
  - intros n Hn Ha. destruct (Z.eq_dec n i) as [->|]; [done|].
    apply IH; [lia|]. intros j Hj. apply Ha. lia.
Qed.

(** C9: The sampled hit test of one player: a time is reported exactly when
    one of the 61 samples is inside the player's cylinder and no sample up to
    it is below zero, and it is the time of the first such sample. *)
Theorem hitTime_spec origin v0 ppos t :
  hitTime origin v0 ppos = Some t <->
  exists n, 0 <= n <= 60 /\ t = sample_time n /\
    intersectsPlayerCylinder (sample origin v0 n) ppos = true /\
    (forall j, 0 <= j <= n -> above origin v0 j = true) /\
    (forall j, 0 <= j < n -> intersectsPlayerCylinder (sample origin v0 j) ppos = false).
Proof.
  unfold hitTime. pose proof (firstHit_spec origin v0 ppos (S CONFIG.snowballSimSteps) 0) as Hs.
  change (Z.of_nat (S CONFIG.snowballSimSteps)) with 61 in Hs. split.
  - intros Ht. rewrite Ht in Hs. destruct Hs as (n & Hn & Hs). exists n. split; [lia|exact Hs].
  - intros (n & Hn & -> & Hin & Hab & Hno).
    destruct (firstHit _ _ _ _ _ _) as [t'|].
    + destruct Hs as (n' & Hn' & -> & Hin' & Hab' & Hno'). do 2 f_equal.
      destruct (Z.lt_trichotomy n n') as [Hlt|[->|Hlt]]; [|done|].
      * specialize (Hno' n ltac:(lia)). congruence.
      * specialize (Hno n' ltac:(lia)). congruence.
    + specialize (Hs n ltac:(lia) Hab). congruence.
Qed.

(** Sampled times are proper numbers. *)
Lemma sample_time_notNaN n : 0 <= n <= 60 -> isNaN (sample_time n) = false.
Proof.
  intros Hn.
  assert (Hall : forallb (fun i => negb (isNaN (sample_time i))) (seqZ 0 61) = true)
    by (vm_compute; done).
  rewrite forallb_forall in Hall. apply negb_true_iff, Hall, list_elem_of_In, elem_of_seqZ. lia.
Qed.

Lemma hitTime_notNaN origin v0 ppos t : hitTime origin v0 ppos = Some t -> isNaN t = false.
Proof.
  unfold hitTime. intros Ht.
  pose proof (firstHit_spec origin v0 ppos (S CONFIG.snowballSimSteps) 0) as Hs.
  rewrite Ht in Hs. destruct Hs as (n & Hn & -> & _). apply sample_time_notNaN.
  change (Z.of_nat (S CONFIG.snowballSimSteps)) with 61 in Hn. lia.
Qed.

(** ** The earliest victim *)

(** The players the shot may not ignore: not the shooter, with hit points. *)
Definition target_of (shooter : jsstr) (p : PlayerSnapshot vref) : Prop :=
  ps_id p <> shooter /\ 0 < ps_hp p.

Section Earliest.
Context (shooter : jsstr) (timeOf : PlayerSnapshot vref -> option num).
Context (timeOf_notNaN : forall p t, timeOf p = Some t -> isNaN t = false).

(** [best] is the earliest hit among [l]: strictly before every target that
    precedes it in the table and no later than any that follows. *)
Definition earliest (best : option hit) (l : list (PlayerSnapshot vref)) : Prop :=
  match best with
  | None => forall p, p ∈ l -> target_of shooter p -> timeOf p = None
  | Some (v, t) =>
      exists l1 l2, l = l1 ++ v :: l2 /\ ps_id v <> shooter /\ timeOf v = Some t /\
        (forall p t', p ∈ l1 -> target_of shooter p -> timeOf p = Some t' -> nltb t t' = true) /\
        (forall p t', p ∈ l2 -> target_of shooter p -> timeOf p = Some t' -> nleb t t' = true)
  end.

Lemma earliest_skip best l p :
  (target_of shooter p -> timeOf p = None) -> earliest best l -> earliest best (l ++ [p]).
Proof.
  intros Hp. destruct best as [[v t]|]; simpl.
  - intros (l1 & l2 & -> & Hv & Ht & H1 & H2). exists l1, (l2 ++ [p]).
    split; [by rewrite <- app_assoc|]. split; [done|]. split; [done|]. split; [done|].
    intros q t' [Hq| ->%list_elem_of_singleton]%elem_of_app Hq' Hqt; [by eapply H2|].
    rewrite Hp in Hqt; done.
  - intros Hl q [Hq| ->%list_elem_of_singleton]%elem_of_app Hq'; [exact (Hl q Hq Hq')|exact (Hp Hq')].
Qed.

Lemma earliest_better best l p t :
  ps_id p <> shooter -> timeOf p = Some t -> earliest best l ->
  earliest (better best p t) (l ++ [p]).
Proof.
  intros Hid Hpt Hl. pose proof (timeOf_notNaN _ _ Hpt) as Hnt.
  unfold better. destruct best as [[v t0]|].
  - destruct Hl as (l1 & l2 & -> & Hv & Ht0 & H1 & H2).
    pose proof (timeOf_notNaN _ _ Ht0) as Hn0.
    destruct (nltb t t0) eqn:E.
    + exists (l1 ++ v :: l2), []. split; [done|]. split; [done|]. split; [done|].
      split; [|by intros q t' []%elem_of_nil].
      intros q t' [Hq|[->|Hq]%elem_of_cons]%elem_of_app Hq' Hqt.
      * eapply nltb_trans; [exact E|by eapply H1].
      * congruence.
      * eapply nltb_le_trans; [exact E|by eapply H2].
    + exists l1, (l2 ++ [p]). split; [by rewrite <- app_assoc|]. split; [done|]. split; [done|].
      split; [done|]. intros q t' [Hq| ->%list_elem_of_singleton]%elem_of_app Hq' Hqt; [by eapply H2|].
      rewrite Hpt in Hqt. simplify_eq. rewrite nleb_nltb by done. by rewrite E.
  - exists l, []. split; [done|]. split; [done|]. split; [done|]. split.
    + intros q t' Hq Hq' Hqt. rewrite Hl in Hqt; done.
    + by intros q t' []%elem_of_nil.
Qed.

End Earliest.

(** The time at which player [p] would be hit in state [w]. *)
Definition timeIn (w : World) (origin v0 : Vec3) (p : PlayerSnapshot vref) : option num :=
  hitTime origin v0 (deref w (ps_pos p)).

(** The scan only reads the clock. *)
Lemma findVictim_earliest w shooter origin v0 players n best l0 :
  earliest shooter (timeIn w origin v0) best l0 ->
  exists n' o, findVictim shooter origin v0 players best (set_ticks n w) =
    (set_ticks n' w, RDone o) /\ earliest shooter (timeIn w origin v0) o (l0 ++ players).
Proof.
  assert (HN : forall p t, timeIn w origin v0 p = Some t -> isNaN t = false)
    by (intros p t; apply hitTime_notNaN).
  revert n best l0. induction players as [|p ps IH]; intros n best l0 Hb.
  { exists n, best. rewrite app_nil_r. done. }
  assert (Hnext : forall n best', earliest shooter (timeIn w origin v0) best' (l0 ++ [p]) ->
    exists n' o, findVictim shooter origin v0 ps best' (set_ticks n w) = (set_ticks n' w, RDone o)
      /\ earliest shooter (timeIn w origin v0) o (l0 ++ p :: ps)).
  { intros m best' Hb'. destruct (IH m best' _ Hb') as (n' & o & Hr & Ho).
    exists n', o. split; [done|]. by rewrite <- app_assoc in Ho. }
  cbn [findVictim]. unfold str_eqb. case_bool_decide as Eid.
  { apply Hnext, earliest_skip; [|done]. by intros []. }
  unfold frozenDead. destruct (ps_hp p <=? 0) eqn:Ehp.
  - cbv [mbind M_bind now mret M_ret bindr gets]. simpl.
    assert (Hskip : ~ target_of shooter p) by (intros [_ ?]; zbool; lia).
    destruct (default 0 (ps_deadUntil p) >? date_now n).
    + apply (Hnext (S n)), earliest_skip; [|done]. tauto.
    + apply (Hnext (S n)). change (deref _ (ps_pos p)) with (deref w (ps_pos p)).
      fold (timeIn w origin v0 p). destruct (timeIn w origin v0 p) as [t|] eqn:Et; [by apply earliest_better|].
      by apply earliest_skip.
  - cbv [mbind M_bind mret M_ret bindr gets]. apply Hnext.
    change (deref _ (ps_pos p)) with (deref w (ps_pos p)).
    fold (timeIn w origin v0 p). destruct (timeIn w origin v0 p) as [t|] eqn:Et; [by apply earliest_better|].
    by apply earliest_skip.
Qed.


(** A player the scan may hit: with hit points, or past the respawn time at a
    reading of the clock during the scan. *)
Definition hittable (n : nat) (p : PlayerSnapshot vref) : Prop :=
  0 < ps_hp p \/ exists i, (n <= i)%nat /\ default 0 (ps_deadUntil p) <= date_now i.

Lemma findVictim_hittable shooter origin v0 players w best n0 :
  (n0 <= ticks w)%nat ->
  (forall v t, best = Some (v, t) -> hittable n0 v) ->
  let '(w', r) := findVictim shooter origin v0 players best w in
  forall o v t, r = RDone o -> o = Some (v, t) -> hittable n0 v.
Proof.
  revert w best. induction players as [|p ps IH]; intros w best Hn Hb; cbn [findVictim].
  { intros o v t [= <-]. apply Hb. }
  destruct (str_eqb (ps_id p) shooter); [by apply IH|].
  assert (Hbetter : forall w', (n0 <= ticks w')%nat -> hittable n0 p ->
    let '(w'', r) := findVictim shooter origin v0 ps
      (match hitTime origin v0 (deref w' (ps_pos p)) with Some t => better best p t | None => best end) w'
    in forall o v t, r = RDone o -> o = Some (v, t) -> hittable n0 v).
  { intros w' Hn' Hp. apply IH; [done|]. intros v t.
    destruct (hitTime origin v0 (deref w' (ps_pos p))) as [th|]; [|apply Hb].
    unfold better. destruct best as [[v' t']|]; [destruct (nltb th t')|]; intros [= <- <-]; eauto. }
  unfold frozenDead. destruct (ps_hp p <=? 0) eqn:E; zbool.
  - cbv [mbind M_bind now mret M_ret bindr gets].
    destruct (default 0 (ps_deadUntil p) >? date_now (ticks w)) eqn:Ed; zbool.
    + apply IH; [simpl; lia|done].
    + apply Hbetter; [simpl; lia|]. right. exists (ticks w). done.
  - cbv [mbind M_bind mret M_ret bindr gets]. apply Hbetter; [done|]. left. lia.
Qed.


End HitTest.
