(* ===== verification/Bot.v ===== *)
(** * Bots ([bot.ts])

    Five computer players that wander over the terrain and throw a snowball at
    the nearest human every ten seconds. *)

From S2P Require Import Prelude JsMap JsNum JsString JsValue Async Config Protocol ServerUtils.
From S2P Require Import Storage World State Game.

Definition PI : num := S754_finite false 7074237752028440 (-51).

Definition SHOT_INTERVAL : Z := 10000.
Definition MOVE_INTERVAL : Z := 3000.
Definition BOT_SPEED : num := num_of_Z 3.
Definition CHRISTMAS_TREE_RADIUS : num := num_of_Z 25.

(** The two Chinese characters of "snowman", then [Bot-n]. *)
Definition BOT_NAMES : list jsstr :=
  map (fun n => 38634 :: 20154 :: js n) ["Bot-1"; "Bot-2"; "Bot-3"; "Bot-4"; "Bot-5"]%string.
Definition BOT_IDS : list jsstr :=
  map js ["bot-0"; "bot-1"; "bot-2"; "bot-3"; "bot-4"]%string.

Definition isBotId (id : jsstr) : bool := startsWith id (js "bot-").

Section Bot.
Context `{Runtime} `{JsMath} `{SqlDriver}.
#[local] Open Scope num_scope.

(** The height of the ground at [(x, z)]. *)
Definition terrainHeight (x z : num) : num :=
  let scale1 := num_dec 6 2 in
  let scale2 := num_dec 12 2 in
  let s := num_of_Z world_seed * num_dec 1 4 in
  let n1 := msin (x * scale1 + s * num_dec 1337 2) + mcos (z * scale1 - s * num_dec 721 2) in
  let n2 := msin ((x + num_of_Z 1000) * scale2 - s * num_dec 317 2)
            - mcos ((z - num_of_Z 500) * scale2 + s * num_dec 999 2) in
  let h := n1 * num_dec 7 1 + n2 * num_dec 3 1 in
  let sign := if h >=? num_of_Z 0 then num_of_Z 1 else num_of_Z (-1) in
  let h := sign * mpow (nabs h) (num_dec 18 1) * num_dec 25 1 in
  h + num_of_Z 6.

Definition dist2 (x z : num) : num := nsqrt (x * x + z * z).

(** [Math.max(-b, Math.min(b, x))]. *)
Definition within (b x : num) : num := clamp (- b) b x.

(** The [do ... while (attempts < 50)] loop of [getRandomSpawnPos]; [fuel] is
    the number of attempts left. *)
Fixpoint spawnLoop (fuel : nat) : M World (num * num) :=
  r1 ← random;
  r2 ← random;
  let x := (r1 - num_dec 5 1) * (CONFIG.MAP_HALF * num_dec 15 1) in
  let z := (r2 - num_dec 5 1) * (CONFIG.MAP_HALF * num_dec 15 1) in
  if dist2 x z >? CHRISTMAS_TREE_RADIUS then mret (x, z)
  else match fuel with
       | O => mret (x, z)
       | S fuel' => spawnLoop fuel'
       end.

Definition getRandomSpawnPos : M World Vec3 :=
  xz ← spawnLoop 49;
  let x := within CONFIG.MAP_HALF (fst xz) in
  let z := within CONFIG.MAP_HALF (snd xz) in
  mret (mkVec3 x (terrainHeight x z) z).

Definition safeZone : num := CONFIG.MAP_HALF - num_of_Z 40.

(** The random walk of [getRandomMoveTarget] inside the safe zone. *)
Fixpoint moveLoop (cur : Vec3) (fuel : nat) : M World (num * num) :=
  r1 ← random;
  r2 ← random;
  let angle := r1 * PI * num_of_Z 2 in
  let distance := num_of_Z 10 + r2 * num_of_Z 20 in
  let x := within safeZone (vx cur + mcos angle * distance) in
  let z := within safeZone (vz cur + msin angle * distance) in
  if dist2 x z >? CHRISTMAS_TREE_RADIUS then mret (x, z)
  else match fuel with
       | O => mret (x, z)
       | S fuel' => moveLoop cur fuel'
       end.

(** Outside the safe zone: head for the centre, sidestepping the tree. *)
Definition moveToCenter (cur : Vec3) : M World (num * num) :=
  let angleToCenter := matan2 (- vz cur) (- vx cur) in
  r ← random;
  let distance := num_of_Z 40 + r * num_of_Z 30 in
  let x := within safeZone (vx cur + mcos angleToCenter * distance) in
  let z := within safeZone (vz cur + msin angleToCenter * distance) in
  if dist2 x z <? CHRISTMAS_TREE_RADIUS then
    r' ← random;
    let offsetAngle := angleToCenter + (r' - num_dec 5 1) * PI / num_of_Z 2 in
    mret (within safeZone (vx cur + mcos offsetAngle * distance),
          within safeZone (vz cur + msin offsetAngle * distance))
  else mret (x, z).

Definition getRandomMoveTarget (cur : Vec3) : M World Vec3 :=
  let isOutsideSafeZone := (nabs (vx cur) >? safeZone) || (nabs (vz cur) >? safeZone) in
  xz ← (if isOutsideSafeZone then moveToCenter cur else moveLoop cur 19);
  mret (mkVec3 (fst xz) (terrainHeight (fst xz) (snd xz)) (snd xz)).

(** The loop of [findNearestPlayer]. *)
Fixpoint nearest (pos_of : PlayerSnapshot vref -> Vec3) (botPos : Vec3)
    (players : list (PlayerSnapshot vref)) (best : option (PlayerSnapshot vref)) (minDist : num)
    : option (PlayerSnapshot vref) :=
  match players with
  | [] => best
  | p :: ps =>
      if isBotId (ps_id p) then nearest pos_of botPos ps best minDist
      else if (ps_hp p <=? 0)%Z then nearest pos_of botPos ps best minDist
      else
        let dx := vx (pos_of p) - vx botPos in
        let dz := vz (pos_of p) - vz botPos in
        let dist := nsqrt (dx * dx + dz * dz) in
        if dist <? minDist then nearest pos_of botPos ps (Some p) dist
        else nearest pos_of botPos ps best minDist
  end.

Definition findNearestPlayer (botPos : Vec3) : M World (option (PlayerSnapshot vref)) :=
  gets (fun w => nearest (fun p => deref w (ps_pos p)) botPos (JMap.values (playersCache w))
                   None (S754_infinity false)).

(** The bot object with id [k]. *)
Definition with_bot (k : jsstr) (f : Bot -> M World unit) : M World unit :=
  ob ← gets (fun w => JMap.get k (bots w));
  match ob with Some b => f b | None => mret tt end.

Definition upd_bot (k : jsstr) (f : Bot -> Bot) : M World unit :=
  modify (fun w => match JMap.get k (bots w) with
                   | Some b => set_bots (JMap.set k (f b) (bots w)) w
                   | None => w
                   end).

Definition bot_rot (r : num) (b : Bot) : Bot :=
  mkBot (b_id b) (b_name b) (b_pos b) r (b_vel b) (b_hp b) (b_targetPos b) (b_lastShotAt b) (b_moveTimer b).
Definition bot_shot (t : num) (b : Bot) : Bot :=
  mkBot (b_id b) (b_name b) (b_pos b) (b_rotY b) (b_vel b) (b_hp b) (b_targetPos b) t (b_moveTimer b).
Definition bot_target (o : option Vec3) (b : Bot) : Bot :=
  mkBot (b_id b) (b_name b) (b_pos b) (b_rotY b) (b_vel b) (b_hp b) o (b_lastShotAt b) (b_moveTimer b).
Definition bot_timer (t : Z) (b : Bot) : Bot :=
  mkBot (b_id b) (b_name b) (b_pos b) (b_rotY b) (b_vel b) (b_hp b) (b_targetPos b) (b_lastShotAt b) t.

(** The object a bot's field refers to. *)
Definition load_vec (a : nat) : M World Vec3 := gets (fun w => deref w (VRef a)).

Definition initBot (id name : jsstr) : M World unit :=
  spawn ← getRandomSpawnPos;
  pos ← alloc_vec spawn;
  r ← random;
  vel ← alloc_vec vec_zero;
  t1 ← now;
  r' ← random;
  t2 ← now;
  let bot := mkBot id name pos (r * PI * num_of_Z 2) vel 100 None
               (num_of_Z t1 + r' * num_of_Z SHOT_INTERVAL) t2 in
  modify (fun w => set_bots (JMap.set id bot (bots w)) w);;
  t3 ← now;
  set_player id (mkSnap id (JStr name) (VRef pos) (b_rotY bot) (VRef vel) (b_hp bot) false
    (Some 0%Z) t3 None).

Definition initBots : M World unit :=
  for_each (combine BOT_IDS BOT_NAMES) (fun e => initBot (fst e) (snd e)).

(** [botShoot(bot, target)]. *)
Definition botShoot (k : jsstr) (target : PlayerSnapshot vref) : M World unit :=
  with_bot k (fun bot =>
    tp ← gets (fun w => deref w (ps_pos target));
    bp ← load_vec (b_pos bot);
    let dx := vx tp - vx bp in
    let dy := (vy tp + num_of_Z 1) - (vy bp + num_dec 13 1) in
    let dz := vz tp - vz bp in
    let dir := norm (mkVec3 dx dy dz) in
    let origin := mkVec3 (vx bp) (vy bp + num_dec 13 1) (vz bp) in
    shotId ← randomUUID;
    awaiting (appendEventInMem (EvSnowball shotId k (VVal origin) (VVal dir) CONFIG.snowballSpeed));;
    players ← gets (fun w => JMap.values (playersCache w));
    let v0 := vec3Mul dir CONFIG.snowballSpeed in
    best ← findVictim k origin v0 players None;
    match best with
    | None => t ← now; upd_bot k (bot_shot (num_of_Z t))
    | Some (victim, _) =>
        let finalImpulse := knockback v0 in
        t ← now;
        let respawnAt := (t + CONFIG.respawnMs)%Z in
        let newHp := damaged victim in
        set_player (ps_id victim) (updatedVictim victim t respawnAt);;
        awaiting (appendEventInMem (EvHit k (ps_id victim) (VVal finalImpulse) newHp shotId));;
        (if (newHp =? 0)%Z then
           awaiting (appendEventInMem
             (EvDeath (ps_id victim) (ps_name victim) k (JStr (b_name bot)) shotId respawnAt));;
           mret tt
         else mret tt);;
        upd_bot k (bot_shot (num_of_Z t))
    end).

(** The respawn branch of [updateBots]. *)
Definition respawnBot (k : jsstr) (snapshot : PlayerSnapshot vref) (t : Z) : M World unit :=
  spawn ← getRandomSpawnPos;
  pos ← alloc_vec spawn;
  vel ← alloc_vec vec_zero;
  upd_bot k (fun b => mkBot (b_id b) (b_name b) pos (b_rotY b) vel 100 None (b_lastShotAt b) (b_moveTimer b));;
  set_player k (mkSnap (ps_id snapshot) (ps_name snapshot) (VRef pos) (ps_rotY snapshot)
    (ps_vel snapshot) 100 (ps_crouch snapshot) (Some 0%Z) t (ps_pingMs snapshot));;
  awaiting (appendEventInMem (EvRespawn k (VRef pos) 100));;
  mret tt.

(** Choosing a target and moving towards it. *)
Definition stepBot (k : jsstr) (t : Z) : M World unit :=
  with_bot k (fun bot =>
    let stale := match b_targetPos bot with None => true | Some _ => false end in
    (if stale || (t - b_moveTimer bot >? MOVE_INTERVAL)%Z then
       cur ← load_vec (b_pos bot);
       target ← getRandomMoveTarget cur;
       upd_bot k (bot_target (Some target));;
       upd_bot k (bot_timer t)
     else mret tt));;
  with_bot k (fun bot =>
    match b_targetPos bot with
    | None => mret tt
    | Some target =>
        p ← load_vec (b_pos bot);
        v ← load_vec (b_vel bot);
        let dx := vx target - vx p in
        let dz := vz target - vz p in
        let dist := nsqrt (dx * dx + dz * dz) in
        if dist >? num_dec 5 1 then
          let velx := dx / dist * BOT_SPEED in
          let velz := dz / dist * BOT_SPEED in
          store_vec (b_vel bot) (mkVec3 velx (vy v) velz);;
          upd_bot k (bot_rot (matan2 dx dz));;
          let dt := num_dec 5 2 in
          let x := within CONFIG.MAP_HALF (vx p + velx * dt) in
          let z := within CONFIG.MAP_HALF (vz p + velz * dt) in
          store_vec (b_pos bot) (mkVec3 x (terrainHeight x z) z)
        else
          store_vec (b_vel bot) (mkVec3 (num_of_Z 0) (vy v) (num_of_Z 0));;
          upd_bot k (bot_target None)
    end).

(** The timed shot. *)
Definition shootBot (k : jsstr) (t : Z) : M World unit :=
  with_bot k (fun bot =>
    if num_of_Z t - b_lastShotAt bot >? num_of_Z SHOT_INTERVAL then
      p ← load_vec (b_pos bot);
      target ← findNearestPlayer p;
      match target with
      | Some tg =>
          tp ← gets (fun w => deref w (ps_pos tg));
          upd_bot k (bot_rot (matan2 (vx tp - vx p) (vz tp - vz p)));;
          awaiting (botShoot k tg)
      | None => upd_bot k (bot_shot (num_of_Z t))
      end
    else mret tt).

(** The body of the loop of [updateBots]: [snapshot] is read first and spread
    into the new snapshot at the end, after a possible suspension. *)
Definition updateBot (t : Z) (k : jsstr) : M World unit :=
  osnap ← gets (fun w => JMap.get k (playersCache w));
  match osnap with
  | None => mret tt
  | Some snapshot =>
      if (ps_hp snapshot <=? 0)%Z && (default 0%Z (ps_deadUntil snapshot) <=? t)%Z
      then respawnBot k snapshot t
      else if (ps_hp snapshot <=? 0)%Z then mret tt
      else
        stepBot k t;;
        shootBot k t;;
        with_bot k (fun bot =>
          set_player k (mkSnap (ps_id snapshot) (ps_name snapshot) (VRef (b_pos bot)) (b_rotY bot)
            (VRef (b_vel bot)) (ps_hp snapshot) (ps_crouch snapshot) (ps_deadUntil snapshot) t
            (ps_pingMs snapshot));;
          enqueuePendingState (mkPending k (VRef (b_pos bot)) (b_rotY bot) (VRef (b_vel bot))
            false t None))
  end.

Definition updateBots : M World unit :=
  t ← now;
  ks ← gets (fun w => JMap.keys (bots w));
  for_each ks (updateBot t).

End Bot.
