(* ===== verification/BotMath.v ===== *)
(** * The arithmetic of the bots

    Bounds on what [bot.ts] computes: the height of the ground, spawn points,
    targets and velocities.  They rest on what the platform promises of
    [Math.random], the trigonometric functions and the seed. *)

From Stdlib Require Import QArith Lqa.
From S2P Require Import Prelude JsMap JsNum Rounding JsString Async Config Protocol ServerUtils.
From S2P Require Import Storage World Bot.
#[local] Open Scope Z_scope.

(** ** Directions *)

Lemma nmul_square_ge c x :
  fin c = true -> fin x = true -> (fval c * fval c <= fval x * fval x)%Q -> nleb (c * c)%num (x * x)%num = true.
Proof. intros Fc Fx Hle. eapply rnd_mono; [exact Hle|by apply nmul_RN|by apply nmul_RN]. Qed.

Lemma square_range x : between (- num_of_Z 380) (num_of_Z 380) x -> between nzero (num_of_Z 144400) (x * x)%num.
Proof.
  intros Hx. pose proof (between_fin _ _ _ Hx) as Fx.
  pose proof (between_val (- num_of_Z 380) (num_of_Z 380) x eq_refl eq_refl Hx) as [H1 H2]. rewrite fval_opp in H1.
  pose proof (nmul_RN (num_of_Z 380) (num_of_Z 380) eq_refl eq_refl) as R. pose proof (nmul_RN x x Fx Fx) as Rx.
  assert (B : between nzero (num_of_Z 380 * num_of_Z 380)%num (x * x)%num).
  { set (c := fval (num_of_Z 380)) in *. set (y := fval x) in *.
    eapply (rnd_between 0 (y * y) (c * c)); [nra|nra|apply (rnd_zero false)|exact Rx|exact R|done|done]. }
  eapply between_weaken; [exact B|evaluate..].
Qed.

(** The sum of two squares, one of which is at least 900. *)
Lemma sum_big a b :
  between nzero (num_of_Z 144400) a -> between nzero (num_of_Z 144400) b ->
  nleb (num_of_Z 900) a = true \/ nleb (num_of_Z 900) b = true -> nleb (num_of_Z 900) (a + b)%num = true.
Proof.
  intros Ha Hb Hor. pose proof (between_val nzero (num_of_Z 144400) a eq_refl eq_refl Ha) as [A1 _].
  pose proof (between_val nzero (num_of_Z 144400) b eq_refl eq_refl Hb) as [B1 _]. cbn [fval nzero] in A1, B1.
  pose proof (between_fin _ _ _ Ha) as Fa. pose proof (between_fin _ _ _ Hb) as Fb.
  eapply rnd_mono; [|by apply rnd_val|by apply nadd_RN].
  destruct Hor as [L|L]; apply nleb_val in L; try done; lra.
Qed.

(** One component of the velocity: [side] over the distance, times the speed. *)
Lemma velocity_range side a b :
  between (- num_of_Z 380) (num_of_Z 380) side ->
  between nzero (num_of_Z 144400) a -> between nzero (num_of_Z 144400) b ->
  a = (side * side)%num \/ b = (side * side)%num ->
  (nsqrt (a + b) >? num_dec 5 1)%num = true ->
  between (- CONFIG.MAP_HALF) CONFIG.MAP_HALF (side / nsqrt (a + b) * BOT_SPEED)%num.
Proof.
  intros Hs Ha Hb Hor Hd. pose proof (between_fin _ _ _ Hs) as Fs.
  assert (Hsum : between nzero (num_of_Z 288800) (a + b)%num) by bounds. pose proof (between_fin _ _ _ Hsum) as Fsum.
  pose proof (between_val nzero (num_of_Z 288800) _ eq_refl eq_refl Hsum) as [S1 S2].
  assert (Hroot : between nzero (num_of_Z 2000) (nsqrt (a + b))).
  { apply between_sqrt; [done..| | |]; [by vm_compute|by vm_compute|]. change (fval nzero) with 0%Q in *.
    assert (E1 : (4 * fval (num_of_Z 288800) <= fval (num_of_Z 2000) * fval (num_of_Z 2000))%Q) by (by vm_compute).
    split; [lra|]. set (x := fval (num_of_Z 288800)) in *. set (y := fval (num_of_Z 2000)) in *. nra. }
  pose proof (between_fin _ _ _ Hroot) as Fr. apply below_le in Hd.
  assert (Fast : forall c lo, fin c = true -> fin lo = true -> nltb nzero lo = true -> between (- c) c side ->
    nleb lo (nsqrt (a + b)) = true -> isFinite (- c / lo)%num = true -> isFinite (c / lo)%num = true ->
    nleb (- num_of_Z 60) (- c / lo)%num = true -> nleb (c / lo)%num (num_of_Z 60) = true ->
    between (- num_of_Z 60) (num_of_Z 60) (side / nsqrt (a + b))%num).
  { intros c lo Fc Fl Pl Hx Hle F1 F2 L1 L2. eapply between_weaken; [|exact L1|exact L2].
    apply between_div_above; auto. }
  assert (Hq : between (- num_of_Z 60) (num_of_Z 60) (side / nsqrt (a + b))%num); [|revert Hq; generalize (side / nsqrt (a + b))%num; clear; intros q Hq; bounds].
  pose proof (between_val (- num_of_Z 380) (num_of_Z 380) side eq_refl eq_refl Hs) as [V1 V2].
  destruct (Qlt_le_dec (fval side * fval side) (fval (num_of_Z 30) * fval (num_of_Z 30))) as [Hlt|Hge].
  - apply (Fast (num_of_Z 30) (num_dec 5 1)); [evaluate|evaluate|evaluate| |exact Hd|evaluate..].
    assert (P : (0 < fval (num_of_Z 30))%Q) by (by vm_compute).
    split; [done|]. split; apply nleb_val; try done; rewrite ?fval_opp; set (c := fval (num_of_Z 30)) in *; nra.
  - assert (B : nleb (num_of_Z 900) (a + b)%num = true).
    { apply sum_big; [done|done|]. apply nmul_square_ge in Hge; [|done|done].
      destruct Hor as [->| ->]; [left|right]; (eapply nleb_trans; [|exact Hge]); evaluate. }
    apply nleb_val in B; [|done|done]. apply (Fast (num_of_Z 380) (num_of_Z 15)); [evaluate|evaluate|evaluate|exact Hs| |evaluate..].
    apply (between_sqrt (num_of_Z 15) (num_of_Z 2000) (a + b)%num); [exact Fsum|evaluate|evaluate|by vm_compute|by vm_compute|].
    assert (E1 : (4 * fval (num_of_Z 288800) <= fval (num_of_Z 2000) * fval (num_of_Z 2000))%Q) by (by vm_compute).
    assert (E2 : (4 * (fval (num_of_Z 15) * fval (num_of_Z 15)) <= fval (num_of_Z 900))%Q) by (by vm_compute).
    split; [eapply Qle_trans; [exact E2|exact B]|]. eapply Qle_trans; [|exact E1].
    set (x := fval (num_of_Z 288800)) in *. lra.
Qed.

(** ** What the platform promises *)

Section Platform.
Context `{Runtime} `{JsMath}.

(** [Math.random()] is in the unit interval, sine and cosine are at most one,
    [Math.atan2] is at most pi, [Math.pow] with exponent 1.8 at most 8 on
    numbers up to 3, and the seed is a [Uint32]. *)
Record platform_ok : Prop := {
  random_unit : forall i, between nzero (num_of_Z 1) (math_random i);
  sin_range : forall x, fin x = true -> between (- num_of_Z 1) (num_of_Z 1) (msin x);
  cos_range : forall x, fin x = true -> between (- num_of_Z 1) (num_of_Z 1) (mcos x);
  atan2_range : forall y x, fin y = true -> fin x = true -> between (- PI) PI (matan2 y x);
  pow_range : forall x, between nzero (num_of_Z 3) x -> between nzero (num_of_Z 8) (mpow x (num_dec 18 1));
  seed_range : 0 <= world_seed < 2 ^ 32;
}.
Context (OK : platform_ok).

(** A coordinate on the map, and a vector of a bot: a position on the map and
    near the ground, or a velocity. *)
Definition in_map (x : num) : Prop := between (- CONFIG.MAP_HALF) CONFIG.MAP_HALF x.
Definition cell_ok (v : Vec3) : Prop := in_map (vx v) /\ in_map (vz v) /\ between (- num_of_Z 30) (num_of_Z 30) (vy v).

Lemma terrain_range x z : in_map x -> in_map z -> between (- num_of_Z 30) (num_of_Z 30) (Bot.terrainHeight x z).
Proof.
  intros Hx Hz. unfold in_map in *. unfold Bot.terrainHeight. cbv zeta.
  assert (Hw : between nzero (num_of_Z (2 ^ 32)) (num_of_Z world_seed)).
  { apply (between_of_Z 0 (2 ^ 32)); [pose proof (seed_range OK); lia|evaluate|evaluate]. }
  set (w := num_of_Z world_seed) in *. clearbody w.
  assert (Hs : between nzero (num_of_Z 429497) (w * num_dec 1 4)%num) by bounds.
  set (s := (w * num_dec 1 4)%num) in *. clearbody s.
  match goal with |- context [(msin ?a + mcos ?b)%num] =>
    assert (A : fin a = true) by (eapply between_fin; between_rule);
    assert (B : fin b = true) by (eapply between_fin; between_rule);
    apply (sin_range OK) in A; apply (cos_range OK) in B;
    revert A B; generalize (msin a), (mcos b); intros s1 c1 Hs1 Hc1 end.
  match goal with |- context [(msin ?a - mcos ?b)%num] =>
    assert (A : fin a = true) by (eapply between_fin; between_rule);
    assert (B : fin b = true) by (eapply between_fin; between_rule);
    apply (sin_range OK) in A; apply (cos_range OK) in B;
    revert A B; generalize (msin a), (mcos b); intros s2 c2 Hs2 Hc2 end.
  assert (Hh : between (- num_of_Z 3) (num_of_Z 3) ((s1 + c1) * num_dec 7 1 + (s2 - c2) * num_dec 3 1)%num) by bounds.
  set (h := (_ + (s2 - c2) * _)%num) in *. clearbody h.
  assert (Hp : between nzero (num_of_Z 8) (mpow (nabs h) (num_dec 18 1))).
  { apply (pow_range OK). by apply between_abs. }
  set (p := mpow _ _) in *. clearbody p.
  assert (Hsp : between (- num_of_Z 8) (num_of_Z 8) ((if (h >=? num_of_Z 0)%num then num_of_Z 1 else num_of_Z (-1)) * p)%num).
  { eapply between_weaken; [apply (between_mul_abs (num_of_Z 1) (num_of_Z 8)); [done|done| | |evaluate|evaluate]|evaluate..].
    - destruct (_ >=? _)%num; split; try done; split; evaluate.
    - eapply between_weaken; [exact Hp|evaluate..]. }
  set (q := (_ * p)%num) in *. clearbody q. bounds.
Qed.

Lemma within_in_map b x : fin b = true -> nleb (- b) b = true -> nleb b CONFIG.MAP_HALF = true ->
  nleb (- CONFIG.MAP_HALF) (- b) = true -> fin x = true -> in_map (within b x).
Proof.
  intros Fb Hb H1 H2 Fx. eapply between_weaken; [apply between_clamp; [by rewrite fin_opp|done|done|done]|done|done].
Qed.

(** A step of at most 70 in some direction. *)
Lemma stride_fin x u d :
  in_map x -> between (- num_of_Z 1) (num_of_Z 1) u -> between nzero (num_of_Z 70) d -> fin (x + u * d)%num = true.
Proof.
  intros Hx Hu Hd. assert (Hud : between (- num_of_Z 70) (num_of_Z 70) (u * d)%num).
  { eapply between_weaken; [apply (between_mul_abs (num_of_Z 1) (num_of_Z 70)); [done|done|done| |evaluate|evaluate]|evaluate..].
    eapply between_weaken; [exact Hd|evaluate..]. }
  unfold in_map in *. set (p := (u * d)%num) in *. clearbody p. eapply between_fin. between_rule.
Qed.

Lemma safe_in_map x : fin x = true -> in_map (within safeZone x).
Proof. apply within_in_map; evaluate. Qed.
Lemma edge_in_map x : fin x = true -> in_map (within CONFIG.MAP_HALF x).
Proof. apply within_in_map; evaluate. Qed.

End Platform.
