(* ===== verification/Ws.v ===== *)
(** * The WebSocket gateway ([ws.ts]) and the server as a whole

    [handleWs] with its three callbacks, and [server_handler]: everything the
    event loop can be asked to run. *)

From S2P Require Import Prelude JsMap JsNum JsString JsValue Wire Async Config Protocol ServerUtils.
From S2P Require Import Storage World State Game Bot.

(** What a socket delivers. *)
Inductive WsData := Text (s : jsstr) | Binary.

(** [a === b] *)
Definition strict_eqb (a b : jsval) : bool :=
  match a, b with
  | JUndef, JUndef | JNull, JNull => true
  | JBool x, JBool y => Bool.eqb x y
  | JNum x, JNum y => neqb x y
  | JStr x, JStr y => str_eqb x y
  | _, _ => false
  end.

(** "this user name is already online, use another one or try again later" *)
Definition duplicate_name_message : jsstr :=
  [35813; 29992; 25143; 21517; 24050; 22312; 32447; 65292; 35831; 20351; 29992; 20854; 20182;
   21517; 31216; 25110; 31245; 21518; 20877; 35797].

Section Ws.
Context `{Runtime} `{JsMath} `{SqlDriver}.

(** [wsSend(ws, msg)] without [await]: the message is serialised now and sent
    when its encryption completes. *)
Definition wsSend (sid : nat) (msg : ServerMsg vref) : M World unit :=
  modify (fun w => set_outbox (outbox w ++ [(sid, freeze w msg)]) w).

(** [await wsSend(ws, msg)]. *)
Definition wsSendAwait (sid : nat) (msg : ServerMsg vref) : M World unit :=
  encrypted ← gets (fun w => freeze w msg);
  await;;
  ws_send sid encrypted;;
  await.

(** The completion of the [i]-th pending [wsSend]. *)
Definition deliver (i : nat) : M World unit :=
  job ← gets (fun w => outbox w !! i);
  match job with
  | Some (sid, m) =>
      modify (fun w => set_outbox (base.delete i (outbox w)) w);;
      ws_send sid m
  | None => mret tt
  end.

Definition sock_close (sid : nat) : M World unit :=
  modify (upd_sock sid (fun s => mkSock (match s_ready s with OPEN => CLOSING | r => r end)
    (s_buffered s) (s_sent s) (s_client s) (s_helloTimer s))).

Definition clearHelloTimer (sid : nat) : M World unit :=
  modify (upd_sock sid (fun s => mkSock (s_ready s) (s_buffered s) (s_sent s) (s_client s) false)).

(** [handleWs(req)]: accept a socket and arm its hello timeout. *)
Definition handleWs : M World unit :=
  startStateSyncOnce;;
  startStateTickOnce;;
  modify (fun w => set_sockets (sockets w ++ [mkSock OPEN 0 [] None true]) w).

(** The hello timeout. *)
Definition helloTimeout (sid : nat) : M World unit :=
  os ← gets (fun w => sockets w !! sid);
  match os with
  | Some s => if s_helloTimer s then clearHelloTimer sid;; sock_close sid else mret tt
  | None => mret tt
  end.

(** Is a client with the name [n] connected? *)
Definition nameTaken (n : jsval) (w : World) : bool :=
  existsb (fun a => match wsClients w !! a with Some c => strict_eqb (c_name c) n | None => false end)
    (JMap.values (clients w)).

(** The registration of a new client: allocate the [WSClient], store it in the
    closure, in [clients], and its snapshot in [playersCache]. *)
Definition registerClient (sid : nat) (snap : PlayerSnapshot vref) (t : Z) : M World unit :=
  addr ← gets (fun w => length (wsClients w));
  modify (fun w => set_wsClients (wsClients w ++
    [mkClient (ps_id snap) (ps_name snap) sid t t 0 0]) w);;
  modify (upd_sock sid (fun s => mkSock (s_ready s) (s_buffered s) (s_sent s) (Some addr)
    (s_helloTimer s)));;
  modify (fun w => set_clients (JMap.set (ps_id snap) addr (clients w)) w);;
  set_player (ps_id snap) snap.

(** The object the closure variable [client] refers to at this moment. *)
Definition closureClient (sid : nat) (w : World) : option WSClient :=
  match sockets w !! sid with
  | Some s => match s_client s with Some a => wsClients w !! a | None => None end
  | None => None
  end.

Definition onHello (sid : nat) (msg : jsval) (t : Z) : M World unit :=
  clearHelloTimer sid;;
  taken ← gets (nameTaken (prop_ok msg "name"));
  if negb CONFIG.ALLOW_DUPLICATE_NAMES && taken then
    wsSendAwait sid (SError duplicate_name_message);;
    sock_close sid
  else
    snap ← awaiting (serverOnHello (prop_ok msg "name"));
    registerClient sid snap t;;
    awaiting (appendEventInMem (EvJoin snap));;
    ocl ← gets (closureClient sid);
    wsSend sid (SWelcome (match ocl with Some c => c_id c | None => ps_id snap end)
      CONFIG.WORLD t world_seed);;
    players ← gets (fun w => JMap.values (playersCache w));
    seq ← gets lastSeenSeq;
    wsSend sid (SSnapshot CONFIG.WORLD players seq).

Definition onPing (c : WSClient) : M World unit :=
  osnap ← gets (fun w => JMap.get (c_id c) (playersCache w));
  (match osnap with
   | Some p =>
       t ← now;
       set_player (c_id c) (mkSnap (ps_id p) (ps_name p) (ps_pos p) (ps_rotY p) (ps_vel p) (ps_hp p)
         (ps_crouch p) (ps_deadUntil p) t (ps_pingMs p))
   | None => mret tt
   end);;
  t ← now;
  wsSend (c_ws c) (SPong t).

(** The [switch (msg.t)] for the client object at [addr]. *)
Definition dispatch (addr : nat) (c : WSClient) (msg : jsval) (t : Z) : M World unit :=
  let tag := prop_ok msg "t" in
  if is_str tag "ping" then onPing c
  else if is_str tag "chat" then awaiting (serverHandleChat (c_id c) (c_name c) msg)
  else if is_str tag "state" then
    let '(c', ok) := stateFreqOk c t in
    modify (upd_client addr (fun _ => c'));;
    if (ok : bool) then awaiting (serverHandleState (c_id c) (c_name c) msg) else mret tt
  else if is_str tag "snowball" then awaiting (serverHandleSnowball (c_id c) msg)
  else if is_str tag "rename" then
    modify (upd_client addr (fun c => mkClient (c_id c) (prop_ok msg "name") (c_ws c)
      (c_connectedAt c) (c_bucketStart c) (c_bucketCount c) (c_lastStateAt c)));;
    awaiting (serverHandleRename (c_id c) (prop_ok msg "name"))
  else mret tt.

(** What happens to a decoded message. *)
Definition onDecoded (sid : nat) (msg : jsval) : M World unit :=
  t ← now;
  oaddr ← gets (fun w => match sockets w !! sid with Some s => s_client s | None => None end);
  match oaddr with
  | None => if is_str (prop_ok msg "t") "hello" then onHello sid msg t else mret tt
  | Some addr =>
      oc ← gets (fun w => wsClients w !! addr);
      match oc with
      | None => mret tt
      | Some c =>
          let '(c', ok) := rateLimitOk c t in
          modify (upd_client addr (fun _ => c'));;
          if negb ok then
            wsSend (c_ws c) (SError (js "rate limited"));;
            sock_close (c_ws c)
          else dispatch addr c' msg t
      end
  end.

(** [socket.onmessage]. *)
Definition onMessage (sid : nat) (data : WsData) : M World unit :=
  match data with
  | Binary => mret tt
  | Text s =>
      await;;
      match @Wire.Server.decodeClientWsMsg rt_crypto WS_AES_KEY_HEX s with
      | None => mret tt
      | Some msg => if truthy msg then onDecoded sid msg else mret tt
      end
  end.

(** [socket.onclose], once the runtime has closed the socket. *)
Definition onClose (sid : nat) : M World unit :=
  modify (upd_sock sid (fun s => mkSock CLOSED (s_buffered s) (s_sent s) (s_client s)
    (s_helloTimer s)));;
  clearHelloTimer sid;;
  oaddr ← gets (fun w => match sockets w !! sid with Some s => s_client s | None => None end);
  match oaddr with
  | None => mret tt
  | Some addr =>
      oc ← gets (fun w => wsClients w !! addr);
      match oc with
      | None => mret tt
      | Some c =>
          modify (fun w => set_clients (JMap.delete (c_id c) (clients w)) w);;
          awaiting (appendEventInMem (EvLeave (c_id c) (c_name c)));;
          mret tt
      end
  end.

(** ** The event loop *)

Inductive ServerEvent :=
| Connect
| Message (sid : nat) (data : WsData)
| Close (sid : nat)
| HelloTimer (sid : nat)
| Buffered (sid : nat) (bytes : Z)    (* the network drains or fills a socket *)
| Delivered (i : nat)                 (* a pending wsSend completes *)
| CleanupTimer
| ShotsTimer
| SyncTimer
| TickTimer
| BotTimer
| KillsTimer.

Definition killsCleanup : M World unit :=
  t ← now;
  modify (fun w => set_db (fst (cleanupOldKills t (db w))) w).

Definition server_handler (e : ServerEvent) : M World unit :=
  match e with
  | Connect => handleWs
  | Message sid data => onMessage sid data
  | Close sid => onClose sid
  | HelloTimer sid => helloTimeout sid
  | Buffered sid n =>
      modify (upd_sock sid (fun s => mkSock (s_ready s) n (s_sent s) (s_client s) (s_helloTimer s)))
  | Delivered i => deliver i
  | CleanupTimer => cleanupPlayers
  | ShotsTimer => sweepShots
  | SyncTimer => stateSyncTurn
  | TickTimer => stateTickTurn
  | BotTimer => updateBots
  | KillsTimer => killsCleanup
  end.

(** The state [main.ts] serves from: [initBots] has run. *)
Definition start_world : World := fst (initBots init_world).

Definition server_reachable : sys World -> Prop := reachable server_handler start_world.

End Ws.
