(* ===== verification/Main.v ===== *)
(** * The HTTP entry ([main.ts])

    The request handler of [Deno.serve]: health report, WebSocket upgrade,
    static files, authentication, statistics and the page.  The state is that
    of the game server and of the authentication module side by side; a
    handler that belongs to one of them runs on its part ([zoom]).

    The file system below the working directory is the class [Files]; the page
    and its origin are what [loadClientHtml] left. *)

From S2P Require Import Prelude JsMap JsNum JsString Codec JsValue Json JsConv Uri Async Config.
From S2P Require Import Storage World Auth State Ws.

(** [Deno.open(path)]: the content of a readable file. *)
Class Files := { open_file : jsstr -> option jsstr }.

Record Site := mkSite { site_world : World; site_auth : AuthState }.

Definition on_world {A} (m : M World A) : M Site A :=
  zoom site_world (fun w s => mkSite w (site_auth s)) m.
Definition on_auth {A} (m : M AuthState A) : M Site A :=
  zoom site_auth (fun a s => mkSite (site_world s) a) m.

(** ** Responses ([utils.ts]) *)

Definition CORS : jsstr := js "*".

Definition json (data : jsval) (status : Z) : Response :=
  mkResponse status
    [(js "content-type", js "application/json; charset=utf-8"); (js "access-control-allow-origin", CORS)]
    (stringify data).

Definition text (data : jsstr) (status : Z) : Response :=
  mkResponse status
    [(js "content-type", js "text/plain; charset=utf-8"); (js "access-control-allow-origin", CORS)] (Some data).

(** ** Static files *)

(** [s.toLowerCase()] as far as ASCII letters are concerned. *)
Definition lowerUnit (c : Z) : Z := if (65 <=? c) && (c <=? 90) then c + 32 else c.
Definition toLowerCase (s : jsstr) : jsstr := map lowerUnit s.

Definition endsWith (s p : jsstr) : bool := startsWith (rev s) (rev p).

Definition endsIn (lower : jsstr) (p : String.string) : bool := endsWith lower (js p).

Definition guessContentType (path : jsstr) : jsstr :=
  let lower := toLowerCase path in
  if endsIn lower ".png" then js "image/png"
  else if endsIn lower ".jpg" || endsIn lower ".jpeg" then js "image/jpeg"
  else if endsIn lower ".gif" then js "image/gif"
  else if endsIn lower ".webp" then js "image/webp"
  else if endsIn lower ".svg" then js "image/svg+xml"
  else if endsIn lower ".json" then js "application/json; charset=utf-8"
  else if endsIn lower ".html" || endsIn lower ".htm" then js "text/html; charset=utf-8"
  else if endsIn lower ".js" then js "text/javascript; charset=utf-8"
  else if endsIn lower ".txt" then js "text/plain; charset=utf-8"
  else js "application/octet-stream".

(** [s.includes(p)]. *)
Fixpoint includes (s p : jsstr) : bool :=
  startsWith s p || match s with _ :: s' => includes s' p | [] => false end.

Inductive Asset :=
| InvalidPath
| MalformedEscape
| OpenFile (filePath : jsstr).

(** From the request's path to the file to open. *)
Definition assetOf (encodedPath : jsstr) : Asset :=
  if includes encodedPath (js "..") then InvalidPath
  else match decodeURI encodedPath with
       | None => MalformedEscape
       | Some decodedPath => OpenFile (46 :: decodedPath)
       end.

(** ** Statistics *)

Definition int (z : Z) : jsval := JNum (num_of_Z z).

Definition statsJson (row : jsstr * PlayerStats) : jsval :=
  JObj (field_list [("playerName", JStr (fst row)); ("kills", int (st_kills (snd row)));
    ("deaths", int (st_deaths (snd row))); ("lastSeen", int (st_lastSeen (snd row)));
    ("lastPlayerId", JStr (st_lastPlayerId (snd row)))]%string).

Definition killJson (r : KillRecord) : jsval :=
  JObj (field_list [("id", JStr (k_id r)); ("attackerId", JStr (k_attackerId r));
    ("attackerName", JStr (k_attackerName r)); ("victimId", JStr (k_victimId r));
    ("victimName", JStr (k_victimName r)); ("shotId", JStr (k_shotId r));
    ("timestamp", int (k_timestamp r))]%string).

Definition countJson (row : jsstr * Z) : jsval :=
  JObj (field_list [("playerName", JStr (fst row)); ("kills", int (snd row))]%string).

(** [Number(url.searchParams.get("limit")) || d]; the absent parameter is
    [null], which is zero. *)
Definition limitOf (req : Request) (d : Z) : num :=
  let n := match rq_param req (js "limit") with Some s => str_number s | None => nzero end in
  if num_truthy n then n else num_of_Z d.

Section Main.
Context `{Runtime} `{AuthEnv} `{Hmac} `{SqlDriver} `{Files}.
Context (CLIENT_HTML CLIENT_HTML_SOURCE : jsstr).

Definition healthJson (w : World) : jsval :=
  JObj (field_list [("ok", JBool true); ("world", JStr CONFIG.WORLD); ("clientHtmlSource", JStr CLIENT_HTML_SOURCE);
    ("connectionsOnThisIsolate", int (JMap.size (clients w))); ("latestSeq", int (lastSeenSeq w));
    ("playersCachedOnThisIsolate", int (JMap.size (playersCache w)));
    ("eventsInMemory", int (Z.of_nat (length (events w))))]%string).

Definition serveWs (req : Request) : M Site Response :=
  let upgrade := default [] (rq_header req (js "upgrade")) in
  if negb (truthy (JStr upgrade)) || negb (str_eqb (toLowerCase upgrade) (js "websocket")) then
    mret (redirect (rq_base req ++ js "/"))
  else
    on_world handleWs;;
    await;;
    mret (mkResponse 101 [] None).

Definition serveAsset (req : Request) : M Site Response :=
  match assetOf (rq_pathname req) with
  | InvalidPath => mret (text (js "Invalid path") 400)
  | MalformedEscape => throw URIError
  | OpenFile filePath =>
      await;;
      match open_file filePath with
      | Some content =>
          mret (mkResponse 200
            [(js "content-type", guessContentType filePath); (js "access-control-allow-origin", CORS);
             (js "cache-control", js "public, max-age=31536000, immutable")] (Some content))
      | None => mret (text (js "Not Found") 404)
      end
  end.

Definition serveLeaderboard (req : Request) : M Site Response :=
  let limit := limitOf req 20 in
  match rq_param req (js "hours") with
  | Some ((_ :: _) as hours) =>
      now ← on_world now;
      n ← lift (sql_int limit);
      d ← gets (fun s => db (site_world s));
      mret (json (JArr (map countJson (getLeaderboardByTime now (str_number hours) n d))) 200)
  | _ =>
      n ← lift (sql_int limit);
      d ← gets (fun s => db (site_world s));
      mret (json (JArr (map statsJson (getLeaderboard n d))) 200)
  end.

Definition serveKills (req : Request) : M Site Response :=
  n ← lift (sql_int (limitOf req 50));
  d ← gets (fun s => db (site_world s));
  mret (json (JArr (map killJson (getRecentKills n d))) 200).

Definition servePlayer (req : Request) : M Site Response :=
  match decodeURIComponent (drop (length (js "/api/player/")) (rq_pathname req)) with
  | None => throw URIError
  | Some playerName =>
      d ← gets (fun s => db (site_world s));
      match getPlayerStats playerName d with
      | None => mret (json (JObj (field_list [("error", JStr (js "Player not found"))]%string)) 404)
      | Some st => mret (json (statsJson (playerName, st)) 200)
      end
  end.

Definition pathIs (path : jsstr) (p : String.string) : bool := str_eqb path (js p).

Definition serve (req : Request) : M Site Response :=
  let path := rq_pathname req in
  if pathIs path "/health" then
    h ← gets (fun s => healthJson (site_world s));
    mret (json h 200)
  else if pathIs path "/ws" then serveWs req
  else if startsWith path (js "/assets/") then serveAsset req
  else if pathIs path "/auth/login" then on_auth (handleLogin req)
  else if pathIs path "/auth/callback" then r ← on_auth (handleCallback req); await;; mret r
  else if pathIs path "/auth/logout" then mret (handleLogout req)
  else if pathIs path "/auth/me" then r ← on_auth (handleMe req); await;; mret r
  else if pathIs path "/auth/config" then
    mret (json (JObj (field_list [("oauth_enabled", JBool isOAuthConfigured)]%string)) 200)
  else if pathIs path "/auth/dev-login" then r ← on_auth (handleDevLogin req); await;; mret r
  else if pathIs path "/api/leaderboard" then serveLeaderboard req
  else if pathIs path "/api/kills" then serveKills req
  else if startsWith path (js "/api/player/") then servePlayer req
  else if pathIs path "/" then
    mret (mkResponse 200
      [(js "content-type", js "text/html; charset=utf-8"); (js "access-control-allow-origin", CORS)]
      (Some CLIENT_HTML))
  else mret (redirect (rq_base req ++ js "/")).

End Main.
