(* ===== verification/Scenario.v ===== *)
(** * Running the server model on concrete schedules

    A table of client messages, the server instantiated with the concrete
    runtime, and the lemma that turns an evaluated schedule into a reachable
    state. *)

From S2P Require Import Prelude JsMap JsNum JsString JsValue Wire Async Config Protocol ServerUtils.
From S2P Require Import Storage World Concrete State Game Bot Ws.

(** The messages of the scenarios, by name. *)
Definition table : list (jsstr * jsval) := [
  (js "hello-alice", obj [("t", str "hello"); ("name", str "  Al   ice ")]);
  (js "hello-bob", obj [("t", str "hello"); ("name", str "Bob")]);
  (js "hello-number", obj [("t", str "hello"); ("name", JNum (num_of_Z 5))]);
  (js "move", obj [("t", str "state"); ("pos", vec (num_of_Z 10) (num_of_Z 6) (num_of_Z 5));
                   ("rotY", JNum (num_of_Z 1))]);
  (js "near-bot", obj [("t", str "state"); ("pos", vec (num_dec 7125 2) (num_of_Z 7) (num_of_Z 66));
                       ("rotY", JNum (num_of_Z 0))]);
  (js "far", obj [("t", str "state"); ("pos", vec (num_of_Z 500) (num_of_Z 6) (num_of_Z 5));
                  ("rotY", JNum (num_of_Z 1))]);
  (js "shoot", obj [("t", str "snowball"); ("id", str "shot-0001");
                    ("dir", vec (num_of_Z 0) (num_of_Z 0) (num_of_Z 1))]);
  (js "rename", obj [("t", str "rename"); ("name", str "an unreasonably long nickname")]);
  (js "ping", obj [("t", str "ping")])
]%string.

(** The text that carries the message named [m], as the client encodes it. *)
Definition frame (m : String.string) : jsstr :=
  match JMap.get (js m) table with
  | Some v => default [] (@Wire.Client.wsEncode plain_cipher WS_AES_KEY_HEX (repeat 7 12) v)
  | None => []
  end.

Definition says (sid : nat) (m : String.string) : choice ServerEvent :=
  Start (Message sid (Text (frame m))).
Definition resumes (n : nat) : list (choice ServerEvent) := repeat (Resume 0) n.

(** Two players connect and join; nothing is left suspended. *)
Definition two_join : list (choice ServerEvent) :=
  [Start Connect; says 0 "hello-alice"] ++ resumes 5 ++
  [Start Connect; says 1 "hello-bob"] ++ resumes 5.

(** The first one shoots, and the shot is played to its end. *)
Definition one_shot : list (choice ServerEvent) :=
  two_join ++ [says 0 "shoot"] ++ resumes 8.

Definition alice : jsstr := uuid_of 0.
Definition bob : jsstr := uuid_of 1.

Definition start_sys : sys World := mkSys start_world [] [].

(** The first one renames itself, then moves. *)
Definition rename_and_move : list (choice ServerEvent) :=
  two_join ++ [says 0 "rename"] ++ resumes 5 ++ [says 0 "move"] ++ resumes 2.

(** A [hello] whose name is a number. *)
Definition numeric_name : list (choice ServerEvent) :=
  two_join ++ [Start Connect; says 2 "hello-number"; Resume 0].

(** Two [hello]s in a row on one socket, both decoded before the first is
    answered; then the socket closes. *)
Definition double_hello : list (choice ServerEvent) :=
  [Start Connect; says 0 "hello-alice"; says 0 "hello-bob"] ++ resumes 10 ++
  [Start (Close 0)] ++ resumes 3.

(** The socket closes while its [hello] is being decoded. *)
Definition closed_hello : list (choice ServerEvent) :=
  [Start Connect; says 0 "hello-alice"; Start (Close 0)] ++ resumes 5.

(** The first player walks up to [bot-0]; while that bot is throwing, the
    player throws at it and is done; then the bot's turn goes on. *)
Definition bot_duel : list (choice ServerEvent) :=
  two_join ++ [says 0 "near-bot"] ++ resumes 2 ++ repeat (Start ShotsTimer) 80 ++
  [Start BotTimer; says 0 "shoot"] ++ repeat (Resume 1) 8 ++ resumes 8.

(** Does the schedule run, and does its final state pass the test [f]? *)
Definition run_check (cs : list (choice ServerEvent)) (f : sys World -> bool) : bool :=
  match run server_handler cs start_sys with Some s => f s | None => false end.

Lemma run_check_reachable cs f :
  run_check cs f = true -> exists s, server_reachable s /\ f s = true.
Proof.
  unfold run_check. destruct (run server_handler cs start_sys) as [s|] eqn:E; [|done].
  intros Hf. exists s. split; [|done]. eapply run_reachable; [apply reach_init|exact E].
Qed.

(** A reachable state, and one reached from it. *)
Definition run_check2 (cs cs' : list (choice ServerEvent)) (f : sys World -> sys World -> bool) : bool :=
  match run server_handler cs start_sys with
  | Some s => match run server_handler cs' s with Some s' => f s s' | None => false end
  | None => false
  end.

Lemma run_check2_steps cs cs' f :
  run_check2 cs cs' f = true ->
  exists s s', server_reachable s /\ rtc (step server_handler) s s' /\ f s s' = true.
Proof.
  unfold run_check2. destruct (run server_handler cs start_sys) as [s|] eqn:E; [|done].
  destruct (run server_handler cs' s) as [s'|] eqn:E'; [|done].
  intros Hf. exists s, s'. split; [|split; [by eapply run_steps|done]].
  eapply run_reachable; [apply reach_init|exact E].
Qed.

(** The hit points of player [k], if listed. *)
Definition hp_of (k : jsstr) (s : sys World) : option Z :=
  ps_hp <$> JMap.get k (playersCache (sys_world s)).

(** Is the shot [id], recorded in [s], still live in [s']? *)
Definition shot_live (id : jsstr) (s s' : sys World) : bool :=
  match JMap.get id (seenShots (sys_world s)) with
  | Some e => date_now (ticks (sys_world s')) <? e
  | None => false
  end.

(** The hit points of player [k] as the event stream tells them. *)
Fixpoint told_hp (k : jsstr) (evs : list (WorldEvent vref)) (hp : option Z) : option Z :=
  match evs with
  | [] => hp
  | e :: evs' =>
      told_hp k evs'
        (match ev_body e with
         | EvJoin p => if str_eqb (ps_id p) k then Some (ps_hp p) else hp
         | EvRespawn id _ h => if str_eqb id k then Some h else hp
         | EvHit _ id _ h _ => if str_eqb id k then Some h else hp
         | EvDeath id _ _ _ _ _ => if str_eqb id k then Some 0 else hp
         | _ => hp
         end)
  end.

Definition hp_is (k : jsstr) (h : Z) (s : sys World) : bool := bool_decide (hp_of k s = Some h).

Lemma hp_is_true k h s : hp_is k h s = true -> hp_of k s = Some h.
Proof. apply bool_decide_eq_true. Qed.

(** Nothing is left suspended. *)
Definition idle (s : sys World) : bool := match sys_tasks s with [] => true | _ => false end.

Lemma idle_true s : idle s = true -> sys_tasks s = [].
Proof. unfold idle. by destruct (sys_tasks s). Qed.

(** The client registered under id [k], if its socket is closed. *)
Definition ghost (k : jsstr) (w : World) : option WSClient :=
  match JMap.get k (clients w) with
  | Some a =>
      match wsClients w !! a with
      | Some c =>
          match sockets w !! c_ws c with
          | Some s => match s_ready s with CLOSED => Some c | _ => None end
          | None => None
          end
      | None => None
      end
  | None => None
  end.

Definition has_ghost (k : jsstr) (s : sys World) : bool :=
  idle s && match ghost k (sys_world s) with Some _ => true | None => false end.

(** The length of the name listed for player [k]. *)
Definition name_longer (k : jsstr) (n : Z) (s : sys World) : bool :=
  match JMap.get k (playersCache (sys_world s)) with
  | Some p => match ps_name p with JStr x => n <? str_length x | _ => false end
  | None => false
  end.
