(* ===== verification/ServerInv.v ===== *)
(** * Invariants of the server

    What holds of the shared state at every point where a handler can be
    suspended, for every interleaving of connections, messages, timers and
    bots: the player table is well formed with positions on the map, every
    player is either alive or dead with a respawn time, and the event log is a
    gap-free window of the event stream. *)

From S2P Require Import Prelude JsMap JsNum Rounding JsString JsValue Async Config Protocol ServerUtils.
From S2P Require Import Storage World Concrete State Game Bot BotMath Ws.

(** ** The player table *)

(** A player is alive with no respawn time, or dead with one. *)
Definition alive_or_dead (hp : Z) (deadUntil : option Z) : Prop :=
  (0 < hp <= 100 /\ deadUntil = Some 0) \/
  (hp = 0 /\ exists d, deadUntil = Some d /\ 0 < d).

(** A finite position on the map, with the tolerance of the guard. *)
Definition finite_vec (v : Vec3) : Prop :=
  isFinite (vx v) = true /\ isFinite (vy v) = true /\ isFinite (vz v) = true.
Definition on_map (v : Vec3) : Prop :=
  finite_vec v /\ nleb (nabs (vx v)) (num_of_Z 195) = true /\ nleb (nabs (vz v)) (num_of_Z 195) = true /\
  nleb (nabs (vy v)) (num_of_Z 5000) = true.

Lemma inside_on_map v : finite_vec v -> outOfMap v = false -> on_map v.
Proof.
  intros Hf Ho. split; [done|]. unfold outOfMap in Ho. apply orb_false_iff in Ho as [[Hx Hz]%orb_false_iff Hy].
  assert (L : forall d u, isNaN d = false -> isFinite u = true -> nltb d (nabs u) = false -> nleb (nabs u) d = true).
  { intros d u Nd Hu Hlt. rewrite nleb_nltb; [by rewrite Hlt|by destruct u|done]. }
  destruct Hf as (Fx & Fy & Fz).
  split; [exact (L (CONFIG.MAP_HALF + num_of_Z 5)%num _ eq_refl Fx Hx)|].
  split; [exact (L (CONFIG.MAP_HALF + num_of_Z 5)%num _ eq_refl Fz Hz)|exact (L (num_of_Z 5000) _ eq_refl Fy Hy)].
Qed.

(** The numbers of a snapshot; the position and velocity of a bot are shared
    objects on the heap. *)
Definition snap_typed (p : PlayerSnapshot vref) : Prop :=
  match ps_pos p with VVal pos => on_map pos /\ isFinite (ps_rotY p) = true | VRef _ => True end /\
  match ps_vel p with VVal vel => finite_vec vel | VRef _ => True end.

Section Table.
Context `{Runtime} `{JsMath}.

Definition snap_ok (k : jsstr) (p : PlayerSnapshot vref) : Prop :=
  ps_id p = k /\ ps_hp p mod CONFIG.damage = 0 /\ alive_or_dead (ps_hp p) (ps_deadUntil p) /\
  (platform_ok -> snap_typed p).

Definition cache_ok (m : JMap.jsmap jsstr (PlayerSnapshot vref)) : Prop :=
  JMap.wf m /\ JMap.all snap_ok m.

End Table.

(** ** The event log *)

Definition log_ok (latest lastSeen bound : Z) (evs : list (WorldEvent vref)) : Prop :=
  lastSeen = latest /\ Z.of_nat (length evs) <= latest /\
  (forall i e, evs !! i = Some e -> ev_seq e = latest - Z.of_nat (length evs) + 1 + Z.of_nat i) /\
  nondecreasing (map ev_at evs) /\
  Forall (fun e => ev_at e <= bound) evs /\
  (forall newest, last evs = Some newest ->
     Forall (fun e => ev_at newest - TTL.EVENT_MS <= ev_at e) evs).

(** Pruning drops a prefix. *)
Lemma prune_drop c l : exists n, (n <= length l)%nat /\ prune c l = drop n l.
Proof.
  induction l as [|e l (n & Hn & IH)]; simpl; [by exists 0%nat|].
  destruct (ev_at e <? c); [exists (S n)|exists 0%nat]; split; simpl; lia || done.
Qed.

(** On a log in time order it keeps exactly the events in the window. *)
Lemma prune_filter c l :
  nondecreasing (map ev_at l) -> prune c l = List.filter (fun e => negb (ev_at e <? c)) l.
Proof.
  induction l as [|e l IH]; simpl; [done|]. intros [Hf Hn].
  destruct (ev_at e <? c) eqn:E; simpl; [auto|]. f_equal. zbool.
  clear IH Hn. induction l as [|e' l IH]; simpl; [done|].
  apply Forall_cons in Hf as [He Hf]. destruct (ev_at e' <? c) eqn:E'; zbool; [lia|].
  simpl. f_equal. auto.
Qed.

Lemma prune_last c l e : c <= ev_at e -> prune c (l ++ [e]) = prune c l ++ [e].
Proof.
  intros He. induction l as [|x l IH]; simpl.
  - destruct (ev_at e <? c) eqn:E; zbool; [lia|done].
  - destruct (ev_at x <? c); [exact IH|done].
Qed.

Lemma nondecreasing_snoc ts t :
  nondecreasing ts -> Forall (fun x => x <= t) ts -> nondecreasing (ts ++ [t]).
Proof.
  induction ts as [|x ts IH]; simpl; [by repeat constructor|].
  intros [H1 H2] [Hx Hf]%Forall_cons. split; [|auto]. apply Forall_app. split; [done|].
  by constructor.
Qed.

Lemma nondecreasing_drop n ts : nondecreasing ts -> nondecreasing (drop n ts).
Proof.
  revert n. induction ts as [|x ts IH]; intros [|n]; simpl; try done. intros [_ H2]. auto.
Qed.

(** Logging one more event. *)
Lemma log_ok_append latest bound evs e :
  log_ok latest latest bound evs -> ev_seq e = latest + 1 -> bound <= ev_at e ->
  log_ok (latest + 1) (latest + 1) (ev_at e) (pruneEvents (ev_at e) (evs ++ [e])).
Proof.
  intros (_ & Hlen & Hseq & Hnd & Hb & Hw) He Hat. unfold pruneEvents.
  assert (Hnd' : nondecreasing (map ev_at (evs ++ [e]))).
  { rewrite map_app. apply nondecreasing_snoc; [done|]. apply Forall_map.
    eapply Forall_impl; [exact Hb|]. simpl. lia. }
  assert (Hb' : Forall (fun x => ev_at x <= ev_at e) (evs ++ [e])).
  { apply Forall_app. split; [|repeat constructor; lia]. eapply Forall_impl; [exact Hb|]. simpl. lia. }
  destruct (prune_drop (ev_at e - TTL.EVENT_MS) (evs ++ [e])) as (n & Hn & Hd).
  assert (Hfilter := prune_filter (ev_at e - TTL.EVENT_MS) _ Hnd').
  rewrite prune_last in Hfilter by (unfold TTL.EVENT_MS; lia).
  split; [done|]. rewrite length_app in Hn. simpl in Hn.
  split; [|split; [|split; [|split]]].
  - rewrite Hd, length_drop, length_app. simpl. lia.
  - intros i x Hi. rewrite Hd in Hi. rewrite lookup_drop in Hi.
    rewrite Hd, length_drop, length_app. simpl.
    pose proof (lookup_lt_Some _ _ _ Hi) as Hlt. rewrite length_app in Hlt. simpl in Hlt.
    destruct (Nat.lt_ge_cases (n + i) (length evs)) as [Hl|Hl].
    + rewrite lookup_app_l in Hi by done. rewrite (Hseq _ _ Hi). lia.
    + rewrite lookup_app_r in Hi by done.
      replace (n + i - length evs)%nat with 0%nat in Hi by lia. simpl in Hi. simplify_eq. lia.
  - rewrite Hd, <- skipn_map. by apply nondecreasing_drop.
  - rewrite Hd. by apply Forall_drop.
  - intros newest Hl. rewrite prune_last in Hl by (unfold TTL.EVENT_MS; lia).
    rewrite last_snoc in Hl. simplify_eq.
    rewrite prune_last, Hfilter by (unfold TTL.EVENT_MS; lia).
    apply Forall_forall. intros x Hx. apply list_elem_of_In, filter_In in Hx as [_ Hx].
    zbool. lia.
Qed.

(** ** The invariant and its maintenance by the shared operations *)

Section Invariant.
Context `{Runtime} `{JsMath} `{SqlDriver} `{!ClockMono}.

(** The bots' vectors, on the heap, and their targets. *)
Definition target_ok (o : option Vec3) : Prop :=
  match o with Some v => in_map (vx v) /\ in_map (vz v) | None => True end.
Definition bot_ok (b : Bot) : Prop := target_ok (b_targetPos b).
Definition bots_ok (w : World) : Prop :=
  platform_ok -> Forall cell_ok (vecs w) /\ JMap.all (fun _ => bot_ok) (bots w).

Definition server_inv (w : World) : Prop :=
  cache_ok (playersCache w) /\
  log_ok (latestSeq w) (lastSeenSeq w) (date_now (ticks w)) (events w) /\ bots_ok w.

#[local] Abbreviation keeps := (keeps server_inv).

(** Unfold an update of a field the invariant does not mention. *)
Ltac frame := let w := fresh "w" in let Hw := fresh "Hw" in
  intros w Hw; unfold server_inv in *; simpl in *; exact Hw.

Lemma keeps_now : keeps now (fun t => 0 <= t).
Proof.
  intros w (Hc & (Hl & Hlen & Hseq & Hnd & Hb & Hw) & Hbots). simpl. split; [apply clock_pos|].
  split; [done|]. split; [|exact Hbots]. repeat split; simpl; try done.
  eapply Forall_impl; [exact Hb|]. intros e He. simpl in *.
  pose proof (clock_mono (ticks w) (S (ticks w)) ltac:(lia)). lia.
Qed.

Lemma keeps_random : keeps random (fun r => platform_ok -> between nzero (num_of_Z 1) r).
Proof. intros w Hw. split; [intros OK; apply (random_unit OK)|exact Hw]. Qed.

Lemma keeps_uuid : keeps randomUUID (fun _ => True).
Proof. intros w Hw. split; [done|]. exact Hw. Qed.

Lemma keeps_awaiting {A} (m : M World A) F : keeps m F -> keeps (awaiting m) F.
Proof.
  intros Hm. eapply keeps_bind; [exact Hm|]. intros a Ha.
  apply keeps_seq; [apply keeps_await|]. by apply keeps_ret.
Qed.

Lemma keeps_ws_send i m : keeps (ws_send i m) (fun _ => True).
Proof.
  intros w Hw. unfold ws_send. destruct (sockets w !! i) as [s|]; [|done].
  destruct (ws_send_raises (s_ready s)); done.
Qed.

Lemma keeps_send_all keep m : keeps (send_all keep m) (fun _ => True).
Proof.
  eapply keeps_bind; [by apply (keeps_gets _ _ (fun _ => True))|]. intros cs _.
  apply keeps_for_each. intros a _.
  eapply keeps_bind; [by apply (keeps_gets _ _ (fun _ => True))|]. intros [c|] _; [|by apply keeps_ret].
  eapply keeps_bind; [by apply (keeps_gets _ _ (fun _ => True))|]. intros [s|] _; [|by apply keeps_ret].
  destruct (keep s); [|by apply keeps_ret].
  apply keeps_try; [apply keeps_ws_send|]. intros e. by apply keeps_ret.
Qed.

Lemma keeps_broadcast msg : keeps (broadcast msg) (fun _ => True).
Proof.
  eapply keeps_bind; [by apply (keeps_gets _ _ (fun _ => True))|]. intros m _.
  apply keeps_seq; [apply keeps_await|apply keeps_send_all].
Qed.

Lemma keeps_broadcastDroppable msg : keeps (broadcastDroppable msg) (fun _ => True).
Proof.
  eapply keeps_bind; [by apply (keeps_gets _ _ (fun _ => True))|]. intros m _.
  apply keeps_seq; [apply keeps_await|apply keeps_send_all].
Qed.

(** Appending [body] is safe when applying it keeps the table well formed. *)
Definition append_pre (body : EventBody vref) (w : World) : Prop :=
  forall seq at_, cache_ok (applyEventToCache (mkEvent seq at_ body) (playersCache w)).

Lemma append_world_inv body w :
  server_inv w -> append_pre body w -> server_inv (append_world body w).
Proof.
  intros (Hc & Hl & Hbots) Hp. split; [apply Hp|]. split; [|exact Hbots]. simpl.
  assert (Hl' : log_ok (latestSeq w) (latestSeq w) (date_now (ticks w)) (events w)).
  { destruct Hl as [Heq Hrest]. by split. }
  pose proof (log_ok_append _ _ _
    (mkEvent (latestSeq w + 1) (date_now (ticks w)) body) Hl' eq_refl (Z.le_refl _)) as Ha.
  destruct Ha as (Hx & Hlen & Hseq & Hnd & Hb & Hw). repeat split; try done.
  eapply Forall_impl; [exact Hb|]. simpl. intros e He.
  pose proof (clock_mono (ticks w) (S (ticks w)) ltac:(lia)). lia.
Qed.

Lemma append_triple body :
  triple server_inv (fun w => server_inv w /\ append_pre body w) (appendEventInMem body)
    (fun _ w => True /\ server_inv w).
Proof.
  intros w [Hi Hp]. rewrite append_unfold.
  apply (keeps_seq server_inv _ _ (fun _ => True)).
  - apply keeps_awaiting, keeps_broadcast.
  - by apply keeps_ret.
  - by apply append_world_inv.
Qed.

(** Events that are safe in every good state. *)
Lemma keeps_append body :
  (forall w, server_inv w -> append_pre body w) -> keeps (appendEventInMem body) (fun _ => True).
Proof.
  intros Hp. eapply triple_pre; [|apply append_triple]. simpl. intros w Hw. split; auto.
Qed.

Lemma cache_ok_set k p m : snap_ok k p -> cache_ok m -> cache_ok (JMap.set k p m).
Proof. intros Hp [Hw Ha]. split; auto with snow. Qed.

Lemma upd_snap_ok k f m :
  (forall p, JMap.get k m = Some p -> snap_ok k p -> snap_ok k (f p)) ->
  cache_ok m -> cache_ok (upd_snap k f m).
Proof.
  intros Hf Hc. unfold upd_snap. destruct (JMap.get k m) as [p|] eqn:E; [|done].
  apply cache_ok_set; [|done]. apply Hf; [done|]. destruct Hc as [_ Ha].
  by apply (JMap.all_get _ _ _ _ Ha).
Qed.

(** The events whose application is safe unconditionally. *)
Definition harmless (body : EventBody vref) : Prop :=
  match body with
  | EvJoin p => snap_ok (ps_id p) p
  | EvDeath _ _ _ _ _ respawnAt => 0 < respawnAt
  | EvRespawn _ (VRef _) hp => hp = 100
  | EvRespawn _ _ _ | EvHit _ _ _ _ _ | EvState _ _ _ _ _ => False
  | _ => True
  end.

Lemma harmless_pre body w : harmless body -> server_inv w -> append_pre body w.
Proof.
  intros Hb [Hc _] seq at_. unfold applyEventToCache. destruct body; simpl in *; try done.
  - by apply cache_ok_set.
  - destruct Hc. split; auto with snow.
  - apply upd_snap_ok; [|done]. intros p _ Hp. exact Hp.
  - apply upd_snap_ok; [|done]. intros p _ (Hid & _ & _ & Ht). split; [done|]. split; [done|].
    split; [right; simpl; eauto|exact Ht].
  - destruct pos as [v|a]; [done|]. apply upd_snap_ok; [|done]. intros p _ (Hid & _ & _ & Ht). subst. split; [done|].
    split; [done|]. split; [left; simpl; split; [lia|done]|]. intros OK. destruct (Ht OK) as [_ Hv]. done.
Qed.

(** Writing a player and announcing it in the same segment: the event finds
    the player as it was written. *)
Lemma keeps_set_append {A} k p body (m : M World A) G :
  snap_ok k p -> (forall w, server_inv w -> JMap.get k (playersCache w) = Some p -> append_pre body w) ->
  keeps m G -> keeps (set_player k p;; awaiting (appendEventInMem body);; m) G.
Proof.
  intros Hp Hb Hm.
  eapply (triple_bind _ _ (fun _ w => server_inv w /\ append_pre body w)).
  - apply triple_modify. intros w [Hc Hl].
    assert (Hw : server_inv (set_playersCache (JMap.set k p (playersCache w)) w)) by (split; [by apply cache_ok_set|done]).
    split; [exact Hw|]. apply Hb; [exact Hw|]. simpl. apply JMap.get_set_eq.
  - intros _. eapply triple_bind.
    + eapply triple_bind; [apply append_triple|]. intros e.
      eapply triple_pre; [|apply (keeps_seq _ _ _ (fun _ => True)); [apply keeps_await|by apply keeps_ret]].
      simpl. tauto.
    + intros e. eapply triple_pre; [|exact Hm]. simpl. tauto.
Qed.

Lemma keeps_append_harmless body :
  harmless body -> keeps (appendEventInMem body) (fun _ => True).
Proof. intros Hb. apply keeps_append. intros w. by apply harmless_pre. Qed.

Lemma keeps_set_player k p : snap_ok k p -> keeps (set_player k p) (fun _ => True).
Proof. intros Hp. apply keeps_modify. intros w [Hc Hl]. split; [by apply cache_ok_set|done]. Qed.

(** A snapshot read from the table is a good one. *)
Lemma keeps_get_player k :
  keeps (gets (fun w => JMap.get k (playersCache w)))
    (fun o => match o with Some p => snap_ok k p | None => True end).
Proof.
  apply keeps_gets. intros w [[_ Ha] _]. destruct (JMap.get k (playersCache w)) eqn:E; [|done].
  by apply (JMap.all_get _ _ _ _ Ha).
Qed.

Lemma keeps_get_players :
  keeps (gets (fun w => JMap.values (playersCache w)))
    (fun ps => Forall (fun p => snap_ok (ps_id p) p) ps).
Proof.
  apply keeps_gets. intros w [[_ Ha] _]. eapply JMap.all_values; [|exact Ha].
  intros k v Hv. pose proof Hv as [Hid _]. by rewrite Hid.
Qed.

(** Reading without learning anything. *)
Lemma keeps_read {A} (f : World -> A) : keeps (gets f) (fun _ => True).
Proof. by apply keeps_gets. Qed.

Create HintDb keeps.
#[local] Hint Resolve keeps_now keeps_random keeps_uuid keeps_read keeps_await keeps_ws_send
  keeps_broadcast keeps_broadcastDroppable keeps_awaiting keeps_append_harmless keeps_set_player
  keeps_get_player keeps_get_players keeps_throw keeps_for_each keeps_try : keeps.
#[local] Hint Extern 1 (Async.keeps _ (mret _) _) => apply keeps_ret; done : keeps.
#[local] Hint Extern 1 (Async.keeps _ (modify _) _) => apply keeps_modify; frame : keeps.
#[local] Hint Extern 1 (harmless _) => simpl; done : keeps.

(** One step through a handler: the next operation by the hints, then case
    analysis on what was read. *)
Ltac kstep :=
  cbv zeta;
  lazymatch goal with
  | |- Async.keeps _ (mbind _ _) _ =>
      eapply keeps_bind; [solve [eauto 6 with keeps]|intros]
  | |- Async.keeps _ (match ?x with _ => _ end) _ => let E := fresh "E" in destruct x eqn:E
  | |- Async.keeps _ (let '(_, _) := ?x in _) _ => let E := fresh "E" in destruct x eqn:E
  | |- Async.keeps _ _ _ => solve [eauto 6 with keeps]
  end.
Ltac ksteps := repeat kstep.

(** ** Game *)

Lemma spawn_range r : between nzero (num_of_Z 1) r ->
  between (- num_of_Z 20) (num_of_Z 20) ((r - num_dec 5 1) * num_of_Z 40)%num.
Proof. intros Hr. bounds. Qed.

Lemma bounded_on_map b x y z :
  fin b = true -> nleb b (num_of_Z 195) = true ->
  between (- b) b x -> between (- b) b z -> between (- num_of_Z 5000) (num_of_Z 5000) y -> on_map (mkVec3 x y z).
Proof.
  intros Fb Hb Hx Hz Hy. assert (F : forall lo hi u, between lo hi u -> isFinite u = true) by (intros lo hi u [Hu _]; by destruct u).
  split; [repeat split; by eapply F|]. cbn [vx vy vz].
  split; [eapply nleb_trans; [by apply nabs_le|exact Hb]|]. split; [eapply nleb_trans; [by apply nabs_le|exact Hb]|].
  by apply nabs_le.
Qed.

Lemma near_on_map x z :
  between (- num_of_Z 20) (num_of_Z 20) x -> between (- num_of_Z 20) (num_of_Z 20) z -> on_map (mkVec3 x (num_of_Z 0) z).
Proof. intros Hx Hz. apply (bounded_on_map (num_of_Z 20)); try done. Qed.

(** A bot's position, and its velocity. *)
Lemma cell_on_map v : cell_ok v -> on_map v.
Proof.
  intros (Hx & Hz & Hy). destruct v as [x y z]. cbn [vx vy vz] in *. apply (bounded_on_map CONFIG.MAP_HALF); try done.
  eapply between_weaken; [exact Hy|evaluate..].
Qed.

Lemma keeps_randomSpawn : keeps randomSpawn (fun v => platform_ok -> on_map v).
Proof.
  unfold randomSpawn. eapply keeps_bind; [apply keeps_random|]. intros r1 Hr1. eapply keeps_bind; [apply keeps_random|].
  intros r2 Hr2. apply keeps_ret. intros Hok. apply near_on_map; by apply spawn_range; auto.
Qed.
#[local] Hint Resolve keeps_randomSpawn : keeps.

Lemma keeps_enqueue s : keeps (enqueuePendingState s) (fun _ => True).
Proof. unfold enqueuePendingState. ksteps. Qed.
#[local] Hint Resolve keeps_enqueue : keeps.

Lemma keeps_seenShot s : keeps (seenShotBefore s) (fun _ => True).
Proof. unfold seenShotBefore. ksteps. Qed.
#[local] Hint Resolve keeps_seenShot : keeps.

Lemma keeps_onHello name :
  keeps (serverOnHello name) (fun p => snap_ok (ps_id p) p).
Proof.
  unfold serverOnHello. do 3 kstep. eapply keeps_bind; [by apply (keeps_lift _ _ (fun _ => True))|].
  intros n _. apply keeps_ret. split; [done|]. split; [done|]. split; [left; simpl; split; [lia|done]|].
  intros Hok. split; [cbn; auto|done].
Qed.

Lemma keeps_rename clientId raw : keeps (serverHandleRename clientId raw) (fun _ => True).
Proof.
  unfold serverHandleRename. eapply keeps_bind; [by apply (keeps_lift _ _ (fun _ => True))|].
  intros [|c n] _; ksteps. apply keeps_seq; ksteps.
Qed.

Lemma keeps_chat clientId name msg : keeps (serverHandleChat clientId name msg) (fun _ => True).
Proof.
  unfold serverHandleChat. eapply keeps_bind; [by apply (keeps_lift _ _ (fun _ => True))|].
  intros [|c t] _; ksteps.
Qed.

Lemma keeps_respawnPlayer clientId prev rotY t msg :
  snap_ok clientId prev -> isFinite rotY = true -> keeps (respawnPlayer clientId prev rotY t msg) (fun _ => True).
Proof.
  intros (Hid & _ & _) Hr. unfold respawnPlayer. eapply keeps_bind; [apply keeps_randomSpawn|]. intros spawn Hs.
  cbv zeta. set (revived := mkSnap _ _ _ _ _ _ _ _ _ _). assert (Hrev : snap_ok clientId revived).
  { split; [done|]. split; [done|]. split; [left; simpl; split; [lia|done]|]. intros Hok. split; [cbn; auto|done]. }
  apply keeps_set_append; [done| |ksteps]. intros w [Hc _] Hg seq at_. cbn. apply upd_snap_ok; [|done].
  intros p Hp _. rewrite Hg in Hp. injection Hp as <-. exact Hrev.
Qed.

Lemma finite_vec_of v pos : isFiniteVec3 v = Some pos -> finite_vec pos.
Proof.
  unfold isFiniteVec3. destruct (truthy v); [|done]. destruct (prop_ok v "x"), (prop_ok v "y"), (prop_ok v "z"); try done.
  destruct (_ && _) eqn:E; [|done]. intros [= <-]. apply andb_true_iff in E as [[? ?]%andb_true_iff ?]. done.
Qed.

Lemma keeps_movePlayer clientId name prev pos rotY vel crouch t msg :
  match prev with Some p => snap_ok clientId p | None => True end ->
  on_map pos -> isFinite rotY = true -> finite_vec vel ->
  keeps (movePlayer clientId name prev pos rotY vel crouch t msg) (fun _ => True).
Proof.
  intros Hp Hpos Hr Hv. unfold movePlayer. apply keeps_seq; [|ksteps]. apply keeps_set_player.
  split; [done|]. destruct prev as [p|]; simpl.
  - destruct Hp as (_ & Hm & Had & _). split; [done|]. split; [|done].
    destruct Had as [[Hhp ->]|(Hhp & d & -> & Hd)]; [by left|]. right. simpl. eauto.
  - split; [done|]. split; [left; split; [lia|done]|done].
Qed.

Lemma keeps_state clientId name msg : keeps (serverHandleState clientId name msg) (fun _ => True).
Proof.
  unfold serverHandleState. destruct (isFiniteVec3 (prop_ok msg "pos")) as [pos|] eqn:Epos; [|ksteps].
  destruct (prop_ok msg "rotY") as [| | |rotY| | |]; try solve [ksteps].
  destruct (isFinite rotY) eqn:Er; cbn [negb]; [|ksteps]. cbv zeta.
  set (vel := match isFiniteVec3 (prop_ok msg "vel") with Some v => v | None => vec_zero end).
  assert (Hv : finite_vec vel)
    by (subst vel; destruct (isFiniteVec3 (prop_ok msg "vel")) eqn:Ev; [by eapply finite_vec_of|done]).
  destruct (outOfMap pos) eqn:Em; [ksteps|].
  assert (Hpos : on_map pos) by (apply inside_on_map; [by eapply finite_vec_of|done]). kstep.
  eapply keeps_bind; [apply keeps_get_player|]. intros [p|] Hp; [|by apply keeps_movePlayer].
  kstep; [ksteps|]. kstep; [by apply keeps_respawnPlayer|by apply keeps_movePlayer].
Qed.

(** ** The hit test and its consequences *)

Lemma updatedVictim_ok victim t respawnAt :
  snap_ok (ps_id victim) victim -> 0 < respawnAt ->
  snap_ok (ps_id victim) (updatedVictim victim t respawnAt).
Proof.
  intros (_ & Hm & Had & Ht) Hr. split; [done|]. unfold updatedVictim, damaged, CONFIG.damage in *.
  simpl. pose proof (Z.div_mod (ps_hp victim) 10 ltac:(lia)) as Hdm.
  set (q := ps_hp victim / 10) in *.
  assert (Hhp : 0 <= ps_hp victim <= 100) by (destruct Had as [?|[-> _]]; lia).
  destruct (Z.max 0 (ps_hp victim - 10) =? 0) eqn:E; zbool.
  - rewrite E. split; [done|]. split; [right; eauto|exact Ht].
  - assert (Hq : Z.max 0 (ps_hp victim - 10) = (q - 1) * 10) by lia. rewrite Hq in *.
    split; [apply Z.mod_mul; lia|]. split; [|exact Ht]. left.
    destruct Had as [[Ha ->]|[Hz _]]; [|lia]. simpl. split; [lia|done].
Qed.

Lemma hit_pre attackerId victim imp shotId t respawnAt w :
  server_inv w ->
  JMap.get (ps_id victim) (playersCache w) = Some (updatedVictim victim t respawnAt) ->
  append_pre (EvHit attackerId (ps_id victim) imp (damaged victim) shotId) w.
Proof.
  intros [Hc _] Hg seq at_. simpl. apply upd_snap_ok; [|done].
  intros p Hp Hok. rewrite Hg in Hp. simplify_eq. exact Hok.
Qed.

(** Damaging the victim and announcing it, in one segment. *)
Lemma keeps_hit {A} attackerId victim imp shotId t (k : M World A) G :
  snap_ok (ps_id victim) victim -> 0 <= t -> keeps k G ->
  keeps (set_player (ps_id victim) (updatedVictim victim t (t + CONFIG.respawnMs));;
         awaiting (appendEventInMem
           (EvHit attackerId (ps_id victim) imp (damaged victim) shotId));; k) G.
Proof.
  intros Hv Ht Hk. apply keeps_set_append; [|intros w Hw Hg; by eapply hit_pre|done].
  apply updatedVictim_ok; [done|]. unfold CONFIG.respawnMs. lia.
Qed.

Lemma keeps_frozenDead p : keeps (frozenDead p) (fun _ => True).
Proof. unfold frozenDead. ksteps. Qed.
#[local] Hint Resolve keeps_frozenDead : keeps.

Lemma keeps_findVictim shooter origin v0 players best :
  Forall (fun p => snap_ok (ps_id p) p) players ->
  (forall v t, best = Some (v, t) -> snap_ok (ps_id v) v) ->
  keeps (findVictim shooter origin v0 players best)
    (fun o => forall v t, o = Some (v, t) -> snap_ok (ps_id v) v).
Proof.
  revert best. induction players as [|p ps IH]; intros best Hf Hb; simpl; [by apply keeps_ret|].
  apply Forall_cons in Hf as [Hp Hf]. destruct (str_eqb (ps_id p) shooter); [by apply IH|].
  kstep. destruct a; [by apply IH|]. kstep. apply IH; [done|].
  intros v t. destruct (hitTime origin v0 a) as [th|]; [|by apply Hb].
  unfold better. destruct best as [[v' t']|]; [|intros; by simplify_eq].
  destruct (nltb th t'); intros; simplify_eq; [done|]. by eapply Hb.
Qed.

Lemma keeps_recordKill aid an vid vn sid : keeps (recordKillM aid an vid vn sid) (fun _ => True).
Proof.
  unfold recordKillM. kstep. kstep. intros w Hw. unfold runRecordKill.
  destruct (recordKill _ _ _ _ _ _ _ _) as [d [e|r]]; done.
Qed.
#[local] Hint Resolve keeps_recordKill : keeps.

Lemma keeps_snowball clientId msg : keeps (serverHandleSnowball clientId msg) (fun _ => True).
Proof.
  unfold serverHandleSnowball. destruct (isFiniteVec3 (prop_ok msg "dir")) as [d|]; [|ksteps].
  eapply (keeps_bind _ _ _ (fun _ => True)); [ksteps|]. intros shotId _.
  kstep. kstep; [ksteps|]. eapply keeps_bind; [apply keeps_get_player|]. intros [snap|] _; [|ksteps].
  kstep. kstep. eapply keeps_bind; [apply keeps_get_players|]. intros players Hps.
  eapply keeps_bind; [by apply keeps_findVictim|]. intros [[victim tv]|] Hv; [|ksteps].
  eapply keeps_bind; [apply keeps_now|]. intros t Ht. simpl in Ht.
  apply keeps_hit; [by eapply Hv|done|]. kstep; [|ksteps].
  kstep. kstep. eapply keeps_bind; [|intros; ksteps]. apply keeps_awaiting, keeps_append_harmless.
  cbn [harmless]. unfold CONFIG.respawnMs. lia.
Qed.

(** ** Bots *)

Lemma keeps_spawnLoop fuel :
  keeps (spawnLoop fuel) (fun xz => platform_ok -> fin (fst xz) = true /\ fin (snd xz) = true).
Proof.
  assert (L : forall r, (platform_ok -> between nzero (num_of_Z 1) r) -> platform_ok ->
    fin ((r - num_dec 5 1) * (CONFIG.MAP_HALF * num_dec 15 1))%num = true).
  { intros r Hr OK. specialize (Hr OK). eapply between_fin. between_rule. }
  induction fuel as [|fuel IH]; cbn [spawnLoop]; (eapply keeps_bind; [apply keeps_random|]; intros r1 Hr1;
    eapply keeps_bind; [apply keeps_random|]; intros r2 Hr2; cbv zeta; destruct (nltb _ _);
    [apply keeps_ret; intros OK; split; by apply L|]); [apply keeps_ret; intros OK; split; by apply L|exact IH].
Qed.

Lemma keeps_spawnPos : keeps getRandomSpawnPos (fun v => platform_ok -> cell_ok v).
Proof.
  unfold getRandomSpawnPos. eapply keeps_bind; [apply keeps_spawnLoop|]. intros [x z] Hxz. apply keeps_ret.
  intros OK. destruct (Hxz OK) as [Fx Fz]. cbn [fst snd] in *. pose proof (edge_in_map x Fx). pose proof (edge_in_map z Fz).
  split; [done|]. split; [done|]. by apply terrain_range.
Qed.

(** Where a bot may head for from [cur]. *)
Definition cur_ok (cur : Vec3) : Prop := platform_ok -> cell_ok cur.
Definition goal_ok (xz : num * num) : Prop := platform_ok -> in_map (fst xz) /\ in_map (snd xz).

Lemma goal_ok_stride cur angle d :
  cur_ok cur -> (platform_ok -> fin angle = true) -> (platform_ok -> between nzero (num_of_Z 70) d) ->
  goal_ok (within safeZone (vx cur + mcos angle * d)%num, within safeZone (vz cur + msin angle * d)%num).
Proof.
  intros Hc Ha Hd OK. destruct (Hc OK) as (Hx & Hz & _). specialize (Ha OK). specialize (Hd OK).
  split; apply safe_in_map, stride_fin; auto; [by apply (cos_range OK)|by apply (sin_range OK)].
Qed.

Lemma keeps_moveLoop cur fuel : cur_ok cur -> keeps (moveLoop cur fuel) goal_ok.
Proof.
  intros Hc. assert (L : forall r1 r2, (platform_ok -> between nzero (num_of_Z 1) r1) ->
    (platform_ok -> between nzero (num_of_Z 1) r2) ->
    goal_ok (within safeZone (vx cur + mcos (r1 * PI * num_of_Z 2) * (num_of_Z 10 + r2 * num_of_Z 20))%num,
             within safeZone (vz cur + msin (r1 * PI * num_of_Z 2) * (num_of_Z 10 + r2 * num_of_Z 20))%num)).
  { intros r1 r2 Hr1 Hr2. apply goal_ok_stride; [done| |]; intros OK; specialize (Hr1 OK); specialize (Hr2 OK).
    - eapply between_fin. between_rule.
    - bounds. }
  induction fuel as [|fuel IH]; cbn [moveLoop]; (eapply keeps_bind; [apply keeps_random|]; intros r1 Hr1;
    eapply keeps_bind; [apply keeps_random|]; intros r2 Hr2; cbv zeta; destruct (nltb _ _);
    [apply keeps_ret; by apply L|]); [apply keeps_ret; by apply L|exact IH].
Qed.

Lemma keeps_moveToCenter cur : cur_ok cur -> keeps (moveToCenter cur) goal_ok.
Proof.
  intros Hc. unfold moveToCenter. eapply keeps_bind; [apply keeps_random|]. intros r Hr. cbv zeta.
  set (angle := matan2 _ _).
  assert (Ha : platform_ok -> between (- PI) PI angle).
  { intros OK. destruct (Hc OK) as ([Fx _] & [Fz _] & _). apply (atan2_range OK); by rewrite fin_opp. }
  assert (Hd : platform_ok -> between nzero (num_of_Z 70) (num_of_Z 40 + r * num_of_Z 30)%num).
  { intros OK. specialize (Hr OK). bounds. }
  clearbody angle. destruct (nltb _ _).
  - eapply keeps_bind; [apply keeps_random|]. intros r' Hr'. apply keeps_ret. apply goal_ok_stride; [done| |done].
    intros OK. specialize (Ha OK). specialize (Hr' OK). eapply between_fin. between_rule.
  - apply keeps_ret. apply goal_ok_stride; [done| |done]. intros OK. specialize (Ha OK). by eapply between_fin.
Qed.

Lemma keeps_moveTarget cur : cur_ok cur -> keeps (getRandomMoveTarget cur) (fun v => platform_ok -> target_ok (Some v)).
Proof.
  intros Hc. unfold getRandomMoveTarget. cbv zeta. eapply (keeps_bind _ _ _ goal_ok).
  - destruct (_ || _); [by apply keeps_moveToCenter|by apply keeps_moveLoop].
  - intros [x z] Hg. apply keeps_ret. exact Hg.
Qed.

Lemma keeps_alloc v : (platform_ok -> cell_ok v) -> keeps (alloc_vec v) (fun _ => True).
Proof.
  intros Hv w (Hc & Hl & Hb). split; [done|]. split; [exact Hc|]. split; [exact Hl|]. intros OK.
  destruct (Hb OK) as [Hvs Hbs]. split; [|exact Hbs]. apply Forall_app. split; [done|]. repeat constructor; by apply Hv.
Qed.

Lemma keeps_store a v : (platform_ok -> cell_ok v) -> keeps (store_vec a v) (fun _ => True).
Proof.
  intros Hv. apply keeps_modify. intros w (Hc & Hl & Hb). split; [exact Hc|]. split; [exact Hl|]. intros OK.
  destruct (Hb OK) as [Hvs Hbs]. split; [|exact Hbs]. apply Forall_insert; auto.
Qed.

Lemma keeps_set_bot k b : (platform_ok -> bot_ok b) -> keeps (modify (fun w => set_bots (JMap.set k b (bots w)) w)) (fun _ => True).
Proof.
  intros Hb. apply keeps_modify. intros w (Hc & Hl & Hbs). split; [exact Hc|]. split; [exact Hl|]. intros OK.
  destruct (Hbs OK) as [H1' H2']. split; [exact H1'|]. apply JMap.all_set; auto.
Qed.

Lemma keeps_upd_bot k f : (forall b, platform_ok -> bot_ok b -> bot_ok (f b)) -> keeps (upd_bot k f) (fun _ => True).
Proof.
  intros Hf. apply keeps_modify. intros w Hw. destruct (JMap.get k (bots w)) as [b|] eqn:E; [|done].
  destruct Hw as (Hc & Hl & Hbs). split; [exact Hc|]. split; [exact Hl|]. intros OK. destruct (Hbs OK) as [H1' H2'].
  split; [exact H1'|]. apply JMap.all_set; [|done]. apply Hf; [done|]. exact (JMap.all_get _ _ _ _ H2' E).
Qed.

Lemma keeps_with_bot k f :
  (forall b, (platform_ok -> bot_ok b) -> keeps (f b) (fun _ => True)) -> keeps (with_bot k f) (fun _ => True).
Proof.
  intros Hf. unfold with_bot.
  eapply (keeps_bind _ _ _ (fun o => forall b, o = Some b -> platform_ok -> bot_ok b)).
  - apply keeps_gets. intros w (_ & _ & Hbs) b E OK. destruct (Hbs OK) as [_ H2']. exact (JMap.all_get _ _ _ _ H2' E).
  - intros [b|] Hb; [apply Hf; auto|by apply keeps_ret].
Qed.

Lemma zero_cell : cell_ok vec_zero.
Proof. by vm_compute. Qed.

Lemma cell_deref w a : bots_ok w -> platform_ok -> cell_ok (deref w (VRef a)).
Proof.
  intros Hb OK. destruct (Hb OK) as [Hv _]. cbn [deref]. destruct (vecs w !! a) as [v|] eqn:E; [|apply zero_cell].
  by eapply Forall_lookup in Hv.
Qed.

Lemma keeps_load a : keeps (load_vec a) cur_ok.
Proof. apply keeps_gets. intros w (_ & _ & Hb) OK. by apply cell_deref. Qed.

Lemma keeps_nearest p : keeps (findNearestPlayer p) (fun _ => True).
Proof. unfold findNearestPlayer. ksteps. Qed.
#[local] Hint Resolve keeps_nearest keeps_load : keeps.
#[local] Hint Extern 1 (Async.keeps _ (upd_bot _ _) _) => apply keeps_upd_bot; intros; assumption : keeps.

Lemma keeps_botShoot k target : keeps (botShoot k target) (fun _ => True).
Proof.
  apply keeps_with_bot. intros bot _. do 4 kstep.
  eapply keeps_bind; [apply keeps_get_players|]. intros players Hps.
  eapply keeps_bind; [by apply keeps_findVictim|]. intros [[victim tv]|] Hv; [|ksteps].
  eapply keeps_bind; [apply keeps_now|]. intros t Ht. simpl in Ht.
  apply keeps_hit; [by eapply Hv|done|]. apply keeps_seq; [|ksteps]. kstep; [|ksteps].
  eapply keeps_bind; [|intros; ksteps]. apply keeps_awaiting, keeps_append_harmless.
  cbn [harmless]. unfold CONFIG.respawnMs. lia.
Qed.
#[local] Hint Resolve keeps_botShoot : keeps.

Lemma keeps_respawnBot k snapshot t :
  snap_ok k snapshot -> keeps (respawnBot k snapshot t) (fun _ => True).
Proof.
  intros (Hid & _ & _ & Ht). unfold respawnBot. eapply keeps_bind; [apply keeps_spawnPos|]. intros spawn Hs.
  eapply keeps_bind; [by apply keeps_alloc|]. intros pos _.
  eapply keeps_bind; [apply keeps_alloc; intros _; apply zero_cell|]. intros vel _.
  apply keeps_seq; [by apply keeps_upd_bot|]. apply keeps_seq; [apply keeps_set_player|ksteps].
  split; [done|]. split; [done|]. split; [left; simpl; split; [lia|done]|].
  intros OK. destruct (Ht OK) as [_ Hv]. done.
Qed.

(** A bot's step: the velocity points to the target, the position stays on the
    map. *)
Lemma step_cells p v target :
  let dx := (vx target - vx p)%num in
  let dz := (vz target - vz p)%num in
  let dist := nsqrt (dx * dx + dz * dz)%num in
  platform_ok -> cell_ok p -> cell_ok v -> target_ok (Some target) -> (dist >? num_dec 5 1)%num = true ->
  let velx := (dx / dist * BOT_SPEED)%num in
  let velz := (dz / dist * BOT_SPEED)%num in
  let x := within CONFIG.MAP_HALF (vx p + velx * num_dec 5 2)%num in
  let z := within CONFIG.MAP_HALF (vz p + velz * num_dec 5 2)%num in
  cell_ok (mkVec3 velx (vy v) velz) /\ cell_ok (mkVec3 x (Bot.terrainHeight x z) z).
Proof.
  intros dx dz dist OK (Hpx & Hpz & _) (_ & _ & Hvy) [Htx Htz] Hd velx velz x z.
  assert (Hdx : between (- num_of_Z 380) (num_of_Z 380) dx) by (unfold dx, in_map in *; bounds).
  assert (Hdz : between (- num_of_Z 380) (num_of_Z 380) dz) by (unfold dz, in_map in *; bounds).
  pose proof (square_range dx Hdx) as Sx. pose proof (square_range dz Hdz) as Sz.
  assert (Hvx : in_map velx) by (apply velocity_range; auto).
  assert (Hvz : in_map velz) by (apply velocity_range; auto).
  clearbody velx velz. assert (in_map x /\ in_map z) as [Hx Hz].
  { unfold in_map in *. split; apply edge_in_map; eapply between_fin; between_rule. }
  split; [done|]. split; [done|]. split; [done|]. by apply terrain_range.
Qed.

Lemma keeps_stepBot k t : keeps (stepBot k t) (fun _ => True).
Proof.
  unfold stepBot. apply keeps_seq; apply keeps_with_bot; intros bot Hbot.
  - cbv zeta. destruct (_ || _); [|by apply keeps_ret]. eapply keeps_bind; [apply keeps_load|]. intros cur Hc.
    eapply keeps_bind; [by apply keeps_moveTarget|]. intros target Ht.
    apply keeps_seq; [apply keeps_upd_bot; intros b OK _; exact (Ht OK)|by apply keeps_upd_bot].
  - destruct (b_targetPos bot) as [target|] eqn:Et; [|by apply keeps_ret].
    assert (Htarget : platform_ok -> target_ok (Some target)) by (intros OK; rewrite <- Et; by apply Hbot).
    eapply keeps_bind; [apply keeps_load|]. intros p Hp. eapply keeps_bind; [apply keeps_load|]. intros v Hv. cbv zeta.
    destruct (nltb _ _) eqn:Ed.
    + apply keeps_seq; [apply keeps_store; intros OK; apply (step_cells p v target OK); auto|].
      apply keeps_seq; [by apply keeps_upd_bot|]. apply keeps_store. intros OK. apply (step_cells p v target OK); auto.
    + apply keeps_seq; [|by apply keeps_upd_bot]. apply keeps_store. intros OK. destruct (Hv OK) as (_ & _ & Hy).
      split; [by vm_compute|]. split; [by vm_compute|exact Hy].
Qed.

Lemma keeps_shootBot k t : keeps (shootBot k t) (fun _ => True).
Proof. apply keeps_with_bot. intros bot _. ksteps. Qed.

Lemma keeps_updateBot t k : keeps (updateBot t k) (fun _ => True).
Proof.
  unfold updateBot. eapply keeps_bind; [apply keeps_get_player|]. intros [snap|] Hp; [|ksteps].
  kstep; [by apply keeps_respawnBot|]. kstep; [ksteps|].
  apply keeps_seq; [apply keeps_stepBot|]. apply keeps_seq; [apply keeps_shootBot|].
  apply keeps_with_bot. intros bot _. destruct Hp as (Hid & Hm & Had & _).
  apply keeps_seq; [by apply keeps_set_player|ksteps].
Qed.

Lemma keeps_updateBots : keeps updateBots (fun _ => True).
Proof. unfold updateBots. ksteps. apply keeps_for_each. intros k _. apply keeps_updateBot. Qed.

Lemma keeps_initBot id name : keeps (initBot id name) (fun _ => True).
Proof.
  unfold initBot. eapply keeps_bind; [apply keeps_spawnPos|]. intros spawn Hs.
  eapply keeps_bind; [by apply keeps_alloc|]. intros pos _. kstep.
  eapply keeps_bind; [apply keeps_alloc; intros _; apply zero_cell|]. intros vel _. do 3 kstep. cbv zeta.
  apply keeps_seq; [by apply keeps_set_bot|]. kstep. apply keeps_set_player.
  split; [done|]. split; [done|]. split; [left; simpl; split; [lia|done]|done].
Qed.

(** ** The gateway *)

Lemma keeps_wsSend sid msg : keeps (wsSend sid msg) (fun _ => True).
Proof. unfold wsSend. ksteps. Qed.
Lemma keeps_wsSendAwait sid msg : keeps (wsSendAwait sid msg) (fun _ => True).
Proof. unfold wsSendAwait. ksteps. Qed.
Lemma keeps_sock_close sid : keeps (sock_close sid) (fun _ => True).
Proof. unfold sock_close. ksteps. Qed.
Lemma keeps_clearHello sid : keeps (clearHelloTimer sid) (fun _ => True).
Proof. unfold clearHelloTimer. ksteps. Qed.
#[local] Hint Resolve keeps_wsSend keeps_wsSendAwait keeps_sock_close keeps_clearHello
  keeps_chat keeps_state keeps_snowball keeps_rename keeps_onHello : keeps.

Lemma keeps_register sid snap t :
  snap_ok (ps_id snap) snap -> keeps (registerClient sid snap t) (fun _ => True).
Proof. intros Hs. unfold registerClient. ksteps. Qed.

Lemma keeps_hello sid msg t : keeps (onHello sid msg t) (fun _ => True).
Proof.
  unfold onHello. do 2 kstep. kstep; [ksteps|]. kstep.
  apply keeps_seq; [by apply keeps_register|].
  apply keeps_seq; [by apply keeps_awaiting, keeps_append_harmless|]. ksteps.
Qed.

Lemma keeps_ping c : keeps (onPing c) (fun _ => True).
Proof.
  unfold onPing. eapply keeps_bind; [apply keeps_get_player|]. intros o Ho.
  apply keeps_seq; [|ksteps]. destruct o as [p|]; ksteps.
Qed.
#[local] Hint Resolve keeps_hello keeps_ping : keeps.

Lemma keeps_dispatch addr c msg t : keeps (dispatch addr c msg t) (fun _ => True).
Proof. unfold dispatch. ksteps. Qed.
#[local] Hint Resolve keeps_dispatch : keeps.

Lemma keeps_onDecoded sid msg : keeps (onDecoded sid msg) (fun _ => True).
Proof. unfold onDecoded. ksteps. Qed.
#[local] Hint Resolve keeps_onDecoded : keeps.

Lemma keeps_handler e : keeps (server_handler e) (fun _ => True).
Proof.
  destruct e as [|sid data|sid|sid|sid n|i| | | | | |]; simpl.
  - unfold handleWs, startStateSyncOnce, startStateTickOnce. ksteps.
  - unfold onMessage. ksteps.
  - unfold onClose. ksteps.
  - unfold helloTimeout. ksteps.
  - ksteps.
  - unfold deliver. ksteps.
  - unfold cleanupPlayers. kstep. apply keeps_modify. intros w [[Hw Ha] Hl].
    split; [|done]. split; simpl; auto with snow.
  - unfold sweepShots. ksteps.
  - unfold stateSyncTurn. do 3 kstep; [ksteps|]. apply keeps_try; intros; ksteps.
  - unfold stateTickTurn. ksteps.
  - apply keeps_updateBots.
  - unfold killsCleanup. ksteps.
Qed.

Lemma init_world_inv : server_inv init_world.
Proof.
  split; [split; [apply JMap.wf_nil|apply JMap.all_nil]|].
  repeat split; simpl; try done; try constructor.
Qed.

(** [initBots] does not suspend. *)
Lemma start_world_inv : server_inv start_world.
Proof.
  unfold start_world, initBots.
  pose proof (keeps_for_each server_inv (combine BOT_IDS BOT_NAMES)
    (fun e => initBot (fst e) (snd e)) (fun e _ => keeps_initBot (fst e) (snd e)) _ init_world_inv) as Hk.
  destruct (for_each _ _ init_world) as [w r]. simpl.
  destruct r; simpl in Hk; tauto.
Qed.

Lemma server_reachable_inv s : server_reachable s -> server_inv (sys_world s).
Proof.
  intros Hr. eapply (reachable_inv server_handler server_inv); [|apply start_world_inv|exact Hr].
  intros e. eapply triple_post; [|apply keeps_handler]. simpl. tauto.
Qed.

End Invariant.
