(* ===== verification/ServerSteps.v ===== *)
(** * How the server's state evolves

    Relations between the state before and after any atomic segment of any
    handler, and so across any execution: sequence numbers and the clock only
    grow, what was handed to a socket stays handed, a closed socket stays
    closed, a client object keeps its identity, and the record of a recent
    shot is neither dropped nor overwritten.  The second part bounds what a
    client's own messages can do to the other players. *)

From S2P Require Import Prelude JsMap JsNum JsString JsValue Async Config Protocol ServerUtils.
From S2P Require Import Storage World Concrete State Game Bot Ws Scenario.

(** ** Sockets and client objects *)

(** Progress of one socket. *)
Definition sock_later (s s' : Sock) : Prop :=
  s_sent s `prefix_of` s_sent s' /\ (s_ready s <> OPEN -> s_ready s' <> OPEN) /\
  (s_ready s = CLOSED -> s_ready s' = CLOSED).

(** Progress of one client object. *)
Definition client_later (c c' : WSClient) : Prop :=
  c_id c' = c_id c /\ c_ws c' = c_ws c /\ c_connectedAt c' = c_connectedAt c.

#[export] Instance sock_later_pre : PreOrder sock_later.
Proof.
  split.
  - intros s. by split.
  - intros s1 s2 s3 (Hp & Ho & Hc) (Hp' & Ho' & Hc'). split; [by etrans|]. auto.
Qed.

#[export] Instance client_later_pre : PreOrder client_later.
Proof.
  split; [by intros c|]. intros c1 c2 c3 (H1 & H2 & H3) (H4 & H5 & H6).
  repeat split; congruence.
Qed.

(** Pointwise progress of a list that may also grow. *)
Definition grows {A} (R : A -> A -> Prop) (l l' : list A) : Prop :=
  forall i x, l !! i = Some x -> exists x', l' !! i = Some x' /\ R x x'.

#[export] Instance grows_pre {A} (R : A -> A -> Prop) `{!PreOrder R} : PreOrder (grows R).
Proof.
  split.
  - intros l i x Hx. by exists x.
  - intros l1 l2 l3 H1 H2 i x Hx. destruct (H1 i x Hx) as (y & Hy & Hxy).
    destruct (H2 i y Hy) as (z & Hz & Hyz). exists z. split; [done|by etrans].
Qed.

Lemma grows_app {A} (R : A -> A -> Prop) `{!PreOrder R} l l' : grows R l (l ++ l').
Proof. intros i x Hx. exists x. split; [by apply lookup_app_l_Some|done]. Qed.

Lemma grows_alter {A} (R : A -> A -> Prop) `{!PreOrder R} f i l :
  (forall x, l !! i = Some x -> R x (f x)) -> grows R l (alter f i l).
Proof.
  intros Hf j x Hx. destruct (decide (i = j)) as [->|Hne].
  - exists (f x). rewrite list_lookup_alter_eq, Hx. split; [done|by apply Hf].
  - exists x. by rewrite list_lookup_alter_ne by done.
Qed.

Section Steps.
Context `{Runtime} `{JsMath} `{SqlDriver} `{!ClockMono}.

(** ** The evolution relation *)

Record evolves (w w' : World) : Prop := {
  ev_latest : latestSeq w <= latestSeq w';
  ev_ticks : (ticks w <= ticks w')%nat;
  ev_clients : grows client_later (wsClients w) (wsClients w');
  ev_sockets : grows sock_later (sockets w) (sockets w');
  ev_shots : forall id e, JMap.get id (seenShots w) = Some e -> date_now (ticks w') < e ->
    JMap.get id (seenShots w') = Some e;
}.

#[export] Instance evolves_pre : PreOrder evolves.
Proof.
  split; [by split|]. intros w1 w2 w3 [A1 A2 A3 A4 A5] [B1 B2 B3 B4 B5].
  split; [lia|lia|by etrans|by etrans|].
  intros id e Hg He. apply B5; [|done]. apply A5; [done|].
  pose proof (clock_mono _ _ B2). lia.
Qed.

#[local] Abbreviation segs := (segs evolves).

(** Updates of other fields. *)
Ltac untouched := intros; split; simpl; try reflexivity; try lia; auto.

Lemma evolves_sock i f w :
  (forall s, sockets w !! i = Some s -> sock_later s (f s)) -> evolves w (upd_sock i f w).
Proof. intros Hf. split; simpl; try reflexivity; auto.
  apply grows_alter; [apply _|exact Hf].
Qed.

Lemma evolves_client a f w :
  (forall c, wsClients w !! a = Some c -> client_later c (f c)) -> evolves w (upd_client a f w).
Proof. intros Hf. split; simpl; try reflexivity; auto.
  apply grows_alter; [apply _|exact Hf].
Qed.

Lemma segs_now : segs now.
Proof. intros w. split; [|done]. untouched. Qed.
Lemma segs_random : segs random.
Proof. intros w. split; [|done]. untouched. Qed.
Lemma segs_uuid : segs randomUUID.
Proof. intros w. split; [|done]. untouched. Qed.
Lemma segs_alloc v : segs (alloc_vec v).
Proof. intros w. split; [|done]. untouched. Qed.

Lemma segs_ws_send i m : segs (ws_send i m).
Proof.
  intros w. unfold segs_at, ws_send. destruct (sockets w !! i) as [s|] eqn:E; [|done].
  destruct (ws_send_raises (s_ready s)); [done|]. split; [|done].
  apply evolves_sock. intros s' Hs'. split; [by apply prefix_app_r|done].
Qed.

#[local] Hint Resolve segs_now segs_random segs_uuid segs_alloc segs_ws_send : segs.
#[local] Hint Extern 2 (Async.segs _ (modify _)) => apply segs_modify; untouched : segs.

(** ** state.ts *)

Lemma segs_send_all keep m : segs (send_all keep m).
Proof. unfold send_all. ssteps. Qed.
#[local] Hint Resolve segs_send_all : segs.

Lemma segs_broadcast msg : segs (broadcast msg).
Proof. unfold broadcast. ssteps. Qed.
Lemma segs_droppable msg : segs (broadcastDroppable msg).
Proof. unfold broadcastDroppable. ssteps. Qed.
#[local] Hint Resolve segs_broadcast segs_droppable : segs.

Lemma segs_append body : segs (appendEventInMem body).
Proof. unfold appendEventInMem. ssteps. Qed.
Lemma segs_set_player k p : segs (set_player k p).
Proof. unfold set_player. ssteps. Qed.
Lemma segs_enqueue p : segs (enqueuePendingState p).
Proof. unfold enqueuePendingState. ssteps. Qed.
#[local] Hint Resolve segs_append segs_set_player segs_enqueue : segs.

(** ** game.ts *)

Lemma seenShot_at id w :
  seenShotBefore id w =
  (match JMap.get id (seenShots w) with
   | Some e => if negb (e =? 0) && (e >? date_now (ticks w)) then
                 (set_ticks (S (ticks w)) w, RDone true)
               else (set_seenShots (JMap.set id (date_now (ticks w) + SHOT_DEDUP_MS) (seenShots w))
                       (set_ticks (S (ticks w)) w), RDone false)
   | None => (set_seenShots (JMap.set id (date_now (ticks w) + SHOT_DEDUP_MS) (seenShots w))
                (set_ticks (S (ticks w)) w), RDone false)
   end).
Proof.
  unfold seenShotBefore, mbind, M_bind, now, gets. simpl.
  destruct (JMap.get id (seenShots w)) as [e|]; [|done].
  by destruct (negb (e =? 0) && (e >? date_now (ticks w))).
Qed.

(** Recording a shot whose record has expired touches no live record. *)
Lemma evolves_new_shot id w :
  (forall e, JMap.get id (seenShots w) = Some e -> e <= date_now (ticks w)) ->
  evolves w (set_seenShots (JMap.set id (date_now (ticks w) + SHOT_DEDUP_MS) (seenShots w))
               (set_ticks (S (ticks w)) w)).
Proof.
  intros Hold. split; simpl; try reflexivity; try lia. intros id' e Hg He.
  pose proof (clock_mono (ticks w) (S (ticks w)) ltac:(lia)).
  destruct (decide (id' = id)) as [->|Hne]; [pose proof (Hold e Hg); lia|].
  by rewrite JMap.get_set_ne.
Qed.

Lemma segs_seenShot id : segs (seenShotBefore id).
Proof.
  intros w. unfold segs_at. rewrite seenShot_at.
  destruct (JMap.get id (seenShots w)) as [e|] eqn:E.
  - destruct (negb (e =? 0) && (e >? date_now (ticks w))) eqn:Et.
    + split; [untouched|done].
    + split; [|done]. apply evolves_new_shot. intros e' He'. simplify_eq.
      pose proof (clock_pos (ticks w)). apply andb_false_iff in Et as [Et|Et]; zbool; lia.
  - split; [|done]. apply evolves_new_shot. congruence.
Qed.

Lemma segs_sweepShots : segs sweepShots.
Proof.
  intros w. split; [|done]. split; simpl; try reflexivity; try lia.
  intros id e Hg He. apply JMap.get_sweep_keep; [done|].
  pose proof (clock_mono (ticks w) (S (ticks w)) ltac:(lia)).
  apply Z.leb_gt. lia.
Qed.
#[local] Hint Resolve segs_seenShot segs_sweepShots : segs.

Lemma segs_spawn : segs randomSpawn.
Proof. unfold randomSpawn. ssteps. Qed.
#[local] Hint Resolve segs_spawn : segs.

Lemma segs_onHello name : segs (serverOnHello name).
Proof. unfold serverOnHello. ssteps. Qed.
Lemma segs_rename clientId raw : segs (serverHandleRename clientId raw).
Proof. unfold serverHandleRename. ssteps. Qed.
Lemma segs_chat clientId name msg : segs (serverHandleChat clientId name msg).
Proof. unfold serverHandleChat. ssteps. Qed.
Lemma segs_state clientId name msg : segs (serverHandleState clientId name msg).
Proof. unfold serverHandleState, respawnPlayer, movePlayer. ssteps. Qed.

Lemma segs_findVictim shooter origin v0 players best :
  segs (findVictim shooter origin v0 players best).
Proof. revert best. induction players; intros; simpl; unfold frozenDead; ssteps; auto. Qed.

Lemma segs_recordKill aid an vid vn sid : segs (recordKillM aid an vid vn sid).
Proof.
  unfold recordKillM. ssteps. intros w. unfold segs_at, runRecordKill.
  destruct (recordKill _ _ _ _ _ _ _ _) as [d [e|r]]; (split; [untouched|done]).
Qed.
#[local] Hint Resolve segs_onHello segs_rename segs_chat segs_state segs_findVictim
  segs_recordKill : segs.

Lemma segs_snowball clientId msg : segs (serverHandleSnowball clientId msg).
Proof. unfold serverHandleSnowball. ssteps. Qed.
#[local] Hint Resolve segs_snowball : segs.

(** ** bot.ts *)

Lemma segs_spawnLoop fuel : segs (spawnLoop fuel).
Proof. induction fuel; simpl; ssteps; auto. Qed.
Lemma segs_moveLoop cur fuel : segs (moveLoop cur fuel).
Proof. induction fuel; simpl; ssteps; auto. Qed.
#[local] Hint Resolve segs_spawnLoop segs_moveLoop : segs.

Lemma segs_upd_bot k f : segs (upd_bot k f).
Proof.
  apply segs_modify. intros w. destruct (JMap.get k (bots w)); untouched.
Qed.
#[local] Hint Resolve segs_upd_bot : segs.

Lemma segs_botShoot k target : segs (botShoot k target).
Proof. unfold botShoot, with_bot, load_vec. ssteps. Qed.
#[local] Hint Resolve segs_botShoot : segs.

Lemma segs_updateBots : segs updateBots.
Proof.
  unfold updateBots, updateBot, respawnBot, stepBot, shootBot, with_bot,
    getRandomSpawnPos, getRandomMoveTarget, moveToCenter, findNearestPlayer, load_vec, store_vec.
  ssteps.
Qed.

(** ** ws.ts *)

Lemma segs_wsSend sid msg : segs (wsSend sid msg).
Proof. unfold wsSend. ssteps. Qed.
Lemma segs_sock_close sid : segs (sock_close sid).
Proof.
  apply segs_modify. intros w. apply evolves_sock. intros s _.
  split; [done|]. destruct (s_ready s) eqn:E; simpl; rewrite ?E; naive_solver.
Qed.
Lemma segs_clearHello sid : segs (clearHelloTimer sid).
Proof. apply segs_modify. intros w. by apply evolves_sock. Qed.
#[local] Hint Resolve segs_updateBots segs_wsSend segs_sock_close segs_clearHello : segs.

Lemma segs_register sid snap t : segs (registerClient sid snap t).
Proof.
  unfold registerClient. ssteps; apply segs_modify; intros w.
  - split; simpl; try reflexivity; auto. apply grows_app; apply _.
  - by apply evolves_sock.
Qed.
#[local] Hint Resolve segs_register : segs.

Lemma segs_hello sid msg t : segs (onHello sid msg t).
Proof. unfold onHello, wsSendAwait. ssteps. Qed.
Lemma segs_ping c : segs (onPing c).
Proof. unfold onPing. ssteps. Qed.
#[local] Hint Resolve segs_hello segs_ping : segs.

Lemma segs_dispatch addr c msg t w :
  wsClients w !! addr = Some c -> segs_at evolves (dispatch addr c msg t) w.
Proof.
  intros Hc. unfold dispatch. cbv zeta.
  destruct (is_str (prop_ok msg "t") "ping"); [apply segs_ping|].
  destruct (is_str (prop_ok msg "t") "chat"); [apply (segs_awaiting _), segs_chat|].
  destruct (is_str (prop_ok msg "t") "state").
  - destruct (stateFreqOk c t) as [c' ok] eqn:E.
    apply segs_at_modify; [apply _| |destruct ok; [apply (segs_awaiting _), segs_state|apply segs_ret; apply _]].
    apply evolves_client. intros c0 Hc0. rewrite Hc in Hc0. simplify_eq.
    unfold stateFreqOk in E. destruct (_ <? _); by simplify_eq.
  - destruct (is_str (prop_ok msg "t") "snowball"); [apply (segs_awaiting _), segs_snowball|].
    destruct (is_str (prop_ok msg "t") "rename"); [|apply segs_ret; apply _].
    apply segs_at_modify; [apply _|by apply evolves_client|]. apply (segs_awaiting _), segs_rename.
Qed.

Lemma segs_onDecoded sid msg : segs (onDecoded sid msg).
Proof.
  unfold onDecoded. sstep; [ssteps|]. sstep; [ssteps|]. rename a0 into oaddr.
  destruct oaddr as [addr|]; [|ssteps]. intros w. apply segs_at_gets.
  destruct (wsClients w !! addr) as [c|] eqn:Hc; [|apply segs_ret; apply _].
  unfold rateLimitOk. destruct (if _ >? _ then _ else _) as [start count].
  apply segs_at_modify; [apply _| |].
  - apply evolves_client. intros c0 Hc0. rewrite Hc in Hc0. by simplify_eq.
  - destruct (negb _); [match goal with |- segs_at _ ?m _ => enough (Hs : segs m) by apply Hs end; ssteps|]. apply segs_dispatch. simpl.
    by rewrite list_lookup_alter_eq, Hc.
Qed.
#[local] Hint Resolve segs_onDecoded : segs.

Lemma segs_handler e : segs (server_handler e).
Proof.
  destruct e as [|sid data|sid|sid|sid n|i| | | | | |]; simpl.
  - unfold handleWs, startStateSyncOnce, startStateTickOnce. ssteps.
    apply segs_modify. intros w. split; simpl; try reflexivity; auto. apply grows_app; apply _.
  - unfold onMessage. ssteps.
  - unfold onClose. ssteps. apply segs_modify. intros w. by apply evolves_sock.
  - unfold helloTimeout. ssteps.
  - apply segs_modify. intros w. by apply evolves_sock.
  - unfold deliver. ssteps.
  - unfold cleanupPlayers. ssteps.
  - apply segs_sweepShots.
  - unfold stateSyncTurn. ssteps.
  - unfold stateTickTurn. ssteps.
  - apply segs_updateBots.
  - unfold killsCleanup. ssteps.
Qed.

(** ** The theorems *)


(** C7: A snowball is played at most once. A shot that is accepted is
    recorded for [SHOT_DEDUP_MS]; and once a shot is recorded with an expiry
    time, then until that time, in whatever state the server has come to, a
    snowball message with the same id from any client changes nothing but the
    clock counter. *)
Theorem shot_played_once id :
  (forall w, snd (seenShotBefore id w) = RDone false ->
     JMap.get id (seenShots (fst (seenShotBefore id w))) = Some (date_now (ticks w) + SHOT_DEDUP_MS)) /\
  (forall s s' expiry clientId msg,
     server_reachable s -> rtc (step server_handler) s s' ->
     JMap.get id (seenShots (sys_world s)) = Some expiry ->
     date_now (ticks (sys_world s')) < expiry ->
     isUuidLike (prop_ok msg "id") = Some id ->
     exists n, serverHandleSnowball clientId msg (sys_world s') =
       (set_ticks n (sys_world s'), RDone tt)).
Proof.
  split.
  - intros w Hnew. rewrite seenShot_at in *. destruct (JMap.get id (seenShots w)) as [e|];
      [destruct (_ && _); [done|]|]; simpl; apply JMap.get_set_eq.
  - intros s s' expiry clientId msg Hr Hsteps Hg Ht Hid.
    assert (Hg' : JMap.get id (seenShots (sys_world s')) = Some expiry).
    { eapply ev_shots; [|exact Hg|exact Ht].
      by eapply (steps_rel server_handler evolves segs_handler). }
    set (w := sys_world s') in *. unfold serverHandleSnowball.
    destruct (isFiniteVec3 (prop_ok msg "dir")) as [d|]; [|exists (ticks w); by destruct w].
    rewrite Hid. exists (S (ticks w)). unfold mbind, M_bind. cbn [mret M_ret bindr].
    pose proof (clock_pos (ticks w)). rewrite seenShot_at, Hg'.
    replace (negb (expiry =? 0) && (expiry >? date_now (ticks w))) with true; [done|].
    symmetry. apply andb_true_iff. split; [apply negb_true_iff, Z.eqb_neq|apply Z.gtb_lt]; lia.
Qed.

End Steps.


Lemma shot_played_once_witness :
  exists s s', server_reachable s /\ rtc (step server_handler) s s' /\
    exists n, serverHandleSnowball bob (default JNull (JMap.get (js "shoot") table)) (sys_world s') =
      (set_ticks n (sys_world s'), RDone tt).
Proof.
  destruct (run_check2_steps one_shot [says 1 "ping"; Resume 0]
    (shot_live (js "shot-0001")) ltac:(vm_compute; reflexivity)) as (s & s' & Hr & Hs & Hf).
  unfold shot_live in Hf. destruct (JMap.get (js "shot-0001") (seenShots (sys_world s))) as [e|] eqn:E; [|discriminate].
  exists s, s'. split; [exact Hr|]. split; [exact Hs|].
  apply (proj2 (shot_played_once (js "shot-0001")) s s' e); auto.
  apply Z.ltb_lt, Hf.
Defined.
