(* ===== verification/Isolation.v ===== *)
(** * What a client can do to the others

    A message handler acts on the player table under the id of its own client.
    Chatting, moving, renaming and pinging leave every other player's snapshot
    alone; a snowball can only take hit points from another player, and moves,
    renames or removes nobody. *)

From S2P Require Import Prelude JsMap JsNum JsString JsValue Async Config Protocol ServerUtils.
From S2P Require Import Storage World Concrete State Game HitTest Bot Ws Scenario.

Section Isolation.
Context `{Runtime} `{JsMath} `{SqlDriver}.

(** ** Messages other than snowballs *)

Definition others_same (id : jsstr) (w w' : World) : Prop :=
  forall k, k <> id -> JMap.get k (playersCache w') = JMap.get k (playersCache w).

#[export] Instance others_same_pre id : PreOrder (others_same id).
Proof.
  split; [by intros w k|]. intros w1 w2 w3 H12 H23 k Hk. by rewrite H23, H12.
Qed.

(** Segments that do not touch the player table at all. *)
Ltac table_untouched := intros; intros ? ?; reflexivity.
#[local] Hint Extern 2 (segs _ (modify _)) => apply segs_modify; table_untouched : segs.
#[local] Hint Extern 2 (segs _ now) => intros ?; split; [table_untouched|done] : segs.
#[local] Hint Extern 2 (segs _ random) => intros ?; split; [table_untouched|done] : segs.
#[local] Hint Extern 2 (segs _ randomUUID) => intros ?; split; [table_untouched|done] : segs.

Lemma same_ws_send id i m : segs (others_same id) (ws_send i m).
Proof.
  intros w. unfold segs_at, ws_send. destruct (sockets w !! i) as [s|]; [|done].
  by destruct (ws_send_raises (s_ready s)).
Qed.
#[local] Hint Resolve same_ws_send : segs.

Lemma same_broadcast id msg : segs (others_same id) (broadcast msg).
Proof. unfold broadcast, send_all. ssteps. Qed.
#[local] Hint Resolve same_broadcast : segs.

(** Events that concern one player. *)
Definition about_player (id : jsstr) (body : EventBody vref) : Prop :=
  match body with
  | EvJoin p => ps_id p = id
  | EvLeave k _ | EvState k _ _ _ _ | EvRename k _ | EvRespawn k _ _ => k = id
  | EvHit _ k _ _ _ | EvDeath k _ _ _ _ _ => k = id
  | EvChat _ _ _ | EvSnowball _ _ _ _ _ => True
  end.

Lemma upd_snap_ne k k' f m : k' <> k -> JMap.get k' (upd_snap k f m) = JMap.get k' m.
Proof. intros Hne. unfold upd_snap. destruct (JMap.get k m); [by apply JMap.get_set_ne|done]. Qed.

Lemma apply_others id ev m k :
  about_player id (ev_body ev) -> k <> id ->
  JMap.get k (applyEventToCache ev m) = JMap.get k m.
Proof.
  intros Ha Hk. unfold applyEventToCache.
  destruct (ev_body ev); simpl in Ha; subst; try done; try (by apply upd_snap_ne).
  - by apply JMap.get_set_ne.
  - by apply JMap.get_delete_ne.
Qed.

Lemma same_append id body :
  about_player id body -> segs (others_same id) (appendEventInMem body).
Proof.
  intros Hb. unfold appendEventInMem. ssteps. apply segs_modify. intros w k Hk. simpl.
  by apply (apply_others id).
Qed.

Lemma same_set_player id p : segs (others_same id) (set_player id p).
Proof. apply segs_modify. intros w k Hk. simpl. by apply JMap.get_set_ne. Qed.

#[local] Hint Resolve same_set_player : segs.
#[local] Hint Extern 2 (segs _ (appendEventInMem _)) => apply same_append; done : segs.

Lemma same_enqueue id p : segs (others_same id) (enqueuePendingState p).
Proof. unfold enqueuePendingState. ssteps. Qed.
Lemma same_wsSend id sid msg : segs (others_same id) (wsSend sid msg).
Proof. unfold wsSend. ssteps. Qed.
#[local] Hint Resolve same_enqueue same_wsSend : segs.

Lemma same_ping c : segs (others_same (c_id c)) (onPing c).
Proof. unfold onPing. ssteps. Qed.
Lemma same_chat id name msg : segs (others_same id) (serverHandleChat id name msg).
Proof. unfold serverHandleChat. ssteps. Qed.
Lemma same_rename id name : segs (others_same id) (serverHandleRename id name).
Proof. unfold serverHandleRename. ssteps. Qed.
Lemma same_state id name msg : segs (others_same id) (serverHandleState id name msg).
Proof. unfold serverHandleState, respawnPlayer, movePlayer, randomSpawn. ssteps. Qed.
#[local] Hint Resolve same_ping same_chat same_rename same_state : segs.

(** C6: A message that is not a snowball, handled for the client [c],
    leaves the snapshot of every other player exactly as it finds it, in every
    one of its atomic segments and whatever runs between them. *)
Theorem dispatch_isolated addr c msg t :
  is_str (prop_ok msg "t") "snowball" = false ->
  segs (others_same (c_id c)) (dispatch addr c msg t).
Proof. intros Hm. unfold dispatch. rewrite Hm. ssteps. Qed.

(** ** Snowballs *)

(** The table is keyed by player id, and hit points are not negative. *)
Definition keyed (w : World) : Prop :=
  JMap.wf (playersCache w) /\
  JMap.all (fun k p => ps_id p = k /\ 0 <= ps_hp p) (playersCache w).

(** [p'] is [p], perhaps with fewer hit points. *)
Definition harmed (p p' : PlayerSnapshot vref) : Prop :=
  ps_id p' = ps_id p /\ ps_name p' = ps_name p /\ ps_pos p' = ps_pos p /\ ps_rotY p' = ps_rotY p /\
  ps_vel p' = ps_vel p /\ ps_crouch p' = ps_crouch p /\ ps_pingMs p' = ps_pingMs p /\
  0 <= ps_hp p' <= ps_hp p.

Definition harm_only (w w' : World) : Prop :=
  keyed w -> keyed w' /\
  forall k, option_Forall2 harmed (JMap.get k (playersCache w)) (JMap.get k (playersCache w')).

Lemma harmed_trans p1 p2 p3 : harmed p1 p2 -> harmed p2 p3 -> harmed p1 p3.
Proof. unfold harmed. intuition (congruence || lia). Qed.

Lemma keyed_get w k p : keyed w -> JMap.get k (playersCache w) = Some p -> ps_id p = k /\ 0 <= ps_hp p.
Proof. intros [_ Ha]. apply (JMap.all_get _ _ _ _ Ha). Qed.

#[export] Instance harm_only_pre : PreOrder harm_only.
Proof.
  split.
  - intros w Hw. split; [done|]. intros k. destruct (JMap.get k (playersCache w)) as [p|] eqn:E;
      constructor. destruct (keyed_get _ _ _ Hw E). unfold harmed. repeat split; lia || done.
  - intros w1 w2 w3 H12 H23 K1. destruct (H12 K1) as [K2 A]. destruct (H23 K2) as [K3 B].
    split; [done|]. intros k. specialize (A k). specialize (B k).
    destruct A as [p1 p2 A|]; inversion B; subst; constructor; eauto using harmed_trans.
Qed.

(** A state with the same table. *)
Lemma harm_same w w' : playersCache w' = playersCache w -> harm_only w w'.
Proof.
  intros E Hw. destruct (reflexivity (R:=harm_only) w Hw) as [_ A].
  unfold keyed. rewrite E. split; [exact Hw|exact A].
Qed.

(** Storing a harmed version of the snapshot that is there. *)
Lemma harm_set w w' k p p' :
  (keyed w -> JMap.get k (playersCache w) = Some p /\ harmed p p') ->
  playersCache w' = JMap.set k p' (playersCache w) -> harm_only w w'.
Proof.
  intros Hp E Hw. destruct (Hp Hw) as [Hg Hh]. destruct (keyed_get _ _ _ Hw Hg) as [Hk _]. unfold keyed. rewrite E. split.
  - destruct Hw as [Hwf Ha]. split; [auto with snow|]. apply JMap.all_set; [|done].
    destruct Hh as (Hid & _ & _ & _ & _ & _ & _ & Hhp). split; [congruence|lia].
  - intros k'. destruct (reflexivity (R:=harm_only) w Hw) as [_ A]. specialize (A k').
    destruct (decide (k' = k)) as [->|Hne].
    + rewrite JMap.get_set_eq, Hg. by constructor.
    + by rewrite JMap.get_set_ne.
Qed.

Ltac table_same := intros; apply harm_same; reflexivity.
#[local] Hint Extern 3 (segs harm_only (modify _)) => apply segs_modify; table_same : segs.
#[local] Hint Extern 1 (segs harm_only now) => intros ?; split; [table_same|done] : segs.
#[local] Hint Extern 1 (segs harm_only randomUUID) => intros ?; split; [table_same|done] : segs.

Lemma harm_ws_send i m : segs harm_only (ws_send i m).
Proof.
  intros w. unfold segs_at, ws_send. destruct (sockets w !! i) as [s|]; [|done].
  destruct (ws_send_raises (s_ready s)); (split; [table_same|done]).
Qed.
#[local] Hint Resolve harm_ws_send : segs.

Lemma harm_broadcast msg : segs harm_only (broadcast msg).
Proof. unfold broadcast, send_all. ssteps. Qed.
#[local] Hint Resolve harm_broadcast : segs.

Lemma harm_append body w :
  harm_only w (append_world body w) -> segs_at harm_only (appendEventInMem body) w.
Proof.
  intros Hh. unfold segs_at. rewrite append_unfold.
  assert (Hs : forall ev, segs harm_only (awaiting (broadcast (SEvent ev)) ≫= fun _ => mret ev))
    by (intros; ssteps).
  specialize (Hs (mkEvent (latestSeq w + 1) (date_now (ticks w)) body) (append_world body w)).
  unfold segs_at in Hs.
  match type of Hs with let '(_, _) := ?x in _ => destruct x as [w' r] end.
  destruct Hs as [H' Hr]. split; [by etrans|done].
Qed.

Lemma harm_append_awaiting {A} body (k : WorldEvent vref -> M World A) w :
  harm_only w (append_world body w) -> (forall e, segs harm_only (k e)) ->
  segs_at harm_only (awaiting (appendEventInMem body) ≫= k) w.
Proof.
  intros Hh Hk. apply segs_at_bind; [apply _| |done]. apply segs_at_bind; [apply _| |intros; ssteps].
  by apply harm_append.
Qed.

Lemma harm_snowball_event shotId shooter o d sp :
  segs harm_only (appendEventInMem (EvSnowball shotId shooter o d sp)).
Proof. intros w. apply harm_append. by apply harm_same. Qed.

Lemma harm_death v vn a an shotId r : segs harm_only (appendEventInMem (EvDeath v vn a an shotId r)).
Proof.
  intros w. apply harm_append. destruct (JMap.get v (playersCache w)) as [p|] eqn:E.
  - eapply harm_set; [|unfold append_world, append_sync, applyEventToCache, upd_snap; simpl;
      rewrite E; reflexivity].
    intros Hw. split; [exact E|]. destruct (keyed_get _ _ _ Hw E).
    unfold harmed. simpl. repeat split; lia || done.
  - apply harm_same. unfold append_world, append_sync, applyEventToCache, upd_snap. simpl.
    by rewrite E.
Qed.

Lemma harm_seenShot id : segs harm_only (seenShotBefore id).
Proof. unfold seenShotBefore. ssteps. Qed.

Lemma harm_recordKill aid an vid vn sid : segs harm_only (recordKillM aid an vid vn sid).
Proof.
  unfold recordKillM. ssteps. intros w. unfold segs_at, runRecordKill.
  destruct (recordKill _ _ _ _ _ _ _ _) as [d [e|r]]; (split; [table_same|done]).
Qed.
#[local] Hint Resolve harm_snowball_event harm_death harm_seenShot harm_recordKill : segs.

(** A victim found in the table, damaged and announced. *)
Lemma harm_hit {A} attacker victim imp shotId t r (k : WorldEvent vref -> M World A) w :
  (keyed w -> JMap.get (ps_id victim) (playersCache w) = Some victim) ->
  (forall e, segs harm_only (k e)) ->
  segs_at harm_only (set_player (ps_id victim) (updatedVictim victim t r);;
    (awaiting (appendEventInMem (EvHit attacker (ps_id victim) imp (damaged victim) shotId)) ≫= k)) w.
Proof.
  intros Hg Hk. apply segs_at_modify; [apply _| |apply harm_append_awaiting; [|done]].
  - eapply harm_set; [|reflexivity]. intros Hw. split; [by apply Hg|].
    destruct (keyed_get _ _ _ Hw (Hg Hw)) as [_ Hhp].
    unfold harmed, updatedVictim, damaged, CONFIG.damage. simpl. repeat split; lia || done.
  - eapply harm_set; [|unfold append_world, append_sync, applyEventToCache, upd_snap; simpl;
      rewrite JMap.get_set_eq; reflexivity].
    intros _. split; [apply JMap.get_set_eq|].
    unfold harmed, updatedVictim, damaged, CONFIG.damage. simpl. repeat split; lia || done.
Qed.

Lemma keyed_values w p :
  keyed w -> p ∈ JMap.values (playersCache w) -> JMap.get (ps_id p) (playersCache w) = Some p.
Proof.
  intros [Hwf Ha] ([k p'] & -> & Hin)%list_elem_of_fmap. simpl.
  pose proof (JMap.elem_of_get _ _ _ Hwf Hin) as Hg.
  by destruct (JMap.all_get _ _ _ _ Ha Hg) as [-> _].
Qed.

(** The scan, and what a hit leads to. *)
Lemma harm_shot {A} shooter origin v0 (k : option hit -> M World A) w :
  (forall o w', playersCache w' = playersCache w ->
     (forall v t, o = Some (v, t) -> v ∈ JMap.values (playersCache w)) -> segs_at harm_only (k o) w') ->
  segs_at harm_only (players ← gets (fun w => JMap.values (playersCache w));
                     best ← findVictim shooter origin v0 players None; k best) w.
Proof.
  intros Hk. apply segs_at_gets.
  destruct (findVictim_earliest w shooter origin v0 (JMap.values (playersCache w)) (ticks w) None [])
    as (n & o & Hr & Ho); [by intros p []%elem_of_nil|].
  replace (set_ticks (ticks w) w) with w in Hr by (by destruct w).
  eapply segs_at_done; [apply _|exact Hr|by apply harm_same|]. apply Hk; [done|].
  intros v t ->. destruct Ho as (l1 & l2 & E & _). simpl in E. rewrite E.
  apply elem_of_app. right. left.
Qed.

(** C5: All a snowball message can do to the players it does not come
    from, and to its sender, is to take hit points: in every atomic segment of
    its handler, from any table keyed by id with nonnegative hit points, the
    same players are listed, each with the same name, position, rotation,
    velocity, stance and ping, and with no more hit points than before. *)
Theorem snowball_harm_only clientId msg :
  segs harm_only (serverHandleSnowball clientId msg).
Proof.
  unfold serverHandleSnowball. destruct (isFiniteVec3 (prop_ok msg "dir")) as [d|]; [|ssteps].
  sstep; [ssteps|]. sstep; [ssteps|]. sstep; [ssteps|]. sstep; [ssteps|].
  destruct a0 as [snap|]; [|ssteps]. sstep; [ssteps|]. sstep; [ssteps|].
  intros w. apply harm_shot. intros o w' Ew Hv.
  destruct o as [[victim tv]|]; [|apply segs_ret, _].
  eapply segs_at_done; [apply _|reflexivity|by apply harm_same|]. apply harm_hit.
  - intros Hw. apply keyed_values; [done|]. simpl. rewrite Ew. by eapply Hv.
  - intros e. ssteps.
Qed.

End Isolation.

Lemma dispatch_isolated_witness :
  segs (others_same alice)
    (dispatch 0 (mkClient alice JNull 0 0 0 0 0) (default JNull (JMap.get (js "move") table)) 5000).
Proof.
  apply (dispatch_isolated 0 (mkClient alice JNull 0 0 0 0 0)). vm_compute. reflexivity.
Defined.
