(* ===== verification/ServerThms.v ===== *)
(** * Properties of the server

    The invariants of [ServerInv] read off for every reachable state, the
    behaviour of the state handler on each of its branches, and schedules that
    lead the server, as written, into states its comments rule out. *)

From S2P Require Import Prelude JsMap JsNum Rounding JsString JsValue Async Config Protocol ServerUtils.
From S2P Require Import Storage World Concrete State Game Bot BotMath Ws Scenario ServerInv.

Section Reachable.
Context `{Runtime} `{JsMath} `{SqlDriver} `{!ClockMono}.

(** C1: In every state the server can reach, whatever the order of
    connections, messages, timers, bot turns and resumptions, the player table
    lists every player once under its own id, and each player is either alive,
    with between 10 and 100 hit points in steps of the damage and no respawn
    time, or dead, with no hit points and a respawn time. *)
Theorem players_alive_or_dead s :
  server_reachable s ->
  JMap.wf (playersCache (sys_world s)) /\
  forall k p, JMap.get k (playersCache (sys_world s)) = Some p ->
    ps_id p = k /\ ps_hp p mod CONFIG.damage = 0 /\ alive_or_dead (ps_hp p) (ps_deadUntil p).
Proof.
  intros Hr. destruct (server_reachable_inv s Hr) as [[Hwf Ha] _]. split; [done|].
  intros k p Hg. destruct (JMap.all_get _ _ _ _ Ha Hg) as (H1' & H2' & H3' & _). done.
Qed.

(** C2: Whatever JSON the clients send and wherever the bots walk, the numbers in
    the player table are numbers: in every reachable state each player's
    position has finite coordinates within the map's limits, its velocity is
    finite, and so is the rotation of every player that is not a bot. *)
Theorem players_typed s k p :
  platform_ok -> server_reachable s -> JMap.get k (playersCache (sys_world s)) = Some p ->
  on_map (deref (sys_world s) (ps_pos p)) /\ finite_vec (deref (sys_world s) (ps_vel p)) /\
  (forall pos, ps_pos p = VVal pos -> isFinite (ps_rotY p) = true).
Proof.
  intros OK Hr Hg. destruct (server_reachable_inv s Hr) as ([_ Ha] & _ & Hb).
  destruct (JMap.all_get _ _ _ _ Ha Hg) as (_ & _ & _ & Ht). destruct (Ht OK) as [Hp Hv].
  split; [|split].
  - destruct (ps_pos p) as [pos|a]; [tauto|]. by apply cell_on_map, cell_deref.
  - destruct (ps_vel p) as [vel|a]; [done|]. by apply cell_on_map, cell_deref.
  - intros pos E. rewrite E in Hp. tauto.
Qed.

(** C4: In every reachable state the event log is a suffix of the event
    stream: its sequence numbers are consecutive and end at [latestSeq], its
    time stamps do not decrease, no event is from the future, and none is more
    than [EVENT_MS] older than the newest. *)
Theorem event_log_window s :
  server_reachable s ->
  let w := sys_world s in
  lastSeenSeq w = latestSeq w /\
  (forall i e, events w !! i = Some e ->
     ev_seq e = latestSeq w - Z.of_nat (length (events w)) + 1 + Z.of_nat i) /\
  nondecreasing (map ev_at (events w)) /\
  Forall (fun e => ev_at e <= date_now (ticks w)) (events w) /\
  (forall newest, last (events w) = Some newest ->
     Forall (fun e => ev_at newest - TTL.EVENT_MS <= ev_at e) (events w)).
Proof.
  intros Hr w. destruct (server_reachable_inv s Hr) as (_ & (L1 & L2 & L3 & L4 & L5 & L6) & _). done.
Qed.

End Reachable.

Lemma concrete_platform : platform_ok.
Proof.
  constructor.
  - intros i. split; [|split]; by vm_compute.
  - intros x _. split; [|split]; by vm_compute.
  - intros x _. split; [|split]; by vm_compute.
  - intros y x _ _. split; [|split]; by vm_compute.
  - intros x Hx. eapply between_weaken; [exact Hx|evaluate..].
  - done.
Qed.

Lemma players_typed_witness :
  exists s p, server_reachable s /\ JMap.get bob (playersCache (sys_world s)) = Some p /\
    on_map (deref (sys_world s) (ps_pos p)).
Proof.
  destruct (run_check_reachable one_shot (hp_is bob 90) ltac:(vm_compute; reflexivity)) as (s & Hr & Hhp).
  apply hp_is_true in Hhp. unfold hp_of in Hhp.
  destruct (JMap.get bob (playersCache (sys_world s))) as [p|] eqn:E; [|discriminate Hhp].
  exists s, p. split; [exact Hr|]. split; [exact E|].
  apply (players_typed s bob p); [exact concrete_platform|exact Hr|exact E].
Defined.

Lemma players_alive_or_dead_witness :
  exists s, server_reachable s /\ hp_of bob s = Some 90 /\
    forall k p, JMap.get k (playersCache (sys_world s)) = Some p ->
      alive_or_dead (ps_hp p) (ps_deadUntil p).
Proof.
  destruct (run_check_reachable one_shot (hp_is bob 90) ltac:(vm_compute; reflexivity))
    as (s & Hr & Hhp).
  apply hp_is_true in Hhp. exists s. split; [exact Hr|]. split; [exact Hhp|].
  intros k p Hg. apply (proj2 (players_alive_or_dead s Hr) k p Hg).
Defined.

Lemma event_log_window_witness :
  exists s, server_reachable s /\ latestSeq (sys_world s) = 4 /\
    lastSeenSeq (sys_world s) = latestSeq (sys_world s).
Proof.
  destruct (run_check_reachable one_shot (fun s => latestSeq (sys_world s) =? 4)
    ltac:(vm_compute; reflexivity)) as (s & Hr & Hl).
  apply Z.eqb_eq in Hl. exists s. split; [exact Hr|]. split; [exact Hl|].
  exact (proj1 (event_log_window s Hr)).
Defined.

(** ** The state handler *)

(** The content of a [state] message the server acts on: position, rotation,
    velocity and stance. *)
Definition stateContent (msg : jsval) : option (Vec3 * num * Vec3 * bool) :=
  match isFiniteVec3 (prop_ok msg "pos"), prop_ok msg "rotY" with
  | Some pos, JNum rotY =>
      if isFinite rotY && negb (outOfMap pos)
      then Some (pos, rotY,
                 default vec_zero (isFiniteVec3 (prop_ok msg "vel")), truthy (prop_ok msg "crouch"))
      else None
  | _, _ => None
  end.

Section StateHandler.
Context `{Runtime} `{JsMath} `{SqlDriver}.

(** C11: What a [state] message does. One without a finite position and
    rotation, or with a position outside the map, changes nothing. A player
    who is dead and whose respawn time has not come only advances the clock
    counter. One whose respawn time has come is back at a spawn point with 100
    hit points under the old name, and a [respawn] event is logged before the
    handler suspends; the reported position is ignored. Otherwise the player
    moves to the reported position under the connection's name, and keeps hit
    points and respawn time. *)
Theorem serverHandleState_spec id name msg w :
  let '(w', r) := serverHandleState id name msg w in
  let t := date_now (ticks w) in
  match stateContent msg, JMap.get id (playersCache w) with
  | None, _ => w' = w /\ r = RDone tt
  | Some (pos, rotY, vel, crouch), Some p =>
      if (ps_hp p <=? 0) && (default 0 (ps_deadUntil p) >? t) then
        w' = set_ticks (S (ticks w)) w /\ r = RDone tt
      else if ps_hp p <=? 0 then
        (exists x z p', JMap.get id (playersCache w') = Some p' /\
           ps_pos p' = VVal (mkVec3 x (num_of_Z 0) z) /\ ps_hp p' = 100 /\ ps_deadUntil p' = Some 0 /\
           ps_name p' = ps_name p /\ ps_rotY p' = rotY) /\
        latestSeq w' = latestSeq w + 1 /\ exists k, r = RAwait k
      else
        playersCache w' = JMap.set id (mkSnap id name (VVal pos) rotY (VVal vel) (ps_hp p) crouch
          (Some (default 0 (ps_deadUntil p))) t (pingOf msg (ps_pingMs p))) (playersCache w) /\
        latestSeq w' = latestSeq w /\ r = RDone tt
  | Some (pos, rotY, vel, crouch), None =>
      playersCache w' = JMap.set id (mkSnap id name (VVal pos) rotY (VVal vel) 100 crouch
        (Some 0) t (pingOf msg None)) (playersCache w) /\
      latestSeq w' = latestSeq w /\ r = RDone tt
  end.
Proof.
  unfold serverHandleState, stateContent.
  destruct (isFiniteVec3 (prop_ok msg "pos")) as [pos|]; [|by simpl].
  destruct (prop_ok msg "rotY") as [| | |rotY| | |]; try (by simpl).
  destruct (isFinite rotY); [|by simpl]. destruct (outOfMap pos); [by simpl|]. simpl.
  unfold mbind, M_bind, gets. simpl.
  destruct (JMap.get id (playersCache w)) as [p|] eqn:Ep; [|by simpl].
  destruct (ps_hp p <=? 0) eqn:Ehp; simpl; [|by simpl].
  destruct (default 0 (ps_deadUntil p) >? date_now (ticks w)) eqn:Ed; simpl; [done|].
  replace (default 0 (ps_deadUntil p) <=? date_now (ticks w)) with true
    by (symmetry; apply Z.leb_le; zbool; lia).
  split; [|split; [done|by eexists]].
  do 3 eexists. simpl. unfold applyEventToCache, upd_snap. simpl.
  rewrite !JMap.get_set_eq. simpl. done.
Qed.

End StateHandler.

(** ** Schedules *)


(** A [hello] whose name is not a string raises a [TypeError] that
    no handler catches. *)
Theorem hello_numeric_name_uncaught :
  exists s, server_reachable s /\ match sys_uncaught s with [TypeError] => true | _ => false end = true.
Proof. apply (run_check_reachable numeric_name). vm_compute. reflexivity. Qed.


(** Two [hello] messages decoded back to back on one socket
    register two clients; closing the socket removes the second only, and the
    first stays registered on a closed socket. *)
Theorem double_hello_leaves_ghost :
  exists s, server_reachable s /\ has_ghost alice s && negb (has_ghost bob s) = true.
Proof. apply (run_check_reachable double_hello). vm_compute. reflexivity. Qed.

