(* ===== verification/StorageThms.v ===== *)
(** * Properties of the persistence layer

    The aggregated statistics are the totals over the whole history of kills,
    also after old rows have been deleted, and the leaderboards list the top
    rows in descending order. *)

From S2P Require Import Prelude JsMap JsNum JsString JsValue Storage World Concrete.
From Stdlib Require Import Sorting.Permutation Sorting.Sorted.

(** ** Statistics *)

(** One use of the database by the server. *)
Inductive DbOp :=
| OpKill (id : jsstr) (timestamp : Z) (attackerId : jsstr) (attackerName : jsval)
    (victimId : jsstr) (victimName : jsval) (shotId : jsstr)
| OpCleanup (now : Z).

(** Kills of, and deaths of, the player called [n] in [h]. *)
Definition deaths_of (n : jsstr) (h : list KillRecord) : Z :=
  Z.of_nat (length (List.filter (fun r => str_eqb (k_victimName r) n) h)).

(** Is [n] mentioned in [h]? *)
Definition mentioned (n : jsstr) (h : list KillRecord) : bool :=
  existsb (fun r => str_eqb (k_attackerName r) n || str_eqb (k_victimName r) n) h.

Lemma filter_snoc {A} (f : A -> bool) l x :
  List.filter f (l ++ [x]) = List.filter f l ++ (if f x then [x] else []).
Proof. rewrite List.filter_app. simpl. by destruct (f x). Qed.

Lemma kills_of_snoc n h r :
  kills_of n (h ++ [r]) = kills_of n h + (if str_eqb (k_attackerName r) n then 1 else 0).
Proof. unfold kills_of. rewrite filter_snoc, length_app. destruct (str_eqb _ _); simpl; lia. Qed.

Lemma kills_of_pos n h : 0 < kills_of n h <-> n ∈ map k_attackerName h.
Proof.
  unfold kills_of. induction h as [|r h IH]; simpl.
  - rewrite elem_of_nil. lia.
  - rewrite elem_of_cons, <- IH. unfold str_eqb. case_bool_decide; simpl; [|naive_solver].
    split; [by left|lia].
Qed.

Lemma deaths_of_snoc n h r :
  deaths_of n (h ++ [r]) = deaths_of n h + (if str_eqb (k_victimName r) n then 1 else 0).
Proof. unfold deaths_of. rewrite filter_snoc, length_app. destruct (str_eqb _ _); simpl; lia. Qed.

Lemma mentioned_snoc n h r :
  mentioned n (h ++ [r]) =
  mentioned n h || (str_eqb (k_attackerName r) n || str_eqb (k_victimName r) n).
Proof. unfold mentioned. rewrite existsb_app. simpl. by rewrite orb_false_r. Qed.

Lemma unmentioned_kills n h : mentioned n h = false -> kills_of n h = 0 /\ deaths_of n h = 0.
Proof.
  induction h as [|r h IH]; [done|]. unfold mentioned, kills_of, deaths_of in *. simpl.
  intros [[Ha Hv]%orb_false_iff Hh]%orb_false_iff. rewrite Ha, Hv. auto.
Qed.

Section Stats.
Context `{SqlDriver}.

(** The database and, as a ghost, every kill ever recorded. *)
Definition dbStep (s : Db * list KillRecord) (op : DbOp) : Db * list KillRecord :=
  match op with
  | OpKill id ts aid an vid vn sid =>
      let '(d, r) := recordKill id ts aid an vid vn sid (fst s) in
      (d, match r with inr k => snd s ++ [k] | inl _ => snd s end)
  | OpCleanup now => (fst (cleanupOldKills now (fst s)), snd s)
  end.

Definition dbRun (ops : list DbOp) : Db * list KillRecord := foldl dbStep (mkDb [] [], []) ops.

Definition totals (d : Db) (h : list KillRecord) : Prop :=
  forall n, match getPlayerStats n d with
            | Some st => mentioned n h = true /\ st_kills st = kills_of n h /\ st_deaths st = deaths_of n h
            | None => mentioned n h = false
            end.

(** The rows still in the table are those of the history that no cleanup has
    found expired. *)
Definition rows_kept (d : Db) (h : list KillRecord) : Prop :=
  db_kills d `sublist_of` h.

Lemma getStats_upsert n name k dd ls pid d :
  getPlayerStats n (upsertStatsStmt name k dd ls pid d) =
  if decide (n = name) then
    Some (match getPlayerStats name d with
          | Some s => mkStats (st_kills s + k) (st_deaths s + dd) ls pid
          | None => mkStats k dd ls pid
          end)
  else getPlayerStats n d.
Proof. unfold getPlayerStats, upsertStatsStmt. simpl. by rewrite JMap.get_set. Qed.

(** One recorded kill, on the totals. *)
Lemma totals_kill d h r kills' :
  totals d h ->
  totals (upsertStatsStmt (k_victimName r) 0 1 (k_timestamp r) (k_victimId r)
            (upsertStatsStmt (k_attackerName r) 1 0 (k_timestamp r) (k_attackerId r)
               (mkDb kills' (db_stats d)))) (h ++ [r]).
Proof.
  intros Ht n. rewrite !getStats_upsert, mentioned_snoc, kills_of_snoc, deaths_of_snoc.
  change (getPlayerStats ?x (mkDb kills' (db_stats d))) with (getPlayerStats x d).
  unfold str_eqb.
  pose proof (Ht n) as Hn. pose proof (Ht (k_victimName r)) as Hv.
  pose proof (Ht (k_attackerName r)) as Ha.
  pose proof (unmentioned_kills n h) as Hu.
  destruct (decide (n = k_victimName r)) as [->|Hnv];
    [rewrite (bool_decide_eq_true_2 (k_victimName r = k_victimName r)) by done
    |rewrite (bool_decide_eq_false_2 (k_victimName r = n)) by done].
  - destruct (decide (k_victimName r = k_attackerName r)) as [E|E].
    + rewrite <- E in *. rewrite bool_decide_eq_true_2 by done.
      destruct (getPlayerStats (k_victimName r) d) as [st|]; simpl;
        [destruct Hn as (Hm & -> & ->)|rewrite Hn in *; destruct (Hu eq_refl) as [-> ->]];
        rewrite ?orb_true_r; repeat split; lia || done.
    + rewrite bool_decide_eq_false_2 by done.
      destruct (getPlayerStats (k_victimName r) d) as [st|]; simpl;
        [destruct Hn as (Hm & -> & ->)|rewrite Hn in *; destruct (Hu eq_refl) as [-> ->]];
        rewrite ?orb_true_r; repeat split; lia || done.
  - destruct (decide (n = k_attackerName r)) as [->|Hna].
    + rewrite bool_decide_eq_true_2 by done.
      destruct (getPlayerStats (k_attackerName r) d) as [st|]; simpl;
        [destruct Hn as (Hm & -> & ->)|rewrite Hn in *; destruct (Hu eq_refl) as [-> ->]];
        rewrite ?orb_true_r; repeat split; lia || done.
    + rewrite bool_decide_eq_false_2 by done.
      destruct (getPlayerStats n d) as [st|]; rewrite !orb_false_r, ?Z.add_0_r; done.
Qed.

(** C13: Whatever the sequence of recorded kills, failed inserts and
    monthly cleanups, the statistics kept per name are exactly the number of
    kills and deaths under that name over the whole history, a name has a row
    exactly when it ever killed or died, and the rows left in [kills] are a
    subsequence of that history. *)
Theorem stats_are_totals ops :
  let '(d, h) := dbRun ops in totals d h /\ rows_kept d h.
Proof.
  unfold dbRun. assert (Hgen : forall s, totals (fst s) (snd s) /\ rows_kept (fst s) (snd s) ->
    totals (fst (foldl dbStep s ops)) (snd (foldl dbStep s ops)) /\
    rows_kept (fst (foldl dbStep s ops)) (snd (foldl dbStep s ops))).
  { induction ops as [|op ops IH]; intros [d h] Hs; [done|]. simpl. apply IH. clear IH.
    destruct Hs as [Ht Hk]. simpl in *. destruct op as [id ts aid an vid vn sid|now]; simpl.
    - unfold recordKill. destruct (text_not_null an) as [e|a]; [done|].
      destruct (text_not_null vn) as [e|v]; [done|].
      unfold insertKillStmt. destruct (existsb _ _); [done|]. simpl. split.
      + by apply (totals_kill d h (mkKill id aid a vid v sid ts)).
      + unfold rows_kept. simpl. by apply sublist_app.
    - split; [exact Ht|]. unfold rows_kept, cleanupOldKills in *. simpl.
      etrans; [|exact Hk]. clear. induction (db_kills d) as [|r l IH]; simpl; [done|].
      destruct (negb _); by constructor. }
  specialize (Hgen (mkDb [] [], [])). destruct (foldl _ _ _) as [d h]. apply Hgen.
  split; [by intros n|]. apply sublist_nil_l.
Qed.

End Stats.

(** ** Leaderboards *)

(** [out] is the top [n] of [rows] by [key], in descending order. *)
Definition top_of {A} (key : A -> Z) (n : Z) (rows out : list A) : Prop :=
  StronglySorted (fun a b => key b <= key a) out /\
  length out = Nat.min (Z.to_nat n) (length rows) /\
  exists rest, Permutation rows (out ++ rest) /\
    forall x y, x ∈ out -> y ∈ rest -> key y <= key x.

Lemma sorted_app_le {A} (key : A -> Z) l1 l2 :
  StronglySorted (fun a b => key b <= key a) (l1 ++ l2) ->
  StronglySorted (fun a b => key b <= key a) l1 /\
  forall x y, x ∈ l1 -> y ∈ l2 -> key y <= key x.
Proof.
  induction l1 as [|a l1 IH]; simpl; intros Hs.
  - split; [constructor|]. by intros x y []%elem_of_nil.
  - apply StronglySorted_inv in Hs as [Hs Ha]. destruct (IH Hs) as [H1 H2].
    apply Forall_app in Ha as [Ha1 Ha2]. split; [by constructor|].
    intros x y [->|Hx]%elem_of_cons Hy; [|by apply H2]. rewrite Forall_forall in Ha2. auto.
Qed.

Section Leaderboard.
Context `{SqlDriverOk}.

Lemma order_limit_top {A} (key : A -> Z) n rows :
  0 <= n -> top_of key n rows (sql_limit n (sql_order key rows)).
Proof.
  intros Hn. unfold sql_limit. destruct (n <? 0) eqn:E; zbool; [lia|].
  pose proof (sql_order_perm A key rows) as Hp. pose proof (sql_order_desc A key rows) as Hs.
  rewrite <- (take_drop (Z.to_nat n) (sql_order key rows)) in Hs.
  destruct (sorted_app_le _ _ _ Hs) as [Hs1 Hs2].
  split; [done|]. split; [by rewrite length_take, (Permutation_length Hp)|].
  exists (drop (Z.to_nat n) (sql_order key rows)). split; [|done].
  by rewrite take_drop, Hp.
Qed.

(** [getLeaderboard(limit)] returns the [limit] rows of
    [player_stats] with the most kills, in descending order, and all of them
    when there are fewer. *)
Theorem getLeaderboard_top limit d :
  0 <= limit ->
  top_of (fun e => st_kills (snd e)) limit (db_stats d) (getLeaderboard limit d).
Proof. apply order_limit_top. Qed.

(** C29: The leaderboard of the last hours lists distinct names, each
    with the exact number of kills under that name after the cutoff, the
    highest counts first, and leaves out no name with a higher count than one
    it lists. *)
Theorem getLeaderboardByTime_top now hours limit d :
  0 <= limit ->
  let rows := killsSince (sinceOf now hours) d in
  let out := getLeaderboardByTime now hours limit d in
  NoDup (map fst out) /\
  (forall n c, (n, c) ∈ out -> c = kills_of n rows /\ 0 < c) /\
  StronglySorted (fun a b => snd b <= snd a) out /\
  (forall n, 0 < kills_of n rows -> n ∈ map fst out \/
     (length out = Z.to_nat limit /\ forall m c, (m, c) ∈ out -> kills_of n rows <= c)).
Proof.
  intros Hn rows out.
  destruct (order_limit_top snd limit (group_kills rows) Hn) as (Hs & Hlen & rest & Hp & Hrest).
  change (sql_limit limit (sql_order snd (group_kills rows))) with out in Hs, Hlen, Hp, Hrest.
  assert (Hnames : map fst (group_kills rows) = remove_dups (map k_attackerName rows))
    by (unfold group_kills; rewrite map_map; apply map_id).
  assert (Hnd : NoDup (map fst out ++ map fst rest)).
  { rewrite <- map_app, <- Hp, Hnames. apply NoDup_remove_dups. }
  assert (Hval : forall n c, (n, c) ∈ out ++ rest -> c = kills_of n rows /\ n ∈ map k_attackerName rows).
  { intros n c Hin. rewrite <- Hp in Hin.
    apply list_elem_of_fmap in Hin as (m & [= -> ->] & Hm). split; [done|].
    by apply elem_of_remove_dups. }
  split; [by apply NoDup_app in Hnd as [? _]|].
  split; [|split; [done|]].
  - intros n c Hin. destruct (Hval n c) as [-> Hm]; [apply elem_of_app; by left|].
    split; [done|]. by apply kills_of_pos.
  - intros n Hk. assert (Hm : (n, kills_of n rows) ∈ out ++ rest).
    { rewrite <- Hp. apply list_elem_of_fmap. exists n. split; [done|].
      apply elem_of_remove_dups. by apply kills_of_pos. }
    apply elem_of_app in Hm as [Hm|Hm]; [left; by apply (list_elem_of_fmap_2 fst _ _ Hm)|].
    right. split; [|intros m c Hc; exact (Hrest _ _ Hc Hm)].
    rewrite Hlen. apply Nat.min_l. destruct (Nat.le_gt_cases (Z.to_nat limit) (length (group_kills rows))); [done|].
    pose proof (Permutation_length Hp) as Hpl. rewrite length_app in Hpl.
    destruct rest; [by apply elem_of_nil in Hm|]. simpl in Hpl. lia.
Qed.

End Leaderboard.

(** A small history for the two leaderboards. *)
Definition sample_db : Db := fst (dbRun [
  OpKill (js "k1") 100 (js "a") (JStr (js "Ann")) (js "b") (JStr (js "Bob")) (js "s1");
  OpKill (js "k2") 200 (js "b") (JStr (js "Bob")) (js "a") (JStr (js "Ann")) (js "s2");
  OpKill (js "k3") 300 (js "a") (JStr (js "Ann")) (js "b") (JStr (js "Bob")) (js "s3")]).

Lemma getLeaderboard_top_witness :
  map (fun e => (fst e, st_kills (snd e))) (getLeaderboard 1 sample_db) = [(js "Ann", 2)] /\
  top_of (fun e => st_kills (snd e)) 1 (db_stats sample_db) (getLeaderboard 1 sample_db).
Proof. split; [vm_compute; reflexivity|]. apply (getLeaderboard_top 1 sample_db). lia. Defined.

Lemma getLeaderboardByTime_top_witness :
  getLeaderboardByTime 3600150 (num_of_Z 1) 5 sample_db = [(js "Ann", 1); (js "Bob", 1)] /\
  NoDup (map fst (getLeaderboardByTime 3600150 (num_of_Z 1) 5 sample_db)).
Proof.
  split; [vm_compute; reflexivity|].
  apply (proj1 (getLeaderboardByTime_top 3600150 (num_of_Z 1) 5 sample_db ltac:(lia))).
Defined.
