(* ===== verification/MainThms.v ===== *)
(** * Theorems about the HTTP entry

    Static files cannot be reached outside [assets/]; a malformed escape is
    not handled; the leaderboard endpoint answers with the top of the table. *)

From S2P Require Import Prelude JsMap JsNum JsString Codec JsValue Json JsConv Uri Async Config.
From S2P Require Import Storage World Auth Concrete State Ws StorageThms Main.
From Stdlib Require Import Sorting.Permutation Sorting.Sorted.

(** ** Static files *)

Lemma startsWith_app p s : startsWith (p ++ s) p = true.
Proof. induction p as [|c p IH]; [by destruct s|]. cbn. by rewrite Z.eqb_refl. Qed.

Lemma startsWith_split s p : startsWith s p = true -> exists r, s = p ++ r.
Proof.
  revert s. induction p as [|c p IH]; intros s Hs; [by exists s|]. destruct s as [|d s]; [done|].
  cbn in Hs. zbool. subst. destruct (IH s H0) as [r ->]. by exists r.
Qed.

Lemma includes_app a p s : includes (a ++ p ++ s) p = true.
Proof.
  induction a as [|c a IH]; cbn [app].
  - destruct (p ++ s) as [|d t] eqn:E; cbn [includes].
    + apply app_nil in E as [-> ->]. done.
    + by rewrite <- E, startsWith_app.
  - cbn [includes]. by rewrite IH, orb_true_r.
Qed.

(** A part of a split is a substring. *)
Lemma split_part c s p : p ∈ split_on c s -> exists a b, s = a ++ p ++ b.
Proof.
  revert p. induction s as [|d s IH]; intros p Hp; cbn in Hp.
  - apply list_elem_of_singleton in Hp as ->. by exists [], [].
  - destruct (d =? c).
    + apply elem_of_cons in Hp as [->|Hp]; [by exists [], (d :: s)|].
      destruct (IH p Hp) as (a & b & ->). by exists (d :: a), b.
    + destruct (split_on c s) as [|q qs] eqn:E.
      { apply list_elem_of_singleton in Hp as ->. by destruct (split_on_join c s). }
      apply elem_of_cons in Hp as [->|Hp].
      * pose proof (split_on_join c s) as [_ Hj]. rewrite E in Hj.
        destruct qs as [|q' qs]; cbn in Hj.
        -- subst s. exists [], []. by rewrite app_nil_r.
        -- exists [], (c :: join_on c (q' :: qs)). cbn. by rewrite <- Hj.
      * destruct (IH p) as (a & b & ->); [by right|]. by exists (d :: a), b.
Qed.

(** Distinct literals differ, whatever follows one of them. *)
Lemma str_eqb_app_ne a b r :
  match after a b with Some _ => false | None => true end = true ->
  str_eqb (a ++ r) b = false.
Proof.
  intros Hab. apply bool_decide_eq_false. revert b Hab. induction a as [|c a IH]; intros b Hab; [done|].
  destruct b as [|d b]; [done|]. cbn in Hab. cbn. destruct (Z.eqb_spec c d) as [->|]; [|naive_solver].
  intros [= E]. by eapply IH.
Qed.

Lemma startsWith_app_ne a b r : startsWith a (take (length a) b) = false -> startsWith (a ++ r) b = false.
Proof.
  revert b. induction a as [|c a IH]; intros b Hab; [by destruct b|]. destruct b as [|d b]; [done|].
  cbn in Hab |- *. destruct (d =? c); [|done]. by apply IH.
Qed.

(** A path below [./assets/], without a step to a parent directory. *)
Definition confined (path : jsstr) : Prop :=
  startsWith path (js "./assets/") = true /\ Forall (fun p => p <> DOTDOT) (split_on SLASH path).

(** The URL standard's parser removes the double-dot segments of a path; what
    the code needs of it is that none is left in an escaped form. *)
Definition normalised (pathname : jsstr) : Prop :=
  Forall (fun p => escapedDotDot p = false) (split_on SLASH pathname).

Lemma assetOf_confined pathname path :
  normalised pathname -> startsWith pathname (js "/assets/") = true ->
  assetOf pathname = OpenFile path -> confined path.
Proof.
  intros Hn Hs Ha. unfold assetOf in Ha. destruct (includes pathname (js "..")) eqn:Ei; [done|].
  destruct (decodeURI pathname) as [d|] eqn:Ed; [|done]. simplify_eq.
  destruct (startsWith_split _ _ Hs) as [r ->].
  assert (exists d', d = js "/assets/" ++ d') as [d' ->].
  { unfold decodeURI in Ed. rewrite decodeWith_plain in Ed by (repeat constructor; discriminate).
    apply prepend_some in Ed as (d' & _ & ->). by exists d'. }
  split; [apply (startsWith_app (js "./assets/") d')|].
  pose proof (dseq_segments _ _ (decode_dseq _ _ _ Ed)) as Hseg.
  change (split_on SLASH (46 :: js "/assets/" ++ d')) with ([46] :: js "assets" :: tail (tail (split_on SLASH (js "/assets/" ++ d')))).
  assert (Hd : Forall (fun p => p <> DOTDOT) (split_on SLASH (js "/assets/" ++ d'))).
  { apply Forall_forall. intros q Hq ->. apply list_elem_of_lookup in Hq as [i Hi].
    destruct (Forall2_lookup_r _ _ _ _ _ Hseg Hi) as (p & Hp & [->|He]%dseq_dotdot).
    - apply list_elem_of_lookup_2, split_part in Hp as (a & b & Hab). rewrite Hab, includes_app in Ei. done.
    - unfold normalised in Hn. rewrite Forall_lookup in Hn. by rewrite (Hn _ _ Hp) in He. }
  cbn in Hd |- *. repeat (constructor; [done|]). by do 2 apply Forall_cons in Hd as [_ Hd].
Qed.

(** ** The digits of a query parameter *)

Lemma digit_not_space c : isDigit c = true -> isSpace c = false.
Proof. unfold isDigit, isSpace. intros H. zbool. by zdec. Qed.

Lemma trimStart_digit c s : isDigit c = true -> trimStart (c :: s) = c :: s.
Proof. intros Hc. cbn. by rewrite digit_not_space. Qed.

Lemma trim_digits s : Forall (fun d => isDigit d = true) s -> trim s = s.
Proof.
  intros Hs. assert (H1 : trimStart s = s) by (destruct Hs; [done|by apply trimStart_digit]).
  unfold trim, trimEnd. rewrite H1. apply Forall_rev in Hs.
  replace (trimStart (rev s)) with (rev s) by (destruct Hs; [done|symmetry; by apply trimStart_digit]).
  apply rev_involutive.
Qed.

(** [Number] reads a positive decimal numeral as its value. *)
Lemma str_number_dec z : 0 < z -> str_number (dec_str z) = num_of_Z z.
Proof.
  intros Hz. destruct (dec_str_digits z ltac:(lia)) as (k & c & s & Hk & Hd & Hs & Hc & H0 & Hall).
  unfold str_number. rewrite trim_digits by done. rewrite Hs. specialize (H0 Hz).
  assert (Hr : 48 <= c <= 57) by (unfold isDigit in Hc; zbool; lia).
  zdec. unfold decimal_literal. rewrite <- Hs, Hd.
  replace (str_eqb (dec_str z) (js "Infinity")) with false.
  2: { symmetry. apply bool_decide_eq_false. rewrite Hs. intros E. injection E as -> _. vm_compute in Hr. naive_solver. }
  cbn [pexp]. destruct k as [|k]; [lia|]. cbn [Nat.add Nat.eqb].
  rewrite <- (num_decimal_int z). rewrite Z.abs_eq by lia. by rewrite (proj2 (Z.ltb_ge z 0)) by lia.
Qed.

Section Endpoints.
Context `{Runtime} `{AuthEnv} `{Hmac} `{SqlDriver}.
Context (html source : jsstr).

(** C27: Static files are confined.  What the server answers to any request
    depends on no file outside [./assets/] and on no path with a step to a
    parent directory: two file systems that agree on the confined paths give
    the same behaviour, whatever is asked, provided the URL parser has left no
    double-dot segment in an escaped form. *)
Theorem static_files_confined (F1 F2 : Files) req s :
  normalised (rq_pathname req) ->
  (forall path, confined path -> @open_file F1 path = @open_file F2 path) ->
  @serve _ _ _ _ F1 html source req s = @serve _ _ _ _ F2 html source req s.
Proof.
  intros Hn Heq. unfold serve. destruct (pathIs _ "/health"); [done|]. destruct (pathIs _ "/ws"); [done|].
  destruct (startsWith (rq_pathname req) (js "/assets/")) eqn:Es; [|done].
  unfold serveAsset. destruct (assetOf (rq_pathname req)) as [| |path] eqn:Ea; [done|done|].
  by rewrite (Heq path) by (by eapply assetOf_confined).
Qed.

Context `{Files}.

(** C40: A malformed escape is not handled: for an [/assets/] path without
    ".." that is not a well-formed escape sequence, and for such a name under
    [/api/player/], the request ends in a [URIError] that nothing catches,
    instead of the 404 that unknown files and names get. *)
Theorem malformed_escape_uncaught req s rest :
  decodeWith uriReserved rest = None -> decodeWith (fun _ => false) rest = None ->
  includes (js "/assets/" ++ rest) (js "..") = false ->
  (rq_pathname req = js "/assets/" ++ rest -> serve html source req s = (s, RThrow URIError)) /\
  (rq_pathname req = js "/api/player/" ++ rest -> serve html source req s = (s, RThrow URIError)).
Proof.
  intros H1' H2' Hi. split; intros Hp; unfold serve, pathIs; rewrite Hp.
  - repeat rewrite str_eqb_app_ne by (vm_compute; reflexivity).
    rewrite startsWith_app. unfold serveAsset, assetOf. rewrite Hp, Hi.
    unfold decodeURI. rewrite decodeWith_plain, H1' by (repeat constructor; discriminate). done.
  - repeat rewrite str_eqb_app_ne by (vm_compute; reflexivity). rewrite startsWith_app, startsWith_app_ne by (vm_compute; reflexivity).
    unfold servePlayer. rewrite Hp, drop_app_length.
    unfold decodeURIComponent. by rewrite H2'.
Qed.

Context `{!SqlDriverOk}.

(** The leaderboard endpoint answers with the top of the table: for a
    positive integer limit within the safe range, or for the default of twenty
    when the parameter is absent, the response is the JSON array of the rows
    with the most kills, at most that many, and the state is left as it was. *)
Theorem leaderboard_endpoint req s z :
  rq_pathname req = js "/api/leaderboard" -> rq_param req (js "hours") = None ->
  0 < z < 2 ^ 53 ->
  rq_param req (js "limit") = Some (dec_str z) \/ rq_param req (js "limit") = None /\ z = 20 ->
  exists rows,
    serve html source req s = (s, RDone (json (JArr (map statsJson rows)) 200)) /\
    top_of (fun e => st_kills (snd e)) z (db_stats (db (site_world s))) rows.
Proof.
  intros Hp Hh Hz Hl. exists (getLeaderboard z (db (site_world s))).
  split; [|by apply order_limit_top; lia].
  assert (Hlim : limitOf req 20 = num_of_Z z).
  { unfold limitOf. destruct Hl as [-> | [-> ->]]; [|done]. rewrite str_number_dec by lia.
    by rewrite (truthy_pos z) by lia. }
  unfold serve, pathIs. rewrite Hp.
  replace (startsWith (js "/api/leaderboard") (js "/assets/")) with false by (vm_compute; reflexivity).
  repeat match goal with |- context [str_eqb (js ?a) (js ?b)] =>
    let v := eval vm_compute in (str_eqb (js a) (js b)) in
    replace (str_eqb (js a) (js b)) with v by (vm_compute; reflexivity) end.
  unfold serveLeaderboard. rewrite Hh, Hlim, sql_int_safe by lia. done.
Qed.

End Endpoints.

(** ** A concrete site for the witnesses *)

(** No variable is set; no request leaves the machine. *)
#[local] Instance bare_env : AuthEnv := {| env_get := fun _ => None; fetch_result := fun _ => FetchRejects |}.

#[local] Instance no_mac : Hmac := {|
  hmac_import := fun _ => None; hmac_sign := fun _ _ => []; hmac_verify := fun _ _ _ => false
|}.

(** One asset; with [secret], also a file outside the directory. *)
Definition demo_files (secret : bool) : Files := {|
  open_file := fun path =>
    if str_eqb path (js "./assets/a b.png") then Some (js "png")
    else if str_eqb path (js "./.env") && secret then Some (js "JWT_SECRET=s3cret") else None
|}.

Definition demo_site : Site := mkSite (set_db sample_db init_world) init_auth.

Definition get_request (path : jsstr) (limit : option jsstr) : Request :=
  mkRequest (js "http://localhost:8000") path
    (fun k => if str_eqb k (js "limit") then limit else None) (fun _ => None).

Definition serve_demo (secret : bool) (path : jsstr) (limit : option jsstr) : Site * res Site Response :=
  @serve _ _ _ _ (demo_files secret) (js "<html>") (js "prod") (get_request path limit) demo_site.

Lemma static_files_confined_witness :
  open_file (Files := demo_files true) (js "./.env") <> open_file (Files := demo_files false) (js "./.env") /\
  serve_demo true (js "/assets/a%20b.png") None = serve_demo false (js "/assets/a%20b.png") None.
Proof.
  split; [vm_compute; discriminate|].
  refine (static_files_confined (js "<html>") (js "prod") (demo_files true) (demo_files false)
    (get_request (js "/assets/a%20b.png") None) demo_site _ _).
  - vm_compute. repeat constructor.
  - intros path [Hs _]. cbn [open_file demo_files].
    destruct (str_eqb path (js "./.env")) eqn:E; [|by destruct (str_eqb path _)].
    apply bool_decide_eq_true in E. rewrite E in Hs. vm_compute in Hs. discriminate.
Defined.

Lemma malformed_escape_uncaught_witness :
  serve_demo false (js "/assets/%") None = (demo_site, RThrow URIError) /\
  serve_demo false (js "/api/player/%") None = (demo_site, RThrow URIError).
Proof.
  pose proof (fun p => @malformed_escape_uncaught _ _ _ _ (js "<html>") (js "prod") (demo_files false)
    (get_request p None) demo_site (js "%") ltac:(vm_compute; reflexivity) ltac:(vm_compute; reflexivity)
    ltac:(vm_compute; reflexivity)) as Hw.
  split; [exact (proj1 (Hw (js "/assets/%")) eq_refl)|exact (proj2 (Hw (js "/api/player/%")) eq_refl)].
Defined.

Lemma leaderboard_endpoint_witness :
  (exists rows, serve_demo false (js "/api/leaderboard") (Some (js "1")) =
      (demo_site, RDone (json (JArr (map statsJson rows)) 200)) /\
    top_of (fun e => st_kills (snd e)) 1 (db_stats sample_db) rows) /\
  map fst (getLeaderboard 1 sample_db) = [js "Ann"].
Proof.
  split; [|vm_compute; reflexivity].
  exact (@leaderboard_endpoint _ _ _ _ (js "<html>") (js "prod") (demo_files false) _
    (get_request (js "/api/leaderboard") (Some (js "1"))) demo_site 1
    eq_refl eq_refl ltac:(lia) (or_introl eq_refl)).
Defined.
