(* ===== verification/ClientUtils.v ===== *)
(** * Client helpers ([client_src/utils.js])

    Name hashing and colours, the seeded generator of the scenery, random
    identifiers, the chat log, the hit point display, and the repair of wrongly
    decoded names. *)

From S2P Require Import Prelude JsNum JsString JsValue Codec Wire ServerUtils.

(** ** Hashing and colours *)

(** The loop of [hashString]: [h = ((h << 5) - h + c) | 0]. *)
Definition hash_step (h c : Z) : Z := toInt32 (shl32 h 5 - h + c).

Definition hashString (s : jsstr) : Z := toUint32 (foldl hash_step 0 s).

Definition PASTEL_COLORS : list Z :=
  [16757690 (* FFB3BA *); 16768954 (* FFDFBA *); 16777146 (* FFFFBA *); 12255177 (* BAFFC9 *);
   12247551 (* BAE1FF *); 14728164 (* E0BBE4 *); 16766688 (* FFD6E0 *); 13630206 (* CFFAFE *)].

(** [arr[i]]: [undefined] when [i] is not the index of an element. *)
Definition js_index {A} (l : list A) (i : Z) : option A :=
  if i <? 0 then None else l !! Z.to_nat i.

(** [a % b] has the sign of [a]. *)
Definition js_mod (a b : Z) : Z := Z.rem a b.

(** [key || ""]. *)
Definition pickPastelPair (key : jsval) : option Z * option Z :=
  let h := hashString (match key with JStr s => s | _ => [] end) in
  let n := Z.of_nat (length PASTEL_COLORS) in
  let main := js_index PASTEL_COLORS (js_mod h n) in
  let pants := js_index PASTEL_COLORS (js_mod (sar32 h 3) n) in
  let pants :=
    if bool_decide (pants = main) then js_index PASTEL_COLORS (js_mod (sar32 h 5) n) else pants in
  (main, pants).

(** ** The seeded generator (mulberry32) *)

Definition rng_next (s : Z) : Z := toInt32 (toInt32 s + 1831565813).

(** The numerator of the number drawn in state [s] (after the update). *)
Definition rng_out (s : Z) : Z :=
  let t := imul (xor32 s (shr32 s 15)) (or32 1 s) in
  let t := xor32 (t + imul (xor32 t (shr32 t 7)) (or32 61 t)) t in
  toUint32 (xor32 t (shr32 t 14)).

(** [makeRng(seed)]: the closure's state, and one call. *)
Definition makeRng (seed : Z) : Z := toUint32 seed.

Definition rng_call (s : Z) : Z * num :=
  let s' := rng_next s in (s', (num_of_Z (rng_out s') / num_of_Z 4294967296)%num).

(** ** Random identifiers *)

(** What the browser offers: [crypto.randomUUID], only
    [crypto.getRandomValues], or neither. *)
Inductive CryptoSupport :=
| NativeUUID (id : jsstr)
| RandomValues (buf : list Z)
| NoCrypto (rnd36 now36 : jsstr).  (* Math.random().toString(36).slice(2), Date.now().toString(36) *)

Definition dash : jsstr := js "-".

Definition randomId (g : CryptoSupport) : jsstr :=
  match g with
  | NativeUUID id => id
  | RandomValues buf =>
      let buf := alter (fun b => Z.lor (Z.land b 15) 64) 6%nat buf in
      let buf := alter (fun b => Z.lor (Z.land b 63) 128) 8%nat buf in
      let hex := concat (map hexByte buf) in
      slice 0 8 hex ++ dash ++ slice 8 12 hex ++ dash ++ slice 12 16 hex ++ dash ++
      slice 16 20 hex ++ dash ++ drop 20 hex
  | NoCrypto rnd36 now36 => js "id-" ++ rnd36 ++ now36
  end.

(** ** Chat log *)

(** The child nodes of the log: an identity for each item, and its text. *)
Definition ChatLog := list (nat * jsstr).

(** [while (log.childNodes.length > 50) log.removeChild(log.firstChild)]. *)
Fixpoint trim_log (log : ChatLog) : ChatLog :=
  match log with
  | [] => []
  | _ :: log' => if (50 <? length log)%nat then trim_log log' else log
  end.

(** [appendChatLog(line)] with the fresh element [id]. *)
Definition appendChatLog (id : nat) (line : jsstr) (log : ChatLog) : ChatLog :=
  trim_log (log ++ [(id, line)]).

(** The timeout of element [id]: remove it if it is still there. *)
Definition expireChat (id : nat) (log : ChatLog) : ChatLog :=
  List.filter (fun e => negb (fst e =? id)%nat) log.

(** ** Hit points *)

(** The width of the bar in percent and the number of hearts. *)
Definition setHpUI (hp : Z) : Z * Z :=
  let pct := Z.max 0 (Z.min 100 hp) in
  let hearts := - (- hp / 20) in
  (pct, Z.max 0 hearts).

(** ** Repairing names *)

Definition fixUTF8 (s : jsstr) : jsstr :=
  match s with
  | [] => s
  | _ =>
      if existsb (fun c => (192 <=? c) && (c <=? 255)) s then
        let bytes := map (fun c => Z.land c 255) s in
        let fixed := textDecode bytes in
        if existsb (fun c => c =? REPLACEMENT) fixed then s else fixed
      else s
  end.

(** ** Properties *)

Definition poly31 (s : jsstr) : Z := foldl (fun h c => h * 31 + c) 0 s.

Lemma hash_step_congr h h' c :
  h mod 2 ^ 32 = h' mod 2 ^ 32 -> hash_step h c mod 2 ^ 32 = (h' * 31 + c) mod 2 ^ 32.
Proof.
  intros E. unfold hash_step, shl32. rewrite toInt32_congr.
  rewrite <- Zplus_mod_idemp_l, <- (Zminus_mod_idemp_l (toInt32 _)), toInt32_congr.
  rewrite Z.shiftl_mul_pow2 by lia.
  rewrite <- (Zmult_mod_idemp_l (toInt32 h)), toInt32_congr, Zmult_mod_idemp_l.
  rewrite Zminus_mod_idemp_l, Zplus_mod_idemp_l.
  replace (h * 2 ^ 5 - h + c) with (h * 31 + c) by lia.
  rewrite <- Zplus_mod_idemp_l, <- Zmult_mod_idemp_l, E, Zmult_mod_idemp_l, Zplus_mod_idemp_l. done.
Qed.

(** The wrapping loop computes the polynomial hash of the code units
    in base 31, modulo 2^32. *)
Theorem hashString_poly s : hashString s = poly31 s mod 2 ^ 32.
Proof.
  unfold hashString, toUint32, poly31.
  assert (Hgen : forall h h', h mod 2 ^ 32 = h' mod 2 ^ 32 ->
    foldl hash_step h s mod 2 ^ 32 = foldl (fun h c => h * 31 + c) h' s mod 2 ^ 32).
  { induction s as [|c s IH]; intros h h' E; simpl; [done|]. apply IH. by apply hash_step_congr. }
  by apply Hgen.
Qed.

Lemma js_index_lt {A} (l : list A) i : 0 <= i < Z.of_nat (length l) -> exists x, js_index l i = Some x /\ x ∈ l.
Proof.
  intros Hi. unfold js_index. zdec. destruct (lookup_lt_is_Some_2 l (Z.to_nat i) ltac:(lia)) as [x Hx].
  exists x. split; [done|]. by eapply list_elem_of_lookup_2.
Qed.

Lemma pastel_index i : 0 <= i -> exists x, js_index PASTEL_COLORS (js_mod i 8) = Some x /\ x ∈ PASTEL_COLORS.
Proof.
  intros Hi. apply js_index_lt. unfold js_mod. rewrite Z.rem_mod_nonneg by lia. simpl.
  apply Z.mod_pos_bound. lia.
Qed.

(** The shirt colour always comes from the palette; the trousers'
    does when the hash of the name is below 2^31. *)
Theorem pickPastelPair_palette s :
  (exists c, fst (pickPastelPair (JStr s)) = Some c /\ c ∈ PASTEL_COLORS) /\
  (hashString s < 2 ^ 31 ->
   exists c, snd (pickPastelPair (JStr s)) = Some c /\ c ∈ PASTEL_COLORS).
Proof.
  assert (Hr : 0 <= hashString s < 2 ^ 32) by apply toUint32_range.
  unfold pickPastelPair. change (Z.of_nat (length PASTEL_COLORS)) with 8. cbn [fst snd].
  split; [apply pastel_index; lia|]. intros Hh.
  assert (Hs : forall n, 0 <= n -> 0 <= sar32 (hashString s) n).
  { intros n Hn. unfold sar32. rewrite toInt32_small by lia. apply Z.shiftr_nonneg; lia. }
  case_bool_decide; apply pastel_index, Hs; lia.
Qed.

(** For a name whose hash has its top bit set the index is negative
    and the trousers have no colour. *)
Theorem pickPastelPair_undefined :
  exists s, 2 ^ 31 <= hashString s /\ snd (pickPastelPair (JStr s)) = None.
Proof. exists (js "Charlie"). by vm_compute. Qed.

(** *** The generator *)

Definition rng_state (seed : Z) (n : nat) : Z := Nat.iter n rng_next (makeRng seed).

Lemma rng_state_closed seed n :
  rng_state seed (S n) = toInt32 (seed + Z.of_nat (S n) * 1831565813).
Proof.
  assert (Hmod : forall n, rng_state seed n mod 2 ^ 32 = (seed + Z.of_nat n * 1831565813) mod 2 ^ 32).
  { clear n. induction n as [|n IH].
    - simpl. unfold rng_state, makeRng, toUint32. simpl. rewrite Z.mod_mod, Z.add_0_r by lia. done.
    - unfold rng_state in *. simpl. unfold rng_next at 1. rewrite toInt32_congr.
      rewrite <- Zplus_mod_idemp_l, toInt32_congr, IH, Zplus_mod_idemp_l. f_equal. lia. }
  unfold rng_state. simpl. unfold rng_next at 1. apply toInt32_eq.
  rewrite <- Zplus_mod_idemp_l, toInt32_congr. fold (rng_state seed n). rewrite Hmod, Zplus_mod_idemp_l.
  f_equal. lia.
Qed.

(** The scenery generator draws a 32-bit numerator, and its state runs
    through all 2^32 values before it repeats, whatever the seed. *)
Theorem rng_full_period seed :
  (forall s, 0 <= rng_out s < 2 ^ 32) /\
  (forall n m, (n < m)%nat -> Z.of_nat m < 2 ^ 32 -> rng_state seed (S n) <> rng_state seed (S m)) /\
  (forall n p, Z.of_nat p = 2 ^ 32 -> rng_state seed (S n + p) = rng_state seed (S n)).
Proof.
  split; [intros s; apply toUint32_range|]. split.
  - intros n m Hnm Hm E. rewrite !rng_state_closed in E.
    assert (Em : (seed + Z.of_nat (S n) * 1831565813) mod 2 ^ 32 =
                 (seed + Z.of_nat (S m) * 1831565813) mod 2 ^ 32)
      by (rewrite <- toInt32_congr, E; apply toInt32_congr).
    assert (Hd : (2 ^ 32 | 1831565813 * Z.of_nat (m - n))).
    { apply Z.mod_divide; [lia|].
      replace (1831565813 * Z.of_nat (m - n)) with
        (seed + Z.of_nat (S m) * 1831565813 - (seed + Z.of_nat (S n) * 1831565813)) by lia.
      rewrite Zminus_mod, Em, Z.sub_diag. done. }
    apply Z.gauss in Hd; [|reflexivity]. apply Z.divide_pos_le in Hd; lia.
  - intros n p Hp. simpl Nat.add. rewrite !rng_state_closed. apply toInt32_eq.
    replace (seed + Z.of_nat (S (n + p)) * 1831565813)
      with (seed + Z.of_nat (S n) * 1831565813 + 1831565813 * 2 ^ 32) by lia.
    by rewrite Z.mod_add.
Qed.

(** *** Identifiers *)

(** What the two masks do to a byte: the version and variant digits. *)
Lemma uuid_digits b :
  byte b ->
  hexByte (Z.lor (Z.land b 15) 64) = [52; hexDigit (b mod 16)] /\
  exists v, v ∈ js "89ab" /\ hexByte (Z.lor (Z.land b 63) 128) = [v; hexDigit (b mod 16)].
Proof.
  intros Hb. unfold byte in Hb.
  assert (Hall : forallb (fun n => let b := Z.of_nat n in
    bool_decide (hexByte (Z.lor (Z.land b 15) 64) = [52; hexDigit (b mod 16)]) &&
    existsb (fun v => bool_decide (hexByte (Z.lor (Z.land b 63) 128) = [v; hexDigit (b mod 16)]))
      (js "89ab")) (seq 0 256) = true) by (vm_compute; reflexivity).
  rewrite forallb_forall in Hall. specialize (Hall (Z.to_nat b)).
  rewrite Z2Nat.id in Hall by lia.
  apply andb_true_iff in Hall as [H1 H2]; [|apply in_seq; lia].
  apply bool_decide_eq_true in H1. apply existsb_exists in H2 as (v & Hv & H2).
  apply bool_decide_eq_true in H2. split; [done|]. exists v. split; [by apply list_elem_of_In|done].
Qed.

(** An identifier made from 16 random bytes is a version 4 UUID: 36
    characters, dashes at 8, 13, 18 and 23, the version digit 4 and a variant
    digit in their places; and the server takes it as the id of a shot. *)
Theorem randomId_uuid_v4 buf :
  length buf = 16%nat -> Forall byte buf ->
  let id := randomId (RandomValues buf) in
  length id = 36%nat /\ Forall (fun i => id !! i = Some 45) [8; 13; 18; 23]%nat /\
  id !! 14%nat = Some 52 /\ (exists v, id !! 19%nat = Some v /\ v ∈ js "89ab") /\
  isUuidLike (JStr id) = Some id.
Proof.
  intros Hl Hb.
  do 16 (destruct buf as [|? buf]; [done|]). destruct buf; [|done].
  repeat match goal with H : Forall _ (_ :: _) |- _ => apply Forall_cons in H as [? H] end.
  destruct (uuid_digits z5) as [E6 _]; [done|].
  destruct (uuid_digits z7) as [_ (v & Hv & E8)]; [done|].
  cbv zeta. unfold randomId. cbn [alter list_alter map concat]. rewrite E6, E8.
  unfold hexByte. cbn [app]. unfold slice, dash. cbn.
  split; [done|]. split; [by repeat constructor|]. split; [done|]. split; [by exists v|done].
Qed.

(** *** The chat log *)

Lemma trim_log_drop log : trim_log log = drop (length log - 50) log.
Proof.
  induction log as [|x log IH]; [done|]. cbn [trim_log].
  destruct (50 <? length (x :: log))%nat eqn:E.
  - apply Nat.ltb_lt in E. rewrite IH. cbn [length] in *.
    replace (S (length log) - 50)%nat with (S (length log - 50)) by lia. done.
  - apply Nat.ltb_ge in E. replace (length (x :: log) - 50)%nat with 0%nat by lia. done.
Qed.

(** The log after a sequence of lines and expiries. *)
Inductive ChatOp := Say (id : nat) (line : jsstr) | Expire (id : nat).

Definition chat_op (log : ChatLog) (op : ChatOp) : ChatLog :=
  match op with Say id line => appendChatLog id line log | Expire id => expireChat id log end.

(** The chat log never shows more than 50 lines, whatever is said and
    whatever expires; a new line is shown last, and it is the oldest lines that
    are dropped. *)
Theorem chat_log_bounded ops :
  (length (foldl chat_op [] ops) <= 50)%nat /\
  forall id line, let log := foldl chat_op [] ops in
    appendChatLog id line log = drop (S (length log) - 50) log ++ [(id, line)].
Proof.
  assert (Hlen : forall log, (length log <= 50)%nat -> (length (foldl chat_op log ops) <= 50)%nat).
  { induction ops as [|op ops IH]; intros log Hl; [done|]. simpl. apply IH. destruct op as [id line|id]; simpl.
    - unfold appendChatLog. rewrite trim_log_drop, length_drop, length_app. simpl. lia.
    - unfold expireChat. pose proof (filter_length_le (fun e => negb (fst e =? id)%nat) log). lia. }
  specialize (Hlen [] ltac:(simpl; lia)). split; [done|]. intros id line log. fold log in Hlen.
  unfold appendChatLog. rewrite trim_log_drop, length_app. simpl length.
  rewrite drop_app_le by lia. do 2 f_equal. lia.
Qed.

(** The health bar stays between 0 and 100 percent; a living player has
    one to five hearts, a dead one none. *)
Theorem setHpUI_bounds hp :
  0 <= fst (setHpUI hp) <= 100 /\
  (0 < hp <= 100 -> 1 <= snd (setHpUI hp) <= 5) /\ (hp <= 0 -> snd (setHpUI hp) = 0).
Proof.
  unfold setHpUI. cbn [fst snd]. pose proof (Z.div_mod (- hp) 20 ltac:(lia)).
  pose proof (Z.mod_pos_bound (- hp) 20 ltac:(lia)). lia.
Qed.

(** *** Names *)

Lemma utf8_1_weird c :
  scalar c = true -> existsb (fun b => (192 <=? b) && (b <=? 255)) (utf8_1 c) = negb (c <? 128).
Proof.
  intros Hc%scalar_cases. unfold utf8_1.
  destruct (digits64 c ltac:(lia)) as (d3 & d2 & d1 & d0 & Hd & H3 & H2 & H1 & H0 & -> & -> & -> & -> & Hm1 & Hm2).
  destruct (c <? 128) eqn:E1; [|destruct (c <? 2048) eqn:E2; [|destruct (c <? 65536) eqn:E3]]; zbool;
    cbn [existsb]; zdec; done.
Qed.

Lemma utf8_weird cs :
  Forall (fun c => scalar c = true) cs ->
  existsb (fun b => (192 <=? b) && (b <=? 255)) (utf8 cs) = existsb (fun c => negb (c <? 128)) cs.
Proof.
  induction 1 as [|c cs Hc _ IH]; [done|]. unfold utf8 in *. simpl.
  by rewrite existsb_app, utf8_1_weird, IH.
Qed.

Lemma ascii_same cs :
  existsb (fun c => negb (c <? 128)) cs = false -> utf8 cs = cs /\ utf16 cs = cs.
Proof.
  induction cs as [|c cs IH]; simpl; [done|]. intros [Hc Hcs]%orb_false_iff.
  destruct (IH Hcs) as [E8 E16]. unfold utf8, utf16 in *. simpl. rewrite E8, E16.
  zbool. unfold utf8_1, utf16_1. zdec. done.
Qed.

Lemma utf16_no_replacement cs :
  Forall (fun c => scalar c = true) cs -> ~ REPLACEMENT ∈ cs ->
  existsb (fun u => u =? REPLACEMENT) (utf16 cs) = false.
Proof.
  unfold REPLACEMENT. induction 1 as [|c cs Hc%scalar_cases _ IH]; [done|]. rewrite not_elem_of_cons.
  intros [Hne Hcs]. unfold utf16 in *. simpl. rewrite existsb_app, IH by done. rewrite orb_false_r.
  unfold utf16_1. destruct (c <? 65536) eqn:E; zbool; cbn [existsb].
  - zdec. done.
  - pose proof (Z.mod_pos_bound (c - 65536) 1024 ltac:(lia)).
    assert (0 <= (c - 65536) / 1024 < 1024)
      by (split; [apply Z.div_pos; lia|apply Z.div_lt_upper_bound; lia]).
    zdec. done.
Qed.

Lemma land_255 b : byte b -> Z.land b 255 = b.
Proof. intros Hb. change 255 with (Z.ones 8). rewrite Z.land_ones by lia. apply Z.mod_small, Hb. Qed.

Lemma map_land_255 bs : Forall byte bs -> map (fun c => Z.land c 255) bs = bs.
Proof. induction 1 as [|b bs Hb _ IH]; simpl; [done|]. by rewrite land_255, IH. Qed.

(** [fixUTF8] undoes the damage: a name whose UTF-8 bytes were taken
    for Latin-1 characters comes back as it was, for every name without the
    replacement character that does not start with a byte order mark; and a
    name without characters in [U+00C0, U+00FF] is left alone. *)
Theorem fixUTF8_repairs :
  (forall cs, Forall (fun c => scalar c = true) cs -> ~ REPLACEMENT ∈ cs -> head cs <> Some BOM ->
     fixUTF8 (utf8 cs) = utf16 cs) /\
  (forall s, Forall (fun c => ~ 192 <= c <= 255) s -> fixUTF8 s = s).
Proof.
  split.
  - intros cs Hcs Hr Hb. unfold fixUTF8. destruct (existsb (fun c => negb (c <? 128)) cs) eqn:E.
    + destruct (utf8 cs) as [|b bs] eqn:E8.
      { destruct cs as [|c cs]; [done|]. exfalso. revert E8. unfold utf8. simpl. unfold utf8_1.
        repeat case_match; done. }
      rewrite <- E8, utf8_weird, E by done.
      replace (map (fun c => Z.land c 255) (utf8 cs)) with (utf8 cs).
      * unfold textDecode. rewrite dec_run_utf8 by done.
        replace (strip_bom cs) with cs; [by rewrite utf16_no_replacement|].
        destruct cs as [|c cs]; [done|]. simpl. destruct (c =? BOM) eqn:Eb; [|done]. zbool. by subst.
      * symmetry. by apply map_land_255, utf8_bytes.
    + destruct (ascii_same _ E) as [-> ->]. rewrite <- (proj1 (ascii_same _ E)), utf8_weird, E by done.
      rewrite (proj1 (ascii_same _ E)). by destruct cs.
  - intros s Hs. unfold fixUTF8. destruct s as [|c s]; [done|].
    replace (existsb _ (c :: s)) with false; [done|]. symmetry. apply not_true_iff_false.
    rewrite existsb_exists. intros (x & Hx%list_elem_of_In & Hw). rewrite Forall_forall in Hs.
    apply (Hs x Hx). zbool. lia.
Qed.

Lemma randomId_uuid_v4_witness :
  length (randomId (RandomValues (repeat 171 16))) = 36%nat /\
  isUuidLike (JStr (randomId (RandomValues (repeat 171 16)))) =
    Some (randomId (RandomValues (repeat 171 16))).
Proof.
  assert (Hb : Forall byte (repeat 171 16))
    by (apply Forall_forall; intros b Hb%list_elem_of_In%repeat_spec; subst; unfold byte; lia).
  destruct (randomId_uuid_v4 (repeat 171 16) eq_refl Hb) as (Hl & _ & _ & _ & Hu).
  split; [exact Hl|exact Hu].
Defined.
