(* ===== verification/ClientPlayer.v ===== *)
(** * Player models and snowballs ([client_src/player.js], [snowball.js])

    The simulation a browser runs: the local player under keyboard control, the
    interpolation of remote players, the pose of the limbs, throwing, and the
    flight of snowballs.  three.js is not part of the sources: the vector
    operations and [MathUtils] functions used are the class [Three].  Materials
    and meshes are represented by what later code reads of them. *)

From S2P Require Import Prelude JsMap JsNum JsString JsValue ClientUtils.

(** ** Constants *)

Module CLIENT.
Definition gravity : num := num_of_Z 22.
Definition moveSpeed : num := num_of_Z 8.
Definition crouchSpeed : num := num_of_Z 3.
Definition jumpForce : num := num_dec 95 1.
Definition snowballSpeed : num := num_of_Z 28.
Definition snowballCooldown : num := num_of_Z 250.
Definition netSendHz : num := num_of_Z 20.
Definition remoteLerp : num := num_of_Z 12.
Definition mapHalf : num := num_of_Z 190.
End CLIENT.

(** [Math.PI] *)
Definition PI : num := S754_finite false 7074237752028440 (-51).

(** ** three.js *)

Record Euler := mkEuler { e_x : num; e_y : num; e_z : num; e_order : jsstr }.

Class Three := {
  v3_add : Vec3 -> Vec3 -> Vec3;              (* a.add(b) *)
  v3_scale : Vec3 -> num -> Vec3;             (* v.multiplyScalar(s) *)
  v3_lerp : Vec3 -> Vec3 -> num -> Vec3;      (* a.lerp(b, k) *)
  v3_length : Vec3 -> num;                    (* v.length() *)
  v3_normalize : Vec3 -> Vec3;                (* v.normalize() *)
  v3_applyEuler : Euler -> Vec3 -> Vec3;      (* v.applyEuler(e) *)
  mu_clamp : num -> num -> num -> num;        (* MathUtils.clamp(x, lo, hi) *)
  mu_lerp : num -> num -> num -> num;         (* MathUtils.lerp(x, y, t) *)
}.

(** [MathUtils.clamp] brings a number between the bounds, and NaN stays NaN. *)
Class ThreeOk `{Three} : Prop := {
  mu_clamp_bounds : forall x lo hi, isNaN x = false -> nleb lo hi = true ->
    nleb lo (mu_clamp x lo hi) = true /\ nleb (mu_clamp x lo hi) hi = true;
  mu_clamp_nan : forall x lo hi, isNaN x = true -> isNaN (mu_clamp x lo hi) = true;
}.

(** ** Player models *)

Record Input := mkInput {
  in_w : bool; in_a : bool; in_s : bool; in_d : bool; in_space : bool; in_shift : bool; in_r : bool;
}.
Definition no_input : Input := mkInput false false false false false false false.

(** The limbs' pose and the animation clocks. *)
Record Pose := mkPose {
  bodyY : num; bodyLean : num;
  leftLegX : num; rightLegX : num;
  leftArmX : num; leftArmZ : num; rightArmX : num; rightArmZ : num;
  walkTime : num; attackTime : num;
}.

(** Position, rotation and velocity of the mesh, and the controls. *)
Record Motion := mkMotion {
  m_pos : Vec3; m_rotX : num; m_rotY : num;
  m_vel : Vec3; m_onGround : bool; m_crouching : bool; m_input : Input;
}.

(** Where a remote player is heading. *)
Record Target := mkTarget { tg_pos : Vec3; tg_rotY : num; tg_vel : Vec3; tg_crouch : bool }.

Record PlayerModel := mkModel {
  p_id : jsstr;
  p_isRemote : bool;
  p_isBot : bool;
  p_name : jsval;
  p_pingMs : option num;
  p_dead : bool;
  p_health : Z;
  p_lastHpAt : option Z;        (* undefined until the network code sets it *)
  p_lastShotAt : num;
  p_motion : Motion;
  p_target : Target;
  p_colors : option Z * option Z; (* shirt and trousers *)
  p_hitFlashTime : num;
  p_flashing : bool;            (* do the materials show the hit colour? *)
  p_visible : bool;
  p_pose : Pose;
  p_label : jsval * option num; (* what the name sprite shows: name and ping *)
  p_chat : option jsval;        (* the text of the visible chat bubble *)
}.

Definition set_motion (m : Motion) (p : PlayerModel) : PlayerModel :=
  mkModel (p_id p) (p_isRemote p) (p_isBot p) (p_name p) (p_pingMs p) (p_dead p) (p_health p)
    (p_lastHpAt p) (p_lastShotAt p) m (p_target p) (p_colors p) (p_hitFlashTime p) (p_flashing p)
    (p_visible p) (p_pose p) (p_label p) (p_chat p).
Definition set_pose (a : Pose) (p : PlayerModel) : PlayerModel :=
  mkModel (p_id p) (p_isRemote p) (p_isBot p) (p_name p) (p_pingMs p) (p_dead p) (p_health p)
    (p_lastHpAt p) (p_lastShotAt p) (p_motion p) (p_target p) (p_colors p) (p_hitFlashTime p)
    (p_flashing p) (p_visible p) a (p_label p) (p_chat p).
Definition set_flash (t : num) (on : bool) (p : PlayerModel) : PlayerModel :=
  mkModel (p_id p) (p_isRemote p) (p_isBot p) (p_name p) (p_pingMs p) (p_dead p) (p_health p)
    (p_lastHpAt p) (p_lastShotAt p) (p_motion p) (p_target p) (p_colors p) t on (p_visible p)
    (p_pose p) (p_label p) (p_chat p).
Definition set_target (t : Target) (p : PlayerModel) : PlayerModel :=
  mkModel (p_id p) (p_isRemote p) (p_isBot p) (p_name p) (p_pingMs p) (p_dead p) (p_health p)
    (p_lastHpAt p) (p_lastShotAt p) (p_motion p) t (p_colors p) (p_hitFlashTime p) (p_flashing p)
    (p_visible p) (p_pose p) (p_label p) (p_chat p).
Definition set_label (name : jsval) (ping : option num) (p : PlayerModel) : PlayerModel :=
  mkModel (p_id p) (p_isRemote p) (p_isBot p) name ping (p_dead p) (p_health p) (p_lastHpAt p)
    (p_lastShotAt p) (p_motion p) (p_target p) (p_colors p) (p_hitFlashTime p) (p_flashing p)
    (p_visible p) (p_pose p) (name, ping) (p_chat p).
Definition set_hp (dead : bool) (hp : Z) (at_ : option Z) (p : PlayerModel) : PlayerModel :=
  mkModel (p_id p) (p_isRemote p) (p_isBot p) (p_name p) (p_pingMs p) dead hp at_ (p_lastShotAt p)
    (p_motion p) (p_target p) (p_colors p) (p_hitFlashTime p) (p_flashing p) (p_visible p)
    (p_pose p) (p_label p) (p_chat p).
Definition set_shot (t : num) (p : PlayerModel) : PlayerModel :=
  mkModel (p_id p) (p_isRemote p) (p_isBot p) (p_name p) (p_pingMs p) (p_dead p) (p_health p)
    (p_lastHpAt p) t (p_motion p) (p_target p) (p_colors p) (p_hitFlashTime p) (p_flashing p)
    (p_visible p) (p_pose p) (p_label p) (p_chat p).
Definition set_visible (v : bool) (p : PlayerModel) : PlayerModel :=
  mkModel (p_id p) (p_isRemote p) (p_isBot p) (p_name p) (p_pingMs p) (p_dead p) (p_health p)
    (p_lastHpAt p) (p_lastShotAt p) (p_motion p) (p_target p) (p_colors p) (p_hitFlashTime p)
    (p_flashing p) v (p_pose p) (p_label p) (p_chat p).
Definition set_chat (c : option jsval) (p : PlayerModel) : PlayerModel :=
  mkModel (p_id p) (p_isRemote p) (p_isBot p) (p_name p) (p_pingMs p) (p_dead p) (p_health p)
    (p_lastHpAt p) (p_lastShotAt p) (p_motion p) (p_target p) (p_colors p) (p_hitFlashTime p)
    (p_flashing p) (p_visible p) (p_pose p) (p_label p) c.

(** [fixUTF8] of a value: what is not a non-empty string is returned as it is. *)
Definition fixName (v : jsval) : jsval :=
  match v with JStr s => JStr (fixUTF8 s) | _ => v end.

Section Player.
Context `{JsMath} `{Three}.
#[local] Open Scope num_scope.

(** [terrainHeight(x, z)] in the world with seed [worldSeed]. *)
Definition terrainHeight (worldSeed : num) (x z : num) : num :=
  let scale1 := num_dec 6 2 in
  let scale2 := num_dec 12 2 in
  let s := worldSeed * num_dec 1 4 in
  let n1 := msin (x * scale1 + s * num_dec 1337 2) + mcos (z * scale1 - s * num_dec 721 2) in
  let n2 := msin ((x + num_of_Z 1000) * scale2 - s * num_dec 317 2)
            - mcos ((z - num_of_Z 500) * scale2 + s * num_dec 999 2) in
  let h := n1 * num_dec 7 1 + n2 * num_dec 3 1 in
  let sign := if h >=? num_of_Z 0 then num_of_Z 1 else num_of_Z (-1) in
  let h := sign * mpow (nabs h) (num_dec 18 1) * num_dec 25 1 in
  h + num_of_Z 6.

Definition groundHeightWithObstacles (worldSeed : num) (x z : num) : num :=
  terrainHeight worldSeed x z.

(** The key of the colours: the trimmed name, or the id. *)
Definition paletteKey (id : jsstr) (name : jsval) : jsval :=
  match name with
  | JStr s => match trim s with [] => JStr id | t => JStr t end
  | _ => JStr id
  end.

(** [new PlayerModel(scene, id, pos, name, isRemote)]. *)
Definition newPlayerModel (worldSeed : num) (id : jsstr) (pos : Vec3) (name : jsval)
    (isRemote : bool) : PlayerModel :=
  let initialY := if isRemote then vy pos else terrainHeight worldSeed (vx pos) (vz pos) in
  let zero := num_of_Z 0 in
  mkModel id isRemote (startsWith id (js "bot-")) (fixName name) None false 100 None zero
    (mkMotion (mkVec3 (vx pos) initialY (vz pos)) zero zero vec_zero false false no_input)
    (mkTarget pos zero vec_zero false)
    (pickPastelPair (paletteKey id name)) zero false true
    (mkPose (num_dec 75 2) zero zero zero zero zero zero zero zero zero)
    (fixName name, None) None.

(** [setRemoteTarget(pos, rotY, vel, crouch)]. *)
Definition setRemoteTarget (pos : Vec3) (rotY : num) (vel : Vec3) (crouch : bool)
    (p : PlayerModel) : PlayerModel :=
  let half := CLIENT.mapHalf in
  let clampedX := mu_clamp (vx pos) (- half) half in
  let clampedZ := mu_clamp (vz pos) (- half) half in
  set_target (mkTarget (mkVec3 clampedX (vy pos) clampedZ) rotY vel crouch) p.

Definition onHit (p : PlayerModel) : PlayerModel := set_flash (num_dec 25 2) (p_flashing p) p.

(** [===] on names. *)
Definition same_name (a b : jsval) : bool :=
  match a, b with
  | JStr x, JStr y => str_eqb x y
  | JNull, JNull | JUndef, JUndef => true
  | _, _ => false
  end.

Definition updateNameLabel (name : jsval) (p : PlayerModel) : PlayerModel :=
  let fixedName := fixName name in
  if same_name (p_name p) fixedName then p else set_label fixedName (p_pingMs p) p.

Definition updatePing (pingMs : num) (p : PlayerModel) : PlayerModel :=
  set_label (p_name p) (Some pingMs) p.

Definition applyKnockback (impulse : Vec3) (p : PlayerModel) : PlayerModel :=
  let m := p_motion p in
  let v := m_vel m in
  set_motion (mkMotion (m_pos m) (m_rotX m) (m_rotY m)
    (mkVec3 (vx v + vx impulse) (vy v + vy impulse) (vz v + vz impulse)) false (m_crouching m)
    (m_input m)) p.

(** ** One frame *)

(** The two loops that bring [curY] within half a turn of [tarY]; [fuel] bounds
    the iterations, [None] when it runs out. *)
Fixpoint unwrapUp (fuel : nat) (tarY curY : num) : option num :=
  if tarY - curY >? PI then
    match fuel with
    | O => None
    | S fuel' => unwrapUp fuel' tarY (curY + PI * num_of_Z 2)
    end
  else Some curY.

Fixpoint unwrapDown (fuel : nat) (tarY curY : num) : option num :=
  if tarY - curY <? - PI then
    match fuel with
    | O => None
    | S fuel' => unwrapDown fuel' tarY (curY - PI * num_of_Z 2)
    end
  else Some curY.

Definition unwrap (fuel : nat) (tarY curY : num) : option num :=
  match unwrapUp fuel tarY curY with
  | Some y => unwrapDown fuel tarY y
  | None => None
  end.

(** The remote branch of [update]: interpolate towards the target. *)
Definition updateRemote (fuel : nat) (dt : num) (p : PlayerModel) : option PlayerModel :=
  let k := num_of_Z 1 - mexp (- CLIENT.remoteLerp * dt) in
  let m := p_motion p in
  let t := p_target p in
  match unwrap fuel (tg_rotY t) (m_rotY m) with
  | None => None
  | Some curY =>
      Some (set_motion (mkMotion (v3_lerp (m_pos m) (tg_pos t) k) (m_rotX m)
        (curY + (tg_rotY t - curY) * k) (v3_lerp (m_vel m) (tg_vel t) k) (m_onGround m)
        (tg_crouch t) (m_input m)) p)
  end.

(** The direction of the pressed keys. *)
Definition moveDir (i : Input) : Vec3 :=
  let one := num_of_Z 1 in
  let z := num_of_Z 0 in
  let z := if in_w i then z - one else z in
  let z := if in_s i then z + one else z in
  let x := num_of_Z 0 in
  let x := if in_a i then x - one else x in
  let x := if in_d i then x + one else x in
  mkVec3 x (num_of_Z 0) z.

(** Walking: the velocity after acceleration, friction and gravity. *)
Definition walkVelocity (dt : num) (m : Motion) : Vec3 :=
  let speed := if in_shift (m_input m) then CLIENT.crouchSpeed else CLIENT.moveSpeed in
  let dir := moveDir (m_input m) in
  let v := m_vel m in
  let v :=
    if v3_length dir >? num_of_Z 0 then
      let d := v3_applyEuler (mkEuler (num_of_Z 0) (m_rotY m) (num_of_Z 0) (js "XYZ"))
                 (v3_normalize dir) in
      mkVec3 (vx v + vx d * speed * dt * num_of_Z 8) (vy v) (vz v + vz d * speed * dt * num_of_Z 8)
    else v in
  let friction := if m_onGround m then mexp (num_of_Z (-10) * dt) else mexp (num_of_Z (-2) * dt) in
  mkVec3 (vx v * friction) (vy v - CLIENT.gravity * dt) (vz v * friction).

(** The local branch of [update]; the second result is [cameraYaw]. *)
Definition updateLocal (worldSeed dt cameraYaw : num) (m : Motion) : Motion * num :=
  let i := m_input m in
  let crouching := in_shift i in
  let v := walkVelocity dt m in
  let jump := in_space i && m_onGround m in
  let v := if jump then mkVec3 (vx v) CLIENT.jumpForce (vz v) else v in
  let onGround := if jump then false else m_onGround m in
  let i := if jump
           then mkInput (in_w i) (in_a i) (in_s i) (in_d i) false (in_shift i) (in_r i) else i in
  let rotY := if in_r i then m_rotY m + num_of_Z 20 * dt else m_rotY m in
  let cameraYaw := if in_r i then rotY else cameraYaw in
  let pos := v3_add (m_pos m) (v3_scale v dt) in
  let half := CLIENT.mapHalf in
  let x := mu_clamp (vx pos) (- half) half in
  let z := mu_clamp (vz pos) (- half) half in
  let groundY := groundHeightWithObstacles worldSeed x z in
  if vy pos <=? groundY then
    (mkMotion (mkVec3 x groundY z) (m_rotX m) rotY (mkVec3 (vx v) (num_of_Z 0) (vz v)) true
       crouching i, cameraYaw)
  else (mkMotion (mkVec3 x (vy pos) z) (m_rotX m) rotY v onGround crouching i, cameraYaw).

(** [updateAnimation(dt)] at [Date.now() = dateNow]. *)
Definition updateAnimation (dateNow dt : num) (m : Motion) (a : Pose) : Pose :=
  let zero := num_of_Z 0 in
  let hSpeed := hypot2 (vx (m_vel m)) (vz (m_vel m)) in
  let isMoving := hSpeed >? num_dec 1 1 in
  let targetBodyY := if m_crouching m then num_dec 60 2 else num_dec 75 2 in
  let body := mu_lerp (bodyY a) targetBodyY (dt * num_of_Z 15) in
  let targetLean := if m_crouching m then - num_dec 8 1 else zero in
  let lean := mu_lerp (bodyLean a) targetLean (dt * num_of_Z 10) in
  let a :=
    if isMoving then
      let animSpeed := if m_crouching m then num_of_Z 6 else num_of_Z 10 in
      let walk := walkTime a + dt * animSpeed in
      let amp := if m_crouching m then zero else num_dec 6 1 in
      let angle := msin walk * amp in
      let armL := if m_crouching m then num_dec 5 1 else - angle in
      let armR := if m_crouching m then num_dec 5 1 else angle in
      mkPose body lean angle (- angle) armL zero armR zero walk (attackTime a)
    else
      let lerpSpeed := dt * num_of_Z 10 in
      let breath := msin (dateNow / num_of_Z 300) * num_dec 2 2 in
      let idle := attackTime a <=? zero in
      mkPose body lean (mu_lerp (leftLegX a) zero lerpSpeed) (mu_lerp (rightLegX a) zero lerpSpeed)
        (if idle then mu_lerp (leftArmX a) zero lerpSpeed else leftArmX a)
        (num_dec 5 2 + breath)
        (if idle then mu_lerp (rightArmX a) zero lerpSpeed else rightArmX a)
        (- num_dec 5 2 - breath) (walkTime a) (attackTime a) in
  if attackTime a >? zero then
    let attack := attackTime a - dt * num_of_Z 4 in
    let phase := num_of_Z 1 - attack in
    let armRot :=
      if phase <? num_dec 2 1 then - PI / num_of_Z 2 * (phase / num_dec 2 1)
      else - PI / num_of_Z 2 + PI / num_dec 15 1 * ((phase - num_dec 2 1) / num_dec 8 1) in
    mkPose (bodyY a) (bodyLean a) (leftLegX a) (rightLegX a) (leftArmX a) (leftArmZ a) armRot
      (rightArmZ a) (walkTime a) attack
  else a.

(** The end of [update]: animation, and the hit colour while it lasts. *)
Definition updateLook (dateNow dt : num) (p : PlayerModel) : PlayerModel :=
  let p := if p_isBot p then p
           else set_pose (updateAnimation dateNow dt (p_motion p) (p_pose p)) p in
  if p_hitFlashTime p >? num_of_Z 0
  then set_flash (p_hitFlashTime p - dt) (if p_isBot p then p_flashing p else true) p
  else set_flash (p_hitFlashTime p) (if p_isBot p then p_flashing p else false) p.

Definition with_rotX (r : num) (m : Motion) : Motion :=
  mkMotion (m_pos m) r (m_rotY m) (m_vel m) (m_onGround m) (m_crouching m) (m_input m).

Definition with_posY (y : num) (m : Motion) : Motion :=
  mkMotion (mkVec3 (vx (m_pos m)) y (vz (m_pos m))) (m_rotX m) (m_rotY m) (m_vel m) (m_onGround m)
    (m_crouching m) (m_input m).

(** [update(dt)]: the model and [cameraYaw]; [None] if a rotation loop does not
    end within [fuel] iterations. *)
Definition update (fuel : nat) (worldSeed dateNow dt cameraYaw : num) (p : PlayerModel)
    : option (PlayerModel * num) :=
  let m := p_motion p in
  if p_dead p then
    let y := groundHeightWithObstacles worldSeed (vx (m_pos m)) (vz (m_pos m)) + num_dec 2 1 in
    Some (set_motion (with_posY y (with_rotX (- PI / num_of_Z 2) m)) p, cameraYaw)
  else
    let p := set_motion (with_rotX (num_of_Z 0) m) p in
    if p_isRemote p then
      match updateRemote fuel dt p with
      | Some p' => Some (updateLook dateNow dt p', cameraYaw)
      | None => None
      end
    else if p_isBot p then Some (p, cameraYaw)
    else
      let '(m', yaw) := updateLocal worldSeed dt cameraYaw (p_motion p) in
      Some (updateLook dateNow dt (set_motion m' p), yaw).

(** ** Throwing and flying *)

Record Snowball := mkSnowball {
  sb_id : jsstr;
  sb_active : bool;
  sb_ownerId : jsstr;
  sb_pos : Vec3;
  sb_rotX : num;
  sb_rotY : num;
  sb_vel : Vec3;
}.

(** [new Snowball(id, pos, dir, ownerId)]. *)
Definition newSnowball (id : jsstr) (pos dir : Vec3) (ownerId : jsstr) : Snowball :=
  mkSnowball id true ownerId pos (num_of_Z 0) (num_of_Z 0) (v3_scale dir CLIENT.snowballSpeed).

(** [throwSnowball()] at [performance.now() = now]: the updated model and the
    snowball, which is also sent with its direction; [None] when nothing is
    thrown. [networkManager] exists. *)
Definition throwSnowball (shotId : jsstr) (now cameraPitch : num) (p : PlayerModel)
    : option (PlayerModel * Snowball * Vec3) :=
  if p_dead p then None
  else if now - p_lastShotAt p <? CLIENT.snowballCooldown then None
  else
    let a := p_pose p in
    let p' := set_pose (mkPose (bodyY a) (bodyLean a) (leftLegX a) (rightLegX a) (leftArmX a)
                (leftArmZ a) (rightArmX a) (rightArmZ a) (walkTime a) (num_of_Z 1)) (set_shot now p) in
    let euler := mkEuler cameraPitch (m_rotY (p_motion p)) (num_of_Z 0) (js "YXZ") in
    let dir := v3_normalize (v3_applyEuler euler (mkVec3 (num_of_Z 0) (num_of_Z 0) (num_of_Z (-1)))) in
    let pos := m_pos (p_motion p) in
    let origin := v3_add (mkVec3 (vx pos) (vy pos + num_dec 14 1) (vz pos))
                    (v3_scale dir (num_dec 5 1)) in
    Some (p', newSnowball shotId origin dir (p_id p), dir).

(** A bounding box of the scenery. *)
Record Box := mkBox { b_min : Vec3; b_max : Vec3 }.

(** The body of the obstacle loop: does the ball at [p] touch [box]? *)
Definition hitsBox (p : Vec3) (box : Box) : bool :=
  let radius := num_dec 2 1 in
  if (vy p + radius <? vy (b_min box)) || (vy p - radius >? vy (b_max box)) then false
  else
    (vx p >=? vx (b_min box) - radius) && (vx p <=? vx (b_max box) + radius) &&
    (vz p >=? vz (b_min box) - radius) && (vz p <=? vz (b_max box) + radius).

(** The loop over [STATIC_OBSTACLES] stops at the first box hit. *)
Fixpoint hitsObstacle (p : Vec3) (boxes : list Box) : bool :=
  match boxes with
  | [] => false
  | box :: boxes' => if hitsBox p box then true else hitsObstacle p boxes'
  end.

(** [update(dt)] of a snowball; [destroy()] makes it inactive. *)
Definition updateSnowball (worldSeed : num) (obstacles : list Box) (dt : num) (b : Snowball) : Snowball :=
  if negb (sb_active b) then b
  else
    let v := mkVec3 (vx (sb_vel b)) (vy (sb_vel b) - CLIENT.gravity * dt) (vz (sb_vel b)) in
    let pos := v3_add (sb_pos b) (v3_scale v dt) in
    let rx := sb_rotX b + dt * num_of_Z 10 in
    let ry := sb_rotY b + dt * num_of_Z 10 in
    let groundY := terrainHeight worldSeed (vx pos) (vz pos) in
    let active := negb (vy pos <=? groundY) && negb (hitsObstacle pos obstacles) in
    mkSnowball (sb_id b) active (sb_ownerId b) pos rx ry v.

End Player.
