(* ===== verification/ClientNet.v ===== *)
(** * The network client ([client_src/network.js])

    [NetworkManager] and the tables of players and snowballs it maintains from
    the server's messages.  Player models are shared objects: the array
    [players], the map [playersById] and the variable [localPlayer] refer to
    them, so they live in a heap and the tables hold addresses. *)

From S2P Require Import Prelude JsMap JsNum JsString JsValue Protocol ClientUtils ClientPlayer.

(** What the client sends. *)
Inductive ClientMsg :=
| CHello (name : jsval)
| CPing (now : Z)
| CChat (text : jsstr)
| CState (pos : Vec3) (rotY : num) (vel : Vec3) (crouch : bool) (pingMs : option num)
| CSnowball (id : jsstr) (dir : Vec3) (ts : Z).

(** The browser's sockets. *)
Inductive WsState := CONNECTING | WS_OPEN | WS_CLOSED.

(** Where a message goes once it is encrypted: to the socket the closure holds,
    unconditionally, or to [this.ws] at that time if it is open. *)
Inductive SendTo := ToSocket (ws : nat) | ToCurrent.

(** [NetworkManager], with the browser's side of its sockets and timers. *)
Record Net := mkNet {
  n_ws : option nat;                            (* this.ws *)
  n_connected : bool;
  n_lastStateSend : num;
  n_pendingSnapshot : option (list (PlayerSnapshot Vec3));
  n_lastPingMs : option num;
  n_lastPingSentAt : num;
  n_pingTimer : bool;                           (* this.pingTimerId is set *)
  n_playerName : jsval;
  n_connectAttempts : Z;
  n_sockets : list WsState;                     (* every WebSocket created *)
  n_outbox : list (SendTo * ClientMsg);         (* messages being encrypted *)
  n_sent : list (nat * ClientMsg);              (* messages handed to a socket *)
  n_reconnects : nat;                           (* pending reconnect timers *)
  n_reload : bool;                              (* a page reload is scheduled *)
}.

Definition maxConnectAttempts : Z := 3.
Definition pingIntervalMs : Z := 2000.

Definition newNet : Net :=
  mkNet None false (num_of_Z 0) None None (num_of_Z 0) false JNull 0 [] [] [] 0 false.

Record ClientState := mkCS {
  models : list PlayerModel; (* every model ever created, by address *)
  players : list nat; (* players *)
  playersById : JMap.jsmap jsstr nat; (* playersById *)
  localPlayer : option nat; (* localPlayer *)
  localPlayerId : option jsstr; (* localPlayerId *)
  inScene : list nat; (* the models whose mesh is in the scene *)
  balls : list Snowball; (* every snowball ever created, by address *)
  snowballs : list nat; (* snowballs *)
  snowballsById : JMap.jsmap jsstr nat; (* snowballsById *)
  worldSeed : num; (* worldSeed *)
  environmentReady : bool; (* environmentReady *)
  cameraYaw : num; (* cameraYaw *)
  chatLog : ChatLog; (* the lines in the chat log *)
  chatIds : nat; (* chat lines ever appended *)
  hpUI : Z * Z; (* what setHpUI last showed *)
  deadUI : bool; (* is the dead overlay shown? *)
  net : Net; (* the NetworkManager *)
}.

Definition set_models (x : list PlayerModel) (c : ClientState) : ClientState :=
  mkCS x (players c) (playersById c) (localPlayer c) (localPlayerId c) (inScene c) (balls c)
    (snowballs c) (snowballsById c) (worldSeed c) (environmentReady c) (cameraYaw c) (chatLog c)
    (chatIds c) (hpUI c) (deadUI c) (net c).
Definition set_players (x : list nat) (c : ClientState) : ClientState :=
  mkCS (models c) x (playersById c) (localPlayer c) (localPlayerId c) (inScene c) (balls c)
    (snowballs c) (snowballsById c) (worldSeed c) (environmentReady c) (cameraYaw c) (chatLog c)
    (chatIds c) (hpUI c) (deadUI c) (net c).
Definition set_playersById (x : JMap.jsmap jsstr nat) (c : ClientState) : ClientState :=
  mkCS (models c) (players c) x (localPlayer c) (localPlayerId c) (inScene c) (balls c)
    (snowballs c) (snowballsById c) (worldSeed c) (environmentReady c) (cameraYaw c) (chatLog c)
    (chatIds c) (hpUI c) (deadUI c) (net c).
Definition set_localPlayer (x : option nat) (c : ClientState) : ClientState :=
  mkCS (models c) (players c) (playersById c) x (localPlayerId c) (inScene c) (balls c)
    (snowballs c) (snowballsById c) (worldSeed c) (environmentReady c) (cameraYaw c) (chatLog c)
    (chatIds c) (hpUI c) (deadUI c) (net c).
Definition set_localPlayerId (x : option jsstr) (c : ClientState) : ClientState :=
  mkCS (models c) (players c) (playersById c) (localPlayer c) x (inScene c) (balls c)
    (snowballs c) (snowballsById c) (worldSeed c) (environmentReady c) (cameraYaw c) (chatLog c)
    (chatIds c) (hpUI c) (deadUI c) (net c).
Definition set_inScene (x : list nat) (c : ClientState) : ClientState :=
  mkCS (models c) (players c) (playersById c) (localPlayer c) (localPlayerId c) x (balls c)
    (snowballs c) (snowballsById c) (worldSeed c) (environmentReady c) (cameraYaw c) (chatLog c)
    (chatIds c) (hpUI c) (deadUI c) (net c).
Definition set_balls (x : list Snowball) (c : ClientState) : ClientState :=
  mkCS (models c) (players c) (playersById c) (localPlayer c) (localPlayerId c) (inScene c) x
    (snowballs c) (snowballsById c) (worldSeed c) (environmentReady c) (cameraYaw c) (chatLog c)
    (chatIds c) (hpUI c) (deadUI c) (net c).
Definition set_snowballs (x : list nat) (c : ClientState) : ClientState :=
  mkCS (models c) (players c) (playersById c) (localPlayer c) (localPlayerId c) (inScene c)
    (balls c) x (snowballsById c) (worldSeed c) (environmentReady c) (cameraYaw c) (chatLog c)
    (chatIds c) (hpUI c) (deadUI c) (net c).
Definition set_snowballsById (x : JMap.jsmap jsstr nat) (c : ClientState) : ClientState :=
  mkCS (models c) (players c) (playersById c) (localPlayer c) (localPlayerId c) (inScene c)
    (balls c) (snowballs c) x (worldSeed c) (environmentReady c) (cameraYaw c) (chatLog c)
    (chatIds c) (hpUI c) (deadUI c) (net c).
Definition set_worldSeed (x : num) (c : ClientState) : ClientState :=
  mkCS (models c) (players c) (playersById c) (localPlayer c) (localPlayerId c) (inScene c)
    (balls c) (snowballs c) (snowballsById c) x (environmentReady c) (cameraYaw c) (chatLog c)
    (chatIds c) (hpUI c) (deadUI c) (net c).
Definition set_environmentReady (x : bool) (c : ClientState) : ClientState :=
  mkCS (models c) (players c) (playersById c) (localPlayer c) (localPlayerId c) (inScene c)
    (balls c) (snowballs c) (snowballsById c) (worldSeed c) x (cameraYaw c) (chatLog c)
    (chatIds c) (hpUI c) (deadUI c) (net c).
Definition set_cameraYaw (x : num) (c : ClientState) : ClientState :=
  mkCS (models c) (players c) (playersById c) (localPlayer c) (localPlayerId c) (inScene c)
    (balls c) (snowballs c) (snowballsById c) (worldSeed c) (environmentReady c) x (chatLog c)
    (chatIds c) (hpUI c) (deadUI c) (net c).
Definition set_chatLog (x : ChatLog) (c : ClientState) : ClientState :=
  mkCS (models c) (players c) (playersById c) (localPlayer c) (localPlayerId c) (inScene c)
    (balls c) (snowballs c) (snowballsById c) (worldSeed c) (environmentReady c) (cameraYaw c) x
    (chatIds c) (hpUI c) (deadUI c) (net c).
Definition set_chatIds (x : nat) (c : ClientState) : ClientState :=
  mkCS (models c) (players c) (playersById c) (localPlayer c) (localPlayerId c) (inScene c)
    (balls c) (snowballs c) (snowballsById c) (worldSeed c) (environmentReady c) (cameraYaw c)
    (chatLog c) x (hpUI c) (deadUI c) (net c).
Definition set_hpUI (x : Z * Z) (c : ClientState) : ClientState :=
  mkCS (models c) (players c) (playersById c) (localPlayer c) (localPlayerId c) (inScene c)
    (balls c) (snowballs c) (snowballsById c) (worldSeed c) (environmentReady c) (cameraYaw c)
    (chatLog c) (chatIds c) x (deadUI c) (net c).
Definition set_deadUI (x : bool) (c : ClientState) : ClientState :=
  mkCS (models c) (players c) (playersById c) (localPlayer c) (localPlayerId c) (inScene c)
    (balls c) (snowballs c) (snowballsById c) (worldSeed c) (environmentReady c) (cameraYaw c)
    (chatLog c) (chatIds c) (hpUI c) x (net c).
Definition set_net (x : Net) (c : ClientState) : ClientState :=
  mkCS (models c) (players c) (playersById c) (localPlayer c) (localPlayerId c) (inScene c)
    (balls c) (snowballs c) (snowballsById c) (worldSeed c) (environmentReady c) (cameraYaw c)
    (chatLog c) (chatIds c) (hpUI c) (deadUI c) x.

(** The page before the first message. *)
Definition init_client : ClientState :=
  mkCS [] [] [] None None [] [] [] [] (num_of_Z 1) false (num_of_Z 0) [] 0 (0, 0) false newNet.

(** ** Models and their tables *)

Definition upd_model (a : nat) (f : PlayerModel -> PlayerModel) (c : ClientState) : ClientState :=
  set_models (alter f a (models c)) c.

Definition the_model (a : nat) (c : ClientState) : option PlayerModel := models c !! a.

(** Allocate a model; its constructor adds the mesh to the scene. *)
Definition alloc_model (m : PlayerModel) (c : ClientState) : nat * ClientState :=
  let a := length (models c) in
  (a, set_inScene (inScene c ++ [a]) (set_models (models c ++ [m]) c)).

(** The first occurrence of [a] removed ([indexOf] and [splice]). *)
Fixpoint remove_first (a : nat) (l : list nat) : list nat :=
  match l with
  | [] => []
  | x :: l' => if (x =? a)%nat then l' else x :: remove_first a l'
  end.

(** [scene.remove(mesh)]. *)
Definition leave_scene (a : nat) (c : ClientState) : ClientState :=
  set_inScene (remove_first a (inScene c)) c.

Definition removePlayer (id : jsstr) (c : ClientState) : ClientState :=
  match JMap.get id (playersById c) with
  | Some a =>
      let c := leave_scene a c in
      let c := set_playersById (JMap.delete id (playersById c)) c in
      set_players (remove_first a (players c)) c
  | None => c
  end.

Definition showHp (hp : Z) (c : ClientState) : ClientState := set_hpUI (setHpUI hp) c.

Definition log_chat (line : jsstr) (c : ClientState) : ClientState :=
  set_chatIds (S (chatIds c)) (set_chatLog (appendChatLog (chatIds c) line (chatLog c)) c).

(** [rotY || 0]. *)
Definition or_zero (r : num) : num := if num_truthy r then r else num_of_Z 0.

Section Net.
Context `{JsMath} `{Three} (toStr : jsval -> jsstr).

(** A model pushed to [players] and entered under its id. *)
Definition add_player (m : PlayerModel) (c : ClientState) : nat * ClientState :=
  let '(a, c) := alloc_model m c in
  let c := set_players (players c ++ [a]) c in
  (a, set_playersById (JMap.set (p_id m) a (playersById c)) c).

Definition createLocalPlayer (snap : PlayerSnapshot Vec3) (c : ClientState) : ClientState :=
  let m := newPlayerModel (worldSeed c) (ps_id snap) (ps_pos snap) (ps_name snap) false in
  let m := set_hp (p_dead m) (ps_hp snap) (Some (ps_updatedAt snap)) m in
  let '(a, c) := add_player m c in
  let c := set_localPlayer (Some a) c in
  let c := set_cameraYaw (or_zero (ps_rotY snap)) c in
  showHp (ps_hp snap) c.

(** ** Snapshots *)

(** [let rp = playersById.get(id); if (!rp) { ... }]. *)
Definition get_or_create (id : jsstr) (pos : Vec3) (name : jsval) (c : ClientState) : nat * ClientState :=
  match JMap.get id (playersById c) with
  | Some a => (a, c)
  | None => add_player (newPlayerModel (worldSeed c) id pos name true) c
  end.

(** The hit points of the local player, unless the snapshot is older than the
    last ones known. *)
Definition snapshotHp (snap : PlayerSnapshot Vec3) (c : ClientState) : ClientState :=
  match localPlayer c with
  | None => c
  | Some a =>
      match the_model a c with
      | None => c
      | Some m =>
          if default 0 (p_lastHpAt m) <=? ps_updatedAt snap then
            showHp (ps_hp snap)
              (upd_model a (fun m => set_hp (p_dead m) (ps_hp snap) (Some (ps_updatedAt snap)) m) c)
          else c
      end
  end.

Definition snapshotPing (ping : option num) (a : nat) (c : ClientState) : ClientState :=
  match ping with Some ms => upd_model a (updatePing ms) c | None => c end.

Definition is_local (id : jsstr) (c : ClientState) : bool :=
  match localPlayerId c with Some me => str_eqb id me | None => false end.

(** [p.id === localPlayerId] for the model at [a]. *)
Definition model_local (a : nat) (c : ClientState) : bool :=
  match the_model a c with Some m => is_local (p_id m) c | None => false end.

(** The body of the loop of [applySnapshot]. *)
Definition applySnap (snap : PlayerSnapshot Vec3) (c : ClientState) : ClientState :=
  match ps_id snap with
  | [] => c
  | _ =>
      if is_local (ps_id snap) c then
        let c := match localPlayer c with Some _ => c | None => createLocalPlayer snap c end in
        let c := snapshotHp snap c in
        match localPlayer c with Some a => snapshotPing (ps_pingMs snap) a c | None => c end
      else
        let '(a, c) := get_or_create (ps_id snap) (ps_pos snap) (ps_name snap) c in
        let c := upd_model a (setRemoteTarget (ps_pos snap) (ps_rotY snap) (ps_vel snap) (ps_crouch snap)) c in
        let c := upd_model a (updateNameLabel (ps_name snap)) c in
        snapshotPing (ps_pingMs snap) a c
  end.

(** [ids]: the ids the snapshot lists. *)
Definition snap_ids (list_ : list (PlayerSnapshot Vec3)) : list jsstr :=
  List.filter (fun id => match id with [] => false | _ => true end) (map ps_id list_).

(** Players the snapshot does not list are removed; the table is iterated
    while entries are deleted from it, which visits every entry. *)
Definition applySnapshot (list_ : list (PlayerSnapshot Vec3)) (c : ClientState) : ClientState :=
  let c := foldl (fun c snap => applySnap snap c) c list_ in
  let ids := snap_ids list_ in
  foldl (fun c id =>
    if negb (is_local id c) && negb (existsb (str_eqb id) ids) then removePlayer id c else c)
    c (JMap.keys (playersById c)).

(** ** Events *)

(** The text [name + ": " + text]. *)
Definition chat_line (name : jsval) (text : jsstr) : jsstr := toStr name ++ js ": " ++ text.

Definition name_or (v : jsval) (alt : jsstr) : jsval := if truthy v then v else JStr alt.

(** The skull, then "killed" in Chinese. *)
Definition kill_line (attacker victim : jsval) : jsstr :=
  [55357; 56448; 32] ++ toStr attacker ++ [32; 20987; 26432; 20102; 32] ++ toStr victim.

Definition with_player (id : jsstr) (f : nat -> ClientState -> ClientState) (c : ClientState) : ClientState :=
  match JMap.get id (playersById c) with Some a => f a c | None => c end.

Definition onJoin (player : PlayerSnapshot Vec3) (c : ClientState) : ClientState :=
  match localPlayerId c with
  | None | Some [] => c
  | Some me =>
      if str_eqb (ps_id player) me then
        match localPlayer c with Some _ => c | None => createLocalPlayer player c end
      else if JMap.has (ps_id player) (playersById c) then c
      else snd (add_player (newPlayerModel (worldSeed c) (ps_id player) (ps_pos player)
                              (ps_name player) true) c)
  end.

Definition onHitEvent (dateNow at_ : Z) (victimId : jsstr) (impulse : Vec3) (victimHp : Z)
    (c : ClientState) : ClientState :=
  let c := with_player victimId (fun a => upd_model a onHit) c in
  match localPlayer c with
  | Some a =>
      if is_local victimId c then
        let hpAt := if at_ =? 0 then dateNow else at_ in
        let c := upd_model a (fun m => set_hp (p_dead m) victimHp (Some hpAt) (applyKnockback impulse m)) c in
        let c := showHp victimHp c in
        if victimHp <=? 0 then
          set_deadUI true (upd_model a (fun m => set_hp true (p_health m) (p_lastHpAt m) m) c)
        else c
      else c
  | None => c
  end.

Definition onDeath (victimId : jsstr) (victimName attackerName : jsval) (c : ClientState) : ClientState :=
  let c := with_player victimId (fun a c =>
             let c := upd_model a (fun m => set_hp true (p_health m) (p_lastHpAt m) m) c in
             if model_local a c then set_deadUI true c else c) c in
  log_chat (kill_line (fixName (name_or attackerName (js "???")))
                      (fixName (name_or victimName (js "???")))) c.

Definition onRespawn (playerId : jsstr) (pos : Vec3) (hp : Z) (c : ClientState) : ClientState :=
  with_player playerId (fun a c =>
    let c := upd_model a (fun m => set_visible true (set_motion
               (mkMotion pos (m_rotX (p_motion m)) (m_rotY (p_motion m)) (m_vel (p_motion m))
                  (m_onGround (p_motion m)) (m_crouching (p_motion m)) (m_input (p_motion m)))
               (set_hp false hp (p_lastHpAt m) m))) c in
    if model_local a c then showHp hp (set_deadUI false c) else c) c.

(** [applyEvent(ev)]. *)
Definition applyEvent (dateNow : Z) (ev : WorldEvent Vec3) (c : ClientState) : ClientState :=
  match ev_body ev with
  | EvJoin player => onJoin player c
  | EvLeave playerId _ => removePlayer playerId c
  | EvChat playerId name text =>
      match JMap.get playerId (playersById c) with
      | Some a =>
          let shown := match the_model a c with Some m => p_name m | None => JUndef end in
          log_chat (chat_line shown text) (upd_model a (set_chat (Some (JStr text))) c)
      | None => log_chat (chat_line (fixName (name_or name (js "Unknown"))) text) c
      end
  | EvState playerId pos rotY vel crouch =>
      with_player playerId (fun a c =>
        if is_local playerId c then c else upd_model a (setRemoteTarget pos rotY vel crouch) c) c
  | EvSnowball id ownerId origin dir _ =>
      if JMap.has id (snowballsById c) then c
      else
        let b := length (balls c) in
        let c := set_balls (balls c ++ [newSnowball id origin dir ownerId]) c in
        let c := set_snowballs (snowballs c ++ [b]) c in
        set_snowballsById (JMap.set id b (snowballsById c)) c
  | EvHit _ victimId impulse victimHp _ => onHitEvent dateNow (ev_at ev) victimId impulse victimHp c
  | EvRename playerId name => with_player playerId (fun a => upd_model a (updateNameLabel (JStr name))) c
  | EvDeath victimId victimName _ attackerName _ _ => onDeath victimId victimName attackerName c
  | EvRespawn playerId pos hp => onRespawn playerId pos hp c
  end.

(** ** The connection *)

Definition upd_net (f : Net -> Net) (c : ClientState) : ClientState := set_net (f (net c)) c.

Definition with_sockets (l : list WsState) (n : Net) : Net :=
  mkNet (n_ws n) (n_connected n) (n_lastStateSend n) (n_pendingSnapshot n) (n_lastPingMs n)
    (n_lastPingSentAt n) (n_pingTimer n) (n_playerName n) (n_connectAttempts n) l (n_outbox n)
    (n_sent n) (n_reconnects n) (n_reload n).

(** [wsEncode(msg).then(...)]: the message leaves when it is encrypted. *)
Definition encode_send (to : SendTo) (m : ClientMsg) (n : Net) : Net :=
  mkNet (n_ws n) (n_connected n) (n_lastStateSend n) (n_pendingSnapshot n) (n_lastPingMs n)
    (n_lastPingSentAt n) (n_pingTimer n) (n_playerName n) (n_connectAttempts n) (n_sockets n)
    (n_outbox n ++ [(to, m)]) (n_sent n) (n_reconnects n) (n_reload n).

(** [this.ws?.readyState === 1]. *)
Definition is_open (n : Net) : bool :=
  match n_ws n with
  | Some i => match n_sockets n !! i with Some WS_OPEN => true | _ => false end
  | None => false
  end.

Definition scheduleReconnect (n : Net) : Net :=
  if n_connectAttempts n >=? maxConnectAttempts then
    mkNet (n_ws n) (n_connected n) (n_lastStateSend n) (n_pendingSnapshot n) (n_lastPingMs n)
      (n_lastPingSentAt n) (n_pingTimer n) (n_playerName n) (n_connectAttempts n) (n_sockets n)
      (n_outbox n) (n_sent n) (n_reconnects n) true
  else
    mkNet (n_ws n) (n_connected n) (n_lastStateSend n) (n_pendingSnapshot n) (n_lastPingMs n)
      (n_lastPingSentAt n) (n_pingTimer n) (n_playerName n) (n_connectAttempts n + 1) (n_sockets n)
      (n_outbox n) (n_sent n) (S (n_reconnects n)) (n_reload n).

(** The function [tick] of [startPingLoop], at [performance.now() = now]. *)
Definition pingTick (now : num) (dateNow : Z) (n : Net) : Net :=
  if negb (is_open n) then
    mkNet (n_ws n) (n_connected n) (n_lastStateSend n) (n_pendingSnapshot n) (n_lastPingMs n)
      (n_lastPingSentAt n) false (n_playerName n) (n_connectAttempts n) (n_sockets n) (n_outbox n)
      (n_sent n) (n_reconnects n) (n_reload n)
  else
    encode_send ToCurrent (CPing dateNow)
      (mkNet (n_ws n) (n_connected n) (n_lastStateSend n) (n_pendingSnapshot n) (n_lastPingMs n)
         now true (n_playerName n) (n_connectAttempts n) (n_sockets n) (n_outbox n) (n_sent n)
         (n_reconnects n) (n_reload n)).

Definition startPingLoop (now : num) (dateNow : Z) (n : Net) : Net :=
  if n_pingTimer n then n else pingTick now dateNow n.

(** [connect(playerName)]: a new socket. *)
Definition connect (playerName : jsval) (n : Net) : Net :=
  let name := if truthy playerName then playerName else n_playerName n in
  mkNet (Some (length (n_sockets n))) (n_connected n) (n_lastStateSend n) (n_pendingSnapshot n)
    (n_lastPingMs n) (n_lastPingSentAt n) (n_pingTimer n) name (n_connectAttempts n)
    (n_sockets n ++ [CONNECTING]) (n_outbox n) (n_sent n) (n_reconnects n) (n_reload n).

(** [ws.onopen] of socket [i]. [this.playerName || playerName]: connecting set
    [this.playerName] when it was given one. *)
Definition onOpen (i : nat) (now : num) (dateNow : Z) (n : Net) : Net :=
  let n := with_sockets (<[i := WS_OPEN]> (n_sockets n)) n in
  let n := mkNet (n_ws n) true (n_lastStateSend n) (n_pendingSnapshot n) (n_lastPingMs n)
             (n_lastPingSentAt n) (n_pingTimer n) (n_playerName n) 0 (n_sockets n) (n_outbox n)
             (n_sent n) (n_reconnects n) (n_reload n) in
  let n := encode_send (ToSocket i) (CHello (n_playerName n)) n in
  startPingLoop now dateNow n.

(** [ws.onclose] of socket [i]. *)
Definition onCloseWs (i : nat) (n : Net) : Net :=
  let n := with_sockets (<[i := WS_CLOSED]> (n_sockets n)) n in
  scheduleReconnect
    (mkNet (n_ws n) false (n_lastStateSend n) (n_pendingSnapshot n) (n_lastPingMs n)
       (n_lastPingSentAt n) false (n_playerName n) (n_connectAttempts n) (n_sockets n) (n_outbox n)
       (n_sent n) (n_reconnects n) (n_reload n)).

(** The reconnect timer: [this.connect(this.playerName || "Player")]. *)
Definition reconnect (n : Net) : Net :=
  match n_reconnects n with
  | O => n
  | S k =>
      connect (if truthy (n_playerName n) then n_playerName n else JStr (js "Player"))
        (mkNet (n_ws n) (n_connected n) (n_lastStateSend n) (n_pendingSnapshot n) (n_lastPingMs n)
           (n_lastPingSentAt n) (n_pingTimer n) (n_playerName n) (n_connectAttempts n) (n_sockets n)
           (n_outbox n) (n_sent n) k (n_reload n))
  end.

(** The [j]-th message is encrypted. Sending on a socket that is not open does
    nothing here. *)
Definition encoded (j : nat) (n : Net) : Net :=
  match n_outbox n !! j with
  | None => n
  | Some (to, m) =>
      let target := match to with
                    | ToSocket i => Some i
                    | ToCurrent => if is_open n then n_ws n else None
                    end in
      let ok := match target with
                | Some i => match n_sockets n !! i with Some WS_OPEN => true | _ => false end
                | None => false
                end in
      mkNet (n_ws n) (n_connected n) (n_lastStateSend n) (n_pendingSnapshot n) (n_lastPingMs n)
        (n_lastPingSentAt n) (n_pingTimer n) (n_playerName n) (n_connectAttempts n) (n_sockets n)
        (base.delete j (n_outbox n))
        (match target with Some i => if ok then n_sent n ++ [(i, m)] else n_sent n | None => n_sent n end)
        (n_reconnects n) (n_reload n)
  end.

Definition with_pending (o : option (list (PlayerSnapshot Vec3))) (n : Net) : Net :=
  mkNet (n_ws n) (n_connected n) (n_lastStateSend n) o (n_lastPingMs n) (n_lastPingSentAt n)
    (n_pingTimer n) (n_playerName n) (n_connectAttempts n) (n_sockets n) (n_outbox n) (n_sent n)
    (n_reconnects n) (n_reload n).

Definition with_attempts (k : Z) (n : Net) : Net :=
  mkNet (n_ws n) (n_connected n) (n_lastStateSend n) (n_pendingSnapshot n) (n_lastPingMs n)
    (n_lastPingSentAt n) (n_pingTimer n) (n_playerName n) k (n_sockets n) (n_outbox n) (n_sent n)
    (n_reconnects n) (n_reload n).

Definition with_ping (ms : num) (n : Net) : Net :=
  mkNet (n_ws n) (n_connected n) (n_lastStateSend n) (n_pendingSnapshot n) (Some ms)
    (n_lastPingSentAt n) (n_pingTimer n) (n_playerName n) (n_connectAttempts n) (n_sockets n)
    (n_outbox n) (n_sent n) (n_reconnects n) (n_reload n).

(** ** Messages *)

(** One entry of a [states] message. *)
Definition applyState (s : PendingState Vec3) (c : ClientState) : ClientState :=
  match pd_id s with
  | [] => c
  | _ =>
      if is_local (pd_id s) c then c
      else
        let '(a, c) := get_or_create (pd_id s) (pd_pos s) (JStr (js "Player")) c in
        upd_model a (setRemoteTarget (pd_pos s) (pd_rotY s) (pd_vel s) (pd_crouch s)) c
  end.

Definition onWelcome (id : jsstr) (seed : Z) (c : ClientState) : ClientState :=
  let c := match localPlayer c with
           | Some a =>
               match the_model a c with
               | Some m => if str_eqb (p_id m) id then c
                           else set_localPlayer None (removePlayer (p_id m) c)
               | None => c
               end
           | None => c
           end in
  let c := set_localPlayerId (Some id) c in
  let c := set_environmentReady true (set_worldSeed (num_of_Z seed) c) in
  match n_pendingSnapshot (net c) with
  | Some l => upd_net (with_pending None) (applySnapshot l c)
  | None => c
  end.

(** A decoded message, at [performance.now() = now]; [round] is [Math.round]. *)
Definition onServerMsg (round : num -> num) (now : num) (dateNow : Z) (msg : ServerMsg Vec3)
    (c : ClientState) : ClientState :=
  match msg with
  | SError _ => upd_net (with_attempts maxConnectAttempts) c
  | SWelcome id _ _ seed => onWelcome id seed c
  | SSnapshot _ players_ _ =>
      match localPlayerId c with
      | None => upd_net (with_pending (Some players_)) c
      | Some [] => upd_net (with_pending (Some players_)) c
      | Some _ => applySnapshot players_ c
      end
  | SStates _ l => foldl (fun c s => applyState s c) c l
  | SEvent ev => applyEvent dateNow ev c
  | SPong _ =>
      if num_truthy (n_lastPingSentAt (net c))
      then upd_net (with_ping (round (now - n_lastPingSentAt (net c))%num)) c
      else c
  end.

(** ** Sending *)

Definition sendChat (text : jsstr) (n : Net) : Net :=
  if is_open n then encode_send ToCurrent (CChat text) n else n.

Definition sendSnowball (shotId : jsstr) (dir : Vec3) (dateNow : Z) (n : Net) : Net :=
  if is_open n then encode_send ToCurrent (CSnowball shotId dir dateNow) n else n.

Definition maybeSendLocalState (now : num) (c : ClientState) : ClientState :=
  match localPlayer c with
  | None => c
  | Some a =>
      match the_model a c with
      | None => c
      | Some m =>
          if negb (is_open (net c)) then c
          else if (now - n_lastStateSend (net c) <? num_of_Z 1000 / CLIENT.netSendHz)%num then c
          else
            let mo := p_motion m in
            upd_net (fun n =>
              encode_send ToCurrent (CState (m_pos mo) (m_rotY mo) (m_vel mo) (in_shift (m_input mo))
                (n_lastPingMs n))
                (mkNet (n_ws n) (n_connected n) now (n_pendingSnapshot n) (n_lastPingMs n)
                   (n_lastPingSentAt n) (n_pingTimer n) (n_playerName n) (n_connectAttempts n)
                   (n_sockets n) (n_outbox n) (n_sent n) (n_reconnects n) (n_reload n))) c
      end
  end.

(** ** Everything that can happen to the client *)

Inductive ClientEvent :=
| NetConnect (name : jsval)
| NetOpen (i : nat) (now : num) (dateNow : Z)
| NetClose (i : nat)
| NetReconnect
| NetPingTimer (now : num) (dateNow : Z)
| NetEncoded (j : nat)
| NetMessage (now : num) (dateNow : Z) (msg : ServerMsg Vec3)
| UserChat (text : jsstr)
| StateTimer (now : num).

Definition client_step (round : num -> num) (c : ClientState) (e : ClientEvent) : ClientState :=
  match e with
  | NetConnect name => upd_net (connect name) c
  | NetOpen i now dateNow => upd_net (onOpen i now dateNow) c
  | NetClose i => upd_net (onCloseWs i) c
  | NetReconnect => upd_net reconnect c
  | NetPingTimer now dateNow => if n_pingTimer (net c) then upd_net (pingTick now dateNow) c else c
  | NetEncoded j => upd_net (encoded j) c
  | NetMessage now dateNow msg => onServerMsg round now dateNow msg c
  | UserChat text => upd_net (sendChat text) c
  | StateTimer now => maybeSendLocalState now c
  end.

Definition client_run (round : num -> num) (es : list ClientEvent) : ClientState :=
  foldl (client_step round) init_client es.

End Net.
