(* ===== verification/Rotation.v ===== *)
(** * The rotation loops of a frame

    [PlayerModel.update] adds or subtracts full turns until a remote player's
    rotation is within half a turn of its target.  For angles of ordinary size
    the loops end; for a huge target, adding a turn no longer changes the
    number and they never do. *)

From Stdlib Require Import QArith Lqa.
From S2P Require Import Prelude JsNum Rounding JsString JsValue ClientUtils ClientPlayer.
#[local] Open Scope Z_scope.
#[local] Arguments inject_Z : simpl never.

Definition small : num := num_of_Z (2 ^ 50).
Definition smallish : num := num_of_Z (2 ^ 51).

(** An angle of ordinary size. *)
Definition ordinary (a : num) : Prop := between (- small) small a.

Lemma below_val a b : fin a = true -> fin b = true -> nltb a b = true <-> (fval a < fval b)%Q.
Proof.
  intros Ha Hb. assert (isNaN a = false /\ isNaN b = false) as [Na Nb] by (by destruct a, b).
  pose proof (nleb_nltb b a Nb Na) as E. pose proof (nleb_val b a Hb Ha) as V.
  destruct (nltb a b); rewrite E in V; cbn in V; split; intros Hq; try done.
  - destruct (Qlt_le_dec (fval a) (fval b)) as [|Hle]; [done|]. apply V in Hle. done.
  - assert (fval b <= fval a)%Q by (by apply V). lra.
Qed.

(** A number between rationals that are numbers. *)
Lemma rnd_above z x f : (inject_Z z <= x)%Q -> rnd x f -> fin f = true -> fin (num_of_Z z) = true ->
  (fval (num_of_Z z) == inject_Z z)%Q -> (inject_Z z <= fval f)%Q.
Proof.
  intros Hx Hr Hf Hz Hv. rewrite <- Hv. apply nleb_val; [done..|]. eapply rnd_mono; [exact Hx| |exact Hr].
  eapply rnd_compat; [exact Hv|]. by apply rnd_val.
Qed.

Lemma rnd_below z x f : (x <= inject_Z z)%Q -> rnd x f -> fin f = true -> fin (num_of_Z z) = true ->
  (fval (num_of_Z z) == inject_Z z)%Q -> (fval f <= inject_Z z)%Q.
Proof.
  intros Hx Hr Hf Hz Hv. rewrite <- Hv. apply nleb_val; [done..|]. eapply rnd_mono; [exact Hx|exact Hr|].
  eapply rnd_compat; [exact Hv|]. by apply rnd_val.
Qed.

(** Safe integers are numbers. *)
Lemma fval_of_Z z : Z.abs z < 2 ^ 53 -> fin (num_of_Z z) = true /\ (fval (num_of_Z z) == inject_Z z)%Q.
Proof.
  intros Hz.
  assert (Hpos : forall s p, Zpos p < 2 ^ 53 -> fin (binary_round prec emax s p 0) = true /\
    (fval (binary_round prec emax s p 0) == signed s (inject_Z (Zpos p)))%Q).
  { intros s p Hp. pose proof (size_small p Hp) as Hs. pose proof (round_rounds prec emax ltac:(done) s p 0) as Hr.
    assert (R : rnd (signed s (inject_Z (Zpos p) * p2 0)) (binary_round prec emax s p 0)).
    { apply RN_signed; [apply fval_nonneg|done]. }
    destruct (binary_round_small s p Hp) as (m & E & Hm). rewrite E in *.
    split; [by eapply rnd_fin|]. cbn [fval]. rewrite Hm, inject_Z_mult, <- p2_Z by lia.
    assert (Ep : (p2 (53 - Zpos (Pos.size p)) * p2 (Zpos (Pos.size p) - 53) == 1)%Q).
    { rewrite <- p2_add. by replace (53 - Zpos (Pos.size p) + (Zpos (Pos.size p) - 53)) with 0 by lia. }
    destruct s; cbn [signed]; rewrite <- Qmult_assoc, Ep; ring. }
  destruct z as [|p|p]; [done| |]; unfold num_of_Z; cbn [binary_normalize].
  - apply (Hpos false p). lia.
  - destruct (Hpos true p ltac:(lia)) as [H1 H2]. split; [done|]. rewrite H2. cbn [signed].
    change (Zneg p) with (- Zpos p). by rewrite inject_Z_opp.
Qed.

(** ** Ordinary angles *)

Section Ends.
Context (tarY : num) (Htar : ordinary tarY).

Lemma tar_bounds : fin tarY = true /\ (inject_Z (- 2 ^ 50) <= fval tarY /\ fval tarY <= inject_Z (2 ^ 50))%Q.
Proof.
  destruct (between_val (- small) small tarY eq_refl eq_refl Htar) as [H1 H2]. destruct Htar as [Hf _].
  destruct (fval_of_Z (2 ^ 50) ltac:(lia)) as [_ E]. unfold small in *. rewrite fval_opp in H1. rewrite inject_Z_opp. split; [done|]. lra.
Qed.

Lemma pi_bounds : (3 < fval PI /\ 6 <= 2 * fval PI /\ 2 * fval PI <= 7)%Q.
Proof. by vm_compute. Qed.

Lemma turn_val : fin (PI * num_of_Z 2)%num = true /\ (fval (PI * num_of_Z 2)%num == 2 * fval PI)%Q.
Proof. split; by vm_compute. Qed.

(** The difference is computed without overflow. *)
Lemma diff_fin curY : between (- smallish) smallish curY -> fin (tarY - curY)%num = true.
Proof. intros Hc. assert (Hd : between (- num_of_Z (2 ^ 52)) (num_of_Z (2 ^ 52)) (tarY - curY)%num) by (unfold ordinary in Htar; bounds). apply Hd. Qed.

Lemma far_up curY :
  between (- smallish) smallish curY -> (tarY - curY >? PI)%num = true -> (fval curY + 3 < fval tarY)%Q.
Proof.
  intros Hc Hgt. pose proof (diff_fin curY Hc) as Hf. destruct tar_bounds as [Ft _]. destruct Hc as [Fc _].
  apply below_val in Hgt; [|done|done]. pose proof (nsub_RN tarY curY Ft Fc) as Hr.
  destruct (Qlt_le_dec (fval curY + 3) (fval tarY)) as [|Hle]; [done|exfalso].
  destruct (fval_of_Z 3 ltac:(lia)) as [F3 E3].
  assert (fval (tarY - curY)%num <= inject_Z 3)%Q
    by (eapply rnd_below; [|exact Hr|done..]; change (inject_Z 3) with 3%Q; lra).
  pose proof pi_bounds as (P3 & _). change (inject_Z 3) with 3%Q in *. lra.
Qed.

Lemma far_down curY :
  between (- smallish) smallish curY -> (tarY - curY <? - PI)%num = true -> (fval tarY + 3 < fval curY)%Q.
Proof.
  intros Hc Hlt. pose proof (diff_fin curY Hc) as Hf. destruct tar_bounds as [Ft _]. destruct Hc as [Fc _].
  apply below_val in Hlt; [|done|done]. rewrite fval_opp in Hlt. pose proof (nsub_RN tarY curY Ft Fc) as Hr.
  destruct (Qlt_le_dec (fval tarY + 3) (fval curY)) as [|Hle]; [done|exfalso].
  destruct (fval_of_Z (-3) ltac:(lia)) as [F3 E3].
  assert (inject_Z (-3) <= fval (tarY - curY)%num)%Q
    by (eapply rnd_above; [|exact Hr|done..]; change (inject_Z (-3)) with (-3)%Q; lra).
  pose proof pi_bounds as (P3 & _). change (inject_Z (-3)) with (-3)%Q in *. lra.
Qed.

Lemma floor_ge k a : fin a = true -> (inject_Z k <= fval a)%Q -> k <= num_floor a.
Proof.
  intros Ha Hk. pose proof (num_floor_val a Ha) as [_ H1].
  assert (inject_Z k < inject_Z (num_floor a + 1))%Q as H2 by lra. apply inj_lt in H2. lia.
Qed.

Lemma floor_le k a : fin a = true -> (fval a <= inject_Z k)%Q -> num_floor a <= k.
Proof.
  intros Ha Hk. pose proof (num_floor_val a Ha) as [H1 _].
  assert (inject_Z (num_floor a) <= inject_Z k)%Q as H2 by lra. by apply inj_le in H2.
Qed.

Lemma cur_bounds curY :
  between (- smallish) smallish curY ->
  fin curY = true /\ (inject_Z (- 2 ^ 51) <= fval curY /\ fval curY <= inject_Z (2 ^ 51))%Q /\
  - 2 ^ 51 <= num_floor curY <= 2 ^ 51.
Proof.
  intros Hc. destruct (between_val (- smallish) smallish curY eq_refl eq_refl Hc) as [H1 H2]. destruct Hc as [Hf _].
  destruct (fval_of_Z (2 ^ 51) ltac:(lia)) as [_ E]. unfold smallish in *. rewrite fval_opp, E in H1. rewrite E in H2.
  rewrite <- inject_Z_opp in H1. do 2 (split; [done|]). split; [by apply floor_ge|by apply floor_le].
Qed.

Lemma between_of_val lo hi a :
  Z.abs lo < 2 ^ 53 -> Z.abs hi < 2 ^ 53 -> fin a = true ->
  (inject_Z lo <= fval a)%Q -> (fval a <= inject_Z hi)%Q -> between (num_of_Z lo) (num_of_Z hi) a.
Proof.
  intros Hl Hh Ha H1 H2. destruct (fval_of_Z lo Hl) as [Fl El], (fval_of_Z hi Hh) as [Fh Eh].
  split; [done|]. rewrite !nleb_val, El, Eh by done. done.
Qed.

(** A turn more, while the target is ahead. *)
Lemma turn_up curY :
  between (- smallish) smallish curY -> (fval curY + 3 < fval tarY)%Q ->
  between (- smallish) smallish (curY + PI * num_of_Z 2)%num /\
  num_floor curY + 6 <= num_floor (curY + PI * num_of_Z 2)%num.
Proof.
  intros Hc Hfar. destruct (cur_bounds curY Hc) as (Fc & [C1 C2] & C3). destruct tar_bounds as [_ [T1 T2]].
  destruct turn_val as [Fp Ep]. pose proof pi_bounds as (_ & P6 & P7). pose proof (num_floor_val curY Fc) as [L1 L2].
  set (y := (curY + PI * num_of_Z 2)%num). pose proof (nadd_RN curY _ Fc Fp) as Hr. fold y in Hr.
  assert (Fy : fin y = true).
  { assert (Hy : between (- num_of_Z (2 ^ 52)) (num_of_Z (2 ^ 52)) y) by (unfold y; bounds). apply Hy. }
  assert (Hlo : (inject_Z (num_floor curY + 6) <= fval y)%Q).
  { destruct (fval_of_Z (num_floor curY + 6) ltac:(lia)). eapply rnd_above; [|exact Hr|done..].
    rewrite inject_Z_plus. change (inject_Z 6) with 6%Q. lra. }
  assert (Hhi : (fval y <= inject_Z (2 ^ 51))%Q).
  { destruct (fval_of_Z (2 ^ 51) ltac:(lia)). eapply rnd_below; [|exact Hr|done..].
    change (inject_Z (2 ^ 50)) with 1125899906842624%Q in *. change (inject_Z (2 ^ 51)) with 2251799813685248%Q in *. lra. }
  split; [|by apply floor_ge]. change (- smallish)%num with (num_of_Z (- 2 ^ 51)). apply between_of_val; try done.
  eapply Qle_trans; [|exact Hlo]. apply (proj1 (inj_le _ _)). lia.
Qed.

(** A turn less, while the target is behind. *)
Lemma turn_down curY :
  between (- smallish) smallish curY -> (fval tarY + 3 < fval curY)%Q ->
  between (- smallish) smallish (curY - PI * num_of_Z 2)%num /\
  num_floor (curY - PI * num_of_Z 2)%num <= num_floor curY - 5.
Proof.
  intros Hc Hfar. destruct (cur_bounds curY Hc) as (Fc & [C1 C2] & C3). destruct tar_bounds as [_ [T1 T2]].
  destruct turn_val as [Fp Ep]. pose proof pi_bounds as (_ & P6 & P7). pose proof (num_floor_val curY Fc) as [L1 L2].
  set (y := (curY - PI * num_of_Z 2)%num). pose proof (nsub_RN curY _ Fc Fp) as Hr. fold y in Hr.
  assert (Fy : fin y = true).
  { assert (Hy : between (- num_of_Z (2 ^ 52)) (num_of_Z (2 ^ 52)) y) by (unfold y; bounds). apply Hy. }
  assert (Hhi : (fval y <= inject_Z (num_floor curY - 5))%Q).
  { destruct (fval_of_Z (num_floor curY - 5) ltac:(lia)). eapply rnd_below; [|exact Hr|done..].
    replace (num_floor curY - 5) with (num_floor curY + 1 + -6) by lia. rewrite inject_Z_plus.
    change (inject_Z (-6)) with (-6)%Q. lra. }
  assert (Hlo : (inject_Z (- 2 ^ 51) <= fval y)%Q).
  { destruct (fval_of_Z (- 2 ^ 51) ltac:(lia)). eapply rnd_above; [|exact Hr|done..].
    change (inject_Z (- 2 ^ 50)) with (-1125899906842624)%Q in *.
    change (inject_Z (- 2 ^ 51)) with (-2251799813685248)%Q in *. lra. }
  split; [|by apply floor_le]. change (- smallish)%num with (num_of_Z (- 2 ^ 51)). apply between_of_val; try done.
  eapply Qle_trans; [exact Hhi|]. apply (proj1 (inj_le _ _)). lia.
Qed.

Lemma unwrapUp_ends fuel curY :
  between (- smallish) smallish curY -> num_floor tarY - num_floor curY < 6 * Z.of_nat fuel + 3 ->
  exists y, unwrapUp fuel tarY curY = Some y /\ between (- smallish) smallish y /\
    (y = curY \/ num_floor y <= num_floor tarY + 8).
Proof.
  revert curY. induction fuel as [|fuel IH]; intros curY Hc Hf; cbn [unwrapUp];
    destruct (tarY - curY >? PI)%num eqn:E; try (exists curY; by auto).
  - exfalso. apply far_up in E; [|done]. destruct (cur_bounds curY Hc) as (Fc & _ & _). destruct tar_bounds as [Ft _].
    pose proof (num_floor_val curY Fc) as [L1 _].
    assert (num_floor curY + 3 <= num_floor tarY); [|lia]. apply floor_ge; [done|].
    rewrite inject_Z_plus. change (inject_Z 3) with 3%Q. lra.
  - apply far_up in E; [|done]. destruct (turn_up curY Hc E) as [Hc' Hk].
    destruct (IH _ Hc') as (y & Hy & Hb & Hor); [lia|]. exists y. split; [done|]. split; [done|]. right.
    destruct Hor as [->|]; [|done]. destruct (cur_bounds curY Hc) as (Fc & [C1 C2] & C3).
    destruct (cur_bounds _ Hc') as (Fy & _ & _). destruct tar_bounds as [Ft [T1 T2]]. pose proof pi_bounds as (_ & P6 & P7).
    destruct turn_val as [Fp Ep]. apply floor_le; [done|].
    pose proof (nadd_RN curY _ Fc Fp) as Hr. pose proof (num_floor_val tarY Ft) as [L1 L2].
    assert (- 2 ^ 50 <= num_floor tarY <= 2 ^ 50) by (split; [by apply floor_ge|by apply floor_le]).
    destruct (fval_of_Z (num_floor tarY + 8) ltac:(lia)). eapply rnd_below; [|exact Hr|done..].
    rewrite inject_Z_plus in L2. rewrite inject_Z_plus. change (inject_Z 8) with 8%Q. change (inject_Z 1) with 1%Q in L2. lra.
Qed.

Lemma unwrapDown_ends fuel curY :
  between (- smallish) smallish curY -> num_floor curY - num_floor tarY < 5 * Z.of_nat fuel + 3 ->
  exists y, unwrapDown fuel tarY curY = Some y.
Proof.
  revert curY. induction fuel as [|fuel IH]; intros curY Hc Hf; cbn [unwrapDown];
    destruct (tarY - curY <? - PI)%num eqn:E; try (exists curY; by auto).
  - exfalso. apply far_down in E; [|done]. destruct (cur_bounds curY Hc) as (Fc & _ & _). destruct tar_bounds as [Ft _].
    pose proof (num_floor_val tarY Ft) as [L1 _].
    assert (num_floor tarY + 3 <= num_floor curY); [|lia]. apply floor_ge; [done|].
    rewrite inject_Z_plus. change (inject_Z 3) with 3%Q. lra.
  - apply far_down in E; [|done]. destruct (turn_down curY Hc E) as [Hc' Hk]. apply IH; [done|]. lia.
Qed.

End Ends.

(** For ordinary angles the loops end, after at most a fifth of the distance
    between the angles, and two turns. *)
Lemma unwrap_ends fuel tarY curY :
  ordinary tarY -> ordinary curY -> Z.abs (num_floor tarY - num_floor curY) < 5 * Z.of_nat fuel - 10 ->
  exists y, unwrap fuel tarY curY = Some y.
Proof.
  intros Ht Hc Hf. assert (Hc' : between (- smallish) smallish curY) by (unfold ordinary in Hc; bounds).
  unfold unwrap. destruct (unwrapUp_ends tarY Ht fuel curY Hc' ltac:(lia)) as (y & -> & Hy & Hor).
  apply unwrapDown_ends; [done|done|]. destruct Hor as [->|Hor]; lia.
Qed.

(** More fuel does not change a result. *)
Lemma unwrap_fuel fuel fuel' tarY curY y :
  (fuel <= fuel')%nat -> unwrap fuel tarY curY = Some y -> unwrap fuel' tarY curY = Some y.
Proof.
  assert (U : forall f f' x z, (f <= f')%nat -> unwrapUp f tarY x = Some z -> unwrapUp f' tarY x = Some z).
  { induction f as [|f IH]; intros [|f'] x z Hle; cbn [unwrapUp]; destruct (tarY - x >? PI)%num; try done; [lia|].
    apply IH. lia. }
  assert (D : forall f f' x z, (f <= f')%nat -> unwrapDown f tarY x = Some z -> unwrapDown f' tarY x = Some z).
  { induction f as [|f IH]; intros [|f'] x z Hle; cbn [unwrapDown]; destruct (tarY - x <? - PI)%num; try done; [lia|].
    apply IH. lia. }
  intros Hle. unfold unwrap. destruct (unwrapUp fuel tarY curY) as [z|] eqn:E; [|done].
  rewrite (U _ _ _ _ Hle E). by apply D.
Qed.

(** Ordinary angles need at most [2^50] turns. *)
Lemma unwrap_total tarY curY :
  ordinary tarY -> ordinary curY ->
  exists y, forall fuel, 2 ^ 50 <= Z.of_nat fuel -> unwrap fuel tarY curY = Some y.
Proof.
  intros Ht Hc. destruct (unwrap_ends (Z.to_nat (2 ^ 50)) tarY curY Ht Hc) as [y Hy].
  { rewrite Z2Nat.id by lia.
    pose proof (between_floor (- small) small tarY eq_refl eq_refl Ht) as Ft.
    pose proof (between_floor (- small) small curY eq_refl eq_refl Hc) as Fc.
    change (num_floor (- small)) with (- 2 ^ 50) in *. change (num_floor small) with (2 ^ 50) in *. lia. }
  exists y. intros fuel Hf. eapply unwrap_fuel; [|exact Hy]. apply Z2Nat.inj_le in Hf; [|lia..]. by rewrite Nat2Z.id in Hf.
Qed.

(** ** Huge angles *)

Definition huge : num := num_of_Z (2 ^ 57).

(** From [2^56] on, a turn is less than half the distance to the next number:
    the rotation stays there, and a target beyond [2^57] is never reached. *)
Lemma unwrapUp_hangs fuel tarY curY :
  fin tarY = true -> nleb huge tarY = true -> between nzero (num_of_Z (2 ^ 56)) curY ->
  unwrapUp fuel tarY curY = None.
Proof.
  intros Ft Ht. revert curY.
  assert (Hgt : forall curY, between nzero (num_of_Z (2 ^ 56)) curY -> (tarY - curY >? PI)%num = true).
  { intros curY Hc. destruct (between_val nzero (num_of_Z (2 ^ 56)) curY eq_refl eq_refl Hc) as [_ C2]. destruct Hc as [Fc _].
    apply nleb_val in Ht; [|done..]. eapply (nltb_le_trans _ (num_of_Z (2 ^ 56))); [by vm_compute|].
    eapply rnd_mono; [|apply (rnd_val (num_of_Z (2 ^ 56))); done|by apply nsub_RN].
    assert (fval huge == 2 * fval (num_of_Z (2 ^ 56)))%Q by (by vm_compute). lra. }
  induction fuel as [|fuel IH]; intros curY Hc; cbn [unwrapUp]; rewrite Hgt by done; [done|].
  apply IH. bounds.
Qed.

Lemma unwrap_hangs fuel tarY curY :
  fin tarY = true -> nleb huge tarY = true -> between nzero (num_of_Z (2 ^ 56)) curY ->
  unwrap fuel tarY curY = None.
Proof. intros. unfold unwrap. by rewrite unwrapUp_hangs. Qed.
