(* ===== verification/Scenery.v ===== *)
(** * The scenery ([client_src/environment.js])

    Ground, snow, the tree in the centre and the scattered models, all drawn
    from generators seeded with the world's seed, and the boxes snowballs
    collide with.  Geometry is three.js: the vertices of the plane and of the
    cones, and the size and centre of a box, are the class [Geometry].
    Materials, lights and textures' pixels are not represented beyond the
    numbers drawn for them. *)

From S2P Require Import Prelude JsNum JsString JsValue Codec Uri ClientUtils ClientPlayer.

Definition KENNEY_GLBS : list jsstr := map js
  ["bench-short.glb"; "bench.glb"; "cabin-corner-bottom.glb"; "cabin-corner-logs.glb";
   "cabin-corner.glb"; "cabin-door-rotate.glb"; "cabin-doorway-center.glb";
   "cabin-doorway-left.glb"; "cabin-doorway-right.glb"; "cabin-doorway.glb"; "cabin-fence.glb";
   "cabin-overhang-door-rotate.glb"; "cabin-overhang-doorway.glb"; "cabin-roof-chimney.glb";
   "cabin-roof-corner.glb"; "cabin-roof-dormer.glb"; "cabin-roof-point.glb";
   "cabin-roof-snow-chimney.glb"; "cabin-roof-snow-corner.glb"; "cabin-roof-snow-dormer.glb";
   "cabin-roof-snow-point.glb"; "cabin-roof-snow.glb"; "cabin-roof-top.glb"; "cabin-roof.glb";
   "cabin-wall-low.glb"; "cabin-wall-roof-center.glb"; "cabin-wall-roof.glb";
   "cabin-wall-wreath.glb"; "cabin-wall.glb"; "cabin-window-a.glb"; "cabin-window-b.glb";
   "cabin-window-c.glb"; "cabin-window-large.glb"; "candy-cane-green.glb"; "candy-cane-red.glb";
   "festivus-pole.glb"; "floor-stone.glb"; "floor-wood-snow.glb"; "floor-wood.glb";
   "gingerbread-man.glb"; "gingerbread-woman.glb"; "hanukkah-dreidel.glb";
   "hanukkah-menorah-candles.glb"; "hanukkah-menorah.glb"; "kwanzaa-kikombe.glb";
   "kwanzaa-kinara-alternative.glb"; "kwanzaa-kinara.glb"; "lantern-hanging.glb"; "lantern.glb";
   "lights-colored.glb"; "lights-green.glb"; "lights-red.glb"; "nutcracker.glb";
   "present-a-cube.glb"; "present-a-rectangle.glb"; "present-a-round.glb"; "present-b-cube.glb";
   "present-b-rectangle.glb"; "present-b-round.glb"; "reindeer.glb"; "rocks-large.glb";
   "rocks-medium.glb"; "rocks-small.glb"; "sled-long.glb"; "sled.glb"; "snow-bunker.glb";
   "snow-flat-large.glb"; "snow-flat.glb"; "snow-pile.glb"; "snowflake-a.glb"; "snowflake-b.glb";
   "snowflake-c.glb"; "snowman-hat.glb"; "snowman.glb"; "sock-green-cane.glb"; "sock-green.glb";
   "sock-red-cane.glb"; "sock-red.glb"; "train-locomotive.glb"; "train-tender.glb";
   "train-wagon-flat-short.glb"; "train-wagon-flat.glb"; "train-wagon-logs.glb";
   "train-wagon-short.glb"; "train-wagon.glb"; "trainset-rail-bend.glb"; "trainset-rail-corner.glb";
   "trainset-rail-detailed-bend.glb"; "trainset-rail-detailed-corner.glb";
   "trainset-rail-detailed-straight.glb"; "trainset-rail-straight.glb"; "tree-decorated-snow.glb";
   "tree-decorated.glb"; "tree-snow-a.glb"; "tree-snow-b.glb"; "tree-snow-c.glb"; "tree.glb";
   "wreath-decorated.glb"; "wreath.glb"]%string.

Definition KENNEY_OUTDOOR_GLBS : list jsstr := map js
  ["bench-short.glb"; "bench.glb"; "candy-cane-green.glb"; "candy-cane-red.glb";
   "festivus-pole.glb"; "gingerbread-man.glb"; "gingerbread-woman.glb"; "lantern-hanging.glb";
   "lantern.glb"; "lights-colored.glb"; "lights-green.glb"; "lights-red.glb"; "nutcracker.glb";
   "present-a-cube.glb"; "present-a-rectangle.glb"; "present-a-round.glb"; "present-b-cube.glb";
   "present-b-rectangle.glb"; "present-b-round.glb"; "reindeer.glb"; "rocks-large.glb";
   "rocks-medium.glb"; "rocks-small.glb"; "sled-long.glb"; "sled.glb"; "snow-bunker.glb";
   "snow-flat-large.glb"; "snow-flat.glb"; "snow-pile.glb"; "snowflake-a.glb"; "snowflake-b.glb";
   "snowflake-c.glb"; "train-locomotive.glb"; "train-tender.glb"; "train-wagon-flat-short.glb";
   "train-wagon-flat.glb"; "train-wagon-logs.glb"; "train-wagon-short.glb"; "train-wagon.glb";
   "tree-decorated-snow.glb"; "tree-decorated.glb"; "tree-snow-a.glb"; "tree-snow-b.glb";
   "tree-snow-c.glb"; "tree.glb"; "wreath-decorated.glb"; "wreath.glb"]%string.

(** ** Drawing from a generator *)

(** A computation that draws from the closure [rng]. *)
Definition Rng (A : Type) : Type := Z -> Z * A.

#[export] Instance Rng_ret : MRet Rng := fun A a s => (s, a).
#[export] Instance Rng_bind : MBind Rng := fun A B f m s => let '(s', a) := m s in f a s'.

Definition rng : Rng num := rng_call.

(** [for (let i = from; i < from + n; i++)], collecting the results. *)
Fixpoint repeatRng {A} (n : nat) (body : nat -> Rng A) (i : nat) : Rng (list A) :=
  match n with
  | O => mret []
  | S n' => x ← body i; l ← repeatRng n' body (S i); mret (x :: l)
  end.

(** [for (const x of l)], threading a state. *)
Fixpoint foldRng {A B} (body : B -> A -> Rng B) (b : B) (l : list A) : Rng B :=
  match l with
  | [] => mret b
  | x :: l' => b' ← body b x; foldRng body b' l'
  end.

Fixpoint mapRng {A B} (body : A -> Rng B) (l : list A) : Rng (list B) :=
  match l with
  | [] => mret []
  | x :: l' => y ← body x; l' ← mapRng body l'; mret (y :: l')
  end.

(** ** three.js *)

Class Geometry := {
  plane_vertices : list Vec3;            (* PlaneGeometry(400, 400, 128, 128), rotated flat *)
  cone_vertices : num -> num -> list Vec3; (* ConeGeometry(r, h, 32, 4, false) *)
  box_size : Box -> Vec3;                (* box.getSize(size) *)
  box_center : Box -> Vec3;              (* box.getCenter(center) *)
}.

(** What [traverse] meets in a loaded model: the bounding box in world
    coordinates is absent when there is no geometry. *)
Record Obj3 := mkObj3 { o_isMesh : bool; o_visible : bool; o_worldBox : option Box }.

(** A model to load and place. *)
Record Placement := mkPlacement { pl_url : jsstr; pl_pos : Vec3; pl_rotY : num; pl_scale : num }.

Record Light := mkLight { l_pos : Vec3; l_hue : num; l_speed : num; l_phase : num }.
Record Ball := mkBall { ba_pos : Vec3; ba_size : num; ba_color : option Z }.

Record Layer := mkLayer { la_y : num; la_r : num; la_h : num }.

Record Tree := mkTree {
  t_leaves : list (list Vec3);
  t_decor : list (Ball + Light);
  t_star : list (num * num);
  t_y : num;
  t_box : Box;
}.

(** What a frame sets on the tree: the sway, the star, its glow and, for each
    light, its intensity and size. *)
Record TreePose := mkTreePose {
  tp_rotY : num; tp_rotZ : num;
  tp_starY : num; tp_starZ : num;
  tp_glow : num;
  tp_lights : list (num * num);
}.

Record Scenery := mkScenery {
  sc_dots : list (bool * Z * Z);     (* the ground texture: colour and place *)
  sc_ground : list Vec3;
  sc_snow : list Vec3;
  sc_tree : Tree;
  sc_placed : list Placement;
}.

Section Scenery.
Context `{JsMath} `{Geometry}.
#[local] Open Scope num_scope.

(** ** Collision boxes *)

(** The box a mesh of a loaded model contributes, narrowed by a margin. *)
Definition obstacleOf (o : Obj3) : option Box :=
  if negb (o_isMesh o) then None
  else if negb (o_visible o) then None
  else
    match o_worldBox o with
    | None => None
    | Some worldBox =>
        let size := box_size worldBox in
        if (vx size <? num_dec 2 1) && (vy size <? num_dec 2 1) && (vz size <? num_dec 2 1) then None
        else
          let center := box_center worldBox in
          let halfX := vx size * num_dec 5 1 in
          let halfZ := vz size * num_dec 5 1 in
          let margin := num_dec 1 1 in
          let shrinkHalfX := math_max (halfX - margin) (halfX * num_dec 5 1) in
          let shrinkHalfZ := math_max (halfZ - margin) (halfZ * num_dec 5 1) in
          Some (mkBox
            (mkVec3 (vx center - shrinkHalfX) (vy (b_min worldBox)) (vz center - shrinkHalfZ))
            (mkVec3 (vx center + shrinkHalfX) (vy (b_max worldBox)) (vz center + shrinkHalfZ)))
    end.

(** The callback of [placeKenneyModel]'s loader. *)
Definition modelLoaded (objs : list Obj3) (STATIC_OBSTACLES : list Box) : list Box :=
  STATIC_OBSTACLES ++ omap obstacleOf objs.

(** ** The tree *)

Definition treeScale : num := num_dec 15 1.

Definition layer (y r h : Z) : Layer :=
  mkLayer (num_dec y 1 * treeScale) (num_dec r 1 * treeScale) (num_dec h 1 * treeScale).

Definition layers : list Layer :=
  [layer 55 60 50; layer 80 52 45; layer 105 42 40; layer 128 32 35; layer 148 22 30; layer 165 12 25].

Definition ORNAMENTS : list Z :=
  [16711680 (* FF0000 *); 16766720 (* FFD700 *); 15658734 (* EEEEEE *); 2254591 (* 2266FF *);
   16711935 (* FF00FF *)].

(** One vertex of a layer's cone; the attribute is a [Float32Array]. *)
Definition distort (h : num) (v : Vec3) : Rng Vec3 :=
  let distortion := num_dec 4 1 in
  if vy v <? h / num_of_Z 2 - num_dec 1 1 then
    a ← rng;
    b ← rng;
    c ← rng;
    mret (mkVec3 (fround (vx v + (a - num_dec 5 1) * distortion))
                 (fround (vy v + (b - num_dec 5 1) * distortion))
                 (fround (vz v + (c - num_dec 5 1) * distortion)))
  else mret v.

(** The [i]-th decoration of a layer: a ball or a light. *)
Definition decorate (l : Layer) (tierIndex decorCount : Z) (i : nat) : Rng (Ball + Light) :=
  let one := num_of_Z 1 in
  let angle := num_of_Z (Z.of_nat i) / num_of_Z decorCount * PI * num_of_Z 2
               + num_of_Z tierIndex * num_dec 15 1 in
  r ← rng;
  let ratio := num_dec 1 1 + r * num_dec 8 1 in
  let currentRadius := la_r l * ratio * num_dec 9 1 in
  let actualY := la_y l - la_h l / num_of_Z 2 + la_h l * (one - ratio) in
  let x := mcos angle * currentRadius in
  let z := msin angle * currentRadius in
  let offset := num_dec 2 1 in
  let finalX := x * (one + offset / currentRadius) in
  let finalZ := z * (one + offset / currentRadius) in
  kind ← rng;
  if kind >? num_dec 4 1 then
    a ← rng;
    let size := (num_dec 25 2 + a * num_dec 15 2) * treeScale in
    b ← rng;
    mret (inl (mkBall (mkVec3 finalX (actualY - num_dec 2 1 * treeScale) finalZ) size
                 (js_index ORNAMENTS (num_floor (b * num_of_Z (Z.of_nat (length ORNAMENTS)))))))
  else
    hue ← rng;
    a ← rng;
    b ← rng;
    mret (inr (mkLight (mkVec3 finalX actualY finalZ) hue (num_dec 8 1 + a * num_dec 12 1)
                 (b * PI * num_of_Z 2))).

Definition decorCountOf (l : Layer) : Z := num_floor (la_r l * num_of_Z 7).

(** The body of [layers.forEach]. *)
Definition growLayer (acc : list (list Vec3) * list (Ball + Light)) (tl : Z * Layer)
    : Rng (list (list Vec3) * list (Ball + Light)) :=
  let '(tierIndex, l) := tl in
  leaves ← mapRng (distort (la_h l)) (cone_vertices (la_r l) (la_h l));
  let decorCount := decorCountOf l in
  decor ← repeatRng (Z.to_nat decorCount) (decorate l tierIndex decorCount) 0;
  mret (fst acc ++ [leaves], snd acc ++ decor).

(** The outline of the star. *)
Definition starPoint (i : nat) : num * num :=
  let r := if (i mod 2 =? 0)%nat then num_dec 12 1 * treeScale else num_dec 5 1 * treeScale in
  let a := num_of_Z (Z.of_nat i) / num_of_Z 10 * PI * num_of_Z 2 in
  (mcos a * r, msin a * r).

Definition createChristmasTree (worldSeed : Z) : Tree :=
  let '(_, (leaves, decor)) :=
    foldRng growLayer ([], []) (imap (fun i l => (Z.of_nat i, l)) layers)
      (makeRng (worldSeed + 12345)) in
  let centerY := terrainHeight (num_of_Z worldSeed) (num_of_Z 0) (num_of_Z 0) in
  mkTree leaves decor (map starPoint (seq 0 10)) centerY
    (mkBox (mkVec3 (num_of_Z (-3) * treeScale) centerY (num_of_Z (-3) * treeScale))
           (mkVec3 (num_of_Z 3 * treeScale) (centerY + num_of_Z 18 * treeScale) (num_of_Z 3 * treeScale))).

Definition lightAt (time : num) (l : Light) : num * num :=
  let intensity := num_dec 5 1 + msin (time * l_speed l * num_of_Z 4 + l_phase l) * num_dec 5 1 in
  (intensity * num_of_Z 2, num_of_Z 1 + intensity * num_dec 2 1).

Definition christmasLights (t : Tree) : list Light :=
  omap (fun d => match d with inr l => Some l | inl _ => None end) (t_decor t).

(** The animation of the tree at [clock.getElapsedTime() = time]. *)
Definition poseTree (time : num) (t : Tree) : TreePose :=
  mkTreePose (msin (time * num_dec 2 1) * num_dec 5 2) (msin (time * num_dec 5 1) * num_dec 5 3)
    (time * num_dec 8 1) (msin time * num_dec 1 1)
    (num_dec 5 1 + msin (time * num_of_Z 3) * num_dec 2 1) (map (lightAt time) (christmasLights t)).

(** ** Scattering the models *)

Definition baseUrl : jsstr := js "/assets/kenney_holiday_kit/Models/GLB format/".
Definition half : num := CLIENT.mapHalf - num_of_Z 10.
Definition flatSampleOffset : num := num_of_Z 4.
Definition maxSlopeDelta : num := num_dec 3 1.
Definition minDistance : num := num_of_Z 15.
Definition centerExclusionRadius : num := num_of_Z 25.
Definition instancesPerModel : nat := 2.
Definition maxAttempts : nat := 50.

Definition allNames : list jsstr :=
  match KENNEY_OUTDOOR_GLBS with [] => KENNEY_GLBS | l => l end.

Definition distance (dx dz : num) : num := nsqrt (dx * dx + dz * dz).

Definition isTooClose (placedPositions : list (num * num)) (x z : num) : bool :=
  if distance x z <? centerExclusionRadius then true
  else existsb (fun pos => distance (x - fst pos) (z - snd pos) <? minDistance) placedPositions.

(** The heights of the point and of the eight points around it. *)
Definition samples (worldSeed x z : num) : list num :=
  let d := flatSampleOffset in
  map (fun p => terrainHeight worldSeed (fst p) (snd p))
    [(x, z); (x + d, z); (x - d, z); (x, z + d); (x, z - d);
     (x + d, z + d); (x - d, z + d); (x + d, z - d); (x - d, z - d)].

Definition tooSteep (worldSeed x z : num) : bool :=
  let hs := samples worldSeed x z in
  let hMin := foldl math_min (S754_infinity false) hs in
  let hMax := foldl math_max (S754_infinity true) hs in
  hMax - hMin >? maxSlopeDelta.

(** [(rng() - 0.5) * half * 2]. *)
Definition coordinate : Rng num := r ← rng; mret ((r - num_dec 5 1) * half * num_of_Z 2).

(** The [do] loop with [left] attempts to go. *)
Fixpoint search (left : nat) (worldSeed : num) (placedPositions : list (num * num)) : Rng (option Vec3) :=
  match left with
  | O => mret None
  | S left' =>
      x ← coordinate;
      z ← coordinate;
      if isTooClose placedPositions x z then search left' worldSeed placedPositions
      else if tooSteep worldSeed x z then search left' worldSeed placedPositions
      else mret (Some (mkVec3 x (terrainHeight worldSeed x z) z))
  end.

(** The body of the inner loop: place one instance, or skip it. *)
Definition placeInstance (worldSeed : num) (placed : list Placement) (name : jsstr) : Rng (list Placement) :=
  found ← search maxAttempts worldSeed (map (fun p => (vx (pl_pos p), vz (pl_pos p))) placed);
  match found with
  | None => mret placed
  | Some pos =>
      a ← rng;
      let rotY := a * PI * num_of_Z 2 in
      b ← rng;
      let scale := (num_dec 7 1 + b * num_dec 6 1) * num_of_Z 9 in
      mret (placed ++ [mkPlacement (default [] (encodeURI (baseUrl ++ name))) pos rotY scale])
  end.

Definition scatterKenneyModels (worldSeed : num) : Rng (list Placement) :=
  foldRng (fun placed name => foldRng (placeInstance worldSeed) placed (replicate instancesPerModel name))
    [] allNames.

(** ** The whole scenery *)

Definition snowCount : nat := 4000.

Definition groundDot (_ : nat) : Rng (bool * Z * Z) :=
  a ← rng;
  b ← rng;
  c ← rng;
  mret (a >? num_dec 5 1, num_floor (b * num_of_Z 64), num_floor (c * num_of_Z 64)).

Definition snowflake (_ : nat) : Rng Vec3 :=
  a ← rng;
  b ← rng;
  c ← rng;
  mret (mkVec3 (fround ((a - num_dec 5 1) * num_of_Z 240)) (fround (b * num_of_Z 50))
               (fround ((c - num_dec 5 1) * num_of_Z 240))).

Definition raiseGround (worldSeed : num) (v : Vec3) : Vec3 :=
  mkVec3 (vx v) (fround (terrainHeight worldSeed (vx v) (vz v))) (vz v).

Definition createEnvironment (worldSeed : Z) : Scenery :=
  let seed := num_of_Z worldSeed in
  snd ((dots ← repeatRng 200 groundDot 0;
        snow ← repeatRng snowCount snowflake 0;
        placed ← scatterKenneyModels seed;
        mret (mkScenery dots (map (raiseGround seed) plane_vertices) snow
                (createChristmasTree worldSeed) placed)) (makeRng worldSeed)).

End Scenery.
