(* ===== verification/SceneryThms.v ===== *)
(** * Theorems about the scenery

    Where models are placed, what decorates the tree and where snow falls, for
    every seed of the world. *)

From S2P Require Import Prelude JsNum Rounding JsString JsValue Codec Uri ClientUtils ClientPlayer Scenery.

(** ** The generator *)

(** The largest number the generator draws. *)
Definition RNG_MAX : num := (num_of_Z 4294967295 / num_of_Z 4294967296)%num.

Lemma rng_call_unit s : between nzero RNG_MAX (snd (rng_call s)).
Proof.
  assert (Ho : 0 <= rng_out (rng_next s) < 2 ^ 32) by apply toUint32_range.
  pose proof (between_of_Z 0 4294967295 (rng_out (rng_next s)) ltac:(lia) eq_refl eq_refl) as Hb.
  cbn [rng_call snd]. bounds.
Qed.

(** Every outcome of a drawing computation satisfies [P]. *)
Definition draws {A} (P : A -> Prop) (m : Rng A) : Prop := forall s, P (snd (m s)).

Lemma draws_ret {A} (P : A -> Prop) a : P a -> draws P (mret a).
Proof. intros Ha s. exact Ha. Qed.

Lemma draws_bind {A B} (Q : A -> Prop) (P : B -> Prop) (m : Rng A) f :
  draws Q m -> (forall a, Q a -> draws P (f a)) -> draws P (m ≫= f).
Proof.
  intros Hm Hf s. specialize (Hm s). unfold mbind, Rng_bind. destruct (m s) as [s' a]. by apply Hf.
Qed.

Lemma draws_rng {B} (P : B -> Prop) f :
  (forall r, between nzero RNG_MAX r -> draws P (f r)) -> draws P (rng ≫= f).
Proof. apply draws_bind. intros s. apply rng_call_unit. Qed.

Lemma draws_weaken {A} (Q P : A -> Prop) m : draws Q m -> (forall a, Q a -> P a) -> draws P m.
Proof. intros Hm HQ s. apply HQ, Hm. Qed.

Lemma draws_repeat {A} (P : A -> Prop) n body i :
  (forall i, draws P (body i)) -> draws (fun l => Forall P l /\ length l = n) (repeatRng n body i).
Proof.
  intros Hb. revert i. induction n as [|n IH]; intros i; cbn [repeatRng]; [by apply draws_ret|].
  eapply draws_bind; [apply Hb|]. intros a Ha. eapply draws_bind; [apply IH|]. intros l [Hl Hn].
  apply draws_ret. split; [by constructor|]. cbn. by rewrite Hn.
Qed.

Lemma draws_fold {A B} (P : list A -> B -> Prop) body l l0 b :
  P l0 b -> (forall done x b, P done b -> draws (P (done ++ [x])) (body b x)) ->
  draws (P (l0 ++ l)) (foldRng body b l).
Proof.
  intros H0 Hs. revert l0 b H0. induction l as [|x l IH]; intros l0 b H0; cbn [foldRng].
  - rewrite app_nil_r. by apply draws_ret.
  - eapply draws_bind; [by apply Hs|]. intros b' Hb. rewrite cons_middle, app_assoc. by apply IH.
Qed.

Section Thms.
Context `{JsMath} `{Geometry}.
#[local] Open Scope num_scope.

(** ** Models *)

(** A good place for a model: outside the circle of the tree, flat, on the
    ground, well inside the map. *)
Definition well_placed (worldSeed : num) (p : Placement) : Prop :=
  let pos := pl_pos p in
  (distance (vx pos) (vz pos) <? centerExclusionRadius) = false /\
  tooSteep worldSeed (vx pos) (vz pos) = false /\
  vy pos = terrainHeight worldSeed (vx pos) (vz pos) /\
  between (- half) half (vx pos) /\ between (- half) half (vz pos) /\
  between (num_dec 63 1) (num_dec 117 1) (pl_scale p).

(** Each model keeps its distance from those placed before. *)
Definition spaced (placed : list Placement) : Prop :=
  forall i j p q, (i < j)%nat -> placed !! i = Some p -> placed !! j = Some q ->
    (distance (vx (pl_pos q) - vx (pl_pos p)) (vz (pl_pos q) - vz (pl_pos p)) <? minDistance) = false.

Lemma coordinate_inside : draws (between (- half) half) coordinate.
Proof. unfold coordinate. apply draws_rng. intros r Hr. apply draws_ret. bounds. Qed.

Lemma isTooClose_false placed x z :
  isTooClose placed x z = false ->
  (distance x z <? centerExclusionRadius) = false /\
  Forall (fun pos => (distance (x - fst pos) (z - snd pos) <? minDistance) = false) placed.
Proof.
  unfold isTooClose. destruct (distance x z <? _) eqn:E; [done|]. intros Hx. split; [done|].
  apply Forall_forall. intros pos Hpos. apply not_true_iff_false. intros Ht.
  assert (existsb (fun pos => distance (x - fst pos) (z - snd pos) <? minDistance) placed = true); [|congruence].
  apply existsb_exists. exists pos. split; [by apply list_elem_of_In|done].
Qed.

(** What the search returns, if it returns a position. *)
Lemma search_found left worldSeed placed :
  draws (fun o => forall pos, o = Some pos ->
    isTooClose placed (vx pos) (vz pos) = false /\ tooSteep worldSeed (vx pos) (vz pos) = false /\
    vy pos = terrainHeight worldSeed (vx pos) (vz pos) /\
    between (- half) half (vx pos) /\ between (- half) half (vz pos)) (search left worldSeed placed).
Proof.
  induction left as [|left IH]; cbn [search]; [by apply draws_ret|].
  eapply draws_bind; [apply coordinate_inside|]. intros x Hx.
  eapply draws_bind; [apply coordinate_inside|]. intros z Hz.
  destruct (isTooClose placed x z) eqn:Ec; [done|]. destruct (tooSteep worldSeed x z) eqn:Es; [done|].
  apply draws_ret. intros pos [= <-]. done.
Qed.

Definition url_of (name : jsstr) : jsstr := default [] (encodeURI (baseUrl ++ name)).

(** The invariant of the loop over the names [seen] so far. *)
Definition layout (worldSeed : num) (seen : list jsstr) (placed : list Placement) : Prop :=
  Forall (well_placed worldSeed) placed /\ spaced placed /\
  map pl_url placed `sublist_of` map url_of seen.

Lemma spaced_snoc placed p :
  spaced placed ->
  Forall (fun q => (distance (vx (pl_pos p) - vx (pl_pos q)) (vz (pl_pos p) - vz (pl_pos q)) <? minDistance) = false) placed ->
  spaced (placed ++ [p]).
Proof.
  intros Hs Hp i j a b Hij Ha Hb. apply lookup_app_Some in Hb as [Hb|[Hl Hb]].
  - apply lookup_lt_Some in Hb as Hlt. rewrite lookup_app_l in Ha by lia. exact (Hs i j a b Hij Ha Hb).
  - apply list_lookup_singleton_Some in Hb as [Hj ->]. rewrite lookup_app_l in Ha by lia.
    rewrite Forall_lookup in Hp. by eapply Hp.
Qed.

Lemma placeInstance_layout worldSeed seen placed name :
  layout worldSeed seen placed -> draws (layout worldSeed (seen ++ [name])) (placeInstance worldSeed placed name).
Proof.
  intros (Hw & Hs & Hu). unfold placeInstance. eapply draws_bind; [apply search_found|]. intros [pos|] Hpos.
  - destruct (Hpos pos eq_refl) as (Hc & Ht & Hy & Hx & Hz). apply isTooClose_false in Hc as [Hc Hd].
    rewrite Forall_map in Hd. apply draws_rng. intros a Ha. apply draws_rng. intros b Hb. apply draws_ret.
    split; [|split].
    + apply Forall_app_2; [done|]. constructor; [|done]. unfold well_placed. cbn [pl_pos pl_scale].
      do 5 (split; [done|]). bounds.
    + by apply spaced_snoc.
    + rewrite !map_app. apply sublist_app; [done|]. reflexivity.
  - apply draws_ret. split; [done|]. split; [done|]. rewrite map_app. by apply sublist_inserts_r.
Qed.

Lemma scatter_layout worldSeed :
  draws (layout worldSeed (concat (map (replicate instancesPerModel) allNames))) (scatterKenneyModels worldSeed).
Proof.
  unfold scatterKenneyModels.
  apply (draws_fold (fun seen placed => layout worldSeed (concat (map (replicate instancesPerModel) seen)) placed) _ _ []).
  - split; [done|]. split; [|done]. intros i j p q _ Hi. done.
  - intros done name placed Hp. rewrite map_app, concat_app. cbn [map concat]. rewrite app_nil_r.
    apply (draws_fold (fun seen placed => layout worldSeed (concat (map (replicate instancesPerModel) done) ++ seen) placed) _ _ []).
    + by rewrite app_nil_r.
    + intros seen x b Hb. rewrite app_assoc. by apply placeInstance_layout.
Qed.

(** C24: The layout of the models, for every seed: each stands outside the
    circle around the tree, on flat ground at the terrain's height, within 180
    units of the centre on either axis and at a scale between 6.3 and 11.7;
    any two are at least the minimum distance apart; and at most two instances
    of each outdoor model are placed, in the order of the list. *)
Theorem scenery_layout worldSeed :
  let placed := sc_placed (createEnvironment worldSeed) in
  Forall (well_placed (num_of_Z worldSeed)) placed /\ spaced placed /\
  map pl_url placed `sublist_of` concat (map (fun n => replicate 2 (url_of n)) KENNEY_OUTDOOR_GLBS).
Proof.
  intros placed.
  assert (Hl : layout (num_of_Z worldSeed) (concat (map (replicate instancesPerModel) allNames)) placed).
  { subst placed. unfold createEnvironment.
    match goal with |- layout _ _ (sc_placed (snd (?m ?s))) =>
      enough (draws (fun sc => layout (num_of_Z worldSeed) (concat (map (replicate instancesPerModel) allNames)) (sc_placed sc)) m)
        as Hd by exact (Hd s) end.
    eapply (draws_bind (fun _ => True)); [done|]. intros dots _. eapply (draws_bind (fun _ => True)); [done|]. intros snow _.
    eapply draws_bind; [apply scatter_layout|]. intros l Hl. by apply draws_ret. }
  destruct Hl as (H1 & H2 & H3). split; [done|]. split; [done|]. rewrite concat_map, map_map in H3. exact H3.
Qed.

(** ** The tree *)

(** A ball has one of the colours and a size within limits; a light's
    parameters are within theirs. *)
Definition good_decor (d : Ball + Light) : Prop :=
  match d with
  | inl b => (exists c, ba_color b = Some c /\ c ∈ ORNAMENTS) /\ between (num_dec 375 3) (num_dec 6 1) (ba_size b)
  | inr l => between nzero (num_of_Z 1) (l_hue l) /\ between (num_dec 8 1) (num_of_Z 2) (l_speed l) /\
             between nzero (PI * num_of_Z 2) (l_phase l)
  end.

Lemma decorate_good l tierIndex decorCount i : draws good_decor (decorate l tierIndex decorCount i).
Proof.
  unfold decorate. apply draws_rng. intros r Hr. apply draws_rng. intros kind _. destruct (kind >? num_dec 4 1).
  - apply draws_rng. intros a Ha. apply draws_rng. intros b Hb. apply draws_ret. split; [|cbn [ba_size]; bounds]. cbn [ba_color].
    apply js_index_lt.
    assert (Hf : between nzero (RNG_MAX * num_of_Z 5) (b * num_of_Z (Z.of_nat (length ORNAMENTS)))) by bounds.
    apply between_floor in Hf; [|evaluate..]. change (num_floor nzero) with 0 in Hf.
    replace (num_floor (RNG_MAX * num_of_Z 5)) with 4 in Hf by evaluate. cbn [length ORNAMENTS]. cbn in Hf. lia.
  - apply draws_rng. intros hue Hh. apply draws_rng. intros a Ha. apply draws_rng. intros b Hb. apply draws_ret.
    split; [cbn [l_hue]; bounds|]. split; [cbn [l_speed]; bounds|cbn [l_phase]; bounds].
Qed.

Definition decorTotal (l : list (Z * Layer)) : nat := sum_list_with (fun tl => Z.to_nat (decorCountOf (snd tl))) l.

Lemma growLayer_good seen tl acc :
  (length (fst acc) = length seen /\ length (snd acc) = decorTotal seen /\ Forall good_decor (snd acc)) ->
  draws (fun acc => length (fst acc) = length (seen ++ [tl]) /\ length (snd acc) = decorTotal (seen ++ [tl]) /\
                    Forall good_decor (snd acc)) (growLayer acc tl).
Proof.
  intros (H1 & H2 & H3). destruct tl as [t l]. unfold growLayer. eapply (draws_bind (fun _ => True)); [done|].
  intros leaves _. eapply draws_bind; [apply draws_repeat; intros i; apply decorate_good|]. intros decor [Hd Hn].
  apply draws_ret. cbn [fst snd]. unfold decorTotal in *. rewrite !length_app, H1, H2, Hn, sum_list_with_app. cbn.
  split; [done|]. split; [lia|]. by apply Forall_app_2.
Qed.

(** The tree, for every seed: six layers of leaves carry 229
    decorations; each ball has one of the five colours and each light its hue,
    speed and phase within their ranges; and the collision box is the square of
    4.5 units around the trunk, 27 units high from the ground. *)
Theorem tree_decorated worldSeed :
  let t := createChristmasTree worldSeed in
  let y := terrainHeight (num_of_Z worldSeed) (num_of_Z 0) (num_of_Z 0) in
  length (t_leaves t) = 6%nat /\ length (t_decor t) = 229%nat /\ Forall good_decor (t_decor t) /\
  t_box t = mkBox (mkVec3 (- num_dec 45 1) y (- num_dec 45 1))
                  (mkVec3 (num_dec 45 1) (y + num_of_Z 27) (num_dec 45 1)).
Proof.
  intros t y. subst t. unfold createChristmasTree.
  set (ls := imap (fun i l => (Z.of_nat i, l)) layers).
  assert (Hd : draws (fun acc => length (fst acc) = length ls /\ length (snd acc) = decorTotal ls /\
                      Forall good_decor (snd acc)) (foldRng growLayer ([], []) ls)).
  { apply (draws_fold (fun seen acc => length (fst acc) = length seen /\ length (snd acc) = decorTotal seen /\
             Forall good_decor (snd acc)) _ _ []); [done|]. intros seen x b Hb. by apply growLayer_good. }
  specialize (Hd (makeRng (worldSeed + 12345))).
  destruct (foldRng growLayer ([], []) ls (makeRng (worldSeed + 12345))) as [s [leaves decor]].
  destruct Hd as (H1 & H2 & H3). cbn [fst snd] in *. cbn [t_leaves t_decor t_box]. split; [done|].
  split; [rewrite H2; evaluate|].
  split; [done|]. f_equal.
Qed.

(** ** Snow *)

Lemma snowflake_inside i :
  draws (fun v => between (num_of_Z (-120)) (num_of_Z 120) (vx v) /\ between nzero (num_of_Z 50) (vy v) /\
                  between (num_of_Z (-120)) (num_of_Z 120) (vz v)) (snowflake i).
Proof.
  unfold snowflake. do 3 (apply draws_rng; intros ? ?). apply draws_ret. cbn [vx vy vz].
  split; [bounds|]. split; bounds.
Qed.

Lemma scenery_snow worldSeed :
  Forall (fun v => between nzero (num_of_Z 50) (vy v)) (sc_snow (createEnvironment worldSeed)).
Proof.
  unfold createEnvironment.
  match goal with |- Forall ?P (sc_snow (snd (?m ?s))) =>
    enough (draws (fun sc => Forall P (sc_snow sc)) m) as Hd by exact (Hd s) end.
  eapply (draws_bind (fun _ => True)); [done|]. intros dots _.
  eapply draws_bind; [apply draws_repeat, snowflake_inside|]. intros snow [Hs _].
  eapply (draws_bind (fun _ => True)); [done|]. intros placed _. apply draws_ret. cbn [sc_snow].
  eapply Forall_impl; [exact Hs|]. cbn. tauto.
Qed.

(** The animation keeps the glow and the lights within their ranges, for every
    seed and for the first 34000 years. *)
Definition sin_unit : Prop := forall x, fin x = true -> between (num_of_Z (-1)) (num_of_Z 1) (msin x).

Lemma tree_pose_range time worldSeed :
  sin_unit -> between nzero (num_of_Z (2 ^ 40)) time ->
  let t := createChristmasTree worldSeed in
  between (num_dec 3 1) (num_dec 7 1) (tp_glow (poseTree time t)) /\
  Forall (fun l => between nzero (num_of_Z 2) (fst l) /\ between (num_of_Z 1) (num_dec 12 1) (snd l))
    (tp_lights (poseTree time t)).
Proof.
  intros Hs Ht t. destruct (tree_decorated worldSeed) as (_ & _ & Hg & _). fold t in Hg. clearbody t. split.
  - cbn [tp_glow poseTree].
    assert (F : fin (time * num_of_Z 3)%num = true) by (eapply between_fin; between_rule). apply Hs in F as Hx.
    set (x := msin _) in *. clearbody x. bounds.
  - cbn [tp_lights poseTree]. apply Forall_map, Forall_forall. intros l Hl. unfold lightAt. cbn [fst snd].
    apply list_elem_of_omap in Hl as ([|l'] & Hd & E); [done|]. injection E as ->.
    rewrite Forall_forall in Hg. destruct (Hg _ Hd) as (_ & Hsp & Hph).
    assert (Hm : between (- num_of_Z (2 ^ 40) * num_of_Z 2) (num_of_Z (2 ^ 40) * num_of_Z 2) (time * l_speed l)%num).
    { apply between_mul_abs; [done|done| | |evaluate|evaluate].
      - eapply between_weaken; [exact Ht|evaluate..].
      - eapply between_weaken; [exact Hsp|evaluate..]. }
    set (m := (time * l_speed l)%num) in *. clearbody m.
    assert (F : fin (m * num_of_Z 4 + l_phase l)%num = true) by (eapply between_fin; between_rule). apply Hs in F as Hx.
    set (x := msin _) in *. clearbody x.
    assert (Hi : between nzero (num_of_Z 1) (num_dec 5 1 + x * num_dec 5 1)%num) by bounds.
    set (i := (num_dec 5 1 + x * num_dec 5 1)%num) in *. clearbody i. split; bounds.
Qed.

End Thms.
