(* ===== verification/Inspect.v ===== *)
(** * The asset inspection script ([scripts/inspect_kenney_collision.ts])

    A report on the bounding boxes of the model files: per primitive, their
    union, the union widened by the player's radius and the shrunk box the
    client uses.  The directory listing and the documents the glTF library
    reads are arguments; what is printed is the result. *)

From Stdlib Require Import Sorting.Permutation Sorting.Sorted QArith Lqa.
From S2P Require Import Prelude JsNum Rounding JsString JsValue Json JsConv Protocol.
From S2P Require Import ClientUtils ClientPlayer Scenery.
#[local] Open Scope Z_scope.

(** ** Numbers in a report *)

Section ToFixed.

(** The integer nearest to [m * 2^e * 1000], the larger one of two. *)
Definition thousandths (m : positive) (e : Z) : Z :=
  if 0 <=? e then Zpos m * 2 ^ e * 1000
  else (Zpos m * 2000 + 2 ^ (- e)) / 2 ^ (1 - e).

(** [n / 1000] with three decimals. *)
Definition threeDecimals (n : Z) : jsstr :=
  let d := dec_str (n mod 1000) in
  dec_str (n / 1000) ++ js "." ++ repeat 48 (3 - length d) ++ d.

(** [x.toFixed(3)] of a finite number. *)
Definition toFixed3 (x : num) : jsstr :=
  match x with
  | S754_finite s m e =>
      if nltb (nabs x) (num_of_Z (10 ^ 21)) then
        (if s then js "-" else []) ++ threeDecimals (thousandths m e)
      else num_text x
  | _ => threeDecimals 0
  end.

End ToFixed.

Definition fmtNum (x : num) : jsstr := if isFinite x then toFixed3 x else num_text x.

(** [fmtVec3(v)]; the script only passes vectors. *)
Definition fmtVec3 (v : Vec3) : jsstr :=
  js "[" ++ fmtNum (vx v) ++ js ", " ++ fmtNum (vy v) ++ js ", " ++ fmtNum (vz v) ++ js "]".

(** ** Boxes *)

Definition INF : num := S754_infinity false.
Definition empty_box : Box := mkBox (mkVec3 INF INF INF) (mkVec3 (- INF) (- INF) (- INF))%num.

Definition lower (a m : num) : num := if (a <? m)%num then a else m.
Definition raise (a m : num) : num := if (a >? m)%num then a else m.

(** The loop body over the vertices. *)
Definition growBox (b : Box) (v : Vec3) : Box :=
  mkBox (mkVec3 (lower (vx v) (vx (b_min b))) (lower (vy v) (vy (b_min b))) (lower (vz v) (vz (b_min b))))
        (mkVec3 (raise (vx v) (vx (b_max b))) (raise (vy v) (vy (b_max b))) (raise (vz v) (vz (b_max b)))).

Definition primBox (positions : list Vec3) : Box := foldl growBox empty_box positions.

(** The loop over [k] that joins a primitive's box to the whole. *)
Definition joinBox (whole b : Box) : Box :=
  mkBox (b_min (growBox whole (b_min b))) (b_max (growBox whole (b_max b))).

Definition v3_sub (a b : Vec3) : Vec3 := mkVec3 (vx a - vx b)%num (vy a - vy b)%num (vz a - vz b)%num.
Definition boxSize (b : Box) : Vec3 := v3_sub (b_max b) (b_min b).

Definition playerRadius : num := num_dec 5 1.
Definition approxBox (b : Box) : Box :=
  mkBox (mkVec3 (vx (b_min b) - playerRadius)%num (vy (b_min b)) (vz (b_min b) - playerRadius)%num)
        (mkVec3 (vx (b_max b) + playerRadius)%num (vy (b_max b)) (vz (b_max b) + playerRadius)%num).

Definition margin : num := num_dec 1 1.

(** Half the size on one axis, shrunk. *)
Definition shrinkHalf (size : num) : num :=
  let h := (size * num_dec 5 1)%num in math_max (h - margin)%num (h * num_dec 5 1)%num.

Definition centerOf (lo hi : num) : num := ((lo + hi) * num_dec 5 1)%num.

Definition betterBox (b : Box) : Box :=
  let size := boxSize b in
  let cx := centerOf (vx (b_min b)) (vx (b_max b)) in
  let cz := centerOf (vz (b_min b)) (vz (b_max b)) in
  mkBox (mkVec3 (cx - shrinkHalf (vx size))%num (vy (b_min b)) (cz - shrinkHalf (vz size))%num)
        (mkVec3 (cx + shrinkHalf (vx size))%num (vy (b_max b)) (cz + shrinkHalf (vz size))%num).

(** ** The report *)

(** A primitive's positions, if it has any; a mesh; a document. *)
Definition Prim : Type := option (list Vec3).
Record MeshDoc := mkMeshDoc { me_name : jsstr; me_prims : list Prim }.

(** The directory: is it a file, and its name. *)
Definition DirEntry : Type := bool * jsstr.

Inductive Line := Log (s : jsstr) | Err (s : jsstr).

Definition num_str (n : nat) : jsstr := dec_str (Z.of_nat n).

Definition primLine (i : nat) (p : Prim) : Line :=
  match p with
  | None => Log (js "      prim[" ++ num_str i ++ js "]: (no POSITION attribute)")
  | Some positions =>
      let b := primBox positions in
      Log (js "      prim[" ++ num_str i ++ js "]: POSITION min=" ++ fmtVec3 (b_min b) ++ js " max=" ++ fmtVec3 (b_max b))
  end.

Definition meshLines (i : nat) (m : MeshDoc) : list Line :=
  let meshName := match me_name m with [] => js "(mesh#" ++ num_str i ++ js ")" | n => n end in
  Log (js "  - mesh[" ++ num_str i ++ js "]: " ++ meshName ++ js ", primitives: " ++ num_str (length (me_prims m)))
  :: imap primLine (me_prims m).

(** [perPrimBoxes]. *)
Definition primBoxes (doc : list MeshDoc) : list Box :=
  omap (fun p => primBox <$> p) (concat (map me_prims doc)).

Definition unionBox (doc : list MeshDoc) : Box := foldl joinBox empty_box (primBoxes doc).

Definition labelled (label : jsstr) (v : Vec3) : Line := Log (label ++ js " " ++ fmtVec3 v).

Definition summary (b : Box) : list Line :=
  let approx := approxBox b in
  [Log (js "  === " ++ [23545; 25293] ++ js ": " ++ [35270; 35273; 20960; 20309] ++ js " vs. " ++
     [24403; 21069; 25972; 20307; 21253; 22260; 30418; 36817; 20284] ++ js " ===");
   Log (js "  " ++ [20960; 20309; 36880] ++ js " primitive " ++ [21253; 22260; 30418] ++ js " union:");
   labelled (js "    union min:") (b_min b); labelled (js "    union max:") (b_max b);
   Log (js "  " ++ [24403; 21069; 30896; 25758; 26041; 27861; 65288; 25972; 20307; 30418] ++ js " + " ++
     [29609; 23478; 21322; 24452; 25193; 23637] ++ js " XZ" ++ [65289] ++ js ":");
   labelled (js "    approx min:") (b_min approx); labelled (js "    approx max:") (b_max approx);
   labelled (js "  " ++ [20960; 20309] ++ js " union " ++ [23610; 23544] ++ js ":") (boxSize b);
   labelled (js "  " ++ [24403; 21069; 30896; 25758; 36817; 20284] ++ js " " ++ [23610; 23544] ++ js ":") (boxSize approx);
   labelled (js "  " ++ [25913; 36827; 31639; 27861] ++ js " " ++ [30896; 25758; 36817; 20284] ++ js " " ++ [23610; 23544] ++ js ":")
     (boxSize (betterBox b));
   Log []].

(** One file: what [io.read] gave, [None] if it threw; a template literal ends
    a line with a newline of its own. *)
Definition fileLines (file : jsstr) (doc : option (list MeshDoc)) : list Line :=
  Log (js "=== " ++ file ++ js " ===") ::
  match doc with
  | None => [Err (js "  ! Failed to read " ++ file ++ js ":"); Log []]
  | Some [] => [Log (js "  (no meshes)" ++ [10])]
  | Some meshes =>
      Log (js "  meshes: " ++ num_str (length meshes)) :: concat (imap meshLines meshes) ++
      match primBoxes meshes with
      | [] => [Log (js "  (no POSITION data found)" ++ [10])]
      | _ => summary (unionBox meshes)
      end
  end.

(** [e.name.toLowerCase().endsWith(".glb")]; only ASCII letters have the
    lower-case letters g, l and b. *)
Definition asciiLower (c : Z) : Z := if (65 <=? c) && (c <=? 90) then c + 32 else c.
Definition isGlb (e : DirEntry) : bool :=
  fst e && str_eqb (map asciiLower (drop (length (snd e) - 4) (snd e))) (js ".glb").

(** The default order of [sort()]: by code units. *)
Fixpoint str_leb (a b : jsstr) : bool :=
  match a, b with
  | [], _ => true
  | _, [] => false
  | x :: a', y :: b' => (x <? y) || ((x =? y) && str_leb a' b')
  end.

Fixpoint insert_str (x : jsstr) (l : list jsstr) : list jsstr :=
  match l with [] => [x] | y :: l' => if str_leb x y then x :: l else y :: insert_str x l' end.
Definition sort_strs (l : list jsstr) : list jsstr := foldr insert_str [] l.

Definition modelsDirPath : jsstr := js "assets/kenney_holiday_kit/Models/GLB format".

(** [main()]: the directory's entries, [None] if it cannot be read, and the
    documents by path. *)
Definition inspect (entries : option (list DirEntry)) (read : jsstr -> option (list MeshDoc)) : list Line :=
  match entries with
  | None => [Err (js "Failed to read models directory:")]
  | Some es =>
      match sort_strs (map snd (List.filter isGlb es)) with
      | [] => [Log (js "No .glb files found.")]
      | glbFiles => concat (map (fun f => fileLines f (read (modelsDirPath ++ js "/" ++ f))) glbFiles)
      end
  end.

(** ** The boxes enclose *)

Definition numeric (v : Vec3) : Prop := isNaN (vx v) = false /\ isNaN (vy v) = false /\ isNaN (vz v) = false.

(** [v] is in the box. *)
Definition inside (b : Box) (v : Vec3) : Prop :=
  (nleb (vx (b_min b)) (vx v) = true /\ nleb (vx v) (vx (b_max b)) = true) /\
  (nleb (vy (b_min b)) (vy v) = true /\ nleb (vy v) (vy (b_max b)) = true) /\
  (nleb (vz (b_min b)) (vz v) = true /\ nleb (vz v) (vz (b_max b)) = true).

Lemma lower_spec a m :
  isNaN a = false -> isNaN m = false ->
  isNaN (lower a m) = false /\ nleb (lower a m) a = true /\ nleb (lower a m) m = true /\
  (lower a m = a \/ lower a m = m).
Proof.
  intros Ha Hm. unfold lower. destruct (nltb a m) eqn:E.
  - split; [done|]. split; [by apply nleb_refl|]. split; [by apply below_le|by left].
  - split; [done|]. split; [by rewrite nleb_nltb, E|]. split; [by apply nleb_refl|by right].
Qed.

Lemma raise_spec a m :
  isNaN a = false -> isNaN m = false ->
  isNaN (raise a m) = false /\ nleb a (raise a m) = true /\ nleb m (raise a m) = true /\
  (raise a m = a \/ raise a m = m).
Proof.
  intros Ha Hm. unfold raise. destruct (nltb m a) eqn:E.
  - split; [done|]. split; [by apply nleb_refl|]. split; [by apply below_le|by left].
  - split; [done|]. split; [by rewrite nleb_nltb, E|]. split; [by apply nleb_refl|by right].
Qed.

(** One axis of the loops, towards the minimum or the maximum: [pick] chooses
    the better of two numbers, [top] is the worst of all. *)
Section Extremum.
Context (pick : num -> num -> num) (le : num -> num -> Prop) (top : num).
Hypothesis le_refl : forall a, isNaN a = false -> le a a.
Hypothesis le_trans : forall a b c, le a b -> le b c -> le a c.
Hypothesis pick_spec : forall a m, isNaN a = false -> isNaN m = false ->
  isNaN (pick a m) = false /\ le (pick a m) a /\ le (pick a m) m /\ (pick a m = a \/ pick a m = m).
Hypothesis top_num : isNaN top = false.
Hypothesis top_only : forall a, isNaN a = false -> le top a -> a = top.

Lemma fold_pick {A} (f : A -> num) l m :
  isNaN m = false -> Forall (fun v => isNaN (f v) = false) l ->
  let r := foldl (fun m v => pick (f v) m) m l in
  isNaN r = false /\ le r m /\ Forall (fun v => le r (f v)) l /\ (r = m \/ exists v, v ∈ l /\ r = f v).
Proof.
  intros Hm Hl. revert m Hm. induction Hl as [|v l Hv _ IH]; intros m Hm; cbn [foldl].
  { split; [done|]. split; [by apply le_refl|]. split; [constructor|by left]. }
  destruct (pick_spec (f v) m Hv Hm) as (N & L1 & L2 & O). destruct (IH _ N) as (R1 & R2 & R3 & R4). split; [done|].
  split; [by eapply le_trans|]. split; [constructor; [by eapply le_trans|done]|].
  destruct R4 as [->|(x & Hx & E)]; [|right; exists x; split; [by right|done]].
  destruct O as [->| ->]; [right; exists v; split; [by left|done]|by left].
Qed.

(** One face of the union of the boxes of [ps]: a bound on every point that
    one of them attains. *)
Lemma union_face (f : Vec3 -> num) (g : Box -> num) (box : list Vec3 -> Box) ps :
  (forall l, g (box l) = foldl (fun m v => pick (f v) m) top l) ->
  Forall (fun v => isNaN (f v) = false) (concat ps) ->
  let r := foldl (fun m b => pick (g b) m) top (map box ps) in
  Forall (fun v => le r (f v)) (concat ps) /\ (concat ps <> [] -> exists v, v ∈ concat ps /\ r = f v).
Proof.
  intros Hg Hn r. pose proof Hn as Hn'. apply Forall_concat in Hn'. rewrite Forall_forall in Hn'.
  assert (Hb : Forall (fun b => isNaN (g b) = false) (map box ps)).
  { apply Forall_map, Forall_forall. intros l Hl. cbn. rewrite Hg. by apply fold_pick; auto. }
  destruct (fold_pick g (map box ps) top top_num Hb) as (_ & _ & R & O). fold r in R, O.
  assert (B : Forall (fun v => le r (f v)) (concat ps)).
  { apply Forall_concat, Forall_forall. intros l Hl. rewrite Forall_map, Forall_forall in R.
    specialize (R l Hl). cbn in R. rewrite Hg in R.
    destruct (fold_pick f l top top_num (Hn' l Hl)) as (_ & _ & M & _). apply Forall_forall. intros v Hv.
    rewrite Forall_forall in M. by eapply le_trans; [|apply M]. }
  split; [done|]. intros Hne.
  assert (T : r = top \/ exists v, v ∈ concat ps /\ r = f v).
  { destruct O as [|(b & Hb' & E)]; [by left|]. apply list_elem_of_fmap in Hb' as (l & -> & Hl). rewrite Hg in E.
    destruct (fold_pick f l top top_num (Hn' l Hl)) as (_ & _ & _ & [O|(v & Hv & E')]).
    - left. by rewrite E.
    - right. exists v. split; [apply list_elem_of_In, in_concat; exists l; by rewrite <- !list_elem_of_In|by rewrite E]. }
  destruct T as [E|]; [|done]. destruct (concat ps) as [|v vs]; [done|]. exists v. split; [by left|].
  apply Forall_cons in B as [B _]. apply Forall_cons in Hn as [Nv _]. rewrite E in *. symmetry. by apply top_only.
Qed.

End Extremum.

Lemma least_face (f : Vec3 -> num) (g : Box -> num) (box : list Vec3 -> Box) ps :
  (forall l, g (box l) = foldl (fun m v => lower (f v) m) INF l) ->
  Forall (fun v => isNaN (f v) = false) (concat ps) ->
  let r := foldl (fun m b => lower (g b) m) INF (map box ps) in
  Forall (fun v => nleb r (f v) = true) (concat ps) /\ (concat ps <> [] -> exists v, v ∈ concat ps /\ r = f v).
Proof.
  apply (union_face lower (fun a b => nleb a b = true)); [apply nleb_refl|apply nleb_trans|apply lower_spec|done|].
  by intros [|[]| |[]].
Qed.

Lemma greatest_face (f : Vec3 -> num) (g : Box -> num) (box : list Vec3 -> Box) ps :
  (forall l, g (box l) = foldl (fun m v => raise (f v) m) (- INF)%num l) ->
  Forall (fun v => isNaN (f v) = false) (concat ps) ->
  let r := foldl (fun m b => raise (g b) m) (- INF)%num (map box ps) in
  Forall (fun v => nleb (f v) r = true) (concat ps) /\ (concat ps <> [] -> exists v, v ∈ concat ps /\ r = f v).
Proof.
  apply (union_face raise (fun a b => nleb b a = true)); [apply nleb_refl| |apply raise_spec|done|].
  - intros a b c H1 H2. by eapply nleb_trans.
  - by intros [|[]| |[]].
Qed.

Lemma primBox_axes l b :
  foldl growBox b l =
  mkBox (mkVec3 (foldl (fun m v => lower (vx v) m) (vx (b_min b)) l) (foldl (fun m v => lower (vy v) m) (vy (b_min b)) l)
           (foldl (fun m v => lower (vz v) m) (vz (b_min b)) l))
        (mkVec3 (foldl (fun m v => raise (vx v) m) (vx (b_max b)) l) (foldl (fun m v => raise (vy v) m) (vy (b_max b)) l)
           (foldl (fun m v => raise (vz v) m) (vz (b_max b)) l)).
Proof. revert b. induction l as [|v l IH]; intros [[] []]; cbn [foldl]; [done|]. by rewrite IH. Qed.

Lemma unionBox_axes bs b :
  foldl joinBox b bs =
  mkBox (mkVec3 (foldl (fun m x => lower (vx (b_min x)) m) (vx (b_min b)) bs)
           (foldl (fun m x => lower (vy (b_min x)) m) (vy (b_min b)) bs)
           (foldl (fun m x => lower (vz (b_min x)) m) (vz (b_min b)) bs))
        (mkVec3 (foldl (fun m x => raise (vx (b_max x)) m) (vx (b_max b)) bs)
           (foldl (fun m x => raise (vy (b_max x)) m) (vy (b_max b)) bs)
           (foldl (fun m x => raise (vz (b_max x)) m) (vz (b_max b)) bs)).
Proof. revert b. induction bs as [|x bs IH]; intros [[] []]; cbn [foldl]; [done|]. by rewrite IH. Qed.

Lemma numeric_axes l :
  Forall numeric l -> Forall (fun v => isNaN (vx v) = false) l /\ Forall (fun v => isNaN (vy v) = false) l /\
    Forall (fun v => isNaN (vz v) = false) l.
Proof. intros Hl. repeat split; (eapply Forall_impl; [exact Hl|]); by intros v (? & ? & ?). Qed.

(** The lists of positions of a document, and all its vertices. *)
Definition positions (doc : list MeshDoc) : list (list Vec3) := omap (fun p => p) (concat (map me_prims doc)).
Definition vertices (doc : list MeshDoc) : list Vec3 := concat (positions doc).

Lemma primBoxes_positions doc : primBoxes doc = map primBox (positions doc).
Proof.
  unfold primBoxes, positions. induction (concat (map me_prims doc)) as [|[l|] ps IH]; cbn; [done|by f_equal|done].
Qed.

(** Every face of the box goes through one of the points. *)
Definition tight (b : Box) (vs : list Vec3) : Prop :=
  (exists v, v ∈ vs /\ vx (b_min b) = vx v) /\ (exists v, v ∈ vs /\ vx (b_max b) = vx v) /\
  (exists v, v ∈ vs /\ vy (b_min b) = vy v) /\ (exists v, v ∈ vs /\ vy (b_max b) = vy v) /\
  (exists v, v ∈ vs /\ vz (b_min b) = vz v) /\ (exists v, v ∈ vs /\ vz (b_max b) = vz v).

(** The box the script reports for a file is the bounding box of all its
    vertices: it encloses every one of them, and unless there are none, every
    face of it goes through a vertex. *)
Theorem unionBox_tight doc :
  Forall numeric (vertices doc) ->
  Forall (inside (unionBox doc)) (vertices doc) /\ (vertices doc <> [] -> tight (unionBox doc) (vertices doc)).
Proof.
  intros Hn. destruct (numeric_axes _ Hn) as (Hx & Hy & Hz). unfold unionBox. rewrite primBoxes_positions, unionBox_axes.
  assert (A : forall l, primBox l = foldl growBox empty_box l) by done.
  destruct (least_face vx (fun b => vx (b_min b)) primBox (positions doc)) as [X1 X2]; [intros l; by rewrite A, primBox_axes|done|].
  destruct (least_face vy (fun b => vy (b_min b)) primBox (positions doc)) as [Y1 Y2]; [intros l; by rewrite A, primBox_axes|done|].
  destruct (least_face vz (fun b => vz (b_min b)) primBox (positions doc)) as [Z1 Z2]; [intros l; by rewrite A, primBox_axes|done|].
  destruct (greatest_face vx (fun b => vx (b_max b)) primBox (positions doc)) as [X3 X4]; [intros l; by rewrite A, primBox_axes|done|].
  destruct (greatest_face vy (fun b => vy (b_max b)) primBox (positions doc)) as [Y3 Y4]; [intros l; by rewrite A, primBox_axes|done|].
  destruct (greatest_face vz (fun b => vz (b_max b)) primBox (positions doc)) as [Z3 Z4]; [intros l; by rewrite A, primBox_axes|done|].
  split; [|intros Hne; repeat split; cbn [b_min b_max vx vy vz]; auto].
  apply Forall_forall. intros v Hv. unfold vertices in *. rewrite Forall_forall in *.
  repeat split; cbn [b_min b_max vx vy vz]; auto.
Qed.

(** ** The shrunk box *)

(** Neither less than half nor more than the whole. *)
Lemma shrinkHalf_range size :
  fin size = true -> nleb nzero size = true ->
  let h := (size * num_dec 5 1)%num in
  fin h = true /\ nleb nzero h = true /\ nleb (h * num_dec 5 1)%num (shrinkHalf size) = true /\ nleb (shrinkHalf size) h = true.
Proof.
  intros Fs Hs h.
  assert (Half : forall a, fin a = true -> nleb nzero a = true ->
    fin (a * num_dec 5 1)%num = true /\ nleb nzero (a * num_dec 5 1)%num = true /\ nleb (a * num_dec 5 1)%num a = true).
  { intros a Fa Ha. pose proof (nmul_RN a (num_dec 5 1) Fa eq_refl) as R. apply nleb_val in Ha; [|done|done].
    assert (E : (fval (num_dec 5 1) == 1 # 2)%Q) by (vm_compute; reflexivity). change (fval nzero) with 0%Q in Ha.
    assert (L1 : nleb nzero (a * num_dec 5 1)%num = true).
    { eapply rnd_mono; [|apply (rnd_val nzero eq_refl)|exact R]. change (fval nzero) with 0%Q. rewrite E. lra. }
    assert (L2 : nleb (a * num_dec 5 1)%num a = true).
    { eapply rnd_mono; [|exact R|by apply rnd_val]. rewrite E. lra. }
    split; [|done]. eapply rnd_fin; [exact R|]. eapply between_finite; [| |exact L1|exact L2]; [done|by destruct a]. }
  destruct (Half size Fs Hs) as (Fh & Hh & _). fold h in Fh, Hh. destruct (Half h Fh Hh) as (Fq & _ & Hq).
  do 2 (split; [done|]). unfold shrinkHalf. fold h.
  assert (Hd : nleb (h - margin)%num h = true).
  { eapply rnd_mono; [|by apply nsub_RN|by apply rnd_val]. assert (0 <= fval margin)%Q by (by vm_compute). lra. }
  pose proof (nleb_nan _ _ Hd) as [Nd Nh]. pose proof (nleb_nan _ _ Hq) as [Nq _].
  destruct (math_max_spec _ _ Nd Nq) as [Nm Rm]. rewrite !nleb_rank by done. rewrite Rm.
  apply nleb_rank in Hd, Hq; try done. destruct (nltb _ _) eqn:E; [by auto|]. split; [|done].
  apply nleb_rank; [done..|]. by rewrite nleb_nltb, E.
Qed.

Section Obstacles.
Context `{Geometry}.

(** [isEmpty()] of a box. *)
Definition emptyBox (b : Box) : bool :=
  nltb (vx (b_max b)) (vx (b_min b)) || nltb (vy (b_max b)) (vy (b_min b)) || nltb (vz (b_max b)) (vz (b_min b)).

(** What [getSize] and [getCenter] of three.js compute for a box that is not
    empty. *)
Definition box_helpers : Prop :=
  forall b, emptyBox b = false ->
    box_size b = boxSize b /\
    box_center b = mkVec3 (centerOf (vx (b_min b)) (vx (b_max b))) (centerOf (vy (b_min b)) (vy (b_max b)))
                     (centerOf (vz (b_min b)) (vz (b_max b))).


End Obstacles.

(** ** A concrete file *)

Definition corner (a : Z) : Vec3 := mkVec3 (num_of_Z a) (num_of_Z (a + 1)) (num_of_Z (2 * a)).

Definition sample_doc : list MeshDoc :=
  [mkMeshDoc (js "tree") [Some [corner 1; corner (-2)]; None]; mkMeshDoc [] [Some [corner 3]]].

Lemma unionBox_tight_witness :
  inside (unionBox sample_doc) (corner (-2)) /\ tight (unionBox sample_doc) (vertices sample_doc).
Proof.
  destruct (unionBox_tight sample_doc) as [H1 H2].
  { repeat constructor. }
  split; [|apply H2; discriminate]. rewrite Forall_forall in H1. apply H1. right. left.
Defined.

#[local] Instance box3 : Geometry := {
  plane_vertices := [];
  cone_vertices := fun _ _ => [];
  box_size := boxSize;
  box_center := fun b => mkVec3 (centerOf (vx (b_min b)) (vx (b_max b))) (centerOf (vy (b_min b)) (vy (b_max b)))
                           (centerOf (vz (b_min b)) (vz (b_max b)));
}.

