(* ===== verification/Page.v ===== *)
(** * The page ([client_src/init.js])

    Log-in and leaderboards, keyboard and mouse, and the frame loop that drives
    the models of [ClientPlayer], the network client of [ClientNet] and the
    scenery of [Scenery].  What the browser delivers (events, decoded answers
    of [fetch], clock readings) is the argument of a step; a handler that
    throws leaves the page as it was.  The DOM is represented by what the
    script sets and reads of it.  A timer that was cleared does not fire, so a
    chat bubble has a timer exactly while it is shown. *)

From S2P Require Import Prelude JsMap JsNum JsString JsValue Json JsConv Protocol Build.
From S2P Require Import ClientUtils ClientPlayer ClientNet Scenery.

(** ** Leaderboards *)

Definition medals : list jsstr := map js ["1."; "2."; "3."]%string.

(** [name.length > 10 ? name.slice(0, 10) + "..." : name] in a row's text; an
    object has no [slice] to call. *)
Definition displayName (name : jsval) : exn + jsstr :=
  match name with
  | JStr s => inr (if 10 <? str_length s then slice0 10 s ++ js "..." else s)
  | JArr l => inr (if 10 <? Z.of_nat (length l) then to_text (JArr (take 10 l)) ++ js "..." else to_text name)
  | JObj fs => if (to_number (field (js "length") fs) >? num_of_Z 10)%num then inl TypeError else inr (to_text name)
  | _ => inr (to_text name)
  end.

Definition leaderRow (i : nat) (p : jsval) : exn + jsstr :=
  match prop p "playerName" with
  | inl e => inl e
  | inr rawName =>
      let medal := default (dec_str (Z.of_nat (i + 1)) ++ js ".") (medals !! i) in
      match displayName (fixName (js_or rawName (JStr (js "Unknown")))) with
      | inl e => inl e
      | inr name =>
          inr (lines
            [jsq "<div style=`display:flex; justify-content:space-between; padding:4px 0; border-bottom:1px solid rgba(255,255,255,0.1);`>";
             js "          <span><span>" ++ medal ++ js "</span> <span>" ++ name ++ js "</span></span>";
             jsq "          <span style=`color:#4CAF50; font-weight:bold;`>" ++ to_text (prop_ok p "kills") ++ js "</span>";
             js "        </div>"])
      end
  end.

Fixpoint leaderRows (i : nat) (l : list jsval) : exn + jsstr :=
  match l with
  | [] => inr []
  | p :: l' =>
      match leaderRow i p, leaderRows (S i) l' with
      | inr row, inr rows => inr (row ++ rows)
      | inl e, _ => inl e
      | _, inl e => inl e
      end
  end.

(** The "no data" line, its text in Chinese. *)
Definition noData : jsstr :=
  jsq "<div style=`color:#888; text-align:center;`>" ++ [26242; 26080; 25968; 25454] ++ js "</div>".

(** [renderLeaderboard]: the element's HTML; what is neither falsy nor an
    array has no [map]. *)
Definition renderLeaderboard (data : jsval) : exn + jsstr :=
  if negb (truthy data) then inr noData
  else match data with
       | JArr [] => inr noData
       | JArr l => leaderRows 0 l
       | JObj fs => match field (js "length") fs with
                    | JNum n => if neqb n (num_of_Z 0) then inr noData else inl TypeError
                    | _ => inl TypeError
                    end
       | _ => inl TypeError
       end.

(** ** The page's state *)

Inductive CameraMode := Third | First.

(** Which part of the log-in overlay is shown. *)
Inductive LoginUI :=
| Checking
| OAuthLogin
| GuestLogin
| LoggedIn (name : jsval).

Record Page := mkPage {
  client : ClientState;
  scenery : option Scenery;           (* what createEnvironment made *)
  obstacles : list Box;               (* STATIC_OBSTACLES *)
  snow : list Vec3;                   (* snowSystem's positions *)
  cameraPitch : num;
  cameraMode : CameraMode;
  cameraPos : Vec3;
  cameraTarget : Vec3;                (* camera.lookAt *)
  uiHidden : bool;
  isPointerLocked : bool;
  chatFocused : bool;                 (* document.activeElement === chatInput *)
  chatText : jsstr;                   (* chatInput.value *)
  loginOverlay : bool;                (* is the overlay displayed? *)
  loginUI : LoginUI;
  guestInput : jsstr;                 (* the guest name field *)
  currentUser : jsval;
  oauthEnabled : jsval;
  session : JMap.jsmap jsstr jsstr;   (* sessionStorage *)
  nameDisplay : option jsstr;         (* the player's name on screen *)
  leaderboards : jsstr * jsstr;       (* HTML of the two tables *)
  gain : num;                         (* gainNode.gain.value *)
  treePose : option TreePose;         (* of window.christmasTreeAnim *)
  musicStarted : bool;                (* has playMusic run? *)
}.

Definition set_client (x : ClientState) (p : Page) : Page :=
  mkPage x (scenery p) (obstacles p) (snow p) (cameraPitch p) (cameraMode p) (cameraPos p) (cameraTarget p)
    (uiHidden p) (isPointerLocked p) (chatFocused p) (chatText p) (loginOverlay p) (loginUI p) (guestInput p)
    (currentUser p) (oauthEnabled p) (session p) (nameDisplay p) (leaderboards p) (gain p) (treePose p) (musicStarted p).
Definition set_world (sc : option Scenery) (obs : list Box) (sn : list Vec3) (p : Page) : Page :=
  mkPage (client p) sc obs sn (cameraPitch p) (cameraMode p) (cameraPos p) (cameraTarget p)
    (uiHidden p) (isPointerLocked p) (chatFocused p) (chatText p) (loginOverlay p) (loginUI p) (guestInput p)
    (currentUser p) (oauthEnabled p) (session p) (nameDisplay p) (leaderboards p) (gain p) (treePose p) (musicStarted p).
Definition set_view (pitch : num) (mode : CameraMode) (pos target : Vec3) (p : Page) : Page :=
  mkPage (client p) (scenery p) (obstacles p) (snow p) pitch mode pos target
    (uiHidden p) (isPointerLocked p) (chatFocused p) (chatText p) (loginOverlay p) (loginUI p) (guestInput p)
    (currentUser p) (oauthEnabled p) (session p) (nameDisplay p) (leaderboards p) (gain p) (treePose p) (musicStarted p).
Definition set_controls (hidden locked : bool) (p : Page) : Page :=
  mkPage (client p) (scenery p) (obstacles p) (snow p) (cameraPitch p) (cameraMode p) (cameraPos p) (cameraTarget p)
    hidden locked (chatFocused p) (chatText p) (loginOverlay p) (loginUI p) (guestInput p)
    (currentUser p) (oauthEnabled p) (session p) (nameDisplay p) (leaderboards p) (gain p) (treePose p) (musicStarted p).
Definition set_chatbox (focused : bool) (text : jsstr) (p : Page) : Page :=
  mkPage (client p) (scenery p) (obstacles p) (snow p) (cameraPitch p) (cameraMode p) (cameraPos p) (cameraTarget p)
    (uiHidden p) (isPointerLocked p) focused text (loginOverlay p) (loginUI p) (guestInput p)
    (currentUser p) (oauthEnabled p) (session p) (nameDisplay p) (leaderboards p) (gain p) (treePose p) (musicStarted p).
Definition set_overlay (shown : bool) (name : option jsstr) (p : Page) : Page :=
  mkPage (client p) (scenery p) (obstacles p) (snow p) (cameraPitch p) (cameraMode p) (cameraPos p) (cameraTarget p)
    (uiHidden p) (isPointerLocked p) (chatFocused p) (chatText p) shown (loginUI p) (guestInput p)
    (currentUser p) (oauthEnabled p) (session p) name (leaderboards p) (gain p) (treePose p) (musicStarted p).
Definition set_login (ui : LoginUI) (guest : jsstr) (st : JMap.jsmap jsstr jsstr) (p : Page) : Page :=
  mkPage (client p) (scenery p) (obstacles p) (snow p) (cameraPitch p) (cameraMode p) (cameraPos p) (cameraTarget p)
    (uiHidden p) (isPointerLocked p) (chatFocused p) (chatText p) (loginOverlay p) ui guest
    (currentUser p) (oauthEnabled p) st (nameDisplay p) (leaderboards p) (gain p) (treePose p) (musicStarted p).
Definition set_auth (user oauth : jsval) (p : Page) : Page :=
  mkPage (client p) (scenery p) (obstacles p) (snow p) (cameraPitch p) (cameraMode p) (cameraPos p) (cameraTarget p)
    (uiHidden p) (isPointerLocked p) (chatFocused p) (chatText p) (loginOverlay p) (loginUI p) (guestInput p)
    user oauth (session p) (nameDisplay p) (leaderboards p) (gain p) (treePose p) (musicStarted p).
Definition set_leaderboards (x : jsstr * jsstr) (p : Page) : Page :=
  mkPage (client p) (scenery p) (obstacles p) (snow p) (cameraPitch p) (cameraMode p) (cameraPos p) (cameraTarget p)
    (uiHidden p) (isPointerLocked p) (chatFocused p) (chatText p) (loginOverlay p) (loginUI p) (guestInput p)
    (currentUser p) (oauthEnabled p) (session p) (nameDisplay p) x (gain p) (treePose p) (musicStarted p).
Definition set_gain (x : num) (p : Page) : Page :=
  mkPage (client p) (scenery p) (obstacles p) (snow p) (cameraPitch p) (cameraMode p) (cameraPos p) (cameraTarget p)
    (uiHidden p) (isPointerLocked p) (chatFocused p) (chatText p) (loginOverlay p) (loginUI p) (guestInput p)
    (currentUser p) (oauthEnabled p) (session p) (nameDisplay p) (leaderboards p) x (treePose p) (musicStarted p).
Definition set_treePose (x : option TreePose) (p : Page) : Page :=
  mkPage (client p) (scenery p) (obstacles p) (snow p) (cameraPitch p) (cameraMode p) (cameraPos p) (cameraTarget p)
    (uiHidden p) (isPointerLocked p) (chatFocused p) (chatText p) (loginOverlay p) (loginUI p) (guestInput p)
    (currentUser p) (oauthEnabled p) (session p) (nameDisplay p) (leaderboards p) (gain p) x (musicStarted p).
(** The listener [playMusic], which removes itself. *)
Definition playMusic (p : Page) : Page :=
  mkPage (client p) (scenery p) (obstacles p) (snow p) (cameraPitch p) (cameraMode p) (cameraPos p) (cameraTarget p)
    (uiHidden p) (isPointerLocked p) (chatFocused p) (chatText p) (loginOverlay p) (loginUI p) (guestInput p)
    (currentUser p) (oauthEnabled p) (session p) (nameDisplay p) (leaderboards p) (gain p) (treePose p) true.

(** The page after [init()], before anything has happened. *)
Definition init_page : Page :=
  mkPage init_client None [] [] nzero Third vec_zero vec_zero false false false [] true Checking [] JNull
    (JBool false) [] None ([], []) (num_of_Z 1) None false.

Definition upd_client (f : ClientState -> ClientState) (p : Page) : Page := set_client (f (client p)) p.

(** ** Logging in *)

(** [loadLeaderboards]: the decoded answers, [None] where the request failed. *)
Definition loadLeaderboards (data24h data7d : option jsval) (p : Page) : Page :=
  match data24h with
  | None => p
  | Some d =>
      match renderLeaderboard d with
      | inl _ => p
      | inr html24 =>
          let p := set_leaderboards (html24, snd (leaderboards p)) p in
          match data7d with
          | None => p
          | Some d' =>
              match renderLeaderboard d' with
              | inl _ => p
              | inr html7 => set_leaderboards (html24, html7) p
              end
          end
      end
  end.

Definition P_NAME : jsstr := js "p_name".
Definition TAB_ID : jsstr := js "tab_id".

(** [showLoginUI()], with the identifier [id] that [randomId] returns. *)
Definition showLoginUI (id : jsstr) (p : Page) : Page :=
  if truthy (oauthEnabled p) then set_login OAuthLogin (guestInput p) (session p) p
  else
    match JMap.get P_NAME (session p) with
    | Some ((_ :: _) as savedName) => set_login GuestLogin savedName (session p) p
    | _ =>
        match JMap.get TAB_ID (session p) with
        | Some ((_ :: _) as tabId) => set_login GuestLogin (js "Guest-" ++ tabId) (session p) p
        | _ =>
            let tabId := slice0 4 id in
            set_login GuestLogin (js "Guest-" ++ tabId) (JMap.set TAB_ID tabId (session p)) p
        end
    end.

(** [currentUser.name || currentUser.sub]. *)
Definition userName (user : jsval) : exn + jsval :=
  match prop user "name" with
  | inl e => inl e
  | inr name => inr (js_or name (prop_ok user "sub"))
  end.

(** [checkAuthStatus()]: the decoded answers of [/auth/config] and
    [/auth/me]; every failure falls back to the log-in form. *)
Definition checkAuthStatus (config me : option jsval) (id : jsstr) (p : Page) : Page :=
  match config with
  | None => showLoginUI id p
  | Some configData =>
      match prop configData "oauth_enabled" with
      | inl _ => showLoginUI id p
      | inr enabled =>
          let p := set_auth (currentUser p) enabled p in
          match me with
          | None => showLoginUI id p
          | Some data =>
              match prop data "authenticated" with
              | inl _ => showLoginUI id p
              | inr authenticated =>
                  let user := prop_ok data "user" in
                  if truthy authenticated && truthy user then
                    let p := set_auth user (oauthEnabled p) p in
                    match userName user with
                    | inr name => set_login (LoggedIn name) (guestInput p) (session p) p
                    | inl _ => showLoginUI id p
                    end
                  else showLoginUI id p
              end
          end
      end
  end.

(** The bust in silhouette, and a space. *)
Definition BUST : jsstr := [55357; 56420; 32].

Definition startGame (playerName : jsval) (p : Page) : Page :=
  upd_client (upd_net (connect playerName)) (set_overlay false (Some (BUST ++ to_text playerName)) p).

Definition startClicked (p : Page) : Page :=
  match userName (currentUser p) with
  | inl _ => p
  | inr playerName => startGame playerName p
  end.

Definition guestClicked (p : Page) : Page :=
  let playerName := match trim (guestInput p) with [] => js "Guest" | t => t end in
  startGame (JStr playerName) (set_login (loginUI p) (guestInput p) (JMap.set P_NAME playerName (session p)) p).

(** ** Input *)

Definition lookSensitivity : num := num_dec 2 3.
Definition minPitch : num := (- num_dec 15 1)%num.
Definition maxPitch : num := num_dec 15 1.

(** The key [code] is pressed or released; other keys are not bound. *)
Definition setKey (code : jsstr) (down : bool) (i : Input) : Input :=
  if str_eqb code (js "KeyW") then mkInput down (in_a i) (in_s i) (in_d i) (in_space i) (in_shift i) (in_r i)
  else if str_eqb code (js "KeyS") then mkInput (in_w i) (in_a i) down (in_d i) (in_space i) (in_shift i) (in_r i)
  else if str_eqb code (js "KeyA") then mkInput (in_w i) down (in_s i) (in_d i) (in_space i) (in_shift i) (in_r i)
  else if str_eqb code (js "KeyD") then mkInput (in_w i) (in_a i) (in_s i) down (in_space i) (in_shift i) (in_r i)
  else if str_eqb code (js "Space") then mkInput (in_w i) (in_a i) (in_s i) (in_d i) down (in_shift i) (in_r i)
  else if str_eqb code (js "ShiftLeft") then mkInput (in_w i) (in_a i) (in_s i) (in_d i) (in_space i) down (in_r i)
  else if str_eqb code (js "KeyR") then mkInput (in_w i) (in_a i) (in_s i) (in_d i) (in_space i) (in_shift i) down
  else i.

Definition with_input (f : Input -> Input) (m : PlayerModel) : PlayerModel :=
  let mo := p_motion m in
  set_motion (mkMotion (m_pos mo) (m_rotX mo) (m_rotY mo) (m_vel mo) (m_onGround mo) (m_crouching mo)
                (f (m_input mo))) m.

Definition with_rotY (r : num) (m : PlayerModel) : PlayerModel :=
  let mo := p_motion m in
  set_motion (mkMotion (m_pos mo) (m_rotX mo) r (m_vel mo) (m_onGround mo) (m_crouching mo) (m_input mo)) m.

(** [if (localPlayer) localPlayer...]. *)
Definition upd_local (f : PlayerModel -> PlayerModel) (c : ClientState) : ClientState :=
  match localPlayer c with Some a => upd_model a f c | None => c end.

Definition local_model (c : ClientState) : option PlayerModel :=
  match localPlayer c with Some a => the_model a c | None => None end.

Definition onKeyDown (code : jsstr) (p : Page) : Page :=
  if chatFocused p then p
  else if loginOverlay p then p
  else if str_eqb code (js "KeyT") || str_eqb code (js "Enter") then set_chatbox true (chatText p) p
  else if str_eqb code (js "KeyH") then set_controls (negb (uiHidden p)) (isPointerLocked p) p
  else if str_eqb code (js "KeyV") then
    set_view (cameraPitch p) (match cameraMode p with Third => First | First => Third end)
      (cameraPos p) (cameraTarget p) p
  else upd_client (upd_local (with_input (setKey code true))) p.

(** A key in the guest name field: Enter clicks the button, and the event goes
    on to the document. *)
Definition onGuestKey (key code : jsstr) (p : Page) : Page :=
  let p := if str_eqb key (js "Enter") then playMusic (guestClicked p) else p in
  onKeyDown code (playMusic p).

Definition onKeyUp (code : jsstr) (p : Page) : Page :=
  upd_client (upd_local (with_input (setKey code false))) p.

Definition onMouseMove (movementX movementY : num) (p : Page) : Page :=
  match local_model (client p) with
  | None => p
  | Some m =>
      if negb (isPointerLocked p) then p
      else
        let yaw := (cameraYaw (client p) - movementX * lookSensitivity)%num in
        let pitch := (cameraPitch p - movementY * lookSensitivity)%num in
        let pitch := math_max minPitch (math_min maxPitch pitch) in
        let p := set_view pitch (cameraMode p) (cameraPos p) (cameraTarget p) p in
        let p := upd_client (set_cameraYaw yaw) p in
        if negb (in_r (m_input (p_motion m))) then upd_client (upd_local (with_rotY yaw)) p else p
  end.

Section Page.
Context `{JsMath} `{Three} `{Geometry}.
Context (distanceTo : Vec3 -> Vec3 -> num). (* a.distanceTo(b) *)
Context (round : num -> num).

(** [localPlayer.throwSnowball()]: the snowball enters both tables and is
    announced. *)
Definition throwLocal (shotId : jsstr) (now : num) (dateNow : Z) (pitch : num) (c : ClientState) : ClientState :=
  match localPlayer c with
  | None => c
  | Some a =>
      match the_model a c with
      | None => c
      | Some m =>
          match throwSnowball shotId now pitch m with
          | None => c
          | Some (m', sb, dir) =>
              let b := length (balls c) in
              let c := upd_model a (fun _ => m') c in
              let c := set_balls (balls c ++ [sb]) c in
              let c := set_snowballs (snowballs c ++ [b]) c in
              let c := set_snowballsById (JMap.set shotId b (snowballsById c)) c in
              upd_net (sendSnowball shotId dir dateNow) c
          end
      end
  end.

Definition onMouseDown (button : Z) (shotId : jsstr) (now : num) (dateNow : Z) (p : Page) : Page :=
  if chatFocused p then p
  else if loginOverlay p then p
  else if button =? 0 then
    if negb (isPointerLocked p) then p (* requestPointerLock: pointerlockchange follows *)
    else upd_client (throwLocal shotId now dateNow (cameraPitch p)) p
  else p.

(** A key in the chat box. *)
Definition onChatKey (key : jsstr) (p : Page) : Page :=
  let p := if str_eqb key (js "Escape") then set_chatbox false (chatText p) p else p in
  if str_eqb key (js "Enter") then
    match trim (chatText p) with
    | [] => p
    | txt =>
        let p := upd_client (upd_local (set_chat (Some (JStr txt)))) p in
        set_chatbox (chatFocused p) [] (upd_client (upd_net (sendChat txt)) p)
    end
  else p.

(** ** A frame *)

(** [destroy()] of the snowball at [b]. *)
Definition destroySnowball (b : nat) (c : ClientState) : ClientState :=
  match balls c !! b with
  | None => c
  | Some sb =>
      if negb (sb_active sb) then c
      else
        let c := set_balls (<[b := mkSnowball (sb_id sb) false (sb_ownerId sb) (sb_pos sb) (sb_rotX sb)
                                     (sb_rotY sb) (sb_vel sb)]> (balls c)) c in
        set_snowballsById (JMap.delete (sb_id sb) (snowballsById c)) c
  end.

(** [update(dt)] of the snowball at [b]; a ball that ends leaves the table. *)
Definition updateBall (obs : list Box) (dt : num) (b : nat) (c : ClientState) : ClientState :=
  match balls c !! b with
  | None => c
  | Some sb =>
      let sb' := updateSnowball (worldSeed c) obs dt sb in
      let c := set_balls (<[b := sb']> (balls c)) c in
      if sb_active sb && negb (sb_active sb') then
        set_snowballsById (JMap.delete (sb_id sb) (snowballsById c)) c
      else c
  end.

Definition ball_active (c : ClientState) (b : nat) : bool :=
  match balls c !! b with Some sb => sb_active sb | None => false end.

(** The loop over [snowballs], from the end, with [i] entries to go. *)
Fixpoint snowballLoop (obs : list Box) (dt : num) (i : nat) (c : ClientState) : ClientState :=
  match i with
  | O => c
  | S i' =>
      match snowballs c !! i' with
      | None => snowballLoop obs dt i' c
      | Some b =>
          let c := updateBall obs dt b c in
          let c := if negb (ball_active c b) then set_snowballs (base.delete i' (snowballs c)) c else c in
          snowballLoop obs dt i' c
      end
  end.

(** [players.forEach(p => p.update(dt))]. *)
Fixpoint updatePlayers (fuel : nat) (dateNow dt : num) (l : list nat) (c : ClientState) : option ClientState :=
  match l with
  | [] => Some c
  | a :: l' =>
      match the_model a c with
      | None => updatePlayers fuel dateNow dt l' c
      | Some m =>
          match update fuel (worldSeed c) dateNow dt (cameraYaw c) m with
          | None => None
          | Some (m', yaw) =>
              updatePlayers fuel dateNow dt l' (set_cameraYaw yaw (upd_model a (fun _ => m') c))
          end
      end
  end.

(** The volume at the given distance from the tree. *)
Definition volumeAt (distance : num) : num :=
  let maxDistance := num_of_Z 180 in
  let minDistance := num_of_Z 10 in
  if (distance <=? minDistance)%num then num_of_Z 1
  else if (distance >=? maxDistance)%num then num_dec 5 2
  else
    let ratio := ((distance - minDistance) / (maxDistance - minDistance))%num in
    let volume := mpow (num_of_Z 1 - ratio)%num (num_dec 15 1) in
    math_max (num_dec 5 2) volume.

Definition updateMusicVolume (p : Page) : Page :=
  match local_model (client p) with
  | None => p
  | Some m => set_gain (volumeAt (distanceTo (m_pos (p_motion m)) vec_zero)) p
  end.

(** The camera follows the local player. *)
Definition followCamera (p : Page) : Page :=
  match local_model (client p) with
  | None => p
  | Some m =>
      let pos := m_pos (p_motion m) in
      let eyeOffset := if in_shift (m_input (p_motion m)) then num_dec 135 2 else num_dec 15 1 in
      let headPos := mkVec3 (vx pos) (vy pos + eyeOffset)%num (vz pos) in
      let rot := mkEuler (cameraPitch p) (cameraYaw (client p)) (num_of_Z 0) (js "YXZ") in
      match cameraMode p with
      | Third =>
          let camOffset := v3_applyEuler rot (mkVec3 (num_of_Z 0) (num_of_Z 0) (num_dec 35 1)) in
          let target := v3_add headPos camOffset in
          upd_client (upd_local (set_visible true))
            (set_view (cameraPitch p) Third (v3_lerp (cameraPos p) target (num_dec 5 1)) headPos p)
      | First =>
          let lookDir := v3_applyEuler rot (mkVec3 (num_of_Z 0) (num_of_Z 0) (num_of_Z (-1))) in
          upd_client (upd_local (set_visible false))
            (set_view (cameraPitch p) First (v3_lerp (cameraPos p) headPos (num_dec 5 1))
               (v3_add headPos lookDir) p)
      end
  end.

(** A snowflake falls, and starts again at the top. *)
Definition fall (dt : num) (v : Vec3) : Vec3 :=
  let y := fround (vy v - num_of_Z 5 * dt)%num in
  mkVec3 (vx v) (if (y <? num_of_Z 0)%num then num_of_Z 50 else y) (vz v).

(** [animate()] at [getDelta() = delta] and [getElapsedTime() = time]; [None] if a rotation loop does not end within [fuel]. *)
Definition animate (fuel : nat) (delta time now : num) (dateNow : Z) (p : Page) : option Page :=
  let dt := math_min delta (num_dec 1 1) in
  match updatePlayers fuel (num_of_Z dateNow) dt (players (client p)) (client p) with
  | None => None
  | Some c =>
      let c := snowballLoop (obstacles p) dt (length (snowballs c)) c in
      let p := set_client (maybeSendLocalState now c) p in
      let p := followCamera (updateMusicVolume p) in
      let p := set_world (scenery p) (obstacles p) (map (fall dt) (snow p)) p in
      Some (set_treePose ((fun sc => poseTree time (sc_tree sc)) <$> scenery p) p)
  end.

(** ** Everything that can happen to the page *)

Inductive PageEvent :=
| Network (e : ClientEvent)
| AuthChecked (config me : option jsval) (id : jsstr)
| LeaderboardsLoaded (data24h data7d : option jsval)
| StartClicked
| GuestTyped (s : jsstr)
| GuestClicked
| GuestKey (key code : jsstr)
| Click
| ChatFocus
| ChatBlur
| ChatTyped (s : jsstr)
| ChatKey (key : jsstr)
| PointerLockChange (locked : bool)
| MouseDown (button : Z) (shotId : jsstr) (now : num) (dateNow : Z)
| MouseMove (movementX movementY : num)
| KeyDown (code : jsstr)
| KeyUp (code : jsstr)
| Frame (delta time now : num) (dateNow : Z)
| SnowballTimeout (b : nat)
| ChatTimeout (a : nat)
| ModelLoaded (objs : list Obj3).

(** [ensureEnvironment()] with the seed just received. *)
Definition ensureEnvironment (seed : Z) (p : Page) : Page :=
  match scenery p with
  | Some _ => p
  | None =>
      let sc := createEnvironment seed in
      set_world (Some sc) (obstacles p ++ [t_box (sc_tree sc)]) (sc_snow sc) p
  end.

(** A step of the network client; a welcome also builds the scenery. *)
Definition onNetwork (e : ClientEvent) (p : Page) : Page :=
  let p := match e with NetMessage _ _ (SWelcome _ _ _ seed) => ensureEnvironment seed p | _ => p end in
  upd_client (fun c => client_step to_text round c e) p.

Definition page_step (fuel : nat) (p : Page) (e : PageEvent) : option Page :=
  match e with
  | Network e => Some (onNetwork e p)
  | AuthChecked config me id => Some (checkAuthStatus config me id p)
  | LeaderboardsLoaded d1 d2 => Some (loadLeaderboards d1 d2 p)
  | StartClicked => Some (playMusic (startClicked p))
  | GuestTyped s => Some (set_login (loginUI p) s (session p) p)
  | GuestClicked => Some (playMusic (guestClicked p))
  | GuestKey key code => Some (onGuestKey key code p)
  | Click => Some (playMusic p)
  | ChatFocus => Some (set_chatbox true (chatText p) p)
  | ChatBlur => Some (set_chatbox false (chatText p) p)
  | ChatTyped s => Some (set_chatbox (chatFocused p) s p)
  | ChatKey key => Some (onChatKey key p)
  | PointerLockChange locked => Some (set_controls (uiHidden p) locked p)
  | MouseDown button shotId now dateNow => Some (onMouseDown button shotId now dateNow p)
  | MouseMove dx dy => Some (onMouseMove dx dy p)
  | KeyDown code => Some (onKeyDown code (playMusic p))
  | KeyUp code => Some (onKeyUp code p)
  | Frame delta time now dateNow => animate fuel delta time now dateNow p
  | SnowballTimeout b => Some (upd_client (destroySnowball b) p)
  | ChatTimeout a => Some (upd_client (upd_model a (set_chat None)) p)
  | ModelLoaded objs => Some (set_world (scenery p) (modelLoaded objs (obstacles p)) (snow p) p)
  end.

Fixpoint page_run (fuel : nat) (p : Page) (es : list PageEvent) : option Page :=
  match es with
  | [] => Some p
  | e :: es' => match page_step fuel p e with Some p' => page_run fuel p' es' | None => None end
  end.

End Page.
