(* ===== verification/ClientThms.v ===== *)
(** * Properties of the client

    Movement stays on the map and above the ground, throws respect the
    cooldown, the tables of players stay consistent under every sequence of
    messages, and a snapshot makes the table list exactly the players it names.
    Run against the server's own messages, a reconnection leaves a twin of the
    local player behind. *)

From S2P Require Import Prelude JsMap JsNum JsString JsValue Protocol Storage World Concrete.
From S2P Require Import ClientUtils ClientPlayer ClientNet.

(** A plain instance of three.js for concrete runs: componentwise arithmetic,
    rotations ignored. *)
#[export] Instance plain_three : Three := {
  v3_add := fun a b => mkVec3 (vx a + vx b)%num (vy a + vy b)%num (vz a + vz b)%num;
  v3_scale := fun a k => mkVec3 (vx a * k)%num (vy a * k)%num (vz a * k)%num;
  v3_lerp := fun a b k => mkVec3 (vx a + (vx b - vx a) * k)%num (vy a + (vy b - vy a) * k)%num
                            (vz a + (vz b - vz a) * k)%num;
  v3_length := fun a => nsqrt (vx a * vx a + vy a * vy a + vz a * vz a)%num;
  v3_normalize := fun a => a;
  v3_applyEuler := fun _ a => a;
  mu_clamp := fun x lo hi => clamp lo hi x;
  mu_lerp := fun x y t => ((num_of_Z 1 - t) * x + t * y)%num;
}.

#[export] Instance plain_three_ok : ThreeOk.
Proof.
  constructor; simpl.
  - intros x lo hi Hx Hlh. by apply clamp_bounds.
  - intros x lo hi Hx. destruct x; try done. unfold clamp. simpl.
    by destruct hi, lo.
Qed.

(** ** Movement *)

Definition within_map (x : num) : Prop :=
  isNaN x = true \/
  (nleb (- CLIENT.mapHalf)%num x = true /\ nleb x CLIENT.mapHalf = true).

Section Movement.
Context `{JsMath} `{ThreeOk}.

Lemma clamp_within x : within_map (mu_clamp x (- CLIENT.mapHalf)%num CLIENT.mapHalf).
Proof.
  unfold within_map. destruct (isNaN x) eqn:E.
  - left. by apply mu_clamp_nan.
  - right. apply mu_clamp_bounds; [done|vm_compute; reflexivity].
Qed.

Lemma updateLook_motion dateNow dt p : p_motion (updateLook dateNow dt p) = p_motion p.
Proof. unfold updateLook. destruct (p_isBot p); simpl; by destruct (nltb _ _). Qed.

(** C30: A frame always completes for a living local player, and leaves it
    on the map, within [mapHalf] of the centre along both axes (or at NaN), and
    not below the ground; if it is not above the ground it stands at exactly
    the ground's height with no vertical velocity. *)
Theorem local_player_on_map fuel seed dateNow dt yaw p :
  p_dead p = false -> p_isRemote p = false -> p_isBot p = false ->
  exists p' yaw', update fuel seed dateNow dt yaw p = Some (p', yaw') /\
    let m := p_motion p' in
    let ground := terrainHeight seed (vx (m_pos m)) (vz (m_pos m)) in
    within_map (vx (m_pos m)) /\ within_map (vz (m_pos m)) /\
    (nleb (vy (m_pos m)) ground = false \/
     (vy (m_pos m) = ground /\ m_onGround m = true /\ vy (m_vel m) = num_of_Z 0)).
Proof.
  intros Hd Hr Hb. unfold update. rewrite Hd. cbn [p_isRemote p_isBot set_motion p_motion].
  rewrite Hr, Hb. destruct (updateLocal _ _ _ _) as [m' yaw'] eqn:E.
  eexists _, yaw'. split; [reflexivity|]. rewrite updateLook_motion. cbn [p_motion set_motion].
  unfold updateLocal in E. unfold groundHeightWithObstacles in E.
  destruct (nleb (vy _) (terrainHeight _ _ _)) eqn:Ey; simplify_eq; cbn [m_pos vx vy vz m_onGround m_vel].
  - split; [apply clamp_within|]. split; [apply clamp_within|]. by right.
  - split; [apply clamp_within|]. split; [apply clamp_within|]. by left.
Qed.

(** The target of a remote player is on the map too. *)
Lemma setRemoteTarget_within pos rotY vel crouch p :
  within_map (vx (tg_pos (p_target (setRemoteTarget pos rotY vel crouch p)))) /\
  within_map (vz (tg_pos (p_target (setRemoteTarget pos rotY vel crouch p)))).
Proof. split; apply clamp_within. Qed.

(** ** Throwing *)

(** The outcomes of a series of attempts to throw, at the given times. *)
Fixpoint throws (p : PlayerModel) (attempts : list (jsstr * num * num)) : list num :=
  match attempts with
  | [] => []
  | (shotId, now, pitch) :: rest =>
      match throwSnowball shotId now pitch p with
      | Some (p', _, _) => now :: throws p' rest
      | None => throws p rest
      end
  end.

(** Each throw is at least a cooldown after the one before. *)
Fixpoint cooled (last : num) (ts : list num) : Prop :=
  match ts with
  | [] => True
  | t :: ts' => nltb (t - last)%num CLIENT.snowballCooldown = false /\ cooled t ts'
  end.

(** However often the player clicks, no two throws are closer than
    the cooldown, and a dead player throws nothing; every throw launches a
    snowball that is active, carries the player's id and the id announced to
    the server. *)
Theorem throw_cooldown p attempts :
  cooled (p_lastShotAt p) (throws p attempts) /\
  (p_dead p = true -> throws p attempts = []) /\
  (forall shotId now pitch p' b dir, throwSnowball shotId now pitch p = Some (p', b, dir) ->
     sb_active b = true /\ sb_ownerId b = p_id p /\ sb_id b = shotId /\ p_lastShotAt p' = now).
Proof.
  split; [|split].
  - revert p. induction attempts as [|[[shotId now] pitch] rest IH]; intros p; simpl; [done|].
    unfold throwSnowball. destruct (p_dead p); [apply IH|].
    destruct (nltb (now - p_lastShotAt p)%num CLIENT.snowballCooldown) eqn:E; [apply IH|].
    split; [exact E|]. apply (IH (set_pose _ (set_shot now p))).
  - intros Hd. induction attempts as [|[[shotId now] pitch] rest IH]; simpl; [done|].
    unfold throwSnowball. by rewrite Hd.
  - intros shotId now pitch p' b dir. unfold throwSnowball. destruct (p_dead p); [done|].
    destruct (nltb _ _); [done|]. intros [= <- <- <-]. done.
Qed.

(** One frame of a flying snowball: it ends exactly when it is at or
    below the ground or touches an obstacle's box widened by its radius, at its
    new position; a snowball that has ended never moves again. *)
Theorem updateSnowball_spec seed obstacles dt b :
  let b' := updateSnowball seed obstacles dt b in
  sb_id b' = sb_id b /\
  (sb_active b = false -> b' = b) /\
  (sb_active b = true ->
   (sb_active b' = false <->
    nleb (vy (sb_pos b')) (terrainHeight seed (vx (sb_pos b')) (vz (sb_pos b'))) = true \/
    exists box, box ∈ obstacles /\ hitsBox (sb_pos b') box = true)).
Proof.
  cbv zeta. unfold updateSnowball. destruct (sb_active b) eqn:Ea; simpl; [|done].
  split; [done|]. split; [done|]. intros _.
  set (pos := v3_add _ _).
  assert (Ho : hitsObstacle pos obstacles = true <-> exists box, box ∈ obstacles /\ hitsBox pos box = true).
  { clear. induction obstacles as [|box boxes IH]; simpl.
    - split; [done|]. intros (box & []%elem_of_nil & _).
    - destruct (hitsBox pos box) eqn:E.
      + split; [|done]. intros _. exists box. split; [left|done].
      + rewrite IH. split; intros (box' & Hin & Hb).
        * exists box'. split; [by right|done].
        * apply elem_of_cons in Hin as [->|Hin]; [congruence|eauto]. }
  destruct (nleb (vy pos) _) eqn:Eg; simpl; [naive_solver|].
  rewrite <- Ho. destruct (hitsObstacle pos obstacles); naive_solver.
Qed.

End Movement.

(** ** The tables of players *)

(** Every entry of [playersById] refers to a model with that id that is listed
    in [players]; [players] lists each model once; the local player is a model
    that is not remote and carries the id the server assigned. *)
Definition tables_ok (c : ClientState) : Prop :=
  JMap.wf (playersById c) /\ NoDup (players c) /\
  Forall (fun a => (a < length (models c))%nat) (players c) /\
  (forall k a, JMap.get k (playersById c) = Some a ->
     a ∈ players c /\ exists m, models c !! a = Some m /\ p_id m = k) /\
  (forall a, localPlayer c = Some a ->
     exists m, models c !! a = Some m /\ p_isRemote m = false /\ localPlayerId c = Some (p_id m)).

(** States with the same tables. *)
Definition same_tables (c c' : ClientState) : Prop :=
  models c' = models c /\ players c' = players c /\ playersById c' = playersById c /\
  localPlayer c' = localPlayer c /\ localPlayerId c' = localPlayerId c.

Lemma tables_ok_same c c' : same_tables c c' -> tables_ok c -> tables_ok c'.
Proof. intros (E1 & E2 & E3 & E4 & E5). unfold tables_ok. by rewrite E1, E2, E3, E4, E5. Qed.

(** Updates that keep who a model is. *)
Definition keeps_identity (f : PlayerModel -> PlayerModel) : Prop :=
  forall m, p_id (f m) = p_id m /\ p_isRemote (f m) = p_isRemote m.

Lemma tables_ok_upd_at a f c :
  (forall m, models c !! a = Some m -> p_id (f m) = p_id m /\ p_isRemote (f m) = p_isRemote m) ->
  tables_ok c -> tables_ok (upd_model a f c).
Proof.
  intros Hf (Hwf & Hnd & Hlt & Hid & Hloc). unfold tables_ok. simpl.
  assert (Hlook : forall b m, models c !! b = Some m ->
    exists m', alter f a (models c) !! b = Some m' /\ p_id m' = p_id m /\ p_isRemote m' = p_isRemote m).
  { intros b m Hm. destruct (decide (a = b)) as [->|Hne].
    - rewrite list_lookup_alter_eq, Hm. exists (f m). by destruct (Hf m Hm).
    - rewrite list_lookup_alter_ne by done. by exists m. }
  split; [done|]. split; [done|]. split; [by rewrite length_alter|]. split.
  - intros k b Hb. destruct (Hid k b Hb) as (Hin & m & Hm & Hk). split; [done|].
    destruct (Hlook b m Hm) as (m' & Hm' & Hi & _). exists m'. by rewrite Hi.
  - intros b Hb. destruct (Hloc b Hb) as (m & Hm & Hr & Hl).
    destruct (Hlook b m Hm) as (m' & Hm' & Hi & Hr'). exists m'. by rewrite Hi, Hr'.
Qed.

Lemma tables_ok_upd a f c : keeps_identity f -> tables_ok c -> tables_ok (upd_model a f c).
Proof. intros Hf. apply tables_ok_upd_at. intros m _. apply Hf. Qed.

Lemma remove_first_subset a l : remove_first a l ⊆ l.
Proof.
  induction l as [|x l IH]; simpl; [done|]. destruct (x =? a)%nat; [set_solver|]. set_solver.
Qed.

Lemma NoDup_remove_first a l : NoDup l -> NoDup (remove_first a l).
Proof.
  induction 1 as [|x l Hx Hl IH]; simpl; [constructor|]. destruct (x =? a)%nat; [done|].
  constructor; [|done]. intros Hin. by apply Hx, (remove_first_subset a).
Qed.

Lemma remove_first_other a b l : b <> a -> b ∈ l -> b ∈ remove_first a l.
Proof.
  intros Hne. induction l as [|x l IH]; simpl; [by intros []%elem_of_nil|].
  intros [->|Hin]%elem_of_cons.
  - rewrite (proj2 (Nat.eqb_neq x a) Hne). left.
  - destruct (x =? a)%nat; [done|]. right. auto.
Qed.

Lemma tables_ok_remove id c :
  tables_ok c -> tables_ok (removePlayer id c).
Proof.
  intros (Hwf & Hnd & Hlt & Hid & Hloc). unfold removePlayer.
  destruct (JMap.get id (playersById c)) as [a|] eqn:E; [|done].
  destruct (Hid id a E) as (_ & ma & Hma & Hka).
  unfold tables_ok. simpl. split; [auto with snow|]. split; [by apply NoDup_remove_first|].
  split; [|split; [|done]].
  - apply Forall_forall. intros b Hb%remove_first_subset. rewrite Forall_forall in Hlt. auto.
  - intros k b. rewrite JMap.get_delete. case_decide; [done|]. intros Hb.
    destruct (Hid k b Hb) as (Hin & m & Hm & Hk). split; [|eauto].
    apply remove_first_other; [|done]. intros ->. rewrite Hma in Hm. simplify_eq.
Qed.

Lemma tables_ok_add m c :
  tables_ok c -> tables_ok (snd (add_player m c)) /\
  models (snd (add_player m c)) !! fst (add_player m c) = Some m.
Proof.
  intros (Hwf & Hnd & Hlt & Hid & Hloc). simpl.
  assert (Hold : forall b x, models c !! b = Some x -> (models c ++ [m]) !! b = Some x)
    by (intros; by apply lookup_app_l_Some).
  assert (Hnew : (models c ++ [m]) !! length (models c) = Some m)
    by (rewrite lookup_app_r, Nat.sub_diag by lia; done).
  split; [|done]. unfold tables_ok. simpl. split; [auto with snow|]. split; [|split; [|split]].
  - apply NoDup_app. split; [done|]. split; [|apply NoDup_singleton].
    intros b Hb ->%list_elem_of_singleton. rewrite Forall_forall in Hlt. specialize (Hlt _ Hb). lia.
  - rewrite length_app. simpl. apply Forall_app. split; [|repeat constructor; lia].
    eapply Forall_impl; [exact Hlt|]. simpl. lia.
  - intros k b. rewrite JMap.get_set. case_decide as Ek.
    + intros [= <-]. split; [apply elem_of_app; right; left|]. exists m. subst. done.
    + intros Hb. destruct (Hid k b Hb) as (Hin & x & Hx & Hk).
      split; [apply elem_of_app; by left|]. exists x. auto.
  - intros b Hb. destruct (Hloc b Hb) as (x & Hx & Hr & Hl). exists x. auto.
Qed.

Section Tables.
Context `{JsMath} `{Three} (toStr : jsval -> jsstr) (round : num -> num).

Lemma add_player_frame m c :
  localPlayer (snd (add_player m c)) = localPlayer c /\
  localPlayerId (snd (add_player m c)) = localPlayerId c.
Proof. done. Qed.

Lemma tables_ok_createLocal snap c :
  localPlayerId c = Some (ps_id snap) -> tables_ok c -> tables_ok (createLocalPlayer snap c).
Proof.
  intros Hme Hc. unfold createLocalPlayer.
  set (m := set_hp _ _ _ _). destruct (tables_ok_add m c Hc) as [Hok Hm].
  pose proof (add_player_frame m c) as [_ El].
  destruct (add_player m c) as [a c1]. cbn [fst snd] in *.
  destruct Hok as (Hwf & Hnd & Hlt & Hid & _). unfold tables_ok. simpl.
  do 4 (split; [done|]). intros b [= <-]. exists m. split; [done|]. split; [done|].
  by rewrite El, Hme.
Qed.

Lemma tables_ok_get_or_create id pos name c :
  tables_ok c -> tables_ok (snd (get_or_create id pos name c)).
Proof.
  intros Hc. unfold get_or_create. destruct (JMap.get id (playersById c)); [done|].
  by apply tables_ok_add.
Qed.

Lemma identity_target pos rotY vel crouch : keeps_identity (setRemoteTarget pos rotY vel crouch).
Proof. done. Qed.
Lemma identity_name name : keeps_identity (updateNameLabel name).
Proof. intros m. unfold updateNameLabel. by destruct (same_name _ _). Qed.
Lemma identity_ping ms : keeps_identity (updatePing ms).
Proof. done. Qed.

Create HintDb client.
#[local] Hint Resolve tables_ok_upd tables_ok_remove identity_target identity_name identity_ping : client.
#[local] Hint Extern 1 (keeps_identity _) => intros ?; done : client.

Lemma tables_ok_ping ping a c : tables_ok c -> tables_ok (snapshotPing ping a c).
Proof. intros Hc. unfold snapshotPing. destruct ping; eauto with client. Qed.

Lemma tables_ok_hp snap c : tables_ok c -> tables_ok (snapshotHp snap c).
Proof.
  intros Hc. unfold snapshotHp. destruct (localPlayer c) as [a|]; [|done].
  destruct (the_model a c); [|done]. destruct (_ <=? _); [|done].
  eapply tables_ok_same; [|apply tables_ok_upd; [|exact Hc]]; [by repeat split|by intros m].
Qed.

Lemma is_local_true id c : is_local id c = true -> localPlayerId c = Some id.
Proof.
  unfold is_local. destruct (localPlayerId c); [|done]. unfold str_eqb.
  intros ->%bool_decide_eq_true. done.
Qed.

Lemma tables_ok_applySnap snap c : tables_ok c -> tables_ok (applySnap snap c).
Proof.
  intros Hc. unfold applySnap. destruct (ps_id snap) as [|u us] eqn:Eid; [done|]. rewrite <- Eid.
  destruct (is_local (ps_id snap) c) eqn:El.
  - apply is_local_true in El. set (c1 := match localPlayer c with Some _ => c | None => _ end).
    assert (Hc1 : tables_ok c1)
      by (subst c1; destruct (localPlayer c); [done|by apply tables_ok_createLocal]).
    pose proof (tables_ok_hp snap c1 Hc1) as Hc2.
    destruct (localPlayer (snapshotHp snap c1)); [by apply tables_ok_ping|done].
  - pose proof (tables_ok_get_or_create (ps_id snap) (ps_pos snap) (ps_name snap) c Hc) as Hc1.
    destruct (get_or_create _ _ _ _) as [a c1]. simpl in Hc1.
    apply tables_ok_ping. eauto with client.
Qed.

Lemma tables_ok_foldl {A} (f : ClientState -> A -> ClientState) l c :
  (forall c x, tables_ok c -> tables_ok (f c x)) -> tables_ok c -> tables_ok (foldl f c l).
Proof. intros Hf. revert c. induction l as [|x l IH]; intros c Hc; simpl; auto. Qed.

Lemma tables_ok_applySnapshot l c : tables_ok c -> tables_ok (applySnapshot l c).
Proof.
  intros Hc. unfold applySnapshot. apply tables_ok_foldl.
  - intros c' id Hc'. destruct (_ && _); eauto with client.
  - apply tables_ok_foldl; [|done]. intros. by apply tables_ok_applySnap.
Qed.

Lemma tables_ok_with_player id f c :
  (forall a c, tables_ok c -> tables_ok (f a c)) -> tables_ok c -> tables_ok (with_player id f c).
Proof. intros Hf Hc. unfold with_player. destruct (JMap.get _ _); auto. Qed.

(** A state that differs from a good one outside the tables. *)
Ltac same_tables_as H := eapply tables_ok_same; [|exact H]; by repeat split.

Lemma tables_ok_onJoin player c : tables_ok c -> tables_ok (onJoin player c).
Proof.
  intros Hc. unfold onJoin. destruct (localPlayerId c) as [[|u us]|] eqn:El; try done.
  unfold str_eqb. case_bool_decide as Eid.
  - destruct (localPlayer c); [done|]. apply tables_ok_createLocal; [by rewrite El, Eid|done].
  - destruct (JMap.has _ _); [done|]. by apply tables_ok_add.
Qed.

Lemma tables_ok_onHit dateNow at_ vid imp hp c :
  tables_ok c -> tables_ok (onHitEvent dateNow at_ vid imp hp c).
Proof.
  intros Hc. unfold onHitEvent.
  assert (H1 : tables_ok (with_player vid (fun a => upd_model a onHit) c)).
  { apply tables_ok_with_player; [|done]. intros a c' Hc'. apply tables_ok_upd; [by intros m|done]. }
  set (c1 := with_player _ _ _) in *. destruct (localPlayer c1) as [a|]; [|done].
  destruct (is_local vid c1); [|done].
  assert (H2 : tables_ok (showHp hp (upd_model a (fun m => set_hp (p_dead m) hp
    (Some (if at_ =? 0 then dateNow else at_)) (applyKnockback imp m)) c1))).
  { eapply tables_ok_same; [|apply tables_ok_upd; [|exact H1]]; [by repeat split|by intros m]. }
  destruct (hp <=? 0); [|exact H2].
  eapply tables_ok_same; [|apply tables_ok_upd; [|exact H2]]; [by repeat split|by intros m].
Qed.

Lemma tables_ok_log line c : tables_ok c -> tables_ok (log_chat line c).
Proof. intros Hc. same_tables_as Hc. Qed.

Lemma tables_ok_applyEvent dateNow ev c : tables_ok c -> tables_ok (applyEvent toStr dateNow ev c).
Proof.
  intros Hc. unfold applyEvent. destruct (ev_body ev).
  - by apply tables_ok_onJoin.
  - by apply tables_ok_remove.
  - destruct (JMap.get _ _); apply tables_ok_log; [|done]. apply tables_ok_upd; [by intros m|done].
  - apply tables_ok_with_player; [|done]. intros a c' Hc'. destruct (is_local _ _); [done|].
    by apply tables_ok_upd.
  - destruct (JMap.has _ _); [done|]. same_tables_as Hc.
  - by apply tables_ok_onHit.
  - apply tables_ok_with_player; [|done]. intros a c' Hc'. apply tables_ok_upd; [apply identity_name|done].
  - apply tables_ok_log, tables_ok_with_player; [|done]. intros a c' Hc'.
    assert (H1 : tables_ok (upd_model a (fun m => set_hp true (p_health m) (p_lastHpAt m) m) c'))
      by (apply tables_ok_upd; [by intros m|done]).
    cbv beta zeta. destruct (model_local _ _); [same_tables_as H1|exact H1].
  - apply tables_ok_with_player; [|done]. intros a c' Hc'. cbv beta zeta.
    set (f := fun m => set_visible _ _).
    assert (H1 : tables_ok (upd_model a f c')) by (apply tables_ok_upd; [by intros m|done]).
    destruct (model_local _ _); [same_tables_as H1|exact H1].
Qed.

Lemma tables_ok_applyState s c : tables_ok c -> tables_ok (applyState s c).
Proof.
  intros Hc. unfold applyState. destruct (pd_id s) as [|u us] eqn:E; [done|]. rewrite <- E.
  destruct (is_local _ _); [done|].
  pose proof (tables_ok_get_or_create (pd_id s) (pd_pos s) (JStr (js "Player")) c Hc) as Hc1.
  destruct (get_or_create _ _ _ _) as [a c1]. by apply tables_ok_upd.
Qed.

Lemma tables_ok_welcome id seed c : tables_ok c -> tables_ok (onWelcome id seed c).
Proof.
  intros Hc. unfold onWelcome. set (c1 := match localPlayer c with Some _ => _ | None => c end).
  assert (Hc1 : tables_ok (set_environmentReady true (set_worldSeed (num_of_Z seed)
    (set_localPlayerId (Some id) c1)))).
  { subst c1. destruct (localPlayer c) as [a|] eqn:El.
    - pose proof Hc as (Hwf & Hnd & Hlt & Hid & Hloc). destruct (Hloc a El) as (m & Hm & Hr & Hme).
      unfold the_model. rewrite Hm. unfold str_eqb. case_bool_decide as Eid.
      + unfold tables_ok. simpl. do 4 (split; [done|]). intros b Hb. rewrite El in Hb. simplify_eq.
        exists m. by subst.
      + destruct (tables_ok_remove (p_id m) c) as (W1 & W2 & W3 & W4 & _); [exact Hc|].
        unfold tables_ok. simpl. do 4 (split; [done|]). done.
    - destruct Hc as (Hwf & Hnd & Hlt & Hid & _). unfold tables_ok. simpl.
      do 4 (split; [done|]). intros b Hb. congruence. }
  set (c2 := set_environmentReady _ _) in *. destruct (n_pendingSnapshot (net c2)) as [l|]; [|done].
  eapply tables_ok_same; [|by apply tables_ok_applySnapshot]. by repeat split.
Qed.

Lemma tables_ok_step c e : tables_ok c -> tables_ok (client_step toStr round c e).
Proof.
  intros Hc. destruct e as [name|i now dn|i| |now dn|j|now dn msg|text|now]; simpl.
  1-4,6,8: same_tables_as Hc.
  - destruct (n_pingTimer (net c)); [same_tables_as Hc|done].
  - destruct msg as [id w n seed|w ps seq|ev|at_ l|n|m]; simpl.
    + by apply tables_ok_welcome.
    + destruct (localPlayerId c) as [[|]|]; [same_tables_as Hc|by apply tables_ok_applySnapshot|same_tables_as Hc].
    + by apply tables_ok_applyEvent.
    + apply tables_ok_foldl; [|done]. intros. by apply tables_ok_applyState.
    + destruct (num_truthy _); [same_tables_as Hc|done].
    + same_tables_as Hc.
  - unfold maybeSendLocalState. destruct (localPlayer c) as [a|]; [|done].
    destruct (the_model a c); [|done]. destruct (negb _); [done|]. destruct (nltb _ _); [done|].
    same_tables_as Hc.
Qed.

(** Whatever arrives and in whatever order, through any number of
    reconnections, the client's tables stay consistent: ids are unique, every
    entry of [playersById] is a model with that id that [players] lists, no
    model is listed twice, and the local player is the model of the id the
    server assigned. *)
Theorem client_tables_ok es : tables_ok (client_run toStr round es).
Proof.
  unfold client_run. apply tables_ok_foldl; [intros; by apply tables_ok_step|].
  unfold tables_ok. simpl. split; [apply JMap.wf_nil|]. split; [constructor|]. done.
Qed.

(** ** Snapshots *)

(** What the steps of a snapshot leave alone. *)
Lemma snapshotHp_frame snap c :
  localPlayerId (snapshotHp snap c) = localPlayerId c /\ playersById (snapshotHp snap c) = playersById c.
Proof.
  unfold snapshotHp. destruct (localPlayer c) as [a|]; [|done].
  destruct (the_model a c); [|done]. by destruct (_ <=? _).
Qed.

Lemma snapshotPing_frame ping a c :
  localPlayerId (snapshotPing ping a c) = localPlayerId c /\
  playersById (snapshotPing ping a c) = playersById c.
Proof. unfold snapshotPing. by destruct ping. Qed.

Lemma get_or_create_frame id pos name c :
  localPlayerId (snd (get_or_create id pos name c)) = localPlayerId c /\
  forall k, JMap.has k (playersById (snd (get_or_create id pos name c))) =
    JMap.has k (playersById c) || str_eqb k id.
Proof.
  unfold get_or_create. destruct (JMap.get id (playersById c)) as [a|] eqn:E; simpl.
  - split; [done|]. intros k. unfold JMap.has, str_eqb. case_bool_decide; [subst; by rewrite E|].
    by rewrite orb_false_r.
  - split; [done|]. intros k. unfold JMap.has. rewrite JMap.get_set. unfold str_eqb.
    case_decide; [subst; rewrite bool_decide_eq_true_2 by done; by rewrite orb_true_r|].
    rewrite bool_decide_eq_false_2 by done. by rewrite orb_false_r.
Qed.

Lemma applySnap_frame me snap c k :
  localPlayerId c = Some me -> k <> me ->
  localPlayerId (applySnap snap c) = Some me /\
  JMap.has k (playersById (applySnap snap c)) =
    JMap.has k (playersById c) || existsb (str_eqb k) (snap_ids [snap]).
Proof.
  intros Hme Hk. unfold applySnap, snap_ids. simpl.
  destruct (ps_id snap) as [|u us] eqn:Eid; simpl; [by rewrite orb_false_r|]. rewrite <- Eid, orb_false_r.
  destruct (is_local (ps_id snap) c) eqn:El.
  - unfold is_local in El. rewrite Hme in El. unfold str_eqb in El. apply bool_decide_eq_true in El.
    unfold str_eqb. rewrite El, bool_decide_eq_false_2, orb_false_r by done.
    set (c1 := match localPlayer c with Some _ => c | None => createLocalPlayer snap c end).
    assert (Hc1 : localPlayerId c1 = Some me /\ JMap.has k (playersById c1) = JMap.has k (playersById c)).
    { subst c1. destruct (localPlayer c); [done|]. simpl. split; [done|].
      unfold JMap.has. rewrite El. by rewrite JMap.get_set_ne. }
    pose proof (snapshotHp_frame snap c1) as [F1 F2].
    destruct (localPlayer (snapshotHp snap c1)) as [a|].
    + destruct (snapshotPing_frame (ps_pingMs snap) a (snapshotHp snap c1)) as [G1 G2].
      rewrite G1, G2, F1, F2. exact Hc1.
    + rewrite F1, F2. exact Hc1.
  - destruct (get_or_create_frame (ps_id snap) (ps_pos snap) (ps_name snap) c) as [F1 F2].
    destruct (get_or_create _ _ _ _) as [a c1]. simpl in F1, F2.
    match goal with |- context [snapshotPing ?p ?b ?x] => destruct (snapshotPing_frame p b x) as [-> ->] end.
    simpl. rewrite F1, F2. done.
Qed.

Lemma snap_ids_cons snap l : snap_ids (snap :: l) = snap_ids [snap] ++ snap_ids l.
Proof. unfold snap_ids. simpl. by destruct (ps_id snap). Qed.

Lemma applySnaps_frame me l c k :
  localPlayerId c = Some me -> k <> me ->
  localPlayerId (foldl (fun c snap => applySnap snap c) c l) = Some me /\
  JMap.has k (playersById (foldl (fun c snap => applySnap snap c) c l)) =
    JMap.has k (playersById c) || existsb (str_eqb k) (snap_ids l).
Proof.
  intros Hme Hk. revert c Hme. induction l as [|snap l IH]; intros c Hme; simpl; [by rewrite orb_false_r|].
  destruct (applySnap_frame me snap c k Hme Hk) as [H1 H2]. destruct (IH _ H1) as [H3 H4].
  split; [done|]. rewrite H4, H2, (snap_ids_cons snap l), existsb_app, orb_assoc. done.
Qed.

(** The sweep over the table. *)
Lemma removePlayer_has id c k :
  JMap.has k (playersById (removePlayer id c)) = JMap.has k (playersById c) && negb (str_eqb k id).
Proof.
  unfold removePlayer, str_eqb, JMap.has. destruct (JMap.get id (playersById c)) as [a|] eqn:E; simpl.
  - rewrite JMap.get_delete. case_decide; [subst; rewrite bool_decide_eq_true_2 by done; by rewrite andb_false_r|].
    rewrite bool_decide_eq_false_2 by done. by rewrite andb_true_r.
  - case_bool_decide; [subst; by rewrite E|]. by rewrite andb_true_r.
Qed.

Lemma removePlayer_me id c : localPlayerId (removePlayer id c) = localPlayerId c.
Proof. unfold removePlayer. by destruct (JMap.get _ _). Qed.

Lemma sweep_players me ids ks c k :
  localPlayerId c = Some me -> k <> me ->
  JMap.has k (playersById (foldl (fun c id =>
    if negb (is_local id c) && negb (existsb (str_eqb id) ids) then removePlayer id c else c) c ks)) =
  JMap.has k (playersById c) && (existsb (str_eqb k) ids || negb (existsb (str_eqb k) ks)).
Proof.
  intros Hme Hk. revert c Hme. induction ks as [|id ks IH]; intros c Hme; simpl.
  { by rewrite orb_true_r, andb_true_r. }
  match goal with |- context [foldl _ ?x ks] => set (c1 := x) end.
  assert (Hme1 : localPlayerId c1 = Some me) by (subst c1; destruct (_ && _); [by rewrite removePlayer_me|done]).
  rewrite (IH c1 Hme1).
  assert (Hhas : JMap.has k (playersById c1) =
    JMap.has k (playersById c) && (existsb (str_eqb k) ids || negb (str_eqb k id))).
  { subst c1. unfold is_local. rewrite Hme. destruct (str_eqb id me) eqn:Ei; simpl.
    - unfold str_eqb in *. apply bool_decide_eq_true in Ei. subst.
      by rewrite (bool_decide_eq_false_2 (k = me)), orb_true_r, andb_true_r.
    - destruct (str_eqb k id) eqn:Ek.
      + unfold str_eqb in Ek. apply bool_decide_eq_true in Ek. subst.
        destruct (existsb (str_eqb id) ids); simpl; [by rewrite andb_true_r|].
        rewrite removePlayer_has. unfold str_eqb. by rewrite bool_decide_eq_true_2.
      + destruct (negb (existsb (str_eqb id) ids)); rewrite ?removePlayer_has, ?Ek; simpl;
          rewrite ?orb_true_r, ?andb_true_r; done. }
  rewrite Hhas. destruct (JMap.has k (playersById c)), (existsb (str_eqb k) ids), (str_eqb k id); done.
Qed.

Lemma has_keys {V} (k : jsstr) (m : JMap.jsmap jsstr V) :
  existsb (str_eqb k) (JMap.keys m) = JMap.has k m.
Proof.
  unfold JMap.has. induction m as [|[k' v] m IH]; simpl; [done|]. unfold str_eqb at 1.
  case_bool_decide; case_decide; done || by subst.
Qed.


(** The hit points shown for the local player are those of the newest
    information: a snapshot entry older than the last hit (or snapshot) applied
    changes neither them nor their time stamp, and a newer one sets both. *)
Theorem stale_snapshot_ignored snap c a m :
  localPlayer c = Some a -> models c !! a = Some m -> localPlayerId c = Some (ps_id snap) ->
  ps_id snap <> [] ->
  exists m', models (applySnap snap c) !! a = Some m' /\
    if default 0 (p_lastHpAt m) <=? ps_updatedAt snap
    then p_health m' = ps_hp snap /\ p_lastHpAt m' = Some (ps_updatedAt snap)
    else p_health m' = p_health m /\ p_lastHpAt m' = p_lastHpAt m.
Proof.
  intros Hl Hm Hme Hne. unfold applySnap. destruct (ps_id snap) as [|u us] eqn:Eid; [done|].
  rewrite <- Eid in *. unfold is_local. rewrite Hme. unfold str_eqb. rewrite bool_decide_eq_true_2 by done.
  rewrite Hl. unfold snapshotHp, the_model. rewrite Hl, Hm.
  destruct (default 0 (p_lastHpAt m) <=? ps_updatedAt snap); simpl; rewrite Hl;
    unfold snapshotPing; destruct (ps_pingMs snap) as [ms|]; simpl;
    rewrite ?list_lookup_alter_eq, Hm; simpl; eauto.
Qed.

End Tables.

(** ** Reconnecting *)

Section Reconnect.
Context `{JsMath} `{Three} (toStr : jsval -> jsstr) (round : num -> num).

(** The tables of players are maintained without touching the connection, the
    world's seed or the snowballs. *)
Definition outside (c : ClientState) :
    Net * num * bool * (list Snowball * list nat * JMap.jsmap jsstr nat) :=
  (net c, worldSeed c, environmentReady c, (balls c, snowballs c, snowballsById c)).

Lemma outside_eq c c' : outside c = outside c' ->
  net c = net c' /\ worldSeed c = worldSeed c' /\ environmentReady c = environmentReady c' /\
  balls c = balls c' /\ snowballs c = snowballs c' /\ snowballsById c = snowballsById c'.
Proof. intros E. injection E as E1 E2 E3 E4 E5 E6. auto 7. Qed.

Lemma out_remove id c : outside (removePlayer id c) = outside c.
Proof. unfold removePlayer. by destruct (JMap.get _ _). Qed.
Lemma out_ping ping a c : outside (snapshotPing ping a c) = outside c.
Proof. by destruct ping. Qed.
Lemma out_hp snap c : outside (snapshotHp snap c) = outside c.
Proof.
  unfold snapshotHp. destruct (localPlayer c); [|done]. destruct (the_model _ _); [|done].
  by destruct (_ <=? _).
Qed.
Lemma out_get_or_create id pos name c : outside (snd (get_or_create id pos name c)) = outside c.
Proof. unfold get_or_create. by destruct (JMap.get _ _). Qed.

Lemma out_applySnap snap c : outside (applySnap snap c) = outside c.
Proof.
  unfold applySnap. destruct (ps_id snap); [done|]. destruct (is_local _ _).
  - set (c1 := match localPlayer c with Some _ => c | None => createLocalPlayer snap c end).
    assert (E : outside c1 = outside c) by (subst c1; by destruct (localPlayer c)).
    destruct (localPlayer (snapshotHp snap c1)); rewrite ?out_ping, out_hp; exact E.
  - pose proof (out_get_or_create (z :: j) (ps_pos snap) (ps_name snap) c) as E.
    destruct (get_or_create _ _ _ _) as [a c1]. rewrite out_ping. exact E.
Qed.

Lemma out_foldl {A} (f : ClientState -> A -> ClientState) l c :
  (forall c x, outside (f c x) = outside c) -> outside (foldl f c l) = outside c.
Proof. intros Hf. revert c. induction l as [|x l IH]; intros c; simpl; [done|]. by rewrite IH, Hf. Qed.

Lemma out_applySnapshot l c : outside (applySnapshot l c) = outside c.
Proof.
  unfold applySnapshot. rewrite out_foldl.
  - apply out_foldl. intros. apply out_applySnap.
  - intros c' id. destruct (_ && _); [apply out_remove|done].
Qed.

Lemma out_applyState s c : outside (applyState s c) = outside c.
Proof.
  unfold applyState. destruct (pd_id s) as [|u us]; [done|]. destruct (is_local _ _); [done|].
  pose proof (out_get_or_create (u :: us) (pd_pos s) (JStr (js "Player")) c) as E.
  by destruct (get_or_create _ _ _ _).
Qed.

Lemma out_with_player id f c : (forall a c, outside (f a c) = outside c) -> outside (with_player id f c) = outside c.
Proof. intros Hf. unfold with_player. by destruct (JMap.get _ _). Qed.

Lemma out_onHit dn at_ vid imp hp c : outside (onHitEvent dn at_ vid imp hp c) = outside c.
Proof.
  unfold onHitEvent. set (c1 := with_player _ _ _).
  assert (E : outside c1 = outside c) by (by apply out_with_player). rewrite <- E.
  destruct (localPlayer c1); [|done]. destruct (is_local _ _); [|done]. by destruct (hp <=? 0).
Qed.

Definition is_snowball (ev : WorldEvent Vec3) : bool :=
  match ev_body ev with EvSnowball _ _ _ _ _ => true | _ => false end.

Lemma out_applyEvent dn ev c : is_snowball ev = false -> outside (applyEvent toStr dn ev c) = outside c.
Proof.
  unfold is_snowball, applyEvent. intros Hs. destruct (ev_body ev); try done.
  - unfold onJoin. destruct (localPlayerId c) as [[|]|]; try done. destruct (str_eqb _ _).
    + by destruct (localPlayer c).
    + by destruct (JMap.has _ _).
  - apply out_remove.
  - by destruct (JMap.get _ _).
  - apply out_with_player. intros. by destruct (is_local _ _).
  - apply out_onHit.
  - by apply out_with_player.
  - unfold onDeath. simpl. apply out_with_player. intros. cbv zeta. by destruct (model_local _ _).
  - apply out_with_player. intros. cbv zeta. by destruct (model_local _ _).
Qed.

Lemma net_applyEvent dn ev c : net (applyEvent toStr dn ev c) = net c.
Proof.
  destruct (is_snowball ev) eqn:E; [|by destruct (outside_eq _ _ (out_applyEvent dn ev c E))].
  unfold is_snowball, applyEvent in *. destruct (ev_body ev); try done. by destruct (JMap.has _ _).
Qed.

Lemma net_applySnapshot l c : net (applySnapshot l c) = net c.
Proof. apply (outside_eq _ _ (out_applySnapshot l c)). Qed.

Lemma net_welcome id seed c :
  net (onWelcome id seed c) = net c \/ net (onWelcome id seed c) = with_pending None (net c).
Proof.
  unfold onWelcome. set (c1 := match localPlayer c with Some _ => _ | None => c end).
  assert (E : net c1 = net c).
  { subst c1. destruct (localPlayer c) as [a|]; [|done]. destruct (the_model a c); [|done].
    destruct (str_eqb _ _); [done|]. apply (outside_eq _ _ (out_remove _ _)). }
  rewrite <- E. simpl. destruct (n_pendingSnapshot (net c1)); [right|by left].
  unfold upd_net. simpl. by rewrite net_applySnapshot.
Qed.

Lemma seed_welcome id seed c : worldSeed (onWelcome id seed c) = num_of_Z seed.
Proof.
  unfold onWelcome. set (c1 := match localPlayer c with Some _ => _ | None => c end).
  simpl. destruct (n_pendingSnapshot (net c1)) as [l|]; [|done]. simpl.
  by destruct (outside_eq _ _ (out_applySnapshot l (set_environmentReady true (set_worldSeed (num_of_Z seed) (set_localPlayerId (Some id) c1))))) as (_ & -> & _).
Qed.

Definition is_connect (e : ClientEvent) : bool := match e with NetConnect _ => true | _ => false end.
Definition is_opened (e : ClientEvent) : bool := match e with NetOpen _ _ _ => true | _ => false end.

Definition connects (es : list ClientEvent) : Z := Z.of_nat (length (List.filter is_connect es)).

(** Sockets created and reconnections still owed. *)
Definition budget (n : Net) : Z :=
  Z.of_nat (length (n_sockets n)) + Z.of_nat (n_reconnects n) +
  (maxConnectAttempts - n_connectAttempts n).

Definition net_ok (n : Net) : Prop := 0 <= n_connectAttempts n <= maxConnectAttempts.

(** What one event does to the budget. *)
Lemma step_budget c e :
  is_opened e = false -> net_ok (net c) ->
  net_ok (net (client_step toStr round c e)) /\
  budget (net (client_step toStr round c e)) <= budget (net c) + (if is_connect e then 1 else 0).
Proof.
  unfold net_ok, budget, maxConnectAttempts. intros Ho Hn.
  destruct e as [name|i now dn|i| |now dn|j|now dn msg|text|now]; simpl; try done.
  - rewrite length_app. simpl. lia.
  - unfold onCloseWs, scheduleReconnect. cbn [n_connectAttempts with_sockets].
    destruct (n_connectAttempts (net c) >=? maxConnectAttempts) eqn:E; simpl;
      rewrite length_insert; unfold maxConnectAttempts in E; zbool; lia.
  - unfold reconnect. destruct (n_reconnects (net c)) as [|k] eqn:E; simpl; rewrite ?length_app; simpl; lia.
  - destruct (n_pingTimer (net c)); [|lia]. simpl. unfold pingTick. destruct (negb _); simpl; lia.
  - unfold encoded. destruct (n_outbox (net c) !! j) as [[to m]|]; simpl; lia.
  - destruct msg as [id w n seed|w ps seq|ev|at_ l|n|m]; simpl.
    + destruct (net_welcome id seed c) as [-> | ->]; simpl; lia.
    + destruct (localPlayerId c) as [[|]|]; simpl; rewrite ?net_applySnapshot; lia.
    + rewrite net_applyEvent. lia.
    + destruct (outside_eq _ _ (out_foldl _ l c (fun c s => out_applyState s c))) as [-> _]. lia.
    + destruct (num_truthy _); simpl; lia.
    + unfold maxConnectAttempts in *. lia.
  - unfold sendChat. destruct (is_open (net c)); simpl; lia.
  - unfold maybeSendLocalState. destruct (localPlayer c); [|lia]. destruct (the_model _ _); [|lia].
    destruct (negb _); [lia|]. destruct (nltb _ _); simpl; lia.
Qed.

(** C31: While no connection is ever established, the client creates at
    most three sockets beyond those it was asked for, whatever messages,
    closures and timers occur: it does not hammer a server that is down. *)
Theorem reconnect_bounded es :
  forallb (fun e => negb (is_opened e)) es = true ->
  Z.of_nat (length (n_sockets (net (client_run toStr round es)))) <= connects es + maxConnectAttempts.
Proof.
  intros Hes.
  assert (Hgen : forall c, net_ok (net c) ->
    net_ok (net (foldl (client_step toStr round) c es)) /\
    budget (net (foldl (client_step toStr round) c es)) <= budget (net c) + connects es).
  { revert Hes. induction es as [|e es IH]; intros Hes c Hc; simpl in *; [split; [done|unfold connects; simpl; lia]|].
    apply andb_true_iff in Hes as [He%negb_true_iff Hes].
    destruct (step_budget c e He Hc) as [H1 H2]. destruct (IH Hes _ H1) as [H3 H4]. split; [done|].
    unfold connects in *. simpl. destruct (is_connect e); simpl length; lia. }
  destruct (Hgen init_client) as [H1 H2]; [done|]. unfold client_run, net_ok, budget in *. simpl in *.
  unfold maxConnectAttempts in *. lia.
Qed.

End Reconnect.

(** ** Concrete instances *)

Definition sample_snap (id : jsstr) (hp at_ : Z) : PlayerSnapshot Vec3 :=
  mkSnap id (JStr (js "Ann")) vec_zero (num_of_Z 0) vec_zero hp false (Some 0) at_ None.

(** A client welcomed as "me" that knows itself and "old". *)
Definition sample_client : ClientState :=
  client_run (fun _ => []) (fun x => x)
    [NetMessage (num_of_Z 0) 0 (SWelcome (js "me") (js "global") 0 7);
     NetMessage (num_of_Z 0) 0 (SSnapshot (js "global")
       [sample_snap (js "me") 100 50; sample_snap (js "old") 100 50] 0)].


Lemma stale_snapshot_ignored_witness :
  exists m m', models sample_client !! 0%nat = Some m /\
    models (applySnap (sample_snap (js "me") 70 40) sample_client) !! 0%nat = Some m' /\
    p_health m' = p_health m.
Proof.
  destruct (models sample_client !! 0%nat) as [m|] eqn:E; [|vm_compute in E; discriminate E].
  assert (Hat : p_lastHpAt m = Some 50) by (vm_compute in E; injection E as <-; reflexivity).
  destruct (stale_snapshot_ignored (sample_snap (js "me") 70 40) sample_client 0%nat m
    ltac:(vm_compute; reflexivity) E ltac:(vm_compute; reflexivity) ltac:(discriminate))
    as (m' & Hm' & Hhp).
  rewrite Hat in Hhp. exists m, m'. split; [reflexivity|]. split; [exact Hm'|exact (proj1 Hhp)].
Defined.

Lemma reconnect_bounded_witness :
  let es := [NetConnect JNull; NetClose 0; NetReconnect; NetClose 1; NetReconnect; NetClose 2;
             NetReconnect; NetClose 3; NetReconnect] in
  Z.of_nat (length (n_sockets (net (client_run (fun _ => []) (fun x => x) es)))) <= connects es + 3.
Proof. intros es. apply (reconnect_bounded (fun _ => []) (fun x => x) es). reflexivity. Defined.

Lemma local_player_on_map_witness :
  exists p' yaw',
    update 10 (num_of_Z 7) (num_of_Z 0) (num_dec 1 1) (num_of_Z 0)
      (newPlayerModel (num_of_Z 7) (js "me") vec_zero (JStr (js "Ann")) false) = Some (p', yaw') /\
    within_map (vx (m_pos (p_motion p'))).
Proof.
  destruct (local_player_on_map 10 (num_of_Z 7) (num_of_Z 0) (num_dec 1 1) (num_of_Z 0)
    (newPlayerModel (num_of_Z 7) (js "me") vec_zero (JStr (js "Ann")) false) eq_refl eq_refl eq_refl)
    as (p' & yaw' & Hu & Hx & _).
  exists p', yaw'. split; [exact Hu|exact Hx].
Defined.
