(* ===== verification/Avatar.v ===== *)
(** * What is drawn of a player ([client_src/player.js])

    The scene graph of a player as a function of the state of its model: the
    boxes of the body with the limbs' pose and the colours of the moment, and
    the two sprites, which are drawings on a canvas.  The coordinates are those
    the constructor sets; shadows and textures are left out.  A bot has the
    snowman of a file, whose meshes glow while a hit flashes.  A standing
    player's boxes lie within the cylinder the server tests hits against, and
    the flash of a hit ends. *)

From Stdlib Require Import QArith Qabs Lqa.
From S2P Require Import Prelude JsNum Rounding JsString JsValue Json JsConv Config.
From S2P Require Import Protocol Concrete ClientUtils ClientPlayer ClientThms Build.
#[local] Open Scope Z_scope.

(** ** Sprites *)

Inductive Canvas :=
| FillStyle (s : jsstr)
| FillRect (x y w h : Z)
| StrokeStyle (s : jsstr)
| LineWidth (w : Z)
| StrokeRect (x y w h : Z)
| Shadow (color : jsstr) (blur offsetX offsetY : Z)
| Font (s : jsstr)
| TextAlign (s : jsstr)
| TextBaseline (s : jsstr)
| FillText (text : jsstr) (x y : Z).

Record Sprite := mkSprite { sp_draw : list Canvas; sp_scale : Vec3; sp_y : num; sp_visible : bool }.

(** [createTextSprite(text, fontSize, isBubble)]: the drawing. *)
Definition createTextSprite (text : jsval) (fontSize : Z) (isBubble : bool) : list Canvas :=
  let w := 512 in
  let h := 128 in
  (if isBubble then
     [FillStyle (js "rgba(0, 0, 0, 0.7)"); FillRect 10 10 (w - 20) (h - 20); StrokeStyle (js "#fff");
      LineWidth 6; StrokeRect 10 10 (w - 20) (h - 20); FillStyle (js "#fff")]
   else [FillStyle (js "#fff"); Shadow (js "rgba(0,0,0,1)") 6 3 3]) ++
  [Font (js "bold " ++ dec_str (fontSize * 2) ++ js "px 'Courier New'"); TextAlign (js "center");
   TextBaseline (js "middle"); FillText (to_text text) (w / 2) (h / 2)].

Definition sprite (draw : list Canvas) (y : num) (visible : bool) : Sprite :=
  mkSprite draw (mkVec3 (num_of_Z 3) (num_dec 75 2) (num_of_Z 1)) y visible.

(** [displayName()], of the name and the ping the label was made with. *)
Definition labelText (name : jsval) (pingMs : option num) : jsval :=
  match pingMs with
  | Some ms => JStr (to_text name ++ js " (" ++ to_text (JNum ms) ++ js "ms)")
  | None => name
  end.

Definition nameSprite (p : PlayerModel) : Sprite :=
  sprite (createTextSprite (labelText (fst (p_label p)) (snd (p_label p))) 24 false)
    (if p_isBot p then num_dec 35 1 else num_dec 24 1) true.

(** [showChat(text)] makes a new bubble; its timer hides it. *)
Definition chatSprite (p : PlayerModel) : option Sprite :=
  (fun text => sprite (createTextSprite text 20 true) (num_dec 28 1) true) <$> p_chat p.

(** ** Boxes *)

Inductive Shape := Group | BoxGeometry (w h d : num) | PlaneGeometry (w h : num).

Inductive Node :=
| mkNode (shape : Shape) (pos : Vec3) (rot : Vec3) (color : Z) (children : list Node).

Definition at_ (x y z : num) : Vec3 := mkVec3 x y z.
Definition zero3 : Vec3 := at_ nzero nzero nzero.
Definition mesh (g : Shape) (color : Z) (pos : Vec3) : Node := mkNode g pos zero3 color [].

Definition SKIN : Z := 16436382.      (* 0xFACC9E *)
Definition WHITE : Z := 16777215.
Definition BLACK : Z := 0.
Definition HAT : Z := 13840175.       (* 0xD32F2F *)
Definition FLASH : Z := 16729156.     (* 0xFF4444 *)

(** The colour of a material now; a material without a colour is white. *)
Definition colorNow (p : PlayerModel) (base : option Z) : Z :=
  if p_flashing p then FLASH else default WHITE base.

(** [createLimb(x, y, mat)], turned by the pose. *)
Definition createLimb (x y : num) (color : Z) (rotX rotZ : num) : Node :=
  mkNode Group (at_ x y nzero) (at_ rotX nzero rotZ) 0
    [mesh (BoxGeometry (num_dec 18 2) (num_dec 6 1) (num_dec 18 2)) color (at_ nzero (- num_dec 3 1)%num nzero)].

(** An eye or a pupil, turned to the front. *)
Definition plane (size : num) (color : Z) (x z : num) : Node :=
  mkNode (PlaneGeometry size size) (at_ x (num_dec 2 1) z) (at_ nzero PI nzero) color [].

Definition headGroup (p : PlayerModel) : Node :=
  let eye := plane (num_dec 8 2) WHITE in
  let pupil := plane (num_dec 4 2) BLACK in
  let ez := (- num_dec 201 3)%num in
  let pz := (- num_dec 202 3)%num in
  mkNode Group (at_ nzero (num_dec 6 1) nzero) zero3 0
    [mesh (BoxGeometry (num_dec 4 1) (num_dec 4 1) (num_dec 4 1)) (colorNow p (Some SKIN)) (at_ nzero (num_dec 2 1) nzero);
     eye (- num_dec 1 1)%num ez; pupil (- num_dec 1 1)%num pz; eye (num_dec 1 1) ez; pupil (num_dec 1 1) pz;
     mesh (BoxGeometry (num_dec 44 2) (num_dec 12 2) (num_dec 44 2)) WHITE (at_ nzero (num_dec 4 1) nzero);
     mesh (BoxGeometry (num_dec 3 1) (num_dec 15 2) (num_dec 3 1)) HAT (at_ nzero (num_dec 53 2) nzero);
     mesh (BoxGeometry (num_dec 2 1) (num_dec 15 2) (num_dec 2 1)) HAT (at_ nzero (num_dec 65 2) (- num_dec 5 2)%num);
     mesh (BoxGeometry (num_dec 1 1) (num_dec 1 1) (num_dec 1 1)) WHITE (at_ nzero (num_dec 7 1) (- num_dec 15 2)%num)].

Definition bodyGroup (p : PlayerModel) : Node :=
  let a := p_pose p in
  let shirt := colorNow p (fst (p_colors p)) in
  let button := mesh (BoxGeometry (num_dec 5 2) (num_dec 5 2) (num_dec 2 2)) WHITE in
  mkNode Group (at_ nzero (bodyY a) nzero) (at_ (bodyLean a) nzero nzero) 0
    [mesh (BoxGeometry (num_dec 4 1) (num_dec 6 1) (num_dec 2 1)) shirt (at_ nzero (num_dec 3 1) nzero);
     button (at_ nzero (num_dec 4 1) (num_dec 11 2)); button (at_ nzero (num_dec 2 1) (num_dec 11 2));
     headGroup p;
     createLimb (num_dec 29 2) (num_dec 55 2) shirt (rightArmX a) (rightArmZ a);
     createLimb (- num_dec 29 2)%num (num_dec 55 2) shirt (leftArmX a) (leftArmZ a)].

(** The boxes of [mesh]; a bot has a model from a file instead. *)
Definition blocks (p : PlayerModel) : list Node :=
  if p_isBot p then []
  else
    let pants := colorNow p (snd (p_colors p)) in
    [bodyGroup p;
     createLimb (num_dec 1 1) (num_dec 75 2) pants (rightLegX (p_pose p)) nzero;
     createLimb (- num_dec 1 1)%num (num_dec 75 2) pants (leftLegX (p_pose p)) nzero].

(** The file of a bot's model, by [Math.random()]. *)
Definition snowmanUrl (r : num) : jsstr :=
  js "/assets/kenney_holiday_kit/Models/GLB format/" ++
  (if (r >? num_dec 5 1)%num then js "snowman-hat.glb" else js "snowman.glb").

(** ** The snowman of a bot *)

(** An object of the loaded model, with the glow of its material, and the
    model with the meshes whose materials the load callback has noted. *)
Record SceneObj := mkSceneObj { so_isMesh : bool; so_emissive : Z; so_intensity : num }.
Record Snowman := mkSnowman { snowmanModel : list SceneObj; originalMaterials : option (list nat) }.

(** The traversal of the load callback: the list is created at the first mesh. *)
Definition noteMesh (noted : option (list nat)) (i : nat) (o : SceneObj) : option (list nat) :=
  if so_isMesh o then Some (default [] noted ++ [i]) else noted.
Fixpoint noteMeshes (i : nat) (l : list SceneObj) (noted : option (list nat)) : option (list nat) :=
  match l with [] => noted | o :: l' => noteMeshes (S i) l' (noteMesh noted i o) end.
Definition snowmanLoaded (objects : list SceneObj) : Snowman :=
  mkSnowman objects (noteMeshes 0 objects None).

(** The red glow when the flash has [t] seconds left. *)
Definition flashGlow (t : num) : num := (math_max (t / num_dec 25 2) (num_of_Z 0) * num_dec 5 1)%num.
Definition flashObj (t : num) (o : SceneObj) : SceneObj :=
  if so_isMesh o then mkSceneObj true 16711680 (flashGlow t) else o.
Definition darken (o : SceneObj) : SceneObj := mkSceneObj (so_isMesh o) 0 nzero.

(** The bot's part of the end of [update]: [p] before its flash time is counted
    down. *)
Definition lookSnowman (dt : num) (p : PlayerModel) (s : Snowman) : Snowman :=
  match originalMaterials s with
  | None => s
  | Some noted =>
      if (p_hitFlashTime p >? num_of_Z 0)%num
      then mkSnowman (map (flashObj (p_hitFlashTime p - dt)%num) (snowmanModel s)) (Some noted)
      else mkSnowman (foldl (fun l i => alter darken i l) (snowmanModel s) noted) (Some noted)
  end.

(** ** Where the parts are *)

(** An axis-parallel box: its centre and half its size. *)
Record Extent := mkExtent { ex : Q; ey : Q; ez : Q; hx : Q; hy : Q; hz : Q }.

Definition halfQ (a : num) : Q := (fval a * (1 # 2))%Q.

(** The extent of a shape around its centre; a plane turned about its vertical
    axis stays within its width on both axes. *)
Definition extentOf (g : Shape) (x y z : Q) : list Extent :=
  match g with
  | Group => []
  | BoxGeometry w h d => [mkExtent x y z (halfQ w) (halfQ h) (halfQ d)]
  | PlaneGeometry w h => [mkExtent x y z (halfQ w) (halfQ h) (halfQ w)]
  end.

(** The parts of a node whose groups are not turned, from the origin of its
    parent. *)
Fixpoint extents (x y z : Q) (n : Node) : list Extent :=
  match n with
  | mkNode g pos _ _ children =>
      let x := (x + fval (vx pos))%Q in
      let y := (y + fval (vy pos))%Q in
      let z := (z + fval (vz pos))%Q in
      extentOf g x y z ++
      (fix go (l : list Node) : list Extent :=
         match l with [] => [] | c :: l' => extents x y z c ++ go l' end) children
  end.

(** A point of the part. *)
Definition in_part (e : Extent) (x y z : Q) : Prop :=
  (Qabs (x - ex e) <= hx e /\ Qabs (y - ey e) <= hy e /\ Qabs (z - ez e) <= hz e)%Q.

(** The cylinder of [intersectsPlayerCylinder] around a player at the origin. *)
Definition in_cylinder (x y z : Q) : Prop :=
  (x * x + z * z <= fval CONFIG.hitRadius * fval CONFIG.hitRadius /\ 0 <= y /\ y <= fval CONFIG.hitHeight)%Q.

Definition part_fits (e : Extent) : bool :=
  let ax := (Qabs (ex e) + hx e)%Q in
  let az := (Qabs (ez e) + hz e)%Q in
  Qle_bool (ax * ax + az * az) (fval CONFIG.hitRadius * fval CONFIG.hitRadius) &&
  Qle_bool 0 (ey e - hy e) && Qle_bool (ey e + hy e) (fval CONFIG.hitHeight).

Lemma square_le (x a : Q) : (Qabs x <= a -> x * x <= a * a)%Q.
Proof. intros H. apply Qabs_Qle_condition in H. nra. Qed.

Lemma part_fits_sound e x y z : part_fits e = true -> in_part e x y z -> in_cylinder x y z.
Proof.
  unfold part_fits. rewrite !andb_true_iff, !Qle_bool_iff. intros [[H1 H2] H3] (X & Y & Z).
  assert (L : forall u c h, (Qabs (u - c) <= h -> Qabs u <= Qabs c + h)%Q).
  { intros u c h Hu. assert (E : (u == u - c + c)%Q) by ring. rewrite E at 1.
    pose proof (Qabs_triangle (u - c) c). lra. }
  apply L in X, Z. rename X into Hx, Z into Hz.
  apply square_le in Hx, Hz. apply Qabs_Qle_condition in Y. split; [lra|]. split; lra.
Qed.

(** The limbs at rest. *)
Definition at_rest (p : PlayerModel) : Prop :=
  exists w a, p_pose p = mkPose (num_dec 75 2) nzero nzero nzero nzero nzero nzero nzero w a.



(** ** The flash of a hit *)

(** What happens to the flash: a hit, a frame, and for a bot the arrival of its
    model. *)
Inductive FlashEvent := Hit | Look (dateNow dt : num) | Loaded (objects : list SceneObj).

Section Flash.
Context `{JsMath} `{Three}.

Definition flash_step (st : PlayerModel * option Snowman) (e : FlashEvent) : PlayerModel * option Snowman :=
  let '(p, s) := st in
  match e with
  | Hit => (onHit p, s)
  | Look dateNow dt => (updateLook dateNow dt p, lookSnowman dt p <$> s)
  | Loaded objects => (p, Some (snowmanLoaded objects))
  end.
Definition flash_run (st : PlayerModel * option Snowman) (es : list FlashEvent) : PlayerModel * option Snowman :=
  foldl flash_step st es.

Definition frame_ok (e : FlashEvent) : Prop :=
  match e with Look _ dt => between nzero (num_dec 1 1) dt | _ => True end.

Definition flash_ok (p : PlayerModel) : Prop := between (- num_dec 1 1) (num_dec 25 2) (p_hitFlashTime p).

Lemma updateLook_flash dateNow dt p :
  p_hitFlashTime (updateLook dateNow dt p) =
  (if (p_hitFlashTime p >? num_of_Z 0)%num then p_hitFlashTime p - dt else p_hitFlashTime p)%num.
Proof. unfold updateLook. by destruct (p_isBot p); simpl; destruct (_ >? _)%num. Qed.

Lemma flash_left t dt :
  between (- num_dec 1 1) (num_dec 25 2) t -> between nzero (num_dec 1 1) dt -> (t >? num_of_Z 0)%num = true ->
  between (- num_dec 1 1) (num_dec 25 2) (t - dt)%num.
Proof.
  intros (Ft & _ & H2) Hd Ht.
  assert (Hp : between nzero (num_dec 25 2) t) by (split; [done|]; split; [by apply below_le|done]).
  eapply between_weaken; [between_rule; eassumption|evaluate..].
Qed.

Lemma flash_step_ok st e : frame_ok e -> flash_ok (fst st) -> flash_ok (fst (flash_step st e)).
Proof.
  destruct st as [p s], e as [|dateNow dt|objects]; cbn [frame_ok flash_step fst]; intros He Hp; [|..|done].
  - unfold flash_ok. eapply between_weaken; [by apply (between_const (num_dec 25 2))|evaluate..].
  - unfold flash_ok. rewrite updateLook_flash. destruct (_ >? _)%num eqn:E; [by apply flash_left|done].
Qed.

Lemma flash_run_ok es st : Forall frame_ok es -> flash_ok (fst st) -> flash_ok (fst (flash_run st es)).
Proof.
  revert st. induction es as [|e es IH]; intros st Hes Hp; [done|]. apply Forall_cons in Hes as [He Hes].
  cbn [flash_run foldl]. apply IH; [done|]. by apply flash_step_ok.
Qed.

(** Every mesh of the model is noted, so that the end of a flash reaches it. *)
Definition noted_ok (s : Snowman) : Prop :=
  forall i o, snowmanModel s !! i = Some o -> so_isMesh o = true ->
    exists noted, originalMaterials s = Some noted /\ i ∈ noted.

Lemma noteMeshes_keeps l : forall i noted j, j ∈ default [] noted -> exists r, noteMeshes i l noted = Some r /\ j ∈ r.
Proof.
  induction l as [|o l IH]; intros i noted j Hj; cbn [noteMeshes].
  - destruct noted as [r|]; [by exists r|]. cbn in Hj. by apply not_elem_of_nil in Hj.
  - apply IH. unfold noteMesh. destruct (so_isMesh o); [|done]. cbn. set_solver.
Qed.

Lemma noteMeshes_all l : forall i noted k o,
  l !! k = Some o -> so_isMesh o = true -> exists r, noteMeshes i l noted = Some r /\ (i + k)%nat ∈ r.
Proof.
  induction l as [|o' l IH]; intros i noted [|k] o Hk Ho; try done; cbn [noteMeshes].
  - injection Hk as ->. apply noteMeshes_keeps. unfold noteMesh. rewrite Ho. cbn. rewrite Nat.add_0_r. set_solver.
  - destruct (IH (S i) (noteMesh noted i o') k o Hk Ho) as (r & Hr & Hin). exists r. split; [done|].
    by rewrite Nat.add_succ_r.
Qed.

Lemma snowmanLoaded_noted objects : noted_ok (snowmanLoaded objects).
Proof. intros i o Hi Ho. exact (noteMeshes_all objects 0 None i o Hi Ho). Qed.

Lemma darken_all (noted : list nat) : forall (l : list SceneObj) (i : nat) o,
  foldl (fun l i => alter darken i l) l noted !! i = Some o ->
  exists o', l !! i = Some o' /\ so_isMesh o = so_isMesh o' /\ (o = o' \/ o = darken o') /\ (i ∈ noted -> o = darken o').
Proof.
  induction noted as [|j noted IH]; intros l i o; cbn [foldl].
  - intros Hi. exists o. split_and!; auto. intros Hin. by apply not_elem_of_nil in Hin.
  - intros Hi. apply IH in Hi as (o' & Ho' & Hm & Hor & Hin). destruct (decide (j = i)) as [->|Hne].
    + rewrite list_lookup_alter_eq in Ho'. destruct (l !! i) as [o2|]; [|done]. injection Ho' as <-. exists o2.
      assert (E : o = darken o2) by (destruct Hor as [->| ->]; done). rewrite E. split_and!; auto.
    + rewrite list_lookup_alter_ne in Ho' by done. exists o'. split_and!; auto. intros [->|]%elem_of_cons; [done|auto].
Qed.

Lemma lookSnowman_noted dt p s : noted_ok s -> noted_ok (lookSnowman dt p s).
Proof.
  intros Hs. unfold lookSnowman. destruct (originalMaterials s) as [noted|] eqn:En; [|done].
  intros i o Hi Hm. destruct (_ >? _)%num; simpl in *.
  - apply list_lookup_fmap_Some in Hi as (o' & -> & Hi). rewrite <- En. apply (Hs i o' Hi).
    unfold flashObj in Hm. destruct (so_isMesh o') eqn:E; [done|]. by rewrite E in Hm.
  - apply darken_all in Hi as (o' & Ho' & Hmm & _). rewrite <- En. apply (Hs i o' Ho'). by rewrite <- Hmm.
Qed.

(** How an object of the model glows: not, or red up to half. *)
Definition dark (o : SceneObj) : Prop := so_isMesh o = true -> so_emissive o = 0 /\ so_intensity o = nzero.
Definition glows (o : SceneObj) : Prop :=
  so_isMesh o = true -> dark o \/ so_emissive o = 16711680 /\ between nzero (num_dec 5 1) (so_intensity o).

Lemma flashGlow_range t : between (- num_dec 1 1) (num_dec 25 2) t -> between nzero (num_dec 5 1) (flashGlow t).
Proof.
  intros Ht. unfold flashGlow.
  assert (Hq : between (- num_dec 1 1 / num_dec 25 2) (num_dec 25 2 / num_dec 25 2) (t / num_dec 25 2)%num).
  { apply (between_div _ _ t); [evaluate|evaluate|exact Ht|evaluate|evaluate]. }
  assert (Hm : between (num_of_Z 0) (num_of_Z 1) (math_max (t / num_dec 25 2) (num_of_Z 0))%num).
  { apply between_max_r; [evaluate| |evaluate|]; destruct Hq as (F & _ & Hh); [done|].
    eapply nleb_trans; [exact Hh|evaluate]. }
  eapply between_weaken; [between_rule; exact Hm|evaluate..].
Qed.

Lemma lookSnowman_dark dt p s :
  noted_ok s -> (p_hitFlashTime p >? num_of_Z 0)%num = false -> Forall dark (snowmanModel (lookSnowman dt p s)).
Proof.
  intros Hs Ht. pose proof (lookSnowman_noted dt p s Hs) as Hn. apply Forall_lookup. intros i o Hi Hm.
  destruct (Hn i o Hi Hm) as (noted & E & Hin). unfold lookSnowman in *.
  destruct (originalMaterials s) as [l|] eqn:El; [|by rewrite El in E].
  rewrite Ht in *. simpl in *. injection E as ->. apply darken_all in Hi as (o' & _ & _ & _ & Hd). by rewrite (Hd Hin).
Qed.

Lemma lookSnowman_glows dt p s :
  between nzero (num_dec 1 1) dt -> flash_ok p -> noted_ok s -> Forall glows (snowmanModel (lookSnowman dt p s)).
Proof.
  intros Hd Hp Hs. destruct (p_hitFlashTime p >? num_of_Z 0)%num eqn:E.
  - apply Forall_lookup. intros i o Hi Hm. destruct (lookSnowman_noted dt p s Hs i o Hi Hm) as (noted & En & _).
    unfold lookSnowman in *. destruct (originalMaterials s) as [l|] eqn:El; [|by rewrite El in En].
    rewrite E in Hi. simpl in Hi. apply list_lookup_fmap_Some in Hi as (o' & -> & _). right.
    unfold flashObj in *. destruct (so_isMesh o') eqn:Em; [|by rewrite Em in Hm]. split; [done|].
    apply flashGlow_range. by apply flash_left.
  - eapply Forall_impl; [by apply lookSnowman_dark|]. intros o Ho Hm. by left.
Qed.

(** What is left of a flash after [k] frames of at least 10 ms. *)
Definition left_after (k : nat) : num := Nat.iter k (fun h => h - num_dec 1 2)%num (num_dec 25 2).

Lemma left_after_fin k : (k <= 26)%nat -> fin (left_after k) = true /\ isFinite (left_after k) = true.
Proof.
  intros Hk. assert (A : forallb (fun k => fin (left_after k) && isFinite (left_after k)) (seq 0 27) = true) by evaluate.
  rewrite forallb_forall in A. apply andb_true_iff, A, in_seq. lia.
Qed.

Definition cooled (k : nat) (t : num) : Prop :=
  fin t = true /\ ((t >? num_of_Z 0)%num = false \/ nleb t (left_after k) = true).

Definition brief (e : FlashEvent) : Prop :=
  match e with Look _ dt => between (num_dec 1 2) (num_dec 1 1) dt | _ => False end.

Lemma brief_ok e : brief e -> frame_ok e.
Proof. destruct e as [| |]; try done. intros Hd. eapply between_weaken; [exact Hd|evaluate..]. Qed.

Lemma look_cools k dateNow dt p :
  (k < 26)%nat -> between (num_dec 1 2) (num_dec 1 1) dt -> cooled k (p_hitFlashTime p) ->
  cooled (S k) (p_hitFlashTime (updateLook dateNow dt p)).
Proof.
  intros Hk Hd [Ft Hc]. rewrite updateLook_flash. destruct (_ >? _)%num eqn:E; [|by split; [|left]].
  destruct Hc as [|Hle]; [congruence|]. destruct (left_after_fin k) as [F1 F2]; [lia|].
  destruct (left_after_fin (S k)) as [_ F3]; [lia|].
  assert (Hp : between nzero (left_after k) (p_hitFlashTime p)) by (split; [done|]; split; [by apply below_le|done]).
  assert (B : between (nzero - num_dec 1 1) (left_after k - num_dec 1 2) (p_hitFlashTime p - dt)%num).
  { apply between_sub; try done. }
  destruct B as (B1 & _ & B2). split; [done|by right].
Qed.

Lemma cooled_out t : cooled 26 t -> (t >? num_of_Z 0)%num = false.
Proof.
  intros [Ft [?|Hle]]; [done|]. assert (nleb t (num_of_Z 0) = true) as H1 by (eapply nleb_trans; [exact Hle|evaluate]).
  rewrite nleb_nltb in H1 by (done || by apply fin_number). by destruct (nltb _ _).
Qed.

Lemma cool_run ds : forall k st,
  (k <= 26)%nat -> Forall brief ds -> cooled k (p_hitFlashTime (fst st)) ->
  cooled (26 `min` (k + length ds)) (p_hitFlashTime (fst (flash_run st ds))).
Proof.
  induction ds as [|[|dateNow dt|] ds IH]; intros k [p s] Hk Hds Hc; try by apply Forall_cons in Hds as [[] _].
  - cbn [length]. rewrite Nat.add_0_r, Nat.min_r by done. done.
  - apply Forall_cons in Hds as [Hd Hds]. cbn [flash_run foldl flash_step length].
    destruct (decide (k = 26)%nat) as [->|Hne].
    + replace (26 `min` (26 + S (length ds)))%nat with (26 `min` (26 + length ds))%nat by lia. apply IH; [lia|done|].
      cbn [fst] in *. rewrite updateLook_flash, (cooled_out _ Hc). exact Hc.
    + rewrite Nat.add_succ_r. apply (IH (S k)); [lia|done|]. apply look_cools; [lia|done|done].
Qed.

Definition flash_inv (st : PlayerModel * option Snowman) : Prop :=
  flash_ok (fst st) /\ forall m, snd st = Some m -> noted_ok m.

Lemma flash_inv_run es : forall st, Forall frame_ok es -> flash_inv st -> flash_inv (flash_run st es).
Proof.
  induction es as [|e es IH]; intros st Hes Hst; [done|]. apply Forall_cons in Hes as [He Hes].
  apply IH; [done|]. destruct Hst as [H1 H2]. split; [by apply flash_step_ok|].
  destruct st as [p s], e as [|dateNow dt|objects]; cbn [flash_step snd] in *; [done|..].
  - destruct s as [m|]; [|done]. intros m' [= <-]. apply lookSnowman_noted. by apply H2.
  - intros m [= <-]. apply snowmanLoaded_noted.
Qed.

Lemma new_flash_inv worldSeed id pos name isRemote : flash_inv (newPlayerModel worldSeed id pos name isRemote, None).
Proof.
  split; [|done]. eapply between_weaken; [by apply (between_const nzero)|evaluate..].
Qed.


(** Whatever hits a bot and whenever its model arrives, after each frame
    its meshes are dark or glow red at no more than half intensity. *)
Theorem snowman_glow worldSeed id pos name isRemote es dateNow dt m :
  Forall frame_ok es -> between nzero (num_dec 1 1) dt ->
  snd (flash_run (newPlayerModel worldSeed id pos name isRemote, None) (es ++ [Look dateNow dt])) = Some m ->
  Forall glows (snowmanModel m).
Proof.
  intros Hes Hd. unfold flash_run. rewrite foldl_app. cbn [foldl].
  pose proof (flash_inv_run es _ Hes (new_flash_inv worldSeed id pos name isRemote)) as [H1 H2].
  unfold flash_run in *. destruct (foldl _ _ es) as [p [s|]]; cbn [flash_step fst snd] in *; [|done].
  intros [= <-]. apply lookSnowman_glows; auto.
Qed.
End Flash.

