(* ===== verification/PageThms.v ===== *)
(** * Theorems about the page

    The invariant of everything that can happen to the page, the snowball loop
    of a frame, when frames end and when they do not, and what the leaderboard
    and the log-in show. *)

From S2P Require Import Prelude JsMap JsNum Rounding JsString JsValue Json JsConv Protocol Build.
From S2P Require Import Concrete ClientUtils ClientPlayer ClientNet Rotation Scenery SceneryThms Page ClientThms.

(** ** Snowballs *)

(** [snowballs] lists every active snowball, each address once; every entry of
    [snowballsById] is an active snowball with that id. *)
Definition balls_ok (c : ClientState) : Prop :=
  NoDup (snowballs c) /\
  Forall (fun b => (b < length (balls c))%nat) (snowballs c) /\
  (forall b sb, balls c !! b = Some sb -> sb_active sb = true -> b ∈ snowballs c) /\
  (forall id b, JMap.get id (snowballsById c) = Some b ->
     exists sb, balls c !! b = Some sb /\ sb_id sb = id /\ sb_active sb = true).

Definition same_balls (c c' : ClientState) : Prop :=
  balls c' = balls c /\ snowballs c' = snowballs c /\ snowballsById c' = snowballsById c.

Lemma balls_ok_same c c' : same_balls c c' -> balls_ok c -> balls_ok c'.
Proof. intros (E1 & E2 & E3). unfold balls_ok. by rewrite E1, E2, E3. Qed.

(** A new snowball enters the list and the table. *)
Definition add_ball (sb : Snowball) (c : ClientState) : ClientState :=
  let b := length (balls c) in
  let c := set_balls (balls c ++ [sb]) c in
  let c := set_snowballs (snowballs c ++ [b]) c in
  set_snowballsById (JMap.set (sb_id sb) b (snowballsById c)) c.

Lemma balls_ok_add sb c : sb_active sb = true -> balls_ok c -> balls_ok (add_ball sb c).
Proof.
  intros Ha (Hnd & Hlt & Hact & Hid). rewrite Forall_forall in Hlt. unfold balls_ok. cbn.
  assert (Hnew : (balls c ++ [sb]) !! length (balls c) = Some sb) by (by rewrite lookup_app_r, Nat.sub_diag by lia).
  split; [|split; [|split]].
  - apply NoDup_app. split; [done|]. split; [|apply NoDup_singleton].
    intros b Hb ->%list_elem_of_singleton. specialize (Hlt _ Hb). lia.
  - rewrite length_app. cbn. apply Forall_app. split; [|repeat constructor; lia].
    apply Forall_forall. intros b Hb. specialize (Hlt _ Hb). lia.
  - intros b x Hb Hx. apply elem_of_app. apply lookup_app_Some in Hb as [Hb|[Hl Hb]]; [left; eauto|right].
    apply list_lookup_singleton_Some in Hb as [Hj ->]. replace b with (length (balls c)) by lia. left.
  - intros id b. rewrite JMap.get_set. case_decide as E.
    + intros [= <-]. exists sb. by subst.
    + intros Hb. destruct (Hid id b Hb) as (x & Hx & Hi & Hxa). exists x. split; [by apply lookup_app_l_Some|done].
Qed.

(** A snowball that ends leaves the table; one that goes on keeps its id. *)
Lemma balls_ok_set b sb sb' c :
  balls c !! b = Some sb -> sb_id sb' = sb_id sb -> (sb_active sb' = true -> sb_active sb = true) ->
  balls_ok c ->
  balls_ok (let c' := set_balls (<[b := sb']> (balls c)) c in
            if sb_active sb && negb (sb_active sb')
            then set_snowballsById (JMap.delete (sb_id sb) (snowballsById c')) c' else c').
Proof.
  intros Hb Hi Hmono (Hnd & Hlt & Hact & Hid). cbv zeta. set (del := sb_active sb && negb (sb_active sb')).
  assert (Hlook : forall k x, <[b := sb']> (balls c) !! k = Some x ->
    k = b /\ x = sb' \/ k <> b /\ balls c !! k = Some x).
  { intros k x. destruct (decide (k = b)) as [->|Hne]; [|rewrite list_lookup_insert_ne by done; auto].
    rewrite list_lookup_insert_eq by (by eapply lookup_lt_Some). intros [= <-]. by left. }
  assert (H3 : forall k x, <[b := sb']> (balls c) !! k = Some x -> sb_active x = true -> k ∈ snowballs c).
  { intros k x Hk Hx. destruct (Hlook k x Hk) as [[-> ->]|[_ Hk']]; eauto. }
  assert (H4 : forall id k, (del = true -> id <> sb_id sb) -> JMap.get id (snowballsById c) = Some k ->
    exists x, <[b := sb']> (balls c) !! k = Some x /\ sb_id x = id /\ sb_active x = true).
  { intros id k Hd Hk. destruct (Hid id k Hk) as (x & Hx & Hxi & Hxa). destruct (decide (k = b)) as [->|Hne].
    - simplify_eq. exists sb'. rewrite list_lookup_insert_eq by (by eapply lookup_lt_Some). split; [done|]. split; [done|].
      subst del. rewrite Hxa in Hd. destruct (sb_active sb'); [done|]. by destruct (Hd eq_refl).
    - exists x. by rewrite list_lookup_insert_ne. }
  destruct del eqn:Ed; unfold balls_ok; simpl; rewrite length_insert; do 3 (split; [done|]).
  - intros id k. rewrite JMap.get_delete. case_decide; [done|]. by apply H4.
  - intros id k. by apply H4.
Qed.

Lemma balls_ok_destroy b c : balls_ok c -> balls_ok (destroySnowball b c).
Proof.
  intros Hc. unfold destroySnowball. destruct (balls c !! b) as [sb|] eqn:Hb; [|done].
  destruct (sb_active sb) eqn:Ea; [|done]. cbn [negb].
  pose proof (balls_ok_set b sb (mkSnowball (sb_id sb) false (sb_ownerId sb) (sb_pos sb) (sb_rotX sb) (sb_rotY sb) (sb_vel sb))
    c Hb eq_refl ltac:(done) Hc) as Hok. cbv zeta in Hok. rewrite Ea in Hok. exact Hok.
Qed.

#[local] Opaque createEnvironment.

Section Page.
Context `{JsMath} `{Three} `{Geometry}.
Context (distanceTo : Vec3 -> Vec3 -> num) (round : num -> num).

Lemma updateSnowball_same ws obs dt sb :
  sb_id (updateSnowball ws obs dt sb) = sb_id sb /\
  (sb_active (updateSnowball ws obs dt sb) = true -> sb_active sb = true).
Proof. unfold updateSnowball. destruct (sb_active sb) eqn:E; simpl; [done|]. by rewrite E. Qed.

Lemma balls_ok_updateBall obs dt b c : balls_ok c -> balls_ok (updateBall obs dt b c).
Proof.
  intros Hc. unfold updateBall. destruct (balls c !! b) as [sb|] eqn:Hb; [|done].
  destruct (updateSnowball_same (worldSeed c) obs dt sb) as [H1' H2']. by apply balls_ok_set.
Qed.

(** Removing an inactive entry from the list. *)
Lemma balls_ok_splice i b c :
  snowballs c !! i = Some b -> ball_active c b = false -> balls_ok c ->
  balls_ok (set_snowballs (base.delete i (snowballs c)) c).
Proof.
  intros Hi Hb (Hnd & Hlt & Hact & Hid). unfold balls_ok. cbn. split; [|split; [|split]].
  - eapply sublist_NoDup; [exact Hnd|apply sublist_delete].
  - by apply Forall_delete.
  - intros k x Hk Hx. specialize (Hact k x Hk Hx). apply list_elem_of_lookup in Hact as [j Hj].
    assert (j <> i) as Hne.
    { intros ->. assert (k = b) as -> by congruence. unfold ball_active in Hb. rewrite Hk in Hb. congruence. }
    apply list_elem_of_lookup. destruct (decide (j < i)%nat) as [Hlt'|Hge].
    + exists j. by rewrite list_lookup_delete_lt.
    + exists (j - 1)%nat. rewrite list_lookup_delete_ge by lia. by replace (S (j - 1)) with j by lia.
  - done.
Qed.

Lemma balls_ok_loop obs dt i c : balls_ok c -> balls_ok (snowballLoop obs dt i c).
Proof.
  revert c. induction i as [|i IH]; intros c Hc; cbn [snowballLoop]; [done|].
  destruct (snowballs c !! i) as [b|] eqn:Hi; [|by apply IH].
  pose proof (balls_ok_updateBall obs dt b c Hc) as Hu.
  assert (E : snowballs (updateBall obs dt b c) = snowballs c).
  { unfold updateBall. destruct (balls c !! b); [|done]. by destruct (_ && _). }
  apply IH. destruct (ball_active (updateBall obs dt b c) b) eqn:Ea; cbn [negb]; [done|].
  eapply balls_ok_splice; [by rewrite E|done|done].
Qed.

(** *** The loop *)

(** What [updateBall] does to the heap, and all it does. *)
Lemma updateBall_spec obs dt b c :
  (forall k, balls (updateBall obs dt b c) !! k =
     if decide (k = b) then updateSnowball (worldSeed c) obs dt <$> balls c !! k else balls c !! k) /\
  snowballs (updateBall obs dt b c) = snowballs c /\ worldSeed (updateBall obs dt b c) = worldSeed c.
Proof.
  unfold updateBall. destruct (balls c !! b) as [sb|] eqn:Hb.
  - split; [|by destruct (_ && _)]. intros k.
    assert (E : balls (if sb_active sb && negb (sb_active (updateSnowball (worldSeed c) obs dt sb))
      then set_snowballsById (JMap.delete (sb_id sb) (snowballsById (set_balls (<[b:=updateSnowball (worldSeed c) obs dt sb]> (balls c)) c)))
             (set_balls (<[b:=updateSnowball (worldSeed c) obs dt sb]> (balls c)) c)
      else set_balls (<[b:=updateSnowball (worldSeed c) obs dt sb]> (balls c)) c) =
      <[b:=updateSnowball (worldSeed c) obs dt sb]> (balls c)) by (by destruct (_ && _)).
    cbv zeta. rewrite E. case_decide as Ek.
    + subst k. rewrite Hb. by rewrite list_lookup_insert_eq by (by eapply lookup_lt_Some).
    + by rewrite list_lookup_insert_ne.
  - split; [|done]. intros k. case_decide; [|done]. subst k. by rewrite Hb.
Qed.

Lemma loop_spec obs dt pre suf c :
  snowballs c = pre ++ suf -> NoDup pre ->
  let c' := snowballLoop obs dt (length pre) c in
  (forall b, balls c' !! b =
     if decide (b ∈ pre) then updateSnowball (worldSeed c) obs dt <$> balls c !! b else balls c !! b) /\
  snowballs c' = List.filter (ball_active c') pre ++ suf.
Proof.
  revert suf c. induction pre as [|b pre IH] using rev_ind; intros suf c Hs Hnd.
  { cbn. split; [|done]. intros b. case_decide as Hb; [by apply elem_of_nil in Hb|done]. }
  apply NoDup_app in Hnd as (Hnd & Hb & _). assert (Hnb : b ∉ pre) by (intros Hin; apply (Hb b Hin); left).
  rewrite length_app, Nat.add_1_r. cbn [length snowballLoop].
  assert (Hl : snowballs c !! length pre = Some b) by (rewrite Hs, <- app_assoc; apply list_lookup_middle; done).
  rewrite Hl. destruct (updateBall_spec obs dt b c) as (U1 & U2 & U3). set (c1 := updateBall obs dt b c) in *.
  set (suf' := if ball_active c1 b then b :: suf else suf).
  set (c2 := if negb (ball_active c1 b) then set_snowballs (base.delete (length pre) (snowballs c1)) c1 else c1).
  assert (E2 : balls c2 = balls c1 /\ worldSeed c2 = worldSeed c /\ snowballs c2 = pre ++ suf').
  { subst c2 suf'. destruct (ball_active c1 b); cbn [negb].
    - split; [done|]. split; [done|]. by rewrite U2, Hs, <- app_assoc.
    - split; [done|]. split; [exact U3|]. cbn [snowballs set_snowballs]. rewrite U2, Hs, <- app_assoc.
      cbn [app]. by rewrite delete_middle. }
  destruct E2 as (Eb & Ew & Es). destruct (IH suf' c2 Es Hnd) as [I1 I2]. rewrite Ew, Eb in I1.
  set (c' := snowballLoop obs dt (length pre) c2) in *. split.
  - intros k. rewrite I1, U1. destruct (decide (k ∈ pre)) as [Hk|Hk].
    + rewrite (decide_True (P := k ∈ pre ++ [b])) by (apply elem_of_app; by left).
      rewrite (decide_False (P := k = b)) by (intros ->; done). done.
    + destruct (decide (k = b)) as [->|Hne].
      * by rewrite (decide_True (P := b ∈ pre ++ [b])) by (apply elem_of_app; right; left).
      * rewrite (decide_False (P := k ∈ pre ++ [b])); [done|].
        intros [?|Hin%list_elem_of_singleton]%elem_of_app; done.
  - rewrite I2, List.filter_app, <- app_assoc. f_equal. cbn [List.filter].
    assert (Ea : ball_active c' b = ball_active c1 b) by (unfold ball_active; by rewrite I1, decide_False by done).
    rewrite Ea. subst suf'. by destruct (ball_active c1 b).
Qed.

(** C23: The frame's loop over the snowballs, which runs backwards and splices
    ended ones out of the array it runs over, updates every listed snowball
    exactly once and no other, and leaves those still flying, in their order. *)
Theorem snowball_loop_once obs dt c :
  balls_ok c ->
  let c' := snowballLoop obs dt (length (snowballs c)) c in
  (forall b, balls c' !! b =
     if decide (b ∈ snowballs c) then updateSnowball (worldSeed c) obs dt <$> balls c !! b else balls c !! b) /\
  snowballs c' = List.filter (ball_active c') (snowballs c).
Proof.
  intros (Hnd & _). destruct (loop_spec obs dt (snowballs c) [] c) as [L1 L2]; [by rewrite app_nil_r|done|].
  split; [done|]. by rewrite app_nil_r in L2.
Qed.

(** ** The network client's steps *)

Lemma welcome_outside id seed c :
  balls (onWelcome id seed c) = balls c /\ snowballs (onWelcome id seed c) = snowballs c /\
  snowballsById (onWelcome id seed c) = snowballsById c /\ environmentReady (onWelcome id seed c) = true.
Proof.
  unfold onWelcome. set (c1 := match localPlayer c with Some _ => _ | None => c end).
  assert (E : outside c1 = outside c).
  { subst c1. destruct (localPlayer c) as [a|]; [|done]. destruct (the_model a c); [|done].
    destruct (str_eqb _ _); [done|]. exact (out_remove _ _). }
  apply outside_eq in E as (_ & _ & _ & E1 & E2 & E3). rewrite <- E1, <- E2, <- E3.
  cbn [net set_environmentReady set_worldSeed set_localPlayerId].
  destruct (n_pendingSnapshot (net c1)) as [l|]; [|done].
  destruct (outside_eq _ _ (out_applySnapshot l (set_environmentReady true (set_worldSeed (num_of_Z seed)
    (set_localPlayerId (Some id) c1))))) as (_ & _ & R1 & R2 & R3 & R4).
  cbn [upd_net balls snowballs snowballsById environmentReady set_net] in *. by rewrite R1, R2, R3, R4.
Qed.

(** Only a welcome readies the scenery, and only snowball events make
    snowballs. *)
Lemma step_frame c e :
  environmentReady (client_step to_text round c e) =
    (match e with NetMessage _ _ (SWelcome _ _ _ _) => true | _ => environmentReady c end) /\
  (same_balls c (client_step to_text round c e) \/
   exists sb, sb_active sb = true /\ client_step to_text round c e = add_ball sb c).
Proof.
  destruct e as [name|i now dn|i| |now dn|j|now dn msg|text|now]; cbn [client_step];
    try (split; [done|left; by repeat split]).
  - split; [by destruct (n_pingTimer (net c))|left]. by destruct (n_pingTimer (net c)).
  - destruct msg as [id w n seed|w ps seq|ev|at_ l|n|m]; cbn [onServerMsg].
    + destruct (welcome_outside id seed c) as (W1 & W2 & W3 & W4). split; [done|left]. by repeat split.
    + destruct (outside_eq _ _ (out_applySnapshot ps c)) as (_ & _ & R1 & R2 & R3 & R4).
      split; [by destruct (localPlayerId c) as [[|]|]|left]. destruct (localPlayerId c) as [[|]|]; by repeat split.
    + destruct (is_snowball ev) eqn:Es.
      * unfold is_snowball, applyEvent in *. destruct (ev_body ev) as [| | | |id ow or dir ts| | | |]; try done.
        destruct (JMap.has id (snowballsById c)); [split; [done|left; by repeat split]|].
        split; [done|right]. by exists (newSnowball id or dir ow).
      * destruct (outside_eq _ _ (out_applyEvent to_text dn ev c Es)) as (_ & _ & R1 & R2 & R3 & R4).
        split; [done|left]. by repeat split.
    + destruct (outside_eq _ _ (out_foldl _ l c (fun c s => out_applyState s c))) as (_ & _ & R1 & R2 & R3 & R4).
      split; [done|left]. by repeat split.
    + destruct (num_truthy _); (split; [done|left; by repeat split]).
    + split; [done|left; by repeat split].
  - unfold maybeSendLocalState. destruct (localPlayer c); [|by split; [|left]].
    destruct (the_model _ _); [|by split; [|left]]. destruct (negb _); [by split; [|left]|].
    destruct (nltb _ _); [by split; [|left]|]. split; [done|left; by repeat split].
Qed.

Lemma balls_ok_step c e : balls_ok c -> balls_ok (client_step to_text round c e).
Proof.
  intros Hc. destruct (step_frame c e) as [_ [Hs|(sb & Ha & ->)]]; [by eapply balls_ok_same|by apply balls_ok_add].
Qed.

(** ** The page's invariant *)

(** Height of a snowflake. *)
Definition flake_ok (v : Vec3) : Prop := between nzero (num_of_Z 50) (vy v).

Definition client_ok (c : ClientState) : Prop := tables_ok c /\ balls_ok c.

Definition page_inv (p : Page) : Prop :=
  client_ok (client p) /\
  between minPitch maxPitch (cameraPitch p) /\
  (environmentReady (client p) = true <-> scenery p <> None) /\
  Forall flake_ok (snow p).

(** What the browser delivers: movements are finite and a frame's duration is
    not negative. *)
Definition event_ok (e : PageEvent) : Prop :=
  match e with
  | MouseMove dx dy => between (num_of_Z (- 2 ^ 31)) (num_of_Z (2 ^ 31)) dy
  | Frame delta time now dateNow => fin delta = true /\ nleb nzero delta = true
  | _ => True
  end.

(** States that agree on what the invariant reads outside the client. *)
Definition same_view (p p' : Page) : Prop :=
  cameraPitch p' = cameraPitch p /\ scenery p' = scenery p /\ snow p' = snow p.

Lemma page_inv_client p p' :
  same_view p p' -> client_ok (client p') -> environmentReady (client p') = environmentReady (client p) ->
  page_inv p -> page_inv p'.
Proof. intros (E1 & E2 & E3) Hc Er (_ & H2' & H3' & H4'). unfold page_inv. by rewrite E1, E2, E3, Er. Qed.

Lemma client_ok_same c c' : same_tables c c' -> same_balls c c' -> client_ok c -> client_ok c'.
Proof. intros Ht Hb [H1' H2']. split; [by eapply tables_ok_same|by eapply balls_ok_same]. Qed.

Lemma client_ok_local f c : keeps_identity f -> client_ok c -> client_ok (upd_local f c).
Proof.
  intros Hf [H1' H2']. unfold upd_local. destruct (localPlayer c) as [a|]; [|done].
  split; [by apply tables_ok_upd|]. by eapply balls_ok_same; [|exact H2'].
Qed.

Lemma ready_local f c : environmentReady (upd_local f c) = environmentReady c.
Proof. unfold upd_local. by destruct (localPlayer c). Qed.

Lemma throw_shape shotId now pitch m m' sb dir :
  throwSnowball shotId now pitch m = Some (m', sb, dir) ->
  p_id m' = p_id m /\ p_isRemote m' = p_isRemote m /\ sb_id sb = shotId /\ sb_active sb = true.
Proof.
  unfold throwSnowball. destruct (p_dead m); [done|]. destruct (nltb _ _); [done|]. intros [= <- <- _]. done.
Qed.

Lemma client_ok_throw shotId now dn pitch c : client_ok c -> client_ok (throwLocal shotId now dn pitch c).
Proof.
  intros [H1' H2']. unfold throwLocal. destruct (localPlayer c) as [a|]; [|done].
  destruct (the_model a c) as [m|] eqn:Em; [|done].
  destruct (throwSnowball shotId now pitch m) as [[[m' sb] dir]|] eqn:Et; [|done].
  destruct (throw_shape _ _ _ _ _ _ _ Et) as (T1 & T2 & T3 & T4). split.
  - eapply tables_ok_same; [|apply (tables_ok_upd_at a (fun _ => m') c); [|exact H1']]; [by repeat split|].
    intros x Hx. unfold the_model in Em. simplify_eq. done.
  - eapply balls_ok_same; [|apply (balls_ok_add sb c T4 H2')]. unfold same_balls, add_ball. rewrite T3. by repeat split.
Qed.

Lemma ready_throw shotId now dn pitch c :
  environmentReady (throwLocal shotId now dn pitch c) = environmentReady c.
Proof.
  unfold throwLocal. destruct (localPlayer c) as [a|]; [|done]. destruct (the_model a c); [|done].
  by destruct (throwSnowball _ _ _ _) as [[[]]|].
Qed.

Lemma update_identity fuel ws dn dt yaw m m' yaw' :
  update fuel ws dn dt yaw m = Some (m', yaw') -> p_id m' = p_id m /\ p_isRemote m' = p_isRemote m.
Proof.
  assert (L : forall x, p_id (updateLook dn dt x) = p_id x /\ p_isRemote (updateLook dn dt x) = p_isRemote x).
  { intros x. unfold updateLook. destruct (p_isBot x); cbn; by destruct (nltb _ _). }
  unfold update. destruct (p_dead m); [by intros [= <- _]|]. cbv zeta. cbn [p_isRemote set_motion p_isBot].
  destruct (p_isRemote m) eqn:Er.
  - unfold updateRemote. destruct (unwrap _ _ _); [|done]. intros [= <- _].
    match goal with |- context [updateLook dn dt ?x] => destruct (L x) as [-> ->] end. done.
  - destruct (p_isBot m); [intros [= <- _]; done|]. destruct (updateLocal _ _ _ _) as [mo y]. intros [= <- _].
    match goal with |- context [updateLook dn dt ?x] => destruct (L x) as [-> ->] end. done.
Qed.

Lemma updatePlayers_ok fuel dn dt l c c' :
  updatePlayers fuel dn dt l c = Some c' -> client_ok c ->
  client_ok c' /\ environmentReady c' = environmentReady c.
Proof.
  revert c. induction l as [|a l IH]; intros c; cbn [updatePlayers]; [by intros [= <-]|].
  destruct (the_model a c) as [m|] eqn:Em; [|apply IH].
  destruct (update _ _ _ _ _ _) as [[m' yaw]|] eqn:Eu; [|done]. intros Hu [T B].
  destruct (update_identity _ _ _ _ _ _ _ _ Eu) as [I1 I2].
  destruct (IH _ Hu) as [K1 K2]; [|by rewrite K2]. split; [|by eapply balls_ok_same; [|exact B]].
  eapply tables_ok_same; [|apply (tables_ok_upd_at a (fun _ => m') c); [|exact T]]; [by repeat split|].
  intros x Hx. unfold the_model in Em. by simplify_eq.
Qed.

Lemma loop_tables obs dt i c :
  same_tables c (snowballLoop obs dt i c) /\ environmentReady (snowballLoop obs dt i c) = environmentReady c.
Proof.
  revert c. induction i as [|i IH]; intros c; cbn [snowballLoop]; [done|].
  destruct (snowballs c !! i) as [b|]; [|apply IH].
  set (c2 := if negb _ then _ else _).
  assert (E : same_tables c c2 /\ environmentReady c2 = environmentReady c).
  { assert (E1 : same_tables c (updateBall obs dt b c) /\ environmentReady (updateBall obs dt b c) = environmentReady c).
    { unfold updateBall. destruct (balls c !! b); [|done]. by destruct (_ && _). }
    subst c2. by destruct (negb _). }
  destruct (IH c2) as [(I1 & I2 & I3 & I4 & I5) I6]. destruct E as [(J1 & J2 & J3 & J4 & J5) J6].
  unfold same_tables. rewrite I1, I2, I3, I4, I5, I6, J6. done.
Qed.

Lemma sendState_same now c :
  same_tables c (maybeSendLocalState now c) /\ same_balls c (maybeSendLocalState now c) /\
  environmentReady (maybeSendLocalState now c) = environmentReady c.
Proof.
  unfold maybeSendLocalState. destruct (localPlayer c); [|done]. destruct (the_model _ _); [|done].
  destruct (negb _); [done|]. by destruct (nltb _ _).
Qed.

Lemma fall_ok dt v : between nzero (num_dec 1 1) dt -> flake_ok v -> flake_ok (fall dt v).
Proof.
  intros Hd Hv. unfold flake_ok in *. unfold fall. cbn [vy].
  assert (Hy : between (num_of_Z (-1)) (num_of_Z 50) (fround (vy v - num_of_Z 5 * dt)%num)) by bounds.
  destruct (nltb _ _) eqn:E; [by vm_compute|]. destruct Hy as (Fy & _ & H50). split; [done|]. split; [|done].
  rewrite nleb_nltb; [|done|by destruct (fround _)]. change nzero with (num_of_Z 0). by rewrite E.
Qed.

Lemma dt_ok delta :
  fin delta = true -> nleb nzero delta = true -> between nzero (num_dec 1 1) (math_min delta (num_dec 1 1)).
Proof. intros Hf Hz. apply between_min; [vm_compute|..]; done.
Qed.

Lemma pitch_ok p dy :
  between minPitch maxPitch (cameraPitch p) -> between (num_of_Z (- 2 ^ 31)) (num_of_Z (2 ^ 31)) dy ->
  between minPitch maxPitch (math_max minPitch (math_min maxPitch (cameraPitch p - dy * lookSensitivity)%num)).
Proof.
  intros Hp Hd. assert (Hx : between (num_of_Z (- 2 ^ 31)) (num_of_Z (2 ^ 31)) (cameraPitch p - dy * lookSensitivity)%num).
  { bounds. }
  destruct Hx as [Fx _]. apply between_clamp; [evaluate|evaluate|done|evaluate].
Qed.

Lemma page_inv_auth p config me id : page_inv p -> page_inv (checkAuthStatus config me id p).
Proof.
  intros Hp. assert (L : forall q, page_inv q -> page_inv (showLoginUI id q)).
  { intros q Hq. unfold showLoginUI. destruct (truthy _); [exact Hq|]. destruct (JMap.get _ _) as [[|]|]; [|exact Hq|];
      destruct (JMap.get _ _) as [[|]|]; exact Hq. }
  unfold checkAuthStatus. destruct config as [d|]; [|by apply L]. destruct (prop d _) as [|en]; [by apply L|]. cbv zeta.
  destruct me as [d'|]; [|by apply L]. destruct (prop d' _); [by apply L|]. destruct (_ && _); [|by apply L].
  destruct (userName _); [by apply L|exact Hp].
Qed.

Lemma page_inv_leaderboards p d1 d2 : page_inv p -> page_inv (loadLeaderboards d1 d2 p).
Proof.
  intros Hp. unfold loadLeaderboards. destruct d1 as [d|]; [|done]. destruct (renderLeaderboard d); [done|].
  destruct d2 as [d'|]; [|exact Hp]. destruct (renderLeaderboard d'); exact Hp.
Qed.

Lemma page_inv_start name p : page_inv p -> page_inv (startGame name p).
Proof.
  intros Hp. eapply page_inv_client; [| | |exact Hp]; [by repeat split| |done]. cbn.
  eapply client_ok_same; [| |apply Hp]; by repeat split.
Qed.

Lemma page_inv_local f p : keeps_identity f -> page_inv p -> page_inv (upd_client (upd_local f) p).
Proof.
  intros Hf Hp. eapply page_inv_client; [| | |exact Hp]; [by repeat split| |apply ready_local].
  apply client_ok_local; [done|apply Hp].
Qed.

Lemma page_inv_chat key p : page_inv p -> page_inv (onChatKey key p).
Proof.
  intros Hp. unfold onChatKey. set (p1 := if str_eqb key (js "Escape") then _ else p).
  assert (H1' : page_inv p1) by (subst p1; destruct (str_eqb _ _); exact Hp).
  destruct (str_eqb key (js "Enter")); [|done]. destruct (trim (chatText p1)) as [|u t]; [done|].
  set (p2 := upd_client _ p1). assert (H2' : page_inv p2) by (apply page_inv_local; [by intros m|done]).
  eapply page_inv_client; [| | |exact H2']; [by repeat split| |done].
  eapply client_ok_same; [| |apply H2']; by repeat split.
Qed.

Lemma page_inv_mouse dx dy p :
  between (num_of_Z (- 2 ^ 31)) (num_of_Z (2 ^ 31)) dy -> page_inv p -> page_inv (onMouseMove dx dy p).
Proof.
  intros Hd Hp. unfold onMouseMove. destruct (local_model (client p)) as [m|]; [|done].
  destruct (isPointerLocked p); [|done]. cbn [negb].
  set (yaw := (_ - dx * _)%num). set (p1 := upd_client (set_cameraYaw yaw) _).
  assert (H1' : page_inv p1).
  { destruct Hp as (P1 & P2 & P3 & P4). split; [|split; [|split]]; [|by apply pitch_ok|done|done].
    eapply client_ok_same; [| |exact P1]; by repeat split. }
  destruct (negb _); [by apply page_inv_local|done].
Qed.

Lemma page_inv_frame fuel delta time now dn p p' :
  fin delta = true -> nleb nzero delta = true -> animate distanceTo fuel delta time now dn p = Some p' ->
  page_inv p -> page_inv p'.
Proof.
  intros Hf Hz Ha (P1 & P2 & P3 & P4). unfold animate in Ha. pose proof (dt_ok delta Hf Hz) as Hdt.
  set (dt := math_min delta (num_dec 1 1)) in *.
  destruct (updatePlayers _ _ _ _ _) as [c|] eqn:Eu; [|done].
  destruct (updatePlayers_ok _ _ _ _ _ _ Eu P1) as [[T1 B1] R1].
  set (c2 := snowballLoop (obstacles p) dt (length (snowballs c)) c) in *.
  destruct (loop_tables (obstacles p) dt (length (snowballs c)) c) as [T2 R2]. fold c2 in T2, R2.
  assert (C2 : client_ok c2) by (split; [by eapply tables_ok_same|by apply balls_ok_loop]).
  destruct (sendState_same now c2) as (T3 & B3 & R3). set (c3 := maybeSendLocalState now c2) in *.
  assert (C3 : client_ok c3) by (by eapply client_ok_same).
  set (p2 := updateMusicVolume distanceTo (set_client c3 p)) in *.
  assert (I2 : page_inv p2).
  { assert (I1 : page_inv (set_client c3 p)) by (split; [done|]; split; [done|]; cbn; rewrite R3, R2, R1; done).
    subst p2. unfold updateMusicVolume. by destruct (local_model _). }
  assert (I3 : page_inv (followCamera p2)).
  { unfold followCamera. destruct (local_model _) as [m|]; [|done]. cbv zeta.
    destruct (cameraMode p2); (apply page_inv_local; [by intros x|exact I2]). }
  injection Ha as <-. destruct I3 as (Q1 & Q2 & Q3 & Q4). do 3 (split; [done|]). cbn [snow set_world set_treePose].
  apply Forall_map. eapply Forall_impl; [exact Q4|]. intros v Hv. by apply fall_ok.
Qed.

Lemma page_inv_network e p : page_inv p -> page_inv (onNetwork round e p).
Proof.
  intros (P1 & P2 & P3 & P4). unfold onNetwork. destruct (step_frame (client p) e) as [R _].
  assert (C : client_ok (client_step to_text round (client p) e)).
  { split; [apply tables_ok_step, P1|apply balls_ok_step, P1]. }
  assert (G : forall q, client q = client p -> cameraPitch q = cameraPitch p -> Forall flake_ok (snow q) ->
    (environmentReady (client_step to_text round (client p) e) = true <-> scenery q <> None) ->
    page_inv (upd_client (fun c => client_step to_text round c e) q)).
  { intros q E1 E2 E3 E4. unfold page_inv, upd_client. cbn. rewrite E1, E2. done. }
  rewrite R in G. destruct e as [| | | | | |now dn msg| |]; try (by apply G). destruct msg; try (by apply G).
  unfold ensureEnvironment. destruct (scenery p) eqn:Es; [apply G; try done; by rewrite Es|].
  apply G; try done. cbn [snow set_world]. apply scenery_snow.
Qed.

Lemma page_inv_keydown code p : page_inv p -> page_inv (onKeyDown code p).
Proof.
  intros Hp. unfold onKeyDown. destruct (chatFocused p); [done|]. destruct (loginOverlay p); [done|].
  destruct (_ || _); [exact Hp|]. destruct (str_eqb _ _); [exact Hp|]. destruct (str_eqb _ _); [exact Hp|].
  by apply page_inv_local.
Qed.

Lemma page_inv_guestKey key code p : page_inv p -> page_inv (onGuestKey key code p).
Proof. intros Hp. unfold onGuestKey. apply page_inv_keydown. destruct (str_eqb _ _); [by apply page_inv_start|exact Hp]. Qed.

Lemma page_inv_chatTimeout a p : page_inv p -> page_inv (upd_client (upd_model a (set_chat None)) p).
Proof.
  intros Hp. eapply page_inv_client; [| | |exact Hp]; [by repeat split| |done]. destruct Hp as ((T & B) & _).
  split; [by apply tables_ok_upd|exact B].
Qed.

Lemma page_inv_step fuel p e p' :
  event_ok e -> page_step distanceTo round fuel p e = Some p' -> page_inv p -> page_inv p'.
Proof.
  intros He Hs Hp. destruct e; cbn [page_step event_ok] in *; try injection Hs as <-; try exact Hp.
  - by apply page_inv_network.
  - by apply page_inv_auth.
  - by apply page_inv_leaderboards.
  - unfold startClicked. destruct (userName _); [done|by apply page_inv_start].
  - by apply page_inv_guestKey.
  - by apply page_inv_chat.
  - unfold onMouseDown. destruct (chatFocused p); [done|]. destruct (loginOverlay p); [done|].
    destruct (_ =? 0); [|done]. destruct (negb _); [done|].
    eapply page_inv_client; [| | |exact Hp]; [by repeat split|apply client_ok_throw, Hp|apply ready_throw].
  - by apply page_inv_mouse.
  - by apply page_inv_keydown.
  - by apply page_inv_local.
  - destruct He. by eapply page_inv_frame.
  - eapply page_inv_client; [| | |exact Hp]; [by repeat split| |]; cbn;
      unfold destroySnowball; destruct (balls (client p) !! b) as [sb|] eqn:Eb; [|apply Hp| |done].
    + destruct (negb (sb_active sb)) eqn:Ea; [apply Hp|]. split; [by eapply tables_ok_same; [|apply Hp]|].
      pose proof (balls_ok_destroy b (client p) ltac:(apply Hp)) as Hd. unfold destroySnowball in Hd. by rewrite Eb, Ea in Hd.
    + by destruct (negb _).
  - by apply page_inv_chatTimeout.
Qed.

Lemma init_page_inv : page_inv init_page.
Proof.
  split; [split|].
  - unfold tables_ok. cbn. split; [apply JMap.wf_nil|]. split; [constructor|]. done.
  - unfold balls_ok. cbn. split; [constructor|]. done.
  - split; [by vm_compute|]. split; [|constructor]. by split.
Qed.

Lemma page_inv_run fuel es p p' :
  Forall event_ok es -> page_run distanceTo round fuel p es = Some p' -> page_inv p -> page_inv p'.
Proof.
  intros Hes. revert p. induction Hes as [|e es He _ IH]; intros p; cbn [page_run]; [by intros [= <-]|].
  destruct (page_step _ _ _ p e) as [q|] eqn:Es; [|done]. intros Hr Hp. eapply IH; [exact Hr|by eapply page_inv_step].
Qed.

(** C19: The page's invariant: whatever happens, in whatever order (network
    events, keys, mouse, timers, models that finish loading, frames), the tables
    of players and of snowballs stay consistent, the camera's pitch stays
    between -1.5 and 1.5, the scenery exists exactly once the server has
    welcomed the client, and every snowflake is between the ground and height
    50. *)
Theorem page_invariant fuel es p :
  Forall event_ok es -> page_run distanceTo round fuel init_page es = Some p -> page_inv p.
Proof. intros Hes Hr. eapply page_inv_run; [exact Hes|exact Hr|apply init_page_inv]. Qed.

(** ** When a frame ends *)

(** A remote player whose angles are of ordinary size, if it is alive. *)
Definition turns_end (m : PlayerModel) : Prop :=
  p_dead m = false -> p_isRemote m = true -> ordinary (tg_rotY (p_target m)) /\ ordinary (m_rotY (p_motion m)).

(** A live remote player whose target is out of reach. *)
Definition turns_hang (m : PlayerModel) : Prop :=
  p_dead m = false /\ p_isRemote m = true /\
  fin (tg_rotY (p_target m)) = true /\ nleb huge (tg_rotY (p_target m)) = true /\
  between nzero (num_of_Z (2 ^ 56)) (m_rotY (p_motion m)).

Lemma update_ends ws dn dt yaw m :
  turns_end m ->
  exists r, forall fuel, 2 ^ 50 <= Z.of_nat fuel -> update fuel ws dn dt yaw m = Some r.
Proof.
  intros Hm. unfold turns_end in Hm. unfold update. destruct (p_dead m); [by eexists|]. cbn [p_isRemote set_motion p_isBot].
  destruct (p_isRemote m); [|destruct (p_isBot m); [by eexists|]; destruct (updateLocal _ _ _ _); by eexists].
  destruct Hm as [Ht Hc]; [done..|].
  destruct (unwrap_total (tg_rotY (p_target m)) (m_rotY (p_motion m)) Ht Hc) as [y Hy].
  eexists. intros fuel Hf. unfold updateRemote. cbn [set_motion p_target p_motion m_rotY with_rotX].
  rewrite (Hy fuel Hf). reflexivity.
Qed.

Lemma updatePlayers_ends dn dt l c :
  NoDup l -> Forall (fun a => forall m, the_model a c = Some m -> turns_end m) l ->
  exists c', forall fuel, 2 ^ 50 <= Z.of_nat fuel -> updatePlayers fuel dn dt l c = Some c'.
Proof.
  revert c. induction l as [|a l IH]; intros c Hnd Hall; cbn [updatePlayers]; [by eexists|].
  inversion Hnd as [|? ? Ha Hnd']; subst. inversion Hall as [|? ? Hm Hall']; subst.
  destruct (the_model a c) as [m|] eqn:Em; [|by apply IH].
  destruct (update_ends (worldSeed c) dn dt (cameraYaw c) m (Hm m eq_refl)) as [[m' yaw] Hu].
  destruct (IH (set_cameraYaw yaw (upd_model a (fun _ => m') c)) Hnd') as [c' Hc'].
  { apply Forall_forall. intros b Hb. rewrite Forall_forall in Hall'. specialize (Hall' b Hb).
    intros x. unfold the_model. cbn. rewrite list_lookup_alter_ne by (intros ->; done). apply Hall'. }
  exists c'. intros fuel Hf. rewrite (Hu fuel Hf). by apply Hc'.
Qed.

Lemma frame_ends delta time now dn p :
  page_inv p -> Forall (fun a => forall m, the_model a (client p) = Some m -> turns_end m) (players (client p)) ->
  exists p', forall fuel, 2 ^ 50 <= Z.of_nat fuel -> animate distanceTo fuel delta time now dn p = Some p'.
Proof.
  intros ((T & _) & _) Hall. destruct T as (_ & Hnd & _).
  destruct (updatePlayers_ends (num_of_Z dn) (math_min delta (num_dec 1 1)) _ _ Hnd Hall) as [c Hc].
  eexists. intros fuel Hf. unfold animate. rewrite (Hc fuel Hf). reflexivity.
Qed.

(** C20: A frame ends: in every state the page can reach, if the angles of the
    live remote players are of ordinary size (up to 2^50 radians), the next
    frame runs to its end with one and the same result, however many iterations
    beyond 2^50 its loops may take. *)
Theorem frame_completes fuel es delta time now dn p :
  Forall event_ok es -> page_run distanceTo round fuel init_page es = Some p ->
  Forall (fun a => forall m, the_model a (client p) = Some m -> turns_end m) (players (client p)) ->
  exists p', forall fuel', 2 ^ 50 <= Z.of_nat fuel' ->
    page_run distanceTo round fuel' p [Frame delta time now dn] = Some p'.
Proof.
  intros Hes Hr Hall. destruct (frame_ends delta time now dn p) as [p' Hp']; [|done|].
  { eapply page_inv_run; [exact Hes|exact Hr|apply init_page_inv]. }
  exists p'. intros fuel' Hf. cbn [page_run page_step]. by rewrite Hp'.
Qed.

Lemma updatePlayers_hangs fuel dn dt a m l c :
  NoDup l -> a ∈ l -> the_model a c = Some m -> turns_hang m -> updatePlayers fuel dn dt l c = None.
Proof.
  revert c. induction l as [|b l IH]; intros c Hnd Hin Em Hm; [by apply elem_of_nil in Hin|].
  inversion Hnd as [|? ? Hb Hnd']; subst. cbn [updatePlayers]. destruct (decide (a = b)) as [->|Hne].
  - rewrite Em. destruct Hm as (Hd & Hr & Ht & Hh & Hc). unfold update. rewrite Hd.
    cbn [p_isRemote set_motion p_isBot]. rewrite Hr. unfold updateRemote.
    cbn [set_motion p_target p_motion m_rotY with_rotX]. by rewrite unwrap_hangs.
  - apply elem_of_cons in Hin as [|Hin]; [done|]. destruct (the_model b c) as [x|] eqn:Ex; [|by apply IH].
    destruct (update _ _ _ _ _ _) as [[x' yaw]|]; [|done]. apply IH; [done..| |done].
    unfold the_model in *. cbn. by rewrite list_lookup_alter_ne.
Qed.


(** ** Snowballs end *)

(** The snowball at [b] has ended. *)
Definition ended (b : nat) (c : ClientState) : Prop := exists sb, balls c !! b = Some sb /\ sb_active sb = false.

Lemma ended_balls b c c' : balls c' = balls c -> ended b c -> ended b c'.
Proof. unfold ended. by intros ->. Qed.

Lemma ended_app b sb c c' : balls c' = balls c ++ [sb] -> ended b c -> ended b c'.
Proof. intros E (x & Hx & Ha). exists x. rewrite E. split; [by apply lookup_app_l_Some|done]. Qed.

Lemma ended_destroy b k c : ended b c -> ended b (destroySnowball k c).
Proof.
  intros (x & Hx & Ha). unfold destroySnowball. destruct (balls c !! k) as [sb|] eqn:Hk; [|by exists x].
  destruct (sb_active sb) eqn:Es; cbn [negb]; [|by exists x]. exists x. cbn. split; [|done].
  rewrite list_lookup_insert_ne; [done|]. intros ->. congruence.
Qed.

Lemma destroy_ends b c : is_Some (balls c !! b) -> ended b (destroySnowball b c).
Proof.
  intros [sb Hb]. unfold destroySnowball. rewrite Hb. destruct (sb_active sb) eqn:Es; cbn [negb]; [|by exists sb].
  eexists. cbn. split; [by apply list_lookup_insert_eq, (lookup_lt_Some _ _ _ Hb)|done].
Qed.

Lemma ended_loop b obs dt i c : ended b c -> ended b (snowballLoop obs dt i c).
Proof.
  revert c. induction i as [|i IH]; intros c Hc; cbn [snowballLoop]; [done|].
  destruct (snowballs c !! i) as [k|]; [|by apply IH]. apply IH.
  assert (Hu : ended b (updateBall obs dt k c)).
  { destruct Hc as (x & Hx & Ha). destruct (updateBall_spec obs dt k c) as (U & _).
    exists (if decide (b = k) then updateSnowball (worldSeed c) obs dt x else x). rewrite U.
    case_decide; rewrite Hx; [|done]. split; [done|]. unfold updateSnowball. by rewrite Ha. }
  by destruct (negb _).
Qed.

Lemma updatePlayers_balls fuel dn dt l c c' : updatePlayers fuel dn dt l c = Some c' -> same_balls c c'.
Proof.
  revert c. induction l as [|a l IH]; intros c; cbn [updatePlayers]; [by intros [= <-]|].
  destruct (the_model a c) as [m|]; [|apply IH]. destruct (update _ _ _ _ _ _) as [[m' yaw]|]; [|done].
  intros Hu. exact (IH _ Hu).
Qed.

Lemma view_balls p :
  balls (client (followCamera (updateMusicVolume distanceTo p))) = balls (client p) /\
  snowballs (client (followCamera (updateMusicVolume distanceTo p))) = snowballs (client p).
Proof.
  assert (L : forall f q, client q = client p -> balls (client (upd_client (upd_local f) q)) = balls (client p) /\
    snowballs (client (upd_client (upd_local f) q)) = snowballs (client p)).
  { intros f q E. unfold upd_client, upd_local. cbn. rewrite E. by destruct (localPlayer _). }
  unfold updateMusicVolume. destruct (local_model (client p)) as [m|] eqn:Em;
    unfold followCamera; cbn [client set_gain]; rewrite Em; [|done].
  cbn [cameraMode set_gain]. destruct (cameraMode p); by apply L.
Qed.

(** After a frame's loop, an ended snowball is no longer listed. *)
Lemma frame_clears b fuel delta time now dn p p' :
  page_inv p -> ended b (client p) -> animate distanceTo fuel delta time now dn p = Some p' ->
  ended b (client p') /\ (b ∉ snowballs (client p')).
Proof.
  intros ((_ & B) & _) Hb. unfold animate. destruct (updatePlayers _ _ _ _ _) as [c|] eqn:Eu; [|done].
  pose proof (updatePlayers_balls _ _ _ _ _ _ Eu) as Hs. intros [= <-]. cbn [client set_world set_treePose].
  set (dt := math_min delta (num_dec 1 1)). set (c2 := snowballLoop (obstacles p) dt _ c).
  destruct (view_balls (set_client (maybeSendLocalState now c2) p)) as [V1 V2].
  destruct (sendState_same now c2) as (_ & (S1 & S2 & _) & _). cbn [client set_client] in *.
  assert (B' : balls_ok c) by (by eapply balls_ok_same). destruct B' as (Hnd & _).
  destruct (loop_spec (obstacles p) dt (snowballs c) [] c) as [_ L]; [by rewrite app_nil_r|done|].
  fold c2 in L. assert (Hc2 : ended b c2).
  { apply ended_loop. eapply ended_balls; [|exact Hb]. by destruct Hs as (-> & _). }
  split; [apply (ended_balls b c2); [by rewrite V1, S1|done]|].
  rewrite V2, S2, L, app_nil_r, list_elem_of_In, filter_In. intros [_ Ha].
  destruct Hc2 as (x & Hx & Hn). unfold ball_active in Ha. rewrite Hx, Hn in Ha. done.
Qed.

Lemma ended_page_step b fuel p e p' :
  page_inv p -> page_step distanceTo round fuel p e = Some p' -> ended b (client p) -> ended b (client p').
Proof.
  intros Hp Hs Hb.
  assert (L : forall f q, client q = client p -> ended b (client (upd_client (upd_local f) q))).
  { intros f q E. unfold upd_client, upd_local. cbn. rewrite E. by destruct (localPlayer _). }
  destruct e; cbn [page_step] in Hs; try injection Hs as <-; try exact Hb.
  - unfold onNetwork. set (q := match e with NetMessage _ _ (SWelcome _ _ _ seed) => _ | _ => p end).
    assert (E : client q = client p).
    { subst q. destruct e as [| | | | | |? ? msg| |]; try done. destruct msg; try done. unfold ensureEnvironment.
      by destruct (scenery p). }
    unfold upd_client. cbn [client set_client]. rewrite E. destruct (step_frame (client p) e) as [_ [(S1 & _)|(sb & _ & ->)]];
      [by eapply ended_balls|by eapply ended_app].
  - unfold checkAuthStatus, showLoginUI. by repeat case_match.
  - unfold loadLeaderboards. by repeat case_match.
  - unfold startClicked. by destruct (userName _).
  - unfold onGuestKey, onKeyDown. repeat case_match; try done; (apply (ended_balls b (client p)); [|done]);
      unfold upd_client, upd_local; cbn; by destruct (localPlayer _).
  - unfold onChatKey. repeat case_match; try done; apply (ended_balls b (client p)); try done;
      unfold upd_client, upd_local; cbn; by destruct (localPlayer _).
  - unfold onMouseDown. repeat case_match; try done. unfold upd_client, throwLocal. cbn.
    repeat case_match; try done. eapply ended_app; [|exact Hb]. done.
  - unfold onMouseMove. repeat case_match; try done. apply (ended_balls b (client p)); [|done].
    unfold upd_client, upd_local. cbn. by destruct (localPlayer _).
  - unfold onKeyDown. repeat case_match; try done. by apply L.
  - by apply L.
  - by eapply frame_clears.
  - by apply ended_destroy.
Qed.


(** ** The scenery *)

Lemma scenery_step fuel p e p' sc :
  page_step distanceTo round fuel p e = Some p' -> scenery p = Some sc -> scenery p' = Some sc.
Proof.
  intros Hs Hsc. destruct e; cbn [page_step] in Hs; try injection Hs as <-; try exact Hsc.
  - unfold onNetwork. destruct e as [| | | | | |? ? msg| |]; try done. destruct msg; try done. cbn.
    unfold ensureEnvironment. by rewrite Hsc.
  - unfold checkAuthStatus, showLoginUI. by repeat case_match.
  - unfold loadLeaderboards. by repeat case_match.
  - unfold startClicked. by destruct (userName _).
  - unfold onGuestKey, onKeyDown. by repeat case_match.
  - unfold onChatKey. by repeat case_match.
  - unfold onMouseDown. by repeat case_match.
  - unfold onMouseMove. by repeat case_match.
  - unfold onKeyDown. by repeat case_match.
  - unfold animate in Hs. destruct (updatePlayers _ _ _ _ _) as [c|]; [|done]. injection Hs as <-. cbn.
    unfold followCamera, updateMusicVolume. repeat case_match; done.
Qed.

(** C38: The scenery is never rebuilt: whatever happens after it was made for
    one seed, a client welcomed again with another seed (the server draws one
    when it starts) walks on the new terrain among the old trees. *)
Theorem stale_scenery fuel es p p' p'' sc now dn id w t seed :
  scenery p = Some sc -> page_run distanceTo round fuel p es = Some p' ->
  page_step distanceTo round fuel p' (Network (NetMessage now dn (SWelcome id w t seed))) = Some p'' ->
  scenery p'' = Some sc /\ worldSeed (client p'') = num_of_Z seed.
Proof.
  intros Hsc Hr Hw. assert (Hsc' : scenery p' = Some sc).
  { clear Hw. revert p Hsc Hr. induction es as [|e es IH]; intros p Hsc; cbn [page_run]; [by intros [= <-]|].
    destruct (page_step _ _ _ p e) as [q|] eqn:Es; [|done]. apply IH. by eapply scenery_step. }
  split; [by eapply scenery_step|]. cbn [page_step] in Hw. injection Hw as <-.
  unfold onNetwork, ensureEnvironment. rewrite Hsc'. cbn [client upd_client set_client client_step onServerMsg].
  apply seed_welcome.
Qed.

(** ** The music *)

(** [Math.pow] with this exponent keeps the unit interval. *)
Definition pow_unit : Prop :=
  forall x, between nzero (num_of_Z 1) x -> between nzero (num_of_Z 1) (mpow x (num_dec 15 1)).

(** The music is never off and never amplified: the volume is between 0.05
    and 1 at every distance from the tree. *)
Theorem volume_range distance :
  pow_unit -> fin distance = true -> between (num_dec 5 2) (num_of_Z 1) (volumeAt distance).
Proof.
  intros Hpow Hd. unfold volumeAt. cbv zeta. pose proof (fin_number _ Hd) as Nd.
  destruct (nleb distance (num_of_Z 10)) eqn:E1; [by vm_compute|].
  destruct (nleb (num_of_Z 180) distance) eqn:E2; [by vm_compute|].
  rewrite nleb_nltb in E1, E2 by (first [done|by vm_compute]). apply negb_false_iff in E1, E2.
  assert (B : between (num_of_Z 10) (num_of_Z 180) distance).
  { split; [done|]. by split; apply below_le. }
  assert (U : between nzero (num_of_Z 1)
    (num_of_Z 1 - (distance - num_of_Z 10) / (num_of_Z 180 - num_of_Z 10))%num) by bounds.
  apply Hpow in U. set (v := mpow _ _) in *. destruct U as (Fv & _ & V1).
  apply (between_max _ (num_of_Z 1)); [by vm_compute|done|by vm_compute|done].
Qed.

(** Starting with the Enter key opens the chat box: the key that submits
    the guest's name goes on to the document, where the overlay is already
    hidden and Enter puts the cursor into the chat. *)
Theorem guest_enter_opens_chat fuel p p' :
  page_step distanceTo round fuel p (GuestKey (js "Enter") (js "Enter")) = Some p' ->
  loginOverlay p' = false /\ chatFocused p' = true.
Proof.
  intros E. assert (E' : onGuestKey (js "Enter") (js "Enter") p = p') by (by apply Some_inj). rewrite <- E'. clear E E' p'.
  unfold onGuestKey. change (str_eqb (js "Enter") (js "Enter")) with true. cbv iota zeta.
  unfold onKeyDown. change (str_eqb (js "Enter") (js "KeyT") || str_eqb (js "Enter") (js "Enter")) with true.
  change (chatFocused (playMusic (playMusic (guestClicked p)))) with (chatFocused p).
  change (loginOverlay (playMusic (playMusic (guestClicked p)))) with false.
  destruct (chatFocused p) eqn:E; [|by split]. split; [done|exact E].
Qed.

End Page.

(** ** Concrete instances *)

(** A plain geometry: no vertices, boxes measured componentwise. *)
#[export] Instance plain_geometry : Geometry := {
  plane_vertices := [];
  cone_vertices := fun _ _ => [];
  box_size := fun b => mkVec3 (vx (b_max b) - vx (b_min b))%num (vy (b_max b) - vy (b_min b))%num
                         (vz (b_max b) - vz (b_min b))%num;
  box_center := fun b => b_min b;
}.

Definition plain_distance (a b : Vec3) : num := hypot3 (vx a - vx b)%num (vy a - vy b)%num (vz a - vz b)%num.

Definition ann : PlayerSnapshot Vec3 := sample_snap (js "ann") 100 50.

(** A remote player that looks in a far away direction. *)
Definition spinning (rotY : num) : PlayerSnapshot Vec3 :=
  mkSnap (js "bob") (JStr (js "Bob")) vec_zero rotY vec_zero 100 false (Some 0) 50 None.

(** A page with two remote players and a snowball in flight. *)
Definition sample_events (rotY : num) : list PageEvent :=
  [GuestTyped (js "Me"); GuestClicked;
   Network (NetMessage (num_of_Z 0) 0 (SWelcome (js "me") (js "global") 0 7));
   Network (NetMessage (num_of_Z 0) 0 (SSnapshot (js "global") [ann; spinning rotY] 0));
   Network (NetMessage (num_of_Z 0) 0 (SEvent (mkEvent 1 0 (EvSnowball (js "s1") (js "ann") vec_zero vec_zero (num_of_Z 26)))))].

Definition sample_page (rotY : num) : option Page :=
  page_run plain_distance (fun x => x) 5 init_page (sample_events rotY).

Definition the_page (rotY : num) : Page := default init_page (sample_page rotY).

Lemma sample_page_runs rotY : sample_page rotY = Some (the_page rotY).
Proof. reflexivity. Qed.

Lemma sample_events_ok rotY : Forall event_ok (sample_events rotY).
Proof. repeat constructor. Qed.

Lemma sample_page_inv rotY : page_inv (the_page rotY).
Proof.
  apply (page_inv_run plain_distance (fun x => x) 5 (sample_events rotY) init_page);
    [apply sample_events_ok|apply sample_page_runs|apply init_page_inv].
Qed.

Lemma sample_turns :
  Forall (fun a => forall m, the_model a (client (the_page (num_of_Z 1))) = Some m -> turns_end m)
    (players (client (the_page (num_of_Z 1)))).
Proof.
  assert (E : players (client (the_page (num_of_Z 1))) = [0%nat; 1%nat]) by (lazy; reflexivity).
  rewrite E. do 2 (apply Forall_cons_2; [intros m Hm; lazy in Hm; injection Hm as <-; intros _ _; by vm_compute|]).
  apply Forall_nil_2.
Qed.

Lemma turns_destroy b c :
  Forall (fun a => forall m, the_model a c = Some m -> turns_end m) (players c) ->
  Forall (fun a => forall m, the_model a (destroySnowball b c) = Some m -> turns_end m) (players (destroySnowball b c)).
Proof. unfold destroySnowball. destruct (balls c !! b); [|done]. by destruct (negb _). Qed.

Lemma snowball_loop_once_witness :
  let c := add_ball (newSnowball (js "s1") vec_zero vec_zero (js "ann")) init_client in
  snowballs (snowballLoop [] (num_dec 1 1) 1 c) = [].
Proof.
  intros c. destruct (snowball_loop_once [] (num_dec 1 1) c) as [_ E].
  { apply balls_ok_add; [reflexivity|]. unfold balls_ok. cbn. repeat split; try constructor; done. }
  change (length (snowballs c)) with 1%nat in E. rewrite E. vm_compute. reflexivity.
Defined.

Lemma page_invariant_witness : page_inv (the_page (num_of_Z 1)).
Proof.
  apply (page_invariant plain_distance (fun x => x) 5 (sample_events (num_of_Z 1)));
    [apply sample_events_ok|apply sample_page_runs].
Defined.

Lemma frame_completes_witness :
  exists p', page_run plain_distance (fun x => x) (Z.to_nat (2 ^ 50)) (the_page (num_of_Z 1))
    [Frame (num_dec 1 1) (num_of_Z 1) (num_of_Z 16) 16] = Some p'.
Proof.
  destruct (frame_completes plain_distance (fun x => x) 5 (sample_events (num_of_Z 1)) (num_dec 1 1) (num_of_Z 1) (num_of_Z 16) 16
    (the_page (num_of_Z 1)) (sample_events_ok _) (sample_page_runs _) sample_turns) as [p' Hp'].
  exists p'. apply Hp'. rewrite Z2Nat.id; [reflexivity|discriminate].
Defined.



Lemma stale_scenery_witness :
  exists p'', scenery p'' = Some (createEnvironment 7) /\ worldSeed (client p'') = num_of_Z 8.
Proof.
  eexists. apply (stale_scenery plain_distance (fun x => x) 5 [] (the_page (num_of_Z 1)) (the_page (num_of_Z 1)) _
    (createEnvironment 7) (num_of_Z 0) 0 (js "me2") (js "global") 0 8); reflexivity.
Defined.

Lemma volume_range_witness : between (num_dec 5 2) (num_of_Z 1) (volumeAt (num_of_Z 95)).
Proof. apply (volume_range (num_of_Z 95)); [intros x Hx; exact Hx|reflexivity]. Defined.

Lemma guest_enter_opens_chat_witness :
  exists p', page_step plain_distance (fun x => x) 0 init_page (GuestKey (js "Enter") (js "Enter")) = Some p' /\
    chatFocused p' = true.
Proof.
  eexists. split; [reflexivity|].
  apply (guest_enter_opens_chat plain_distance (fun x => x) 0 init_page). reflexivity.
Defined.
