(* ===== verification/Replica.v ===== *)
(** * The client as a replica of the server's table

    The server keeps its table of players by applying every event it appends
    ([applyEventToCache], state.ts) and sends the event; the client applies the
    event to its own tables ([applyEvent], network.js).  Here the two are run
    side by side: a client that was welcomed and has received one snapshot
    stays a replica of the server's table: the same players, under the names
    the server has for them, and for the local player the same hit points and
    the right idea of being dead. *)

From S2P Require Import Prelude JsMap JsNum JsString JsValue Config Protocol ServerUtils Storage World State.
From S2P Require Import Concrete ClientUtils ClientPlayer ClientNet ClientThms.

(** ** What a client knows of a player *)

Record Known := mkKnown { kn_name : jsval; kn_hp : Z; kn_dead : bool }.

Definition known (m : PlayerModel) : Known := mkKnown (p_name m) (p_health m) (p_dead m).

Definition seen (c : ClientState) (k : jsstr) : option Known :=
  match JMap.get k (playersById c) with Some a => known <$> models c !! a | None => None end.

Lemma seen_same c c' k :
  models c' = models c -> playersById c' = playersById c -> seen c' k = seen c k.
Proof. unfold seen. by intros -> ->. Qed.

Section Replica.
Context `{JsMath} `{Three} (toStr : jsval -> jsstr) (round : num -> num) (me : jsstr).

(** A client that was welcomed as [me]: its tables are consistent and
    [localPlayer] is the entry under its id, if there is one. *)
Definition base (c : ClientState) : Prop :=
  tables_ok c /\ localPlayerId c = Some me /\ localPlayer c = JMap.get me (playersById c).

Lemma base_same c c' : same_tables c c' -> base c -> base c'.
Proof.
  intros Hs (T & E & L). pose proof (tables_ok_same _ _ Hs T) as T'. destruct Hs as (_ & _ & E3 & E4 & E5).
  unfold base. by rewrite E3, E4, E5.
Qed.

Lemma base_local id c : base c -> is_local id c = str_eqb id me.
Proof. intros (_ & E & _). unfold is_local. by rewrite E. Qed.

(** [c1] is [c] where the entry [id] is the model [m] at [a]. *)
Definition puts (c c1 : ClientState) (id : jsstr) (a : nat) (m : PlayerModel) : Prop :=
  base c1 /\ JMap.get id (playersById c1) = Some a /\ models c1 !! a = Some m /\
  forall k, k <> id -> seen c1 k = seen c k.

Lemma puts_seen c c1 id a m : puts c c1 id a m -> seen c1 id = Some (known m).
Proof. intros (_ & E & Hm & _). unfold seen. by rewrite E, Hm. Qed.

Lemma puts_get c id a m :
  base c -> JMap.get id (playersById c) = Some a -> models c !! a = Some m -> puts c c id a m.
Proof. intros. unfold puts. auto. Qed.

Lemma puts_same c c1 c2 id a m : same_tables c1 c2 -> puts c c1 id a m -> puts c c2 id a m.
Proof.
  intros Hs (B & G & M & O). split; [by eapply base_same|]. pose proof Hs as (E1 & _ & E3 & _).
  rewrite E1, E3. do 2 (split; [done|]). intros k Hk. rewrite (seen_same c1 c2 k E1 E3). auto.
Qed.

(** Different ids have different models. *)
Lemma entries_differ c k k' a :
  tables_ok c -> JMap.get k (playersById c) = Some a -> JMap.get k' (playersById c) = Some a -> k = k'.
Proof.
  intros (_ & _ & _ & Hid & _) H1 H2. destruct (Hid k a H1) as (_ & m & Hm & <-).
  destruct (Hid k' a H2) as (_ & m' & Hm' & <-). congruence.
Qed.

Lemma puts_upd c c1 id a m f :
  keeps_identity f -> puts c c1 id a m -> puts c (upd_model a f c1) id a (f m).
Proof.
  intros Hf ((T & E & L) & G & M & O). split; [split; [by apply tables_ok_upd|done]|]. split; [done|].
  split; [cbn; by rewrite list_lookup_alter_eq, M|]. intros k Hk. rewrite <- O by done. unfold seen. cbn.
  destruct (JMap.get k (playersById c1)) as [b|] eqn:Eb; [|done].
  rewrite list_lookup_alter_ne; [done|]. intros <-. apply Hk. by eapply entries_differ.
Qed.

Lemma seen_add m c k :
  tables_ok c -> seen (snd (add_player m c)) k = if decide (k = p_id m) then Some (known m) else seen c k.
Proof.
  intros (_ & _ & _ & Hid & _). unfold seen. cbn. rewrite JMap.get_set. case_decide as Ek.
  - by rewrite lookup_app_r, Nat.sub_diag by lia.
  - destruct (JMap.get k (playersById c)) as [b|] eqn:Eb; [|done]. destruct (Hid k b Eb) as (_ & x & Hx & _).
    by rewrite (lookup_app_l_Some _ _ _ _ Hx), Hx.
Qed.

Lemma puts_add c m :
  base c -> p_id m <> me -> puts c (snd (add_player m c)) (p_id m) (fst (add_player m c)) m.
Proof.
  intros (T & E & L) Hne. destruct (tables_ok_add m c T) as [T' M]. split; [split; [done|split; [done|]]|].
  - cbn. by rewrite JMap.get_set_ne by done.
  - split; [cbn; by rewrite JMap.get_set_eq|]. split; [done|]. intros k Hk. rewrite seen_add by done.
    by rewrite decide_False.
Qed.

Lemma puts_local c snap :
  base c -> ps_id snap = me -> localPlayer c = None ->
  exists a m, puts c (createLocalPlayer snap c) me a m /\ localPlayer (createLocalPlayer snap c) = Some a /\
    known m = mkKnown (fixName (ps_name snap)) (ps_hp snap) false /\ p_lastHpAt m = Some (ps_updatedAt snap).
Proof.
  intros (T & E & L) Hid Hl. unfold createLocalPlayer.
  set (m := set_hp _ _ _ _). destruct (tables_ok_add m c T) as [_ M].
  exists (length (models c)), m. split; [|done]. split; [split; [|split]|].
  - apply (tables_ok_createLocal snap); [by rewrite E, Hid|done].
  - done.
  - cbn. by rewrite Hid, JMap.get_set_eq.
  - split; [cbn; by rewrite Hid, JMap.get_set_eq|]. split; [exact M|]. intros k Hk.
    transitivity (seen (snd (add_player m c)) k); [by apply seen_same|].
    rewrite seen_add by done. apply decide_False. cbn. congruence.
Qed.

Lemma remove_seen id c :
  base c -> id <> me ->
  base (removePlayer id c) /\ forall k, seen (removePlayer id c) k = if decide (k = id) then None else seen c k.
Proof.
  intros (T & E & L) Hne. split.
  - split; [by apply tables_ok_remove|]. rewrite removePlayer_me. split; [done|]. unfold removePlayer.
    destruct (JMap.get id (playersById c)); [|done]. simpl. by rewrite JMap.get_delete_ne by done.
  - intros k. unfold seen, removePlayer. destruct (JMap.get id (playersById c)) as [a|] eqn:Ea.
    + simpl. rewrite JMap.get_delete. by case_decide.
    + case_decide; [subst; by rewrite Ea|done].
Qed.

(** ** The two sides agree *)

Definition Table : Type := JMap.jsmap jsstr (PlayerSnapshot vref).

(** What the client knows of a player against what the server has. *)
Definition agrees (k : jsstr) (s : option (PlayerSnapshot vref)) (v : option Known) : Prop :=
  match s, v with
  | Some s, Some v => kn_name v = fixName (ps_name s) /\
                      (k = me -> kn_hp v = ps_hp s /\ kn_dead v = (ps_hp s <=? 0))
  | None, None => True
  | _, _ => False
  end.

(** The server's table is keyed by the players' ids. *)
Definition keyed (t : Table) : Prop :=
  JMap.wf t /\ forall k s, JMap.get k t = Some s -> ps_id s = k /\ k <> [].

Definition mirrors (t : Table) (c : ClientState) : Prop :=
  base c /\ keyed t /\ is_Some (JMap.get me t) /\ forall k, agrees k (JMap.get k t) (seen c k).

(** *** Events *)

Lemma get_upd_snap id f (t : Table) k :
  JMap.get k (upd_snap id f t) = if decide (k = id) then f <$> JMap.get k t else JMap.get k t.
Proof.
  unfold upd_snap. destruct (JMap.get id t) as [s|] eqn:E.
  - rewrite JMap.get_set. case_decide; [subst; by rewrite E|done].
  - case_decide; [subst; by rewrite E|done].
Qed.

Lemma keyed_upd id f t : (forall s, ps_id (f s) = ps_id s) -> keyed t -> keyed (upd_snap id f t).
Proof.
  intros Hf [W K]. split.
  - unfold upd_snap. destruct (JMap.get id t); auto with snow.
  - intros k s. rewrite get_upd_snap. case_decide; [|apply K].
    destruct (JMap.get k t) as [s0|] eqn:E; [|done]. intros [= <-]. rewrite Hf. by apply K.
Qed.

(** An event about the player [id]: if the new entries agree whenever the old
    ones did, the tables still do. *)
Lemma mirrors_upd id f t c c' :
  (forall s, ps_id (f s) = ps_id s) -> mirrors t c -> base c' -> (forall k, k <> id -> seen c' k = seen c k) ->
  (forall s v, agrees id (Some s) (Some v) -> JMap.get id t = Some s -> seen c id = Some v ->
     exists v', seen c' id = Some v' /\ agrees id (Some (f s)) (Some v')) ->
  (seen c id = None -> seen c' id = None) ->
  mirrors (upd_snap id f t) c'.
Proof.
  intros Hf (B & K & M & A) B' O U N. split; [done|]. split; [by apply keyed_upd|]. split.
  - rewrite get_upd_snap. case_decide; [by apply fmap_is_Some|done].
  - intros k. rewrite get_upd_snap. case_decide as Ek; [subst k|by rewrite O].
    specialize (A id). destruct (JMap.get id t) as [s|] eqn:Es, (seen c id) as [v|] eqn:Ev; try done.
    + destruct (U s v A eq_refl eq_refl) as (v' & -> & A'). exact A'.
    + by rewrite N.
Qed.

(** The client's entry for [id], if any. *)
Lemma entry c id :
  base c -> (exists a m, JMap.get id (playersById c) = Some a /\ models c !! a = Some m /\ puts c c id a m) \/
            (JMap.get id (playersById c) = None /\ seen c id = None).
Proof.
  intros B. destruct (JMap.get id (playersById c)) as [a|] eqn:E.
  - left. pose proof B as ((_ & _ & _ & Hid & _) & _). destruct (Hid id a E) as (_ & m & Hm & _).
    exists a, m. split; [done|]. split; [done|]. by apply puts_get.
  - right. split; [done|]. unfold seen. by rewrite E.
Qed.

(** The common case: the client updates the model it has for [id]. *)
Lemma mirrors_model id f t c c' g :
  (forall s, ps_id (f s) = ps_id s) -> mirrors t c ->
  (forall a m, JMap.get id (playersById c) = Some a -> puts c c id a m ->
     exists m', puts c c' id a m' /\ known m' = g (known m)) ->
  (JMap.get id (playersById c) = None -> same_tables c c') ->
  (forall s v, JMap.get id t = Some s -> agrees id (Some s) (Some v) -> agrees id (Some (f s)) (Some (g v))) ->
  mirrors (upd_snap id f t) c'.
Proof.
  intros Hf Hm U N A. pose proof Hm as (B & _). destruct (entry c id B) as [(a & m & E & M & P)|[E Ns]].
  - destruct (U a m E P) as (m' & P' & K). pose proof (puts_seen _ _ _ _ _ P) as S.
    pose proof (puts_seen _ _ _ _ _ P') as S'. destruct P' as (B' & _ & _ & O').
    apply (mirrors_upd id f t c c'); [done..| |]; [|by rewrite S].
    intros s v Ha Hs Hv. rewrite S in Hv. injection Hv as <-. exists (known m'). split; [done|]. rewrite K. by apply A.
  - pose proof (N E) as Hs. pose proof Hs as (E1 & _ & E3 & _).
    apply (mirrors_upd id f t c c'); [done..|by eapply base_same| | |].
    + intros k _. by apply seen_same.
    + intros s v _ _. by rewrite Ns.
    + by rewrite (seen_same c c').
Qed.

Lemma mirrors_view t c c' : base c' -> (forall k, seen c' k = seen c k) -> mirrors t c -> mirrors t c'.
Proof. intros B S (_ & K & M & A). do 3 (split; [done|]). intros k. by rewrite S. Qed.

Lemma mirrors_same t c c' : same_tables c c' -> mirrors t c -> mirrors t c'.
Proof.
  intros Hs Hm. eapply mirrors_view; [by eapply base_same; [|apply Hm]| |exact Hm].
  destruct Hs as (E1 & _ & E3 & _). intros k. by apply seen_same.
Qed.

(** What the server appends: a joining id is new, the client's own player does
    not leave, a hit does not revive, who dies has lost all hit points, who
    respawns has some. *)
Definition event_fits (t : Table) (ev : WorldEvent vref) : Prop :=
  match ev_body ev with
  | EvJoin p => ps_id p <> [] /\ ps_id p <> me /\ JMap.get (ps_id p) t = None
  | EvLeave id _ => id <> me
  | EvHit _ v _ hp _ => forall s, JMap.get v t = Some s -> ps_hp s <= 0 -> hp <= 0
  | EvDeath v _ _ _ _ _ => forall s, JMap.get v t = Some s -> ps_hp s = 0
  | EvRespawn _ _ hp => 0 < hp
  | _ => True
  end.

Lemma mirrors_me t c : mirrors t c -> me <> [].
Proof. intros (_ & [_ K] & [s Hs] & _). by apply (K me s). Qed.

Lemma join_mirrors p q t c :
  ps_id p <> [] -> ps_id p <> me -> JMap.get (ps_id p) t = None -> ps_id q = ps_id p -> ps_name q = ps_name p ->
  mirrors t c -> mirrors (JMap.set (ps_id p) p t) (onJoin q c).
Proof.
  intros H1' H2' H3' Eq En Hm. pose proof (mirrors_me _ _ Hm) as Hme. pose proof Hm as (B & [W K] & M & A).
  unfold onJoin. pose proof B as (_ & E & _). rewrite E. destruct me as [|u us] eqn:Eme; [done|]. rewrite <- Eme in *.
  unfold str_eqb. rewrite Eq, bool_decide_eq_false_2 by congruence.
  assert (Hn : JMap.get (ps_id p) (playersById c) = None).
  { destruct (entry c (ps_id p) B) as [(a & m & _ & _ & P)|[Hn _]]; [|done].
    specialize (A (ps_id p)). rewrite H3', (puts_seen _ _ _ _ _ P) in A. done. }
  unfold JMap.has. rewrite Hn. set (m := newPlayerModel _ _ _ _ _).
  pose proof (puts_add c m B H2') as P. pose proof (puts_seen _ _ _ _ _ P) as S. destruct P as (B' & _ & _ & O).
  split; [done|]. split; [split; [auto with snow|]|].
  - intros k s. rewrite JMap.get_set. case_decide; [intros [= <-]; by subst|apply K].
  - split; [rewrite JMap.get_set; by case_decide|]. intros k. rewrite JMap.get_set. case_decide as Ek.
    + subst k. change (ps_id p) with (p_id m) at 2. rewrite S. cbn. rewrite En. split; [done|]. intros Hk. congruence.
    + by rewrite O.
Qed.

Lemma leave_mirrors id t c : id <> me -> mirrors t c -> mirrors (JMap.delete id t) (removePlayer id c).
Proof.
  intros Hne (B & [W K] & M & A). destruct (remove_seen id c B Hne) as [B' S]. split; [done|].
  split; [split; [auto with snow|]|].
  - intros k s. rewrite JMap.get_delete. case_decide; [done|apply K].
  - split; [rewrite JMap.get_delete_ne by done; done|]. intros k. rewrite JMap.get_delete, S. by case_decide.
Qed.

Lemma known_name n m : known (updateNameLabel n m) = mkKnown (fixName n) (p_health m) (p_dead m).
Proof.
  unfold updateNameLabel. destruct (same_name (p_name m) (fixName n)) eqn:E; [|done]. unfold known. f_equal.
  unfold same_name in E. destruct (p_name m), (fixName n); try done. unfold str_eqb in E.
  apply bool_decide_eq_true in E. by subst.
Qed.

Ltac put_same := eapply puts_same; [by repeat split|].
Ltac put_upd := apply puts_upd; [by intros ?|].

(** Between [mirrors] and the update of one model. *)
Lemma hit_puts dn at_ v i hp c a m :
  JMap.get v (playersById c) = Some a -> puts c c v a m ->
  exists m', puts c (onHitEvent dn at_ v i hp c) v a m' /\
    known m' = if decide (v = me) then mkKnown (p_name m) hp (p_dead m || (hp <=? 0)) else known m.
Proof.
  intros E P. unfold onHitEvent, with_player. rewrite E.
  assert (P1 : puts c (upd_model a onHit c) v a (onHit m)) by (by put_upd). set (c1 := upd_model a onHit c) in *.
  assert (B1 : base c1) by apply P1. rewrite (base_local _ _ B1). pose proof B1 as (_ & _ & L). rewrite L.
  unfold str_eqb. destruct (decide (v = me)) as [Ev|Hne].
  - assert (Ea : JMap.get me (playersById c1) = Some a) by (rewrite <- Ev; apply P1). rewrite Ea, bool_decide_eq_true_2 by done.
    set (f := fun m => set_hp (p_dead m) hp _ (applyKnockback i m)).
    assert (P2 : puts c (showHp hp (upd_model a f c1)) v a (f (onHit m))) by (put_same; by put_upd).
    destruct (hp <=? 0).
    + eexists. split; [put_same; put_upd; exact P2|]. cbn. by rewrite orb_true_r.
    + eexists. split; [exact P2|]. cbn. by rewrite orb_false_r.
  - exists (onHit m). split; [|done]. destruct (JMap.get me _); [|done]. by rewrite bool_decide_eq_false_2.
Qed.

Lemma death_puts v vn an c a m :
  JMap.get v (playersById c) = Some a -> puts c c v a m ->
  exists m', puts c (onDeath toStr v vn an c) v a m' /\ known m' = mkKnown (p_name m) (p_health m) true.
Proof.
  intros E P. unfold onDeath, with_player. rewrite E. cbv zeta.
  set (f := fun m => set_hp true (p_health m) (p_lastHpAt m) m). exists (f m). split; [|done].
  put_same. destruct (model_local a (upd_model a f c)); [put_same|]; by put_upd.
Qed.

Lemma respawn_puts id pos hp c a m :
  JMap.get id (playersById c) = Some a -> puts c c id a m ->
  exists m', puts c (onRespawn id pos hp c) id a m' /\ known m' = mkKnown (p_name m) hp false.
Proof.
  intros E P. unfold onRespawn, with_player. rewrite E. cbv zeta. set (f := fun m => set_visible true _).
  exists (f m). split; [|done]. destruct (model_local a (upd_model a f c)); [put_same|]; by put_upd.
Qed.

(** An update that changes nothing the relation reads. *)
Lemma neutral_mirrors id t c c' :
  (forall a m, JMap.get id (playersById c) = Some a -> puts c c id a m ->
     exists m', puts c c' id a m' /\ known m' = known m) ->
  (JMap.get id (playersById c) = None -> same_tables c c') ->
  mirrors t c -> mirrors t c'.
Proof.
  intros U N Hm. pose proof Hm as (B & _). destruct (entry c id B) as [(a & m & E & _ & P)|[E _]].
  - destruct (U a m E P) as (m' & P' & K). eapply mirrors_view; [apply P'| |exact Hm].
    intros k. destruct (decide (k = id)) as [->|Hk].
    + by rewrite (puts_seen _ _ _ _ _ P'), K, (puts_seen _ _ _ _ _ P).
    + destruct P' as (_ & _ & _ & O). by apply O.
  - apply (mirrors_same t c); auto.
Qed.

Lemma event_mirrors g dn ev t c :
  event_fits t ev -> mirrors t c ->
  mirrors (applyEventToCache ev t) (applyEvent toStr dn (map_event g ev) c).
Proof.
  intros Hf Hm. unfold event_fits in Hf. unfold applyEvent, applyEventToCache, map_event. cbn [ev_body ev_at].
  destruct (ev_body ev) as [p|id n|id n text|id pos rotY vel cr|id o or dir sp|at_ v i hp sh|id n|v vn att an sh r|id pos hp];
    cbn [map_body].
  - destruct Hf as (F1 & F2 & F3). by apply join_mirrors.
  - by apply leave_mirrors.
  - eapply (neutral_mirrors id t c); [| |exact Hm].
    + intros a m E P. rewrite E. eexists. split; [put_same; put_upd; exact P|done].
    + intros E. rewrite E. by repeat split.
  - apply (mirrors_model id _ t c _ (fun v => v)); [done|done| | |done].
    + intros a m E P. unfold with_player. rewrite E. destruct (is_local id c); [by exists m|].
      eexists. split; [by put_upd|done].
    + intros E. unfold with_player. rewrite E. by repeat split.
  - apply (mirrors_same t c); [|done]. destruct (JMap.has _ _); by repeat split.
  - apply (mirrors_model v _ t c _ (fun k => if decide (v = me) then mkKnown (kn_name k) hp (kn_dead k || (hp <=? 0)) else k));
      [done|done|intros a m; apply hit_puts| |].
    + intros E. unfold onHitEvent, with_player. rewrite E. destruct (localPlayer c) as [a|] eqn:El; [|by repeat split].
      destruct Hm as (B & _). rewrite (base_local _ _ B). unfold str_eqb. case_bool_decide as Ev; [|by repeat split].
      exfalso. destruct B as (_ & _ & L). congruence.
    + intros s k Hs [A1 A2]. case_decide as Ev; [|split; [done|intros; done]]. split; [done|].
      intros _. cbn. split; [done|]. destruct (A2 Ev) as [_ ->]. specialize (Hf s Hs). lia.
  - apply (mirrors_model id _ t c _ (fun k => mkKnown (fixName (JStr n)) (kn_hp k) (kn_dead k))); [done|done| | |].
    + intros a m E P. unfold with_player. rewrite E. eexists. split; [apply puts_upd; [apply identity_name|exact P]|].
      apply known_name.
    + intros E. unfold with_player. rewrite E. by repeat split.
    + intros s k Hs [A1 A2]. split; [done|]. intros E. by apply A2.
  - apply (mirrors_model v _ t c _ (fun k => mkKnown (kn_name k) (kn_hp k) true)); [done|done|intros a m; apply death_puts| |].
    + intros E. unfold onDeath, with_player. rewrite E. by repeat split.
    + intros s k Hs [A1 A2]. split; [done|]. intros E. destruct (A2 E) as [-> _]. by rewrite (Hf s Hs).
  - apply (mirrors_model id _ t c _ (fun k => mkKnown (kn_name k) hp false)); [done|done|intros a m; apply respawn_puts| |].
    + intros E. unfold onRespawn, with_player. rewrite E. by repeat split.
    + intros s k Hs [A1 A2]. split; [done|]. intros E. cbn. split; [done|]. symmetry. apply Z.leb_gt. lia.
Qed.

(** *** Batched states *)

Lemma states_mirrors (g : vref -> Vec3) (l : list (PendingState vref)) t c :
  Forall (fun s => is_Some (JMap.get (pd_id s) t)) l -> mirrors t c ->
  mirrors t (foldl (fun c s => applyState s c) c (map (map_pending g) l)).
Proof.
  intros Hl. revert c. induction Hl as [|s l [p Hs] _ IH]; intros c Hm; cbn [map foldl]; [done|]. apply IH.
  unfold applyState. cbn [pd_id map_pending]. destruct (pd_id s) as [|u us] eqn:Eid; [done|]. rewrite <- Eid in *.
  destruct (is_local _ _); [done|].
  apply (neutral_mirrors (pd_id s) t c); [| |exact Hm].
  - intros a m E P. unfold get_or_create. rewrite E. eexists. split; [by put_upd|done].
  - intros E. exfalso. destruct Hm as (_ & _ & _ & A). specialize (A (pd_id s)). rewrite Hs in A. unfold seen in A.
    by rewrite E in A.
Qed.

(** *** Snapshots *)

(** What a snapshot entry should leave behind. *)
Definition fits (snap : PlayerSnapshot Vec3) (v : Known) : Prop :=
  kn_name v = fixName (ps_name snap) /\
  (ps_id snap = me -> kn_hp v = ps_hp snap /\ kn_dead v = (ps_hp snap <=? 0)).

(** The local player's entry is either right or not there yet. *)
Definition local_fits (snap : PlayerSnapshot Vec3) (c : ClientState) : Prop :=
  ps_id snap = me -> match seen c me with Some v => fits snap v | None => 0 < ps_hp snap end.

Lemma hp_puts snap c c1 a m :
  puts c c1 me a m -> exists m', puts c (snapshotHp snap c1) me a m' /\
    p_name m' = p_name m /\ p_dead m' = p_dead m /\ (p_health m' = p_health m \/ p_health m' = ps_hp snap).
Proof.
  intros P. pose proof P as ((_ & _ & L) & E & M & _). unfold snapshotHp, the_model. rewrite L, E, M.
  destruct (_ <=? _); [|exists m; by auto]. eexists. split; [put_same; by put_upd|]. by auto.
Qed.

Lemma ping_puts ping c c1 id a m :
  puts c c1 id a m -> exists m', puts c (snapshotPing ping a c1) id a m' /\ known m' = known m.
Proof.
  intros P. unfold snapshotPing. destruct ping as [ms|]; [|by exists m]. eexists. split; [by put_upd|done].
Qed.

Lemma applySnap_fits snap c :
  base c -> ps_id snap <> [] -> local_fits snap c ->
  base (applySnap snap c) /\ (forall k, k <> ps_id snap -> seen (applySnap snap c) k = seen c k) /\
  exists v, seen (applySnap snap c) (ps_id snap) = Some v /\ fits snap v.
Proof.
  intros B Hne Hl. cut (exists a m, puts c (applySnap snap c) (ps_id snap) a m /\ fits snap (known m)).
  { intros (a & m & P & F). pose proof (puts_seen _ _ _ _ _ P). destruct P as (B' & _ & _ & O). eauto. }
  unfold applySnap. destruct (ps_id snap) as [|u us] eqn:Eid; [done|]. rewrite <- Eid in *. clear Eid.
  rewrite (base_local _ _ B). unfold str_eqb. case_bool_decide as Eme.
  - specialize (Hl Eme). set (c1 := match localPlayer c with Some _ => c | None => _ end).
    assert (exists a m, puts c c1 me a m /\ fits snap (known m)) as (a & m & P & F).
    { subst c1. pose proof B as (_ & _ & L). destruct (entry c me B) as [(a & m & E & M & P)|[E Ns]].
      - rewrite L, E. exists a, m. split; [done|]. by rewrite (puts_seen _ _ _ _ _ P) in Hl.
      - rewrite L, E. destruct (puts_local c snap B Eme) as (a & m & P & _ & K & _); [by rewrite L|].
        exists a, m. split; [done|]. rewrite K. rewrite Ns in Hl. split; [done|]. intros _. cbn.
        split; [done|]. symmetry. apply Z.leb_gt. lia. }
    destruct (hp_puts snap c c1 a m P) as (m1 & P1 & N1 & D1 & K1).
    assert (L1 : localPlayer (snapshotHp snap c1) = Some a) by (pose proof P1 as ((_ & _ & ->) & E & _); exact E).
    rewrite L1. destruct (ping_puts (ps_pingMs snap) c _ me a m1 P1) as (m2 & P2 & K2).
    rewrite Eme. exists a, m2. split; [done|]. rewrite K2. destruct F as [F1 F2]. split; [cbn; by rewrite N1|].
    intros _. destruct (F2 Eme) as [F3 F4]. cbn in *. rewrite D1. split; [destruct K1; congruence|done].
  - assert (exists a m, get_or_create (ps_id snap) (ps_pos snap) (ps_name snap) c =
      (a, snd (get_or_create (ps_id snap) (ps_pos snap) (ps_name snap) c)) /\
      puts c (snd (get_or_create (ps_id snap) (ps_pos snap) (ps_name snap) c)) (ps_id snap) a m) as (a & m & -> & P).
    { unfold get_or_create. destruct (entry c (ps_id snap) B) as [(a & m & E & M & P)|[E _]]; rewrite E.
      - by exists a, m.
      - exists (length (models c)). eexists. split; [done|]. apply (puts_add c (newPlayerModel _ _ _ _ _)); done. }
    set (c1 := snd _) in *. cbv zeta.
    assert (P1 : puts c (upd_model a (setRemoteTarget (ps_pos snap) (ps_rotY snap) (ps_vel snap) (ps_crouch snap)) c1)
      (ps_id snap) a (setRemoteTarget (ps_pos snap) (ps_rotY snap) (ps_vel snap) (ps_crouch snap) m)) by (by put_upd).
    apply (puts_upd _ _ _ _ _ (updateNameLabel (ps_name snap)) (identity_name _)) in P1.
    destruct (ping_puts (ps_pingMs snap) c _ _ _ _ P1) as (m2 & P2 & K2). exists a, m2. split; [exact P2|].
    rewrite K2, known_name. by split.
Qed.

Lemma applySnaps_fits l c :
  base c -> NoDup (map ps_id l) -> Forall (fun s => ps_id s <> []) l -> Forall (fun s => local_fits s c) l ->
  let c' := foldl (fun c snap => applySnap snap c) c l in
  base c' /\ (forall k, k ∉ map ps_id l -> seen c' k = seen c k) /\
  Forall (fun snap => exists v, seen c' (ps_id snap) = Some v /\ fits snap v) l.
Proof.
  revert c. induction l as [|snap l IH]; intros c B Hnd Hne Hl; cbn [map foldl] in *; [split; [done|]; split; [done|constructor]|].
  inversion Hnd as [|? ? Hn Hnd']; subst. inversion Hne as [|? ? Hne1 Hne']; subst. inversion Hl as [|? ? Hl1 Hl']; subst.
  destruct (applySnap_fits snap c B Hne1 Hl1) as (B1 & O1 & v & V1 & F1).
  destruct (IH (applySnap snap c) B1 Hnd' Hne') as (B2 & O2 & F2).
  { apply Forall_forall. intros s Hs E. rewrite Forall_forall in Hl'. specialize (Hl' s Hs E).
    rewrite O1; [exact Hl'|]. intros E'. apply Hn. rewrite <- E', <- E. by apply list_elem_of_fmap_2. }
  split; [done|]. split.
  - intros k Hk. apply not_elem_of_cons in Hk as [Hk1 Hk2]. by rewrite O2, O1.
  - constructor; [|done]. exists v. split; [by rewrite O2|done].
Qed.

Lemma sweep_seen ids ks c :
  base c ->
  let c' := foldl (fun c id =>
    if negb (is_local id c) && negb (existsb (str_eqb id) ids) then removePlayer id c else c) c ks in
  base c' /\ forall k, seen c' k =
    if negb (str_eqb k me) && negb (existsb (str_eqb k) ids) && existsb (str_eqb k) ks then None else seen c k.
Proof.
  revert c. induction ks as [|id ks IH]; intros c B; cbn [foldl existsb]; [split; [done|]; intros k; by rewrite andb_false_r|].
  rewrite (base_local _ _ B).
  set (c1 := if negb (str_eqb id me) && negb (existsb (str_eqb id) ids) then removePlayer id c else c).
  assert (base c1 /\ forall k, seen c1 k =
    if negb (str_eqb k me) && negb (existsb (str_eqb k) ids) && str_eqb k id then None else seen c k) as [B1 S1].
  { subst c1. destruct (negb (str_eqb id me) && negb (existsb (str_eqb id) ids)) eqn:E.
    - pose proof E as [E1 _]%andb_true_iff. unfold str_eqb in E1. apply negb_true_iff, bool_decide_eq_false in E1.
      destruct (remove_seen id c B E1) as [B1 S1]. split; [done|]. intros k. rewrite S1. unfold str_eqb at 3.
      case_decide as Ek; [subst k; by rewrite E, bool_decide_eq_true_2|]. by rewrite bool_decide_eq_false_2, andb_false_r.
    - split; [done|]. intros k. unfold str_eqb at 3. case_bool_decide as Ek; [subst k; by rewrite E|by rewrite andb_false_r]. }
  destruct (IH c1 B1) as [B2 S2]. split; [done|]. intros k. rewrite S2, S1.
  destruct (negb (str_eqb k me) && negb (existsb (str_eqb k) ids)), (str_eqb k id), (existsb (str_eqb k) ks); done.
Qed.

(** A snapshot of the server's table makes the client a replica of it, whatever
    the client's table was before. *)
Lemma snapshot_mirrors (g : vref -> Vec3) t c :
  base c -> keyed t -> (exists s, JMap.get me t = Some s /\ local_fits (map_snap g s) c) ->
  mirrors t (applySnapshot (map (map_snap g) (JMap.values t)) c).
Proof.
  intros B K (sm & Hme & Hl). pose proof K as [W Kk]. set (l := map (map_snap g) (JMap.values t)).
  assert (Hids : map ps_id l = JMap.keys t).
  { subst l. unfold JMap.values, JMap.keys. rewrite !map_map. apply map_ext_in. intros [k s] Hin. cbn.
    apply Kk. apply JMap.elem_of_get; [done|]. by apply list_elem_of_In. }
  assert (Hel : forall x, x ∈ l -> exists k s, JMap.get k t = Some s /\ x = map_snap g s).
  { intros x Hx. subst l. apply list_elem_of_fmap in Hx as (s & -> & Hs). apply list_elem_of_fmap in Hs as ([k s'] & -> & Hin).
    exists k, s'. split; [by apply JMap.elem_of_get|done]. }
  destruct (applySnaps_fits l c B) as (B1 & O1 & F1); [by rewrite Hids| | |].
  { apply Forall_forall. intros x Hx. destruct (Hel x Hx) as (k & s & Hk & ->). cbn. destruct (Kk k s Hk) as [-> ?]. done. }
  { apply Forall_forall. intros x Hx E. destruct (Hel x Hx) as (k & s & Hk & ->). cbn in E.
    destruct (Kk k s Hk) as [E' _]. assert (k = me) as -> by congruence. rewrite Hme in Hk. injection Hk as <-. by apply Hl. }
  unfold applySnapshot. set (c1 := foldl (fun c snap => applySnap snap c) c l) in *.
  destruct (sweep_seen (snap_ids l) (JMap.keys (playersById c1)) c1 B1) as [B2 S2].
  assert (Hin : forall k, existsb (str_eqb k) (snap_ids l) = JMap.has k t).
  { intros k. rewrite <- has_keys, <- Hids. unfold snap_ids. apply eq_true_iff_eq. rewrite !existsb_exists.
    setoid_rewrite filter_In. split; [intros (x & [Hx _] & E); eauto|]. intros (x & Hx & E). exists x. split; [|done].
    split; [done|]. rewrite Hids in Hx. apply list_elem_of_In, JMap.has_true in Hx. unfold JMap.has in Hx.
    destruct (JMap.get x t) as [s|] eqn:Es; [|done]. destruct (Kk x s Es) as [_ Hx']. by destruct x. }
  split; [done|]. split; [done|]. split; [by eexists|]. intros k. rewrite S2, Hin, has_keys. unfold JMap.has.
  destruct (JMap.get k t) as [s|] eqn:Es.
  - rewrite andb_false_r. cbn [andb]. destruct (Kk k s Es) as [Eid _].
    assert (Hx : map_snap g s ∈ l).
    { subst l. apply list_elem_of_fmap_2, (list_elem_of_fmap_2 snd t (k, s)). by apply JMap.get_elem_of. }
    rewrite Forall_forall in F1. destruct (F1 _ Hx) as (v & Hv & Fn & Fm). cbn in Hv, Fn, Fm. rewrite Eid in *.
    rewrite Hv. by split.
  - assert (Hk : k <> me) by congruence. unfold str_eqb. rewrite bool_decide_eq_false_2 by done. cbn [negb andb].
    destruct (JMap.get k (playersById c1)) as [a|] eqn:Ea; [done|]. unfold seen. by rewrite Ea.
Qed.

(** *** Both sides in step *)

(** What the server does to its table and to its clients: it appends an event
    ([appendEventInMem]), sends everyone the table ([startStateSyncOnce]), or
    sends the batched states ([startStateTickOnce]). *)
Inductive Feed :=
| Append (ev : WorldEvent vref)
| Sync (latestSeq : Z)
| Tick (at_ : Z) (states : list (PendingState vref)).

Definition serveTable (t : Table) (f : Feed) : Table :=
  match f with Append ev => applyEventToCache ev t | _ => t end.

Definition message (t : Table) (f : Feed) : ServerMsg vref :=
  match f with
  | Append ev => SEvent ev
  | Sync latestSeq => SSnapshot CONFIG.WORLD (JMap.values t) latestSeq
  | Tick at_ states => SStates at_ states
  end.

Definition feed_fits (t : Table) (f : Feed) : Prop :=
  match f with
  | Append ev => event_fits t ev
  | Sync _ => True
  | Tick _ l => Forall (fun s => is_Some (JMap.get (pd_id s) t)) l
  end.

(** A message on its way: [d_deref] reads the vectors when it is serialised,
    the clock readings are the client's. *)
Record Delivery := mkDelivery { d_feed : Feed; d_deref : vref -> Vec3; d_now : num; d_dateNow : Z }.

Definition deliver (t : Table) (d : Delivery) : ClientEvent :=
  NetMessage (d_now d) (d_dateNow d) (map_msg (d_deref d) (message t (d_feed d))).

Fixpoint in_step (ds : list Delivery) (t : Table) (c : ClientState) : Table * ClientState :=
  match ds with
  | [] => (t, c)
  | d :: ds' => in_step ds' (serveTable t (d_feed d)) (client_step toStr round c (deliver t d))
  end.

Fixpoint all_fit (ds : list Delivery) (t : Table) : Prop :=
  match ds with
  | [] => True
  | d :: ds' => feed_fits t (d_feed d) /\ all_fit ds' (serveTable t (d_feed d))
  end.

Lemma step_mirrors d t c :
  feed_fits t (d_feed d) -> mirrors t c ->
  mirrors (serveTable t (d_feed d)) (client_step toStr round c (deliver t d)).
Proof.
  intros Hf Hm. unfold deliver. destruct (d_feed d) as [ev|n|at_ l]; cbn.
  - by apply event_mirrors.
  - pose proof (mirrors_me _ _ Hm) as Hne. pose proof Hm as (B & K & [s Hs] & A). pose proof B as (_ & E & _).
    rewrite E. destruct me as [|u us] eqn:Eme; [done|]. rewrite <- Eme in *. apply snapshot_mirrors; [done..|].
    exists s. split; [done|]. intros _. specialize (A me). rewrite Hs in A. destruct (seen c me) as [v|]; [|done].
    destruct A as [A1 A2]. split; [done|]. intros _. by apply A2.
  - by apply states_mirrors.
Qed.


End Replica.

(** ** A concrete run *)

Definition rep_snap (id name : jsstr) : PlayerSnapshot vref :=
  mkSnap id (JStr name) (VVal vec_zero) (num_of_Z 0) (VVal vec_zero) 100 false (Some 0) 0 None.

Definition rep_table : Table := [(js "me", rep_snap (js "me") (js "Ann"))].

(** Somebody joins, is renamed, hits the local player twice, kills it, it
    respawns, a snapshot arrives and the other one leaves. *)
Definition rep_feeds : list Feed :=
  [Append (mkEvent 1 1 (EvJoin (rep_snap (js "bob") (js "Bob"))));
   Append (mkEvent 2 2 (EvRename (js "bob") (js "Bobby")));
   Append (mkEvent 3 3 (EvHit (js "bob") (js "me") (VVal vec_zero) 50 (js "s1")));
   Append (mkEvent 4 4 (EvHit (js "bob") (js "me") (VVal vec_zero) 0 (js "s2")));
   Append (mkEvent 5 5 (EvDeath (js "me") (JStr (js "Ann")) (js "bob") (JStr (js "Bobby")) (js "s2") 3000));
   Append (mkEvent 6 6 (EvRespawn (js "me") (VVal vec_zero) 100));
   Sync 6;
   Tick 7 [mkPending (js "bob") (VVal vec_zero) (num_of_Z 0) (VVal vec_zero) false 7 None];
   Append (mkEvent 7 8 (EvLeave (js "bob") (JStr (js "Bobby"))))].

Definition plain_deref (v : vref) : Vec3 := match v with VVal x => x | _ => vec_zero end.

Definition rep_deliveries : list Delivery :=
  map (fun f => mkDelivery f plain_deref (num_of_Z 0) 0) rep_feeds.

