(* ===== verification/EndToEnd.v ===== *)
(** * Client and server together

    What the two sides agree on, and a run of both: the messages the server
    model hands to a socket are fed to the client model. *)

From S2P Require Import Prelude JsMap JsNum JsString JsValue Async Config Protocol ServerUtils.
From S2P Require Import Storage World Concrete State Game Bot Ws Scenario.
From S2P Require Import ClientUtils ClientPlayer ClientNet ClientThms.

Section Agreement.
Context `{Runtime} `{JsMath} `{!Three} (toStr : jsval -> jsstr) (round : num -> num).


End Agreement.

(** ** A reconnection *)

(** A player joins, loses the connection, and joins again on a new one. *)
Definition rejoin : list (choice ServerEvent) :=
  [Start Connect; says 0 "hello-alice"] ++ resumes 5 ++
  [Start (Delivered 0); Start (Delivered 0); Start (Close 0)] ++ resumes 3 ++
  [Start Connect; says 1 "hello-alice"] ++ resumes 5 ++
  [Start (Delivered 0); Start (Delivered 0)].

(** What the server sent on socket [i]. *)
Definition sent_on (i : nat) (s : sys World) : list (ServerMsg Vec3) :=
  match sockets (sys_world s) !! i with Some k => s_sent k | None => [] end.

(** The client's side of it: the messages of each connection in order. *)
Definition client_events (s : sys World) : list ClientEvent :=
  let msg := NetMessage (num_of_Z 5000) 1000000 in
  [NetConnect (str "Alice"); NetOpen 0 (num_of_Z 1000) 1000000] ++ map msg (sent_on 0 s) ++
  [NetClose 0; NetReconnect; NetOpen 1 (num_of_Z 3000) 1000000] ++ map msg (sent_on 1 s).

Definition plain_str (v : jsval) : jsstr := match v with JStr s => s | _ => [] end.

Definition client_of (s : sys World) : ClientState :=
  client_run plain_str (fun x => x) (client_events s).

(** The models in [l] with the id [k]. *)
Definition with_id (k : jsstr) (c : ClientState) (l : list nat) : list nat :=
  List.filter (fun a => match models c !! a with
                        | Some m => str_eqb (ClientPlayer.p_id m) k
                        | None => false
                        end) l.

Definition twin_check (s : sys World) : bool :=
  let c := client_of s in
  bool_decide (localPlayerId c = Some (uuid_of 1)) &&
  bool_decide (length (with_id (uuid_of 1) c (players c)) = 2%nat) &&
  bool_decide (length (with_id (uuid_of 1) c (inScene c)) = 2%nat) &&
  bool_decide (JMap.get (uuid_of 1) (playersById c) = localPlayer c).

